(* ===== verification/_CoqProject ===== *)
-Q . S2P
Prelude.v
StringLib.v
RingBuffer.v
Lru.v
DedupCache.v
StateCache.v
EventStore.v
Floats.v
CoOccurrence.v
Wal.v
WalRecovery.v
WalTheorems.v
Metadata.v
FilterParser.v
Command.v
WalCodec.v
Distance.v
VectorStore.v
WalCheckpoint.v
SimilarityResult.v
ResultCompressor.v
Md5.v
CacheKeys.v
SimilarityCache.v
QueryResults.v
Dispatcher.v
CommandParser.v
NetworkUtils.v
ConnectionAcceptor.v
ConnectionAccounting.v
Selection.v
IvfIndex.v
HnswIndex.v
HnswTheorems.v
SimilarityEngine.v
EngineTheorems.v
HnswAdapter.v
IvfAdapter.v
ThreadPool.v
ConnectionIo.v
ReactorConnection.v
SnapshotFormat.v
SnapshotReaders.v
SnapshotTheorems.v
SnapshotFile.v
SnapshotLifecycle.v
SnapshotSafety.v
Durability.v
CrashRecovery.v
