(* ===== verification/Prelude.v ===== *)
(** * nvecd: a verified model

    nvecd (src/) is an in-memory similarity-search server in C++.  Clients send
    one-line commands: EVENT feeds a stream of events into per-context ring
    buffers and a co-occurrence index, VECSET, VECDEL and METASET maintain
    vectors and their metadata, SIM and SIMV search.  Writes are logged to a
    write-ahead log before they are applied, snapshots bound the log, query
    results are cached, and background workers decay scores, train the
    approximate index and take snapshots.

    ** Conventions

    Definitions carry the names of the source, a trailing underscore included,
    and are executable.  A [w]-bit integer is a [Z] with its wrap-around
    written out ([u32], [u64], [i32]); a [size_t] that counts objects in memory
    is a [nat].  A [float] or [double] is its bit pattern ([Floats]).  A call
    that returns [utils::Expected] returns [Expected] here.  Objects are
    records passed from call to call; [unordered_map] is [gmap], and where its
    iteration order reaches a result that order is the class [IterOrder].  An
    operation that holds one lock throughout is one step; one that releases a
    lock in between is split there, and the theorems quantify over what other
    threads do between the steps.  A system call consumes one outcome of an
    oracle, so a theorem about the disk holds whichever call fails.

    ** Files

    Shared: [Prelude] (this file: integers, errors, list and map lemmas,
    tactics, hints), [StringLib] (std::string), [Floats] (IEEE-754),
    [Lru] (list plus map recency order of three caches), [Selection] (bounded
    min-heap and reservoir sampling of the searches).

    Events, src/events/: [RingBuffer] (ring_buffer.h), [DedupCache],
    [StateCache] and [EventStore] (same names), [CoOccurrence]
    (co_occurrence_index.cpp).

    Storage, src/storage/: [Wal], [WalRecovery] and [WalTheorems] (wal.cpp:
    operations, representation on disk, properties), [WalCheckpoint]
    (wal_checkpoint.cpp).

    Vectors, src/vectors/: [Metadata] (metadata*.cpp), [Distance]
    (distance*.h), [VectorStore] (vector_store.cpp), [IvfIndex]
    (ivf_index.cpp), [IvfAdapter] (ivf_ann_adapter.h).

    Search, src/similarity/ and src/cache/: [SimilarityResult],
    [SimilarityEngine] and [EngineTheorems] (similarity_engine.cpp),
    [ResultCompressor], [Md5], [CacheKeys], [SimilarityCache].

    Server, src/server/: [Command] (command_types.h), [CommandParser],
    [FilterParser], [WalCodec], [QueryResults] (rendering and filtering of
    results), [Dispatcher] (request_dispatcher.cpp), [Durability] (its writes
    and its log), [CrashRecovery] (the startup of nvecd_server.cpp).

    ** How the parts interact

    [CommandParser.ParseCommand] turns a line into a [Command].
    [Dispatcher.DispatchCommand] checks authentication and the gates, then runs
    the handler.  A write handler previews the event ([EventStore.PrepareEvent]),
    encodes the command ([WalCodec.EncodeCommand]), appends it to the log, and
    then applies it to the stores.  The dispatcher sees the log, the engine and
    the administrative commands through the classes [AppendLog], [Engine] and
    [AdminHandlers]; [CrashRecovery] instantiates the first with [Wal],
    [IvfAdapter] the second with [SimilarityEngine], itself a client of the
    class [AnnIndex].  At startup [CrashRecovery.RecoverWal] opens the log and
    replays it through [Dispatcher.ReplayRecord].

    ** What the theorems show

    Durability: whatever system call fails, an acknowledged append is on disk
    and a refused one stops the log ([WalTheorems.append_durable]); opening and
    replaying a crashed directory gives the complete records
    ([open_recovers], [replay_delivers]); truncation and the checkpoint sidecar
    are safe ([truncate_keeps], [checkpoint_atomic]); a write is logged before
    it is applied and exactly once ([Durability.write_ahead]); replaying the
    log of a run gives its stores ([replay_reproduces]); the two compose into
    [CrashRecovery.crash_recovery].

    Stores: representation invariants of every reachable state
    ([event_store_bounded], [vector_store_invariant], [co_index_invariant],
    [similarity_cache_invariant]), refinements of abstract maps and caches
    ([vector_store_refines], [dedup_cache_refines], [state_cache_refines],
    [similarity_cache_refines]), and functional specifications.

    Searches: the event search ends with the first matching neighbors, the
    vector searches are exact without an index, labels of an index are never
    read through another row layout, fusion is the best of the weighted union,
    sealing the IVF buffer loses nothing.

    Protocol: parsers against printers ([parse_print_command],
    [parse_print_filter]), authentication and gates ([dispatch_gates]), codec
    round trips and rejection of cut payloads.

    ** Fuel

    Loops are structural where the code counts, and otherwise carry fuel with a
    theorem that it suffices: the doubling fetches end in [kRounds] = 33 rounds
    because 2^32 exceeds every count, eviction ends in one round per entry, and
    [option] results are proved to be [Some].

    ** Parameters

    Third-party and platform code enters as classes or arguments, with its
    documented behaviour as the only hypotheses: CRC-32 (zlib), LZ4,
    [std::exp2], [strtod] and [std::stof] of a text, the names [mkstemp]
    picks, canonical paths, permission checks, iteration order of hash maps,
    the heap order among equal keys ([MinHeap]), the SIMD kernels
    ([DistanceFunctions]), random numbers and the shuffle of the training, the
    clock.  Every theorem with such a parameter has a witness with a concrete
    one.

    ** Not modelled

    Sockets, epoll and kqueue, HTTP routing and JSON (third-party libraries),
    YAML configuration, the clients, daemonising and signals, structured
    logging, memory accounting.  SIMD intrinsics are instances of
    [DistanceFunctions] that are not given.  The approximate graph of HNSW is
    an instance of [AnnIndex] that is not given; what the engine needs of it is
    the class [AnnContract]. *)

From stdpp Require Export base gmap strings list pretty sorting.
From Stdlib Require Export ZArith Lia.
From Stdlib Require Strings.Byte Strings.Ascii Strings.String.

#[local] Open Scope Z_scope.

(** ** Machine integers

    A [w]-bit unsigned integer is a [Z]; every operation of the code that can
    leave the range is written with the wrap-around of the C++ type. *)

Definition wrap (w : Z) (z : Z) : Z := z mod 2 ^ w.
Definition u8 (z : Z) : Z := wrap 8 z.
Definition u32 (z : Z) : Z := wrap 32 z.
Definition u64 (z : Z) : Z := wrap 64 z.
Definition u64_max : Z := 2 ^ 64 - 1.
Definition u32_max : Z := 2 ^ 32 - 1.

(** Two's complement reading of the low [w] bits. *)
Definition sint (w : Z) (z : Z) : Z :=
  let r := wrap w z in if r <? 2 ^ (w - 1) then r else r - 2 ^ w.
Definition i32 (z : Z) : Z := sint 32 z.
Definition i64 (z : Z) : Z := sint 64 z.

Definition in_u (w : Z) (z : Z) : Prop := 0 ≤ z < 2 ^ w.
Definition in_s (w : Z) (z : Z) : Prop := - 2 ^ (w - 1) ≤ z < 2 ^ (w - 1).

#[export] Instance in_u_dec w z : Decision (in_u w z).
Proof. unfold in_u; apply _. Defined.
#[export] Instance in_s_dec w z : Decision (in_s w z).
Proof. unfold in_s; apply _. Defined.

Lemma wrap_in_u w z : 0 ≤ w → in_u w (wrap w z).
Proof. intros; apply Z.mod_pos_bound; lia. Qed.

Lemma wrap_small w z : in_u w z → wrap w z = z.
Proof. apply Z.mod_small. Qed.

Lemma sint_wrap w z : 0 < w → in_s w z → sint w (wrap w z) = z.
Proof.
  unfold in_s, sint, wrap. intros Hw [Hl Hu].
  assert (Hp : 2 ^ w = 2 * 2 ^ (w - 1))
    by (rewrite <- Z.pow_succ_r by lia; f_equal; lia).
  assert (0 < 2 ^ (w - 1)) by lia.
  rewrite Z.mod_mod by lia.
  destruct (Z_lt_le_dec z 0).
  - rewrite <- (Z.mod_unique z (2 ^ w) (-1) (z + 2 ^ w)) by lia.
    destruct (Z.ltb_spec (z + 2 ^ w) (2 ^ (w - 1))); lia.
  - rewrite Z.mod_small by lia.
    destruct (Z.ltb_spec z (2 ^ (w - 1))); lia.
Qed.

(** ** Errors: [utils::Error], [utils::Expected] *)

(** The [ErrorCode] enumerators the modelled code returns. *)
Inductive ErrorCode : Type :=
| kInvalidArgument | kInternalError
| kEventStoreError | kEventInvalidScore | kEventDecayFailed
| kCommandSyntaxError | kCommandInvalidArgument | kCommandUnknown
| kCommandInvalidTopK | kCommandInvalidVector | kCommandParseError
| kCommandMissingArgument | kCommandInvalidMode | kCommandTooLong
| kVectorDimensionMismatch | kVectorNotFound | kVectorInvalidDimension
| kVectorStoreFull | kVectorStoreError
| kSimilarityInvalidMode | kSimilaritySearchFailed
| kStorageWriteError | kStorageCorrupted | kStorageInvalidFormat
| kStorageDumpReadError | kStorageDumpWriteError | kPermissionDenied
| kSnapshotAlreadyInProgress | kSnapshotForkFailed | kSnapshotSaveFailed
| kSnapshotLoadFailed | kSnapshotVerifyFailed | kSnapshotInfoFailed
| kWalWriteError | kWalReadError | kWalCorrupted | kWalRotationFailed
| kWalTruncateFailed | kWalNotOpen
| kCacheCompressionFailed | kCacheDecompressionFailed.

#[export] Instance ErrorCode_eq_dec : EqDecision ErrorCode.
Proof. solve_decision. Defined.

Record Error : Type := MakeError { code : ErrorCode; message : string }.

#[export] Instance Error_eq_dec : EqDecision Error.
Proof. solve_decision. Defined.

Inductive Expected (A : Type) : Type :=
| Ok (a : A)
| Unexpected (e : Error).
Arguments Ok {A} a.
Arguments Unexpected {A} e.

#[export] Instance Expected_eq_dec `{EqDecision A} : EqDecision (Expected A).
Proof. solve_decision. Defined.

Definition is_ok {A} (r : Expected A) : bool :=
  match r with Ok _ => true | Unexpected _ => false end.

Definition expected_bind {A B} (r : Expected A) (k : A → Expected B) : Expected B :=
  match r with Ok a => k a | Unexpected e => Unexpected e end.

Declare Scope nvecd_scope.
Delimit Scope nvecd_scope with nvecd.
Notation "'let?' x := e 'in' k" :=
  (expected_bind e (λ x, k)) (at level 10, x name, e at level 100, k at level 200) : nvecd_scope.
Notation "'throw' c m" := (Unexpected (MakeError c m)) (at level 10, c at level 9, m at level 9) : nvecd_scope.
Open Scope nvecd_scope.

(** ** A state and error monad

    A method that mutates its object and may fail: the state reached is kept
    when an error is returned. *)

Definition SE (S A : Type) : Type := S → Expected A * S.
Definition se_ret {S A} (a : A) : SE S A := λ s, (Ok a, s).
Definition se_bind {S A B} (e : SE S A) (k : A → SE S B) : SE S B := λ s,
  match e s with
  | (Ok a, s') => k a s'
  | (Unexpected err, s') => (Unexpected err, s')
  end.
Definition se_throw {S A} (c : ErrorCode) (m : string) : SE S A := λ s, (Unexpected (MakeError c m), s).
Definition se_get {S} : SE S S := λ s, (Ok s, s).
Definition se_put {S} (f : S → S) : SE S unit := λ s, (Ok tt, f s).
Definition se_lift {S A} (r : Expected A) : SE S A := λ s, (r, s).
(** Run [f] on the state when [e] fails. *)
Definition se_cleanup {S A} (e : SE S A) (f : S → S) : SE S A := λ s,
  match e s with
  | (Ok a, s') => (Ok a, s')
  | (Unexpected err, s') => (Unexpected err, f s')
  end.

Notation "'let!' x := e 'in' k" :=
  (se_bind e (λ x, k)) (at level 10, x name, e at level 100, k at level 200) : nvecd_scope.
Notation "'let!' ' x := e 'in' k" :=
  (se_bind e (λ x, k)) (at level 10, x strict pattern, e at level 100, k at level 200) : nvecd_scope.
Notation "e ';!' k" :=
  (se_bind e (λ _ : unit, k)) (at level 100, k at level 200, right associativity) : nvecd_scope.

(** ** Iteration order of [std::unordered_map]

    The code iterates over hash maps; the order is unspecified.  It is an
    argument of every definition that depends on it. *)

Class IterOrder : Type := {
  iter_order : ∀ {K A : Type} `{Countable K}, gmap K A → list (K * A);
  iter_order_perm : ∀ {K A : Type} `{Countable K} (m : gmap K A),
    iter_order m ≡ₚ map_to_list m
}.

(** One admissible order, used by the concrete evaluations. *)
Definition tree_order : IterOrder :=
  {| iter_order := λ K A _ _ m, map_to_list m;
     iter_order_perm := λ K A _ _ m, Permutation_refl _ |}.

Section iter_order.
Context `{IterOrder} `{Countable K} {A : Type}.
Implicit Types m : gmap K A.

Lemma elem_of_iter_order m i x : (i, x) ∈ iter_order m ↔ m !! i = Some x.
Proof. rewrite iter_order_perm. apply elem_of_map_to_list. Qed.

Lemma NoDup_fst_iter_order m : NoDup (iter_order m).*1.
Proof. rewrite iter_order_perm. apply NoDup_fst_map_to_list. Qed.

Lemma length_iter_order m : length (iter_order m) = size m.
Proof. rewrite iter_order_perm. apply length_map_to_list. Qed.
End iter_order.

(** ** Bytes *)

Abbreviation byte := Byte.byte.

#[export] Instance byte_eq_dec : EqDecision byte := Byte.byte_eq_dec.

Definition Z_of_byte (b : byte) : Z := Z.of_N (Byte.to_N b).
Definition byte_of_Z (z : Z) : byte :=
  match Byte.of_N (Z.to_N (z mod 256)) with Some b => b | None => Byte.x00 end.

Lemma Z_of_byte_range b : 0 ≤ Z_of_byte b < 256.
Proof. destruct b; vm_compute; split; congruence || reflexivity. Qed.

Lemma byte_of_Z_of_byte b : byte_of_Z (Z_of_byte b) = b.
Proof. destruct b; reflexivity. Qed.

Lemma Z_of_byte_of_Z z : Z_of_byte (byte_of_Z z) = z mod 256.
Proof.
  unfold Z_of_byte, byte_of_Z.
  pose proof (Z.mod_pos_bound z 256 ltac:(lia)).
  destruct (Byte.of_N _) as [b|] eqn:E.
  - apply Byte.to_of_N in E. rewrite E. lia.
  - apply Byte.of_N_None_iff in E. lia.
Qed.

(** Little-endian encoding of the low [8 * n] bits, and its reading. *)
Fixpoint le_bytes (n : nat) (v : Z) : list byte :=
  match n with
  | O => []
  | S n' => byte_of_Z v :: le_bytes n' (v / 256)
  end.

Fixpoint le_value (bs : list byte) : Z :=
  match bs with
  | [] => 0
  | b :: bs' => Z_of_byte b + 256 * le_value bs'
  end.

Lemma length_le_bytes n v : length (le_bytes n v) = n.
Proof. revert v; induction n; intros; simpl; auto. Qed.

Lemma le_value_range bs : 0 ≤ le_value bs < 2 ^ (8 * Z.of_nat (length bs)).
Proof.
  induction bs as [|b bs IH]; cbn [le_value length]; [vm_compute; split; congruence|].
  pose proof (Z_of_byte_range b).
  rewrite Nat2Z.inj_succ.
  replace (8 * Z.succ (Z.of_nat (length bs))) with (8 + 8 * Z.of_nat (length bs)) by lia.
  rewrite Z.pow_add_r by lia. change (2 ^ 8) with 256. lia.
Qed.

Lemma le_value_bytes n v : le_value (le_bytes n v) = wrap (8 * Z.of_nat n) v.
Proof.
  unfold wrap. revert v; induction n as [|n IH]; intros v; cbn [le_bytes le_value].
  - change (2 ^ (8 * Z.of_nat 0)) with 1. rewrite Z.mod_1_r. done.
  - rewrite Z_of_byte_of_Z, IH, Nat2Z.inj_succ.
    replace (8 * Z.succ (Z.of_nat n)) with (8 + 8 * Z.of_nat n) by lia.
    rewrite Z.pow_add_r by lia. change (2 ^ 8) with 256.
    rewrite Z.rem_mul_r by lia. done.
Qed.

Lemma le_value_bytes_small n v :
  in_u (8 * Z.of_nat n) v → le_value (le_bytes n v) = v.
Proof. intros. rewrite le_value_bytes. by apply wrap_small. Qed.

Lemma le_bytes_value bs : le_bytes (length bs) (le_value bs) = bs.
Proof.
  induction bs as [|b bs IH]; cbn [length le_bytes le_value]; [done|].
  pose proof (Z_of_byte_range b).
  rewrite (Z.mul_comm 256), Z.div_add, Z.div_small, Z.add_0_l, IH by lia.
  f_equal. rewrite <- (byte_of_Z_of_byte b) at 2.
  unfold byte_of_Z. by rewrite Z.mod_add by lia.
Qed.

Lemma le_value_inj bs1 bs2 :
  length bs1 = length bs2 → le_value bs1 = le_value bs2 → bs1 = bs2.
Proof.
  intros Hl Hv. rewrite <- (le_bytes_value bs1), <- (le_bytes_value bs2). congruence.
Qed.

(** The bytes of a [std::string]. *)
Definition bytes_of_string (s : string) : list byte := String.list_byte_of_string s.
Definition string_of_bytes (bs : list byte) : string := String.string_of_list_byte bs.

Lemma string_of_bytes_of_string s : string_of_bytes (bytes_of_string s) = s.
Proof. apply String.string_of_list_byte_of_string. Qed.
Lemma bytes_of_string_of_bytes bs : bytes_of_string (string_of_bytes bs) = bs.
Proof. apply String.list_byte_of_string_of_list_byte. Qed.
Lemma length_bytes_of_string s : length (bytes_of_string s) = String.length s.
Proof. induction s as [|c s IH]; [done|]. cbn. by rewrite <- IH. Qed.

Create HintDb nvecd.
Create Rewrite HintDb nvecd_bytes.
#[export] Hint Rewrite length_le_bytes le_value_bytes string_of_bytes_of_string
  bytes_of_string_of_bytes : nvecd_bytes.

(** ** Lists *)

Lemma filter_id {A} (P : A → Prop) `{∀ x, Decision (P x)} (l : list A) :
  (∀ x, x ∈ l → P x) → filter P l = l.
Proof.
  induction l as [|x l IH]; intros Hl; [done|].
  rewrite filter_cons_True by (apply Hl; left). f_equal. apply IH.
  intros y Hy. apply Hl. by right.
Qed.

Lemma filter_none {A} (P : A → Prop) `{∀ x, Decision (P x)} (l : list A) :
  (∀ x, x ∈ l → ¬ P x) → filter P l = [].
Proof.
  induction l as [|x l IH]; intros Hl; [done|].
  rewrite filter_cons_False by (apply Hl; left). apply IH.
  intros y Hy. apply Hl. by right.
Qed.

(** ** Finite maps *)

Lemma size_delete_le `{Countable K} {A} (m : gmap K A) k : (size (delete k m) ≤ size m)%nat.
Proof. rewrite map_size_delete. destruct (m !! k); simpl; unfold id; lia. Qed.

Lemma size_delete_Some `{Countable K} {A} (m : gmap K A) k :
  is_Some (m !! k) → S (size (delete k m)) = size m.
Proof.
  intros [x Hx]. rewrite map_size_delete, Hx.
  assert (size m ≠ 0%nat); [|lia]. intros Hz%map_size_empty_inv. by rewrite Hz in Hx.
Qed.

(** ** [std::sort]

    Any result of [std::sort] is the stable sort of some permutation of its
    input; with the iteration order a parameter, the stable insertion sort
    models it.  [comp a b] is the C++ comparator "a before b". *)

Definition comp_le {A} (comp : A → A → bool) (a b : A) : Prop := comp b a = false.

Fixpoint sort_insert {A} (comp : A → A → bool) (x : A) (l : list A) : list A :=
  match l with
  | [] => [x]
  | y :: l' => if comp y x then y :: sort_insert comp x l' else x :: y :: l'
  end.

Definition std_sort {A} (comp : A → A → bool) (l : list A) : list A :=
  foldr (sort_insert comp) [] l.

Section std_sort.
Context {A : Type} (comp : A → A → bool) (P : A → Prop).

Lemma sort_insert_perm x l : sort_insert comp x l ≡ₚ x :: l.
Proof.
  induction l as [|y l IH]; simpl; [done|]. case_match; [|done].
  rewrite IH. apply Permutation_swap.
Qed.

Lemma std_sort_perm l : std_sort comp l ≡ₚ l.
Proof. induction l as [|x l IH]; simpl; [done|]. by rewrite sort_insert_perm, IH. Qed.

(** The comparator is a strict weak order on the elements that satisfy [P]. *)
Hypothesis comp_asym : ∀ a b, P a → P b → comp a b = true → comp b a = false.
Hypothesis comp_trans : ∀ a b c, P a → P b → P c →
  comp b a = false → comp c b = false → comp c a = false.

Lemma sort_insert_sorted x l :
  P x → Forall P l → StronglySorted (comp_le comp) l →
  StronglySorted (comp_le comp) (sort_insert comp x l).
Proof.
  intros Hx HP HS. induction HS as [|y l HS IH HF]; simpl; [by repeat constructor|].
  apply Forall_cons in HP as [Hy HP]. destruct (comp y x) eqn:E.
  - constructor; [by apply IH|]. rewrite sort_insert_perm. constructor; [|done].
    by apply comp_asym.
  - constructor; [by constructor|]. constructor; [done|].
    rewrite Forall_forall in HF, HP. apply Forall_forall. intros z Hz.
    unfold comp_le in *. eauto.
Qed.

Lemma std_sort_sorted l : Forall P l → StronglySorted (comp_le comp) (std_sort comp l).
Proof.
  induction 1 as [|x l Hx HP IH]; simpl; [constructor|].
  apply sort_insert_sorted; [done| |done]. by rewrite std_sort_perm.
Qed.
End std_sort.

Lemma StronglySorted_take {A} (R : A → A → Prop) n l :
  StronglySorted R l → StronglySorted R (take n l).
Proof.
  intros HS. rewrite <- (take_drop n l) in HS. by eapply StronglySorted_app_1_l.
Qed.

Lemma StronglySorted_weaken {A} (R R' : A → A → Prop) l :
  (∀ a b, R a b → R' a b) → StronglySorted R l → StronglySorted R' l.
Proof.
  intros HR. induction 1; constructor; [done|]. by eapply Forall_impl; [|intros; apply HR].
Qed.
