(* ===== verification/StringLib.v ===== *)
(** * Strings: the [std::string] operations and their lemmas

    What the parsers and key generators use of [std::string], on Rocq strings. *)

From Stdlib Require Import Strings.Ascii.
From S2P Require Import Prelude.
#[local] Open Scope Z_scope.

(** ** Operations *)

Fixpoint str_take (n : nat) (s : string) : string :=
  match n, s with S n', String c s' => String c (str_take n' s') | _, _ => "" end.
Fixpoint str_drop (n : nat) (s : string) : string :=
  match n, s with O, _ => s | S n', String _ s' => str_drop n' s' | S _, "" => "" end.

(** [s.find(t)]. *)
Fixpoint find_sub (t s : string) : option nat :=
  if String.prefix t s then Some 0%nat
  else match s with "" => None | String _ s' => S <$> find_sub t s' end.

Fixpoint str_all (P : Ascii.ascii → bool) (s : string) : bool :=
  match s with "" => true | String c s' => P c && str_all P s' end.

(** The pieces between occurrences of [c]; at least one. *)
Fixpoint split_on (c : Ascii.ascii) (s : string) : list string :=
  match s with
  | "" => [""]
  | String a s' =>
      if Ascii.eqb a c then "" :: split_on c s'
      else match split_on c s' with
           | p :: ps => String a p :: ps
           | [] => [String a ""]
           end
  end.

Fixpoint str_back (s : string) : option Ascii.ascii :=
  match s with
  | "" => None
  | String c "" => Some c
  | String _ s' => str_back s'
  end.

(** ** Lemmas *)

Lemma app_cons c s t : String c s +:+ t = String c (s +:+ t).
Proof. reflexivity. Qed.
Lemma app_nil s : "" +:+ s = s.
Proof. reflexivity. Qed.

Lemma str_take_app s t : str_take (String.length s) (s +:+ t) = s.
Proof. induction s as [|c s IH]; [by destruct t|]. rewrite app_cons. cbn. by rewrite IH. Qed.

Lemma str_drop_app s t : str_drop (String.length s) (s +:+ t) = t.
Proof. induction s as [|c s IH]; [by destruct t|]. rewrite app_cons. cbn. apply IH. Qed.

Lemma length_str_app s t : String.length (s +:+ t) = (String.length s + String.length t)%nat.
Proof. induction s as [|c s IH]; [done|]. rewrite app_cons. cbn. by rewrite IH. Qed.

Lemma str_app_assoc s t u : (s +:+ t) +:+ u = s +:+ (t +:+ u).
Proof. induction s as [|c s IH]; [done|]. rewrite !app_cons. by rewrite IH. Qed.

Lemma longer_string s t : t ≠ "" → s +:+ t ≠ s.
Proof.
  intros Ht E. apply (f_equal String.length) in E. rewrite length_str_app in E.
  destruct t; [done|]. cbn in E. lia.
Qed.

Lemma str_app_nil s : s +:+ "" = s.
Proof. induction s as [|c s IH]; [done|]. rewrite app_cons. by rewrite IH. Qed.

Lemma str_app_inj s t t' : s +:+ t = s +:+ t' → t = t'.
Proof. induction s as [|c s IH]; [done|]. rewrite !app_cons. intros [= E]. by apply IH. Qed.

Lemma str_all_app P s t : str_all P (s +:+ t) = str_all P s && str_all P t.
Proof. induction s as [|c s IH]; [done|]. rewrite app_cons. cbn. by rewrite IH, andb_assoc. Qed.

(** Strings without the character [c]. *)
Definition str_free (c : Ascii.ascii) (s : string) : Prop := str_all (λ a, negb (Ascii.eqb a c)) s = true.

(** The tail of a field: nothing, or a separator and more. *)
Definition at_separator (c : Ascii.ascii) (t : string) : Prop :=
  match t with "" => True | String a _ => a = c end.

(** A field that is free of the separator ends at its first occurrence. *)
Lemma str_field_inj c s s' t t' :
  str_free c s → str_free c s' → at_separator c t → at_separator c t' →
  s +:+ t = s' +:+ t' → s = s' ∧ t = t'.
Proof.
  unfold str_free. revert s'. induction s as [|a s IH]; intros [|a' s']; rewrite ?app_nil, ?app_cons; cbn [str_all].
  - done.
  - intros _ [Ha _]%andb_true_iff Ht _ ->. cbn in Ht. subst. by rewrite Ascii.eqb_refl in Ha.
  - intros [Ha _]%andb_true_iff _ _ Ht' <-. cbn in Ht'. subst. by rewrite Ascii.eqb_refl in Ha.
  - intros [_ Hs]%andb_true_iff [_ Hs']%andb_true_iff Ht Ht' [= -> E].
    destruct (IH s' Hs Hs' Ht Ht' E) as [-> ->]. done.
Qed.

(** ** Decimal numbers *)

Lemma pretty_N_go_free c x s :
  str_all (λ a, negb (Ascii.eqb a c)) "0123456789" = true → str_free c s → str_free c (pretty_N_go x s).
Proof.
  intros Hc. revert s. induction (N.lt_wf_0 x) as [x _ IH]. intros s Hs.
  destruct (decide (x = 0)%N) as [->|Hx]; [by rewrite pretty_N_go_0|].
  rewrite pretty_N_go_step by lia. apply IH; [apply N.div_lt; lia|].
  unfold str_free. cbn [str_all]. apply andb_true_iff. split; [|done].
  cbn [str_all] in Hc. rewrite !andb_true_iff in Hc.
  pose proof (N.mod_lt x 10 ltac:(lia)) as Hm. revert Hm. generalize (x mod 10)%N. intros d Hd.
  assert (d = 0 ∨ d = 1 ∨ d = 2 ∨ d = 3 ∨ d = 4 ∨ d = 5 ∨ d = 6 ∨ d = 7 ∨ d = 8 ∨ d = 9)%N as Hcases by lia.
  destruct Hcases as [->|[->|[->|[->|[->|[->|[->|[->|[->| ->]]]]]]]]]; cbn; tauto.
Qed.

Lemma pretty_N_free c (x : N) :
  str_all (λ a, negb (Ascii.eqb a c)) "0123456789" = true → str_free c (pretty x).
Proof.
  intros Hc. unfold pretty, pretty_N. case_decide; [|by apply pretty_N_go_free].
  unfold str_free. cbn [str_all] in *. rewrite !andb_true_iff in *. tauto.
Qed.

Lemma pretty_Z_free c (z : Z) :
  str_all (λ a, negb (Ascii.eqb a c)) "-0123456789" = true → str_free c (pretty z).
Proof.
  intros Hc. cbn [str_all] in Hc. apply andb_true_iff in Hc as [Hdash Hc].
  destruct z as [|p|p]; unfold pretty, pretty_Z.
  - unfold str_free. cbn [str_all]. rewrite !andb_true_iff in *. tauto.
  - by apply pretty_N_free.
  - unfold str_free. rewrite app_cons. cbn [str_all]. rewrite Hdash. by apply pretty_N_free.
Qed.

(** ** The order of [std::string] *)

(** Lexicographic on bytes. *)
Fixpoint string_ltb (a b : string) : bool :=
  match a, b with
  | _, EmptyString => false
  | EmptyString, String _ _ => true
  | String x a', String y b' =>
      let x := Ascii.N_of_ascii x in let y := Ascii.N_of_ascii y in
      (x <? y)%N || ((x =? y)%N && string_ltb a' b')
  end.

Lemma string_ltb_irrefl a : string_ltb a a = false.
Proof.
  induction a as [|x a IH]; [done|]. cbn. by rewrite N.ltb_irrefl, N.eqb_refl, IH.
Qed.

Lemma N_of_ascii_inj x y : Ascii.N_of_ascii x = Ascii.N_of_ascii y → x = y.
Proof. intros E. by rewrite <- (Ascii.ascii_N_embedding x), E, Ascii.ascii_N_embedding. Qed.

Lemma string_ltb_trichotomy a b : string_ltb a b = true ∨ a = b ∨ string_ltb b a = true.
Proof.
  revert b. induction a as [|x a IH]; intros [|y b]; cbn; auto.
  destruct (N.ltb_spec (Ascii.N_of_ascii x) (Ascii.N_of_ascii y)); [by left|].
  destruct (N.ltb_spec (Ascii.N_of_ascii y) (Ascii.N_of_ascii x)); [by right; right|].
  assert (E : Ascii.N_of_ascii x = Ascii.N_of_ascii y) by lia. rewrite E, N.eqb_refl. cbn.
  apply N_of_ascii_inj in E as ->. destruct (IH b) as [?|[->|?]]; auto.
Qed.

Lemma string_ltb_trans a b c : string_ltb a b = true → string_ltb b c = true → string_ltb a c = true.
Proof.
  revert b c. induction a as [|x a IH]; intros [|y b] [|z c]; cbn; try done.
  rewrite !orb_true_iff, !andb_true_iff, !N.ltb_lt, !N.eqb_eq.
  intros [?|[? ?]] [?|[? ?]]; [left; lia..|]. right. split; [lia|]. by eapply IH.
Qed.

Lemma string_ltb_asym a b : string_ltb a b = true → string_ltb b a = false.
Proof.
  intros H. destruct (string_ltb b a) eqn:E; [|done]. by rewrite <- (string_ltb_irrefl a), (string_ltb_trans _ _ _ H E).
Qed.

Lemma string_ltb_trans_neg a b c : string_ltb b a = false → string_ltb c b = false → string_ltb c a = false.
Proof.
  intros H1 H2. destruct (string_ltb_trichotomy a b) as [H|[->|H]]; [|done|congruence].
  destruct (string_ltb_trichotomy b c) as [H'|[->|H']]; [|done|congruence].
  apply string_ltb_asym. by eapply string_ltb_trans.
Qed.

(** ** Searching for a character *)

Lemma prefix_char c a s : String.prefix (String c "") (String a s) = Ascii.eqb a c.
Proof.
  cbn [String.prefix]. destruct (Ascii.ascii_dec c a) as [->|Hne]; [by rewrite Ascii.eqb_refl; destruct s|].
  symmetry. apply Ascii.eqb_neq. congruence.
Qed.

Lemma find_char_Some c s n :
  find_sub (String c "") s = Some n →
  s = str_take n s +:+ String c (str_drop (S n) s) ∧ str_free c (str_take n s).
Proof.
  revert n. induction s as [|a s IH]; intros n; [done|]. cbn [find_sub]. rewrite prefix_char.
  destruct (Ascii.eqb_spec a c) as [->|Hne].
  - intros [= <-]. cbn [str_take str_drop]. split; [by rewrite app_nil|done].
  - destruct (find_sub (String c "") s) as [m|] eqn:E; [|done]. intros [= <-]. destruct (IH m eq_refl) as [IH1 IH2].
    cbn [str_take]. rewrite app_cons. split; [f_equal; exact IH1|]. unfold str_free. cbn [str_all].
    rewrite (proj2 (Ascii.eqb_neq a c)) by done. exact IH2.
Qed.

Lemma find_char_first c s t : str_free c s → find_sub (String c "") (s +:+ String c t) = Some (String.length s).
Proof.
  unfold str_free. induction s as [|a s IH]; cbn [str_all].
  - intros _. rewrite app_nil. cbn [find_sub]. by rewrite prefix_char, Ascii.eqb_refl.
  - rewrite andb_true_iff. intros [Ha Hs]. rewrite app_cons. cbn [find_sub]. rewrite prefix_char.
    apply negb_true_iff in Ha. rewrite Ha, IH by done. done.
Qed.
