(* ===== verification/RingBuffer.v ===== *)
(** * [events::RingBuffer<T>] (src/events/ring_buffer.h)

    The fixed-size circular buffer of one context: state, operations, the
    representation invariant and the functional specification ("the last
    [capacity] elements pushed, oldest first"). *)

From S2P Require Import Prelude.
#[local] Open Scope nat_scope.

Record RingBuffer (T : Type) : Type := MkRingBuffer {
  buffer_ : list T;
  head_ : nat;
  size_ : nat;
  capacity_ : nat
}.
Arguments MkRingBuffer {T} _ _ _ _.
Arguments buffer_ {T} _.
Arguments head_ {T} _.
Arguments size_ {T} _.
Arguments capacity_ {T} _.

(** Last [n] elements of a list. *)
Definition lastn {T} (n : nat) (l : list T) : list T := drop (length l - n) l.

Section ring_buffer.
Context {T : Type} `{Inhabited T}.
Implicit Types (r : RingBuffer T) (x : T).

(** [buffer_(capacity)] value-initialises every slot. *)
Definition new (capacity : nat) : RingBuffer T :=
  MkRingBuffer (replicate capacity inhabitant) 0 0 capacity.

Definition Push (x : T) (r : RingBuffer T) : RingBuffer T :=
  let buffer := <[head_ r := x]> (buffer_ r) in
  let head := (head_ r + 1) mod capacity_ r in
  let size := if size_ r <? capacity_ r then S (size_ r) else size_ r in
  MkRingBuffer buffer head size (capacity_ r).

Definition GetAll (r : RingBuffer T) : list T :=
  if size_ r =? 0 then []
  else if size_ r <? capacity_ r then
    (λ i, buffer_ r !!! i) <$> seq 0 (size_ r)
  else
    (λ i, buffer_ r !!! ((head_ r + i) mod capacity_ r)) <$> seq 0 (capacity_ r).

Definition Size (r : RingBuffer T) : nat := size_ r.
Definition Capacity (r : RingBuffer T) : nat := capacity_ r.

Definition Clear (r : RingBuffer T) : RingBuffer T :=
  MkRingBuffer (buffer_ r) 0 0 (capacity_ r).

(** The representation invariant: while the buffer fills, the write index is
    the number of elements; once full, it may be any slot. *)
Definition ring_ok (r : RingBuffer T) : Prop :=
  0 < capacity_ r ∧ length (buffer_ r) = capacity_ r ∧
  head_ r < capacity_ r ∧ size_ r ≤ capacity_ r ∧
  (size_ r < capacity_ r → head_ r = size_ r).

Lemma ring_ok_new n : 0 < n → ring_ok (new n).
Proof. intros. unfold ring_ok, new; simpl. rewrite length_replicate. lia. Qed.

Lemma ring_ok_clear r : ring_ok r → ring_ok (Clear r).
Proof. unfold ring_ok, Clear; simpl. lia. Qed.

Lemma ring_ok_push x r : ring_ok r → ring_ok (Push x r).
Proof.
  intros (Hc & Hl & Hh & Hs & Hf). unfold ring_ok, Push; simpl.
  rewrite length_insert.
  pose proof (Nat.mod_upper_bound (head_ r + 1) (capacity_ r)).
  destruct (Nat.ltb_spec (size_ r) (capacity_ r)); [|lia].
  repeat split; try lia. intros. rewrite Nat.mod_small; [|lia]. lia.
Qed.

Lemma fmap_lookup_seq_take (l : list T) n :
  n ≤ length l → (λ i, l !!! i) <$> seq 0 n = take n l.
Proof.
  intros Hn. apply list_eq. intros i.
  destruct (decide (i < n)).
  - rewrite list_lookup_fmap, lookup_seq_lt by lia. simpl.
    rewrite lookup_take_lt by lia.
    destruct (lookup_lt_is_Some_2 l i) as [y Hy]; [lia|].
    rewrite Hy. by apply list_lookup_total_correct in Hy as ->.
  - rewrite !lookup_ge_None_2; [done| |].
    + rewrite length_take. lia.
    + rewrite length_fmap, length_seq. lia.
Qed.

Lemma rotate_lookup (l : list T) h :
  h < length l →
  (λ i, l !!! ((h + i) mod length l)) <$> seq 0 (length l) = drop h l ++ take h l.
Proof.
  intros Hh. apply list_eq. intros i.
  destruct (decide (i < length l)) as [Hi|Hi].
  - rewrite list_lookup_fmap, lookup_seq_lt by lia. simpl.
    destruct (decide (h + i < length l)).
    + rewrite Nat.mod_small by lia.
      rewrite lookup_app_l by (rewrite length_drop; lia).
      rewrite lookup_drop. symmetry. apply list_lookup_lookup_total_lt. lia.
    + replace (h + i) with (h + i - length l + 1 * length l) by lia.
      rewrite Nat.Div0.mod_add, Nat.mod_small by lia.
      rewrite lookup_app_r by (rewrite length_drop; lia).
      rewrite length_drop, lookup_take_lt by lia.
      replace (i - (length l - h)) with (h + i - length l) by lia.
      symmetry. apply list_lookup_lookup_total_lt. lia.
  - rewrite !lookup_ge_None_2; [done| |].
    + rewrite length_app, length_take, length_drop. lia.
    + rewrite length_fmap, length_seq. lia.
Qed.

(** The abstraction function in closed form. *)
Lemma GetAll_unfold r :
  ring_ok r →
  GetAll r = if decide (size_ r < capacity_ r) then take (size_ r) (buffer_ r)
             else drop (head_ r) (buffer_ r) ++ take (head_ r) (buffer_ r).
Proof.
  intros (Hc & Hl & Hh & Hs & Hf). unfold GetAll.
  destruct (Nat.eqb_spec (size_ r) 0) as [E|E].
  - rewrite E. case_decide; [done|lia].
  - destruct (Nat.ltb_spec (size_ r) (capacity_ r)); case_decide; try lia.
    + apply fmap_lookup_seq_take. lia.
    + rewrite <- Hl. apply rotate_lookup. lia.
Qed.

Lemma length_GetAll r : ring_ok r → length (GetAll r) = size_ r.
Proof.
  intros Hok. rewrite GetAll_unfold by done.
  destruct Hok as (Hc & Hl & Hh & Hs & Hf).
  case_decide; rewrite ?length_app, ?length_take, ?length_drop; lia.
Qed.

Lemma GetAll_new n : GetAll (new n) = [].
Proof. done. Qed.

Lemma GetAll_clear r : GetAll (Clear r) = [].
Proof. done. Qed.

Lemma GetAll_push x r :
  ring_ok r → GetAll (Push x r) = lastn (capacity_ r) (GetAll r ++ [x]).
Proof.
  intros Hok. pose proof (ring_ok_push x _ Hok) as Hok'.
  rewrite GetAll_unfold by done. unfold lastn.
  rewrite length_app, length_GetAll, GetAll_unfold by done.
  destruct Hok as (Hc & Hl & Hh & Hs & Hf). clear Hok'.
  unfold Push; cbn [buffer_ head_ size_ capacity_ length].
  destruct (Nat.ltb_spec (size_ r) (capacity_ r)) as [Hlt|Hge].
  - rewrite (decide_True (P := size_ r < capacity_ r)) by lia. rewrite Hf by lia.
    replace (size_ r + 1 - capacity_ r) with 0 by lia. rewrite drop_0.
    assert (take (S (size_ r)) (<[size_ r:=x]> (buffer_ r)) =
            take (size_ r) (buffer_ r) ++ [x]) as Htake.
    { rewrite (take_S_r _ _ x) by (apply list_lookup_insert_eq; lia).
      by rewrite take_insert_ge by lia. }
    case_decide as Hd; [done|].
    replace (size_ r + 1) with (1 * capacity_ r) by lia.
    rewrite Nat.Div0.mod_mul, drop_0. simpl. rewrite app_nil_r.
    rewrite <- Htake. rewrite take_ge; [done|]. rewrite length_insert. lia.
  - rewrite decide_False by lia.
    rewrite (decide_False (P := size_ r < capacity_ r)) by lia.
    replace (size_ r + 1 - capacity_ r) with 1 by lia.
    assert (drop (head_ r) (buffer_ r) =
      (buffer_ r !!! head_ r) :: drop (S (head_ r)) (buffer_ r)) as Hd.
    { apply drop_S. apply list_lookup_lookup_total_lt. lia. }
    rewrite Hd. cbn [app drop].
    destruct (decide (S (head_ r) = capacity_ r)) as [Hlast|Hnl].
    + replace (head_ r + 1) with (1 * capacity_ r) by lia.
      rewrite Nat.Div0.mod_mul, drop_0. cbn [take]. rewrite app_nil_r.
      rewrite (drop_ge (buffer_ r)) by lia. cbn [app].
      rewrite <- (take_insert_ge (buffer_ r) (head_ r) (head_ r) x) by lia.
      rewrite <- (take_S_r _ _ x) by (apply list_lookup_insert_eq; lia).
      rewrite take_ge; [done|]. rewrite length_insert. lia.
    + rewrite Nat.mod_small by lia. rewrite Nat.add_1_r.
      rewrite drop_insert_lt by lia.
      rewrite (take_S_r _ _ x) by (apply list_lookup_insert_eq; lia).
      rewrite take_insert_ge by lia. by rewrite app_assoc.
Qed.
End ring_buffer.

#[export] Hint Resolve ring_ok_new ring_ok_push ring_ok_clear : core.

Lemma lastn_lastn_snoc {T} n (l : list T) x :
  0 < n → lastn n (lastn n l ++ [x]) = lastn n (l ++ [x]).
Proof.
  intros. unfold lastn. rewrite !length_app, length_drop. simpl.
  destruct (decide (length l ≤ n)).
  - replace (length l - n) with 0 by lia. rewrite drop_0, Nat.sub_0_r. done.
  - rewrite <- !drop_app_le by (rewrite ?length_drop; lia).
    rewrite drop_drop. f_equal. lia.
Qed.

Lemma length_lastn {T} n (l : list T) : length (lastn n l) = n `min` length l.
Proof. unfold lastn. rewrite length_drop. lia. Qed.

Lemma lastn_incl {T} n (l : list T) x : x ∈ lastn n l → x ∈ l.
Proof.
  unfold lastn. intros Hx. rewrite <- (take_drop (length l - n) l).
  apply elem_of_app. by right.
Qed.

(** ** Specification *)

Definition push_all {T} (xs : list T) (r : RingBuffer T) : RingBuffer T :=
  fold_left (λ r x, Push x r) xs r.

Lemma push_all_ok {T} `{Inhabited T} (xs : list T) (r : RingBuffer T) :
  ring_ok r → ring_ok (push_all xs r) ∧ capacity_ (push_all xs r) = capacity_ r ∧
  GetAll (push_all xs r) = lastn (capacity_ r) (GetAll r ++ xs).
Proof.
  revert r. induction xs as [|x xs IH]; intros r Hok; simpl.
  - split; [done|]. split; [done|]. rewrite app_nil_r. unfold lastn.
    rewrite length_GetAll by done. destruct Hok as (_ & _ & _ & Hs & _).
    by replace (size_ r - capacity_ r) with 0 by lia.
  - destruct (IH (Push x r) (ring_ok_push x r Hok)) as (H1 & H2 & H3).
    split; [done|]. split; [done|]. rewrite H3, GetAll_push by done. simpl.
    assert (Hlast : ∀ l ys : list T, lastn (capacity_ r) (lastn (capacity_ r) l ++ ys) =
              lastn (capacity_ r) (l ++ ys)).
    { intros l ys. unfold lastn. rewrite !length_app, length_drop.
      destruct (decide (length l ≤ capacity_ r)).
      - replace (length l - capacity_ r) with 0 by lia. rewrite drop_0. f_equal. lia.
      - assert (l ++ ys = take (length l - capacity_ r) l ++ (drop (length l - capacity_ r) l ++ ys))
          as -> by by rewrite app_assoc, take_drop.
        rewrite (drop_app_ge (take _ _)) by (rewrite length_take; lia).
        f_equal. rewrite length_take. lia. }
    rewrite Hlast, <- app_assoc. done.
Qed.

(** A ring buffer of positive capacity, after any sequence of pushes and
    starting from the constructor, returns from [GetAll] exactly the last
    [capacity] elements pushed, oldest first, and keeps its invariant. *)
Lemma ring_buffer_keeps_last {T} `{Inhabited T} (cap : nat) (xs : list T) :
  0 < cap →
  ring_ok (push_all xs (new cap)) ∧
  GetAll (push_all xs (new cap)) = lastn cap xs ∧
  Size (push_all xs (new cap)) = cap `min` length xs.
Proof.
  intros Hc. destruct (push_all_ok xs (new cap) (ring_ok_new cap Hc)) as (Hok & _ & Hall).
  split; [done|]. split; [done|].
  unfold Size. rewrite <- (length_GetAll _ Hok), Hall. apply length_lastn.
Qed.

Lemma ring_buffer_keeps_last_witness :
  0 < 3 ∧ GetAll (push_all [1; 2; 3; 4; 5] (new 3)) = [3; 4; 5].
Proof.
  split; [lia|]. apply (proj1 (proj2 (ring_buffer_keeps_last 3 [1; 2; 3; 4; 5] ltac:(lia)))).
Defined.
