(* ===== verification/Lru.v ===== *)
(** * Recency lists

    Three caches of the code pair a [std::list] of keys (front = most recently
    used) with an [unordered_map] whose entries hold an iterator into that
    list.  An iterator designates the list node of its key; since [lru_ok]
    keeps the keys of the list distinct, the model names a node by its key. *)

From S2P Require Import Prelude.
#[local] Open Scope nat_scope.

Section lru.
Context {K V : Type} `{Countable K}.

Record lru : Type := MkLru { lru_list : list K; lru_map : gmap K V }.
Implicit Types (t : lru) (k : K) (v : V).

Definition lru_empty : lru := MkLru [] ∅.

(** [list.splice(begin, list, it)] / [erase(it); push_front(key)]. *)
Definition move_to_front k (l : list K) : list K := k :: filter (.≠ k) l.

Definition lru_touch k t : lru := MkLru (move_to_front k (lru_list t)) (lru_map t).
Definition lru_set k v t : lru := MkLru (lru_list t) (<[k := v]> (lru_map t)).
Definition lru_push_front k v t : lru :=
  MkLru (k :: lru_list t) (<[k := v]> (lru_map t)).
Definition lru_remove k t : lru :=
  MkLru (filter (.≠ k) (lru_list t)) (delete k (lru_map t)).

(** Drop the back of the list and its map entry; nothing on an empty list. *)
Definition lru_pop_back t : lru :=
  match last (lru_list t) with
  | None => t
  | Some k => MkLru (take (length (lru_list t) - 1) (lru_list t)) (delete k (lru_map t))
  end.

(** List and map hold the same keys, each once. *)
Definition lru_ok t : Prop :=
  NoDup (lru_list t) ∧ ∀ k, k ∈ lru_list t ↔ is_Some (lru_map t !! k).

Lemma lru_ok_empty : lru_ok lru_empty.
Proof.
  split; [constructor|]. intros k. simpl. rewrite lookup_empty.
  split; [by intros ?%elem_of_nil|by intros [? ?]].
Qed.

Lemma lru_ok_lookup t k v : lru_ok t → lru_map t !! k = Some v → k ∈ lru_list t.
Proof. intros [_ Hk] Hv. apply Hk. eauto. Qed.

Lemma lru_ok_size t : lru_ok t → size (lru_map t) = length (lru_list t).
Proof.
  intros [Hnd Hk]. rewrite <- size_dom.
  rewrite <- (size_list_to_set (C := gset K) _ Hnd). f_equal.
  apply set_eq. intros k. rewrite elem_of_dom, elem_of_list_to_set. by rewrite Hk.
Qed.

Lemma NoDup_move_to_front k l : NoDup l → NoDup (move_to_front k l).
Proof.
  intros Hnd. apply NoDup_cons; split.
  - rewrite list_elem_of_filter. naive_solver.
  - by apply NoDup_filter.
Qed.

Lemma elem_of_move_to_front k l x : x ∈ move_to_front k l ↔ x = k ∨ x ∈ l.
Proof.
  unfold move_to_front. rewrite elem_of_cons, list_elem_of_filter.
  destruct (decide (x = k)); naive_solver.
Qed.

Lemma lru_ok_touch t k : lru_ok t → is_Some (lru_map t !! k) → lru_ok (lru_touch k t).
Proof.
  intros [Hnd Hk] Hs. split; [by apply NoDup_move_to_front|].
  intros x. simpl. rewrite elem_of_move_to_front, Hk. naive_solver.
Qed.

Lemma lru_ok_set t k v : lru_ok t → is_Some (lru_map t !! k) → lru_ok (lru_set k v t).
Proof.
  intros [Hnd Hk] Hs. split; [done|]. intros x. simpl.
  rewrite Hk, lookup_insert. case_decide; subst; naive_solver.
Qed.

Lemma lru_ok_push_front t k v :
  lru_ok t → lru_map t !! k = None → lru_ok (lru_push_front k v t).
Proof.
  intros [Hnd Hk] Hs. split.
  - apply NoDup_cons. rewrite Hk, Hs. split; [by intros [? ?]|done].
  - intros x. simpl. rewrite elem_of_cons, Hk, lookup_insert.
    case_decide; subst; naive_solver.
Qed.

Lemma lru_ok_remove t k : lru_ok t → lru_ok (lru_remove k t).
Proof.
  intros [Hnd Hk]. split; [by apply NoDup_filter|].
  intros x. simpl. rewrite list_elem_of_filter, Hk, lookup_delete.
  case_decide; subst.
  - split; [naive_solver|by intros [? ?]].
  - naive_solver.
Qed.

Lemma last_snoc_take (l : list K) k :
  last l = Some k → l = take (length l - 1) l ++ [k].
Proof.
  intros Hl. apply last_Some in Hl as [l' ->].
  rewrite length_app. simpl. rewrite Nat.add_sub, take_app_length. done.
Qed.

Lemma lru_pop_back_remove t k :
  lru_ok t → last (lru_list t) = Some k → lru_pop_back t = lru_remove k t.
Proof.
  intros [Hnd Hk] Hl. unfold lru_pop_back, lru_remove. rewrite Hl. f_equal.
  apply last_Some in Hl as [l Hl]. rewrite Hl in Hnd |- *.
  rewrite length_app. simpl. rewrite Nat.add_sub, take_app_length.
  apply NoDup_app in Hnd as (Hnd & Hdis & _).
  rewrite filter_app, filter_cons_False, filter_nil, app_nil_r by naive_solver.
  rewrite filter_id; [done|]. intros x Hx ->. eapply Hdis; [done|]. by apply list_elem_of_singleton.
Qed.

Lemma lru_ok_pop_back t : lru_ok t → lru_ok (lru_pop_back t).
Proof.
  intros Hok. destruct (last (lru_list t)) as [k|] eqn:Hl.
  - rewrite (lru_pop_back_remove _ k) by done. by apply lru_ok_remove.
  - unfold lru_pop_back. by rewrite Hl.
Qed.

Lemma lru_pop_back_size t :
  lru_ok t → size (lru_map (lru_pop_back t)) = size (lru_map t) - 1.
Proof.
  intros Hok. rewrite !lru_ok_size by auto using lru_ok_pop_back.
  unfold lru_pop_back. destruct (last (lru_list t)) eqn:Hl; simpl.
  - rewrite length_take. lia.
  - apply last_None in Hl. by rewrite Hl.
Qed.

Lemma lru_pop_back_None t k : lru_map t !! k = None → lru_map (lru_pop_back t) !! k = None.
Proof.
  intros Hk. unfold lru_pop_back. destruct (last _); [|done].
  simpl. rewrite lookup_delete. by case_decide.
Qed.

(** The abstract content: bindings from most to least recently used. *)
Definition lru_bindings t : list (K * V) :=
  omap (λ k, (k,.) <$> lru_map t !! k) (lru_list t).

Definition assoc_remove k (l : list (K * V)) : list (K * V) := filter (λ p, p.1 ≠ k) l.

Lemma bindings_ext (m1 m2 : gmap K V) (l : list K) :
  (∀ k, k ∈ l → m1 !! k = m2 !! k) →
  omap (λ k, (k,.) <$> m1 !! k) l = omap (λ k, (k,.) <$> m2 !! k) l.
Proof.
  intros Hext. induction l as [|x l IH]; [done|]. csimpl.
  rewrite (Hext x) by (by left). rewrite IH; [done|].
  intros k Hk. apply Hext. by right.
Qed.

Lemma bindings_remove t k :
  lru_bindings (lru_remove k t) = assoc_remove k (lru_bindings t).
Proof.
  unfold lru_bindings, lru_remove, assoc_remove; simpl.
  induction (lru_list t) as [|x l IH]; [done|].
  rewrite filter_cons. case_decide as Hx; csimpl.
  - rewrite lookup_delete_ne by done.
    destruct (lru_map t !! x); csimpl; [|done].
    rewrite filter_cons_True by done. by rewrite IH.
  - assert (x = k) as -> by (destruct (decide (x = k)); tauto).
    destruct (lru_map t !! k); csimpl; [|done].
    rewrite filter_cons_False by naive_solver. done.
Qed.

Lemma bindings_push_front t k v :
  lru_ok t → lru_map t !! k = None →
  lru_bindings (lru_push_front k v t) = (k, v) :: lru_bindings t.
Proof.
  intros [_ Hk] Hn. unfold lru_bindings, lru_push_front; csimpl.
  rewrite lookup_insert_eq. csimpl. f_equal. apply bindings_ext.
  intros x Hx. apply lookup_insert_ne. intros <-. apply Hk in Hx.
  rewrite Hn in Hx. by destruct Hx.
Qed.

Lemma bindings_set_touch t k v :
  lru_bindings (lru_touch k (lru_set k v t)) = (k, v) :: assoc_remove k (lru_bindings t).
Proof.
  transitivity (lru_bindings (lru_push_front k v (lru_remove k t))).
  { unfold lru_touch, lru_set, lru_push_front, lru_remove, move_to_front; simpl.
    by rewrite insert_delete_eq. }
  rewrite <- bindings_remove.
  unfold lru_bindings, lru_push_front; csimpl. rewrite lookup_insert_eq. csimpl.
  f_equal. apply bindings_ext. intros x [Hx _]%list_elem_of_filter.
  by rewrite lookup_insert_ne by done.
Qed.

Lemma length_bindings t : lru_ok t → length (lru_bindings t) = size (lru_map t).
Proof.
  intros Hok. rewrite lru_ok_size by done. destruct Hok as [_ Hk].
  unfold lru_bindings.
  assert (∀ k, k ∈ lru_list t → is_Some (lru_map t !! k)) as Hin by (intros; by apply Hk).
  clear Hk. induction (lru_list t) as [|x l IH]; [done|]. csimpl.
  destruct (Hin x) as [v Hv]; [by left|]. rewrite Hv. simpl. f_equal.
  apply IH. intros k Hkl. apply Hin. by right.
Qed.

Lemma bindings_pop_back t :
  lru_ok t → lru_bindings (lru_pop_back t) = take (size (lru_map t) - 1) (lru_bindings t).
Proof.
  intros Hok. destruct (last (lru_list t)) as [k|] eqn:Hl.
  - pose proof (lru_ok_pop_back _ Hok) as Hok'.
    pose proof (length_bindings _ Hok') as Hlen'.
    pose proof (lru_pop_back_size _ Hok) as Hsz.
    rewrite (lru_pop_back_remove _ k) in * by done.
    destruct Hok as [Hnd Hk].
    assert (is_Some (lru_map t !! k)) as [v Hv].
    { apply Hk. rewrite (last_snoc_take _ _ Hl). apply elem_of_app. right.
      by apply list_elem_of_singleton. }
    assert (lru_bindings t = lru_bindings (lru_remove k t) ++ [(k, v)]) as ->.
    { unfold lru_bindings. rewrite (last_snoc_take _ _ Hl) at 1.
      rewrite omap_app. csimpl. rewrite Hv. simpl. f_equal.
      pose proof (lru_pop_back_remove _ k (conj Hnd Hk) Hl) as Heq.
      unfold lru_pop_back in Heq. rewrite Hl in Heq.
      apply (f_equal lru_list) in Heq as Heq1. simpl in Heq1. rewrite Heq1.
      apply bindings_ext. intros x [Hx _]%list_elem_of_filter. simpl.
      by rewrite lookup_delete_ne by done. }
    rewrite take_app_le by lia. rewrite take_ge; [done|]. lia.
  - pose proof (lru_ok_size _ Hok) as Hsz. unfold lru_pop_back. rewrite Hl.
    apply last_None in Hl. rewrite take_ge; [done|].
    rewrite length_bindings by done. rewrite Hsz, Hl. simpl. lia.
Qed.

Lemma bindings_lookup t k v :
  lru_ok t → (k, v) ∈ lru_bindings t ↔ lru_map t !! k = Some v.
Proof.
  intros [_ Hk]. unfold lru_bindings. rewrite list_elem_of_omap. split.
  - intros (x & Hx & Hm). destruct (lru_map t !! x) eqn:E; simplify_option_eq. done.
  - intros Hv. exists k. rewrite Hv. split; [|done]. apply Hk. eauto.
Qed.
End lru.

Arguments lru K V {_ _}.
#[export] Instance lru_eq_dec {K V} `{Countable K} `{EqDecision V} : EqDecision (lru K V).
Proof. solve_decision. Defined.
#[export] Hint Resolve lru_ok_empty lru_ok_touch lru_ok_set lru_ok_push_front
  lru_ok_pop_back lru_ok_remove lru_pop_back_None : nvecd.
