(* ===== verification/DedupCache.v ===== *)
(** * [events::DedupCache] (src/events/dedup_cache.h, dedup_cache.cpp)

    The time-window deduplication cache for ADD events.  The monotonic clock
    [std::chrono::steady_clock::now()] is the argument [now], in nanoseconds. *)

From S2P Require Import Prelude Lru.
#[local] Open Scope Z_scope.

Record EventKey : Type := MkEventKey { ek_ctx : string; ek_id : string; ek_score : Z }.

#[export] Instance EventKey_eq_dec : EqDecision EventKey.
Proof. solve_decision. Defined.
#[export] Instance EventKey_countable : Countable EventKey :=
  inj_countable' (λ k, (ek_ctx k, ek_id k, ek_score k))
    (λ t, MkEventKey t.1.1 t.1.2 t.2) (λ '(MkEventKey _ _ _), eq_refl).

(** [CacheEntry] without its list iterator, which [Lru] names by the key. *)
Record CacheEntry : Type := MkCacheEntry { timestamp : Z; last_seen_at : Z }.

#[export] Instance CacheEntry_eq_dec : EqDecision CacheEntry.
Proof. solve_decision. Defined.

Record DedupCache : Type := MkDedupCache {
  max_size_ : Z;
  window_sec_ : Z;
  cache_ : lru EventKey CacheEntry;
  total_hits_ : Z;
  total_misses_ : Z
}.

#[export] Instance DedupCache_eq_dec : EqDecision DedupCache.
Proof. solve_decision. Defined.

Definition ns_per_sec : Z := 1000000000.

Definition new (max_size window_sec : Z) : DedupCache :=
  MkDedupCache max_size window_sec lru_empty 0 0.

Definition with_cache (c : DedupCache) (l : lru EventKey CacheEntry) : DedupCache :=
  MkDedupCache (max_size_ c) (window_sec_ c) l (total_hits_ c) (total_misses_ c).
Definition hit (c : DedupCache) : DedupCache :=
  MkDedupCache (max_size_ c) (window_sec_ c) (cache_ c) (u64 (total_hits_ c + 1)) (total_misses_ c).
Definition miss (c : DedupCache) : DedupCache :=
  MkDedupCache (max_size_ c) (window_sec_ c) (cache_ c) (total_hits_ c) (u64 (total_misses_ c + 1)).

Definition IsWithinWindow (window : Z) (entry : CacheEntry) (ts now : Z) : bool :=
  let event_time_distance :=
    if timestamp entry <=? ts then ts - timestamp entry else timestamp entry - ts in
  if event_time_distance <=? window then true
  else (ts <? timestamp entry) && (now - last_seen_at entry <=? window * ns_per_sec).

Definition find (c : DedupCache) (key : EventKey) : option CacheEntry :=
  lru_map (cache_ c) !! key.

Definition IsDuplicate (key : EventKey) (current_timestamp now : Z) (c : DedupCache)
  : bool * DedupCache :=
  if window_sec_ c =? 0 then (false, miss c) else
  match find c key with
  | None => (false, miss c)
  | Some e =>
      if IsWithinWindow (window_sec_ c) e current_timestamp now then (true, hit c)
      else (false, miss c)
  end.

Definition WouldDeduplicate (key : EventKey) (current_timestamp now : Z) (c : DedupCache) : bool :=
  if window_sec_ c =? 0 then false else
  match find c key with
  | None => false
  | Some e => IsWithinWindow (window_sec_ c) e current_timestamp now
  end.

Definition EvictLRU (l : lru EventKey CacheEntry) : lru EventKey CacheEntry := lru_pop_back l.

(** The insertion shared by [CheckAndInsert] and [Insert] for an absent key. *)
Definition insert_new (key : EventKey) (ts now : Z) (c : DedupCache) : DedupCache :=
  let l := if max_size_ c <=? Z.of_nat (size (lru_map (cache_ c)))
           then EvictLRU (cache_ c) else cache_ c in
  with_cache c (lru_push_front key (MkCacheEntry ts now) l).

Definition CheckAndInsert (key : EventKey) (ts now : Z) (c : DedupCache) : bool * DedupCache :=
  if window_sec_ c =? 0 then (false, miss c) else
  match find c key with
  | Some e =>
      if IsWithinWindow (window_sec_ c) e ts now then
        (true, with_cache (hit c)
                 (lru_touch key (lru_set key (MkCacheEntry (timestamp e) now) (cache_ c))))
      else
        (false, with_cache (miss c)
                  (lru_touch key (lru_set key (MkCacheEntry ts now) (cache_ c))))
  | None => (false, insert_new key ts now (miss c))
  end.

Definition Insert (key : EventKey) (ts now : Z) (c : DedupCache) : DedupCache :=
  match find c key with
  | Some e => with_cache c (lru_touch key (lru_set key (MkCacheEntry ts now) (cache_ c)))
  | None => insert_new key ts now c
  end.

Definition Clear (c : DedupCache) : DedupCache :=
  MkDedupCache (max_size_ c) (window_sec_ c) lru_empty 0 0.

Definition Size (c : DedupCache) : Z := Z.of_nat (size (lru_map (cache_ c))).

(** ** Invariant *)

Definition dedup_ok (c : DedupCache) : Prop :=
  0 < max_size_ c ∧ lru_ok (cache_ c) ∧ Size c ≤ max_size_ c.

Lemma dedup_ok_new m w : 0 < m → dedup_ok (new m w).
Proof.
  intros. split; [done|]. split; [apply lru_ok_empty|].
  unfold Size, new; simpl. rewrite map_size_empty. lia.
Qed.

Lemma size_touch_set key (e : CacheEntry) (l : lru EventKey CacheEntry) :
  is_Some (lru_map l !! key) → size (lru_map (lru_touch key (lru_set key e l))) = size (lru_map l).
Proof. intros. simpl. by apply map_size_insert_Some. Qed.

Lemma dedup_ok_touch_set c key e :
  dedup_ok c → is_Some (find c key) →
  dedup_ok (with_cache c (lru_touch key (lru_set key e (cache_ c)))).
Proof.
  intros (Hm & Hok & Hs) Hf. split; [done|]. split; simpl.
  - apply lru_ok_touch; [by apply lru_ok_set|]. simpl. rewrite lookup_insert_eq. eauto.
  - unfold Size in *. simpl in *. by rewrite map_size_insert_Some.
Qed.

Lemma dedup_ok_insert_new c key ts now :
  dedup_ok c → find c key = None → dedup_ok (insert_new key ts now c).
Proof.
  intros (Hm & Hok & Hs) Hf. unfold find, Size in *. split; [done|].
  unfold insert_new, Size, EvictLRU; simpl.
  destruct (Z.leb_spec (max_size_ c) (Z.of_nat (size (lru_map (cache_ c))))).
  - split; [eauto with nvecd|].
    rewrite map_size_insert_None by eauto with nvecd.
    rewrite lru_pop_back_size by done. lia.
  - split; [eauto with nvecd|]. rewrite map_size_insert_None by done. lia.
Qed.

Lemma dedup_ok_counters c c' :
  max_size_ c' = max_size_ c → cache_ c' = cache_ c → dedup_ok c → dedup_ok c'.
Proof. unfold dedup_ok, Size. by intros -> ->. Qed.

Lemma dedup_ok_CheckAndInsert key ts now c :
  dedup_ok c → dedup_ok (CheckAndInsert key ts now c).2.
Proof.
  intros Hok. unfold CheckAndInsert.
  destruct (Z.eqb_spec (window_sec_ c) 0).
  { by eapply dedup_ok_counters. }
  destruct (find c key) as [e|] eqn:Hf.
  - case_match; simpl.
    + apply (dedup_ok_touch_set (hit c)); [by eapply dedup_ok_counters|exists e; exact Hf].
    + apply (dedup_ok_touch_set (miss c)); [by eapply dedup_ok_counters|exists e; exact Hf].
  - apply dedup_ok_insert_new; [by eapply dedup_ok_counters|done].
Qed.

Lemma dedup_ok_Insert key ts now c : dedup_ok c → dedup_ok (Insert key ts now c).
Proof.
  intros Hok. unfold Insert. destruct (find c key) eqn:Hf.
  - apply dedup_ok_touch_set; eauto.
  - by apply dedup_ok_insert_new.
Qed.

(** ** The abstract cache: an association list in recency order, at most
    [max_size_] long. *)

Definition contents (c : DedupCache) : list (EventKey * CacheEntry) := lru_bindings (cache_ c).

Definition assoc_find (key : EventKey) (l : list (EventKey * CacheEntry)) : option CacheEntry :=
  snd <$> head (filter (λ p, p.1 = key) l).

Definition spec_check_and_insert (max window : Z) (key : EventKey) (ts now : Z)
    (l : list (EventKey * CacheEntry)) : bool * list (EventKey * CacheEntry) :=
  match assoc_find key l with
  | Some e =>
      let dup := IsWithinWindow window e ts now in
      (dup, (key, MkCacheEntry (if dup then timestamp e else ts) now) :: assoc_remove key l)
  | None => (false, take (Z.to_nat max) ((key, MkCacheEntry ts now) :: l))
  end.

Lemma assoc_find_contents c key : dedup_ok c → assoc_find key (contents c) = find c key.
Proof.
  intros (_ & Hok & _). unfold assoc_find, contents, find.
  destruct (lru_map (cache_ c) !! key) as [e|] eqn:Hf.
  - destruct (filter (λ p, p.1 = key) (lru_bindings (cache_ c))) as [|[k e'] l] eqn:E.
    + exfalso. apply (bindings_lookup _ key e Hok) in Hf.
      assert ((key, e) ∈ @nil (EventKey * CacheEntry)) as []%elem_of_nil.
      rewrite <- E. by apply list_elem_of_filter.
    + assert ((k, e') ∈ filter (λ p, p.1 = key) (lru_bindings (cache_ c))) as Hin
        by (rewrite E; left).
      apply list_elem_of_filter in Hin as [Hk Hin]. simpl in Hk; subst k.
      apply bindings_lookup in Hin; [|done]. simpl. congruence.
  - rewrite filter_none; [done|]. intros [k e] Hin Hk. simpl in Hk; subst k.
    apply bindings_lookup in Hin; [|done]. congruence.
Qed.

Lemma contents_insert_new c key ts now :
  dedup_ok c → find c key = None →
  contents (insert_new key ts now c) =
  take (Z.to_nat (max_size_ c)) ((key, MkCacheEntry ts now) :: contents c).
Proof.
  intros (Hm & Hok & Hs) Hf. unfold contents, insert_new, EvictLRU, find, Size in *; simpl.
  assert (Hlen : length (lru_bindings (cache_ c)) = size (lru_map (cache_ c)))
    by by apply length_bindings.
  destruct (Z.leb_spec (max_size_ c) (Z.of_nat (size (lru_map (cache_ c))))).
  - rewrite bindings_push_front by eauto with nvecd.
    rewrite bindings_pop_back by done.
    replace (Z.to_nat (max_size_ c)) with (S (size (lru_map (cache_ c)) - 1)) by lia. done.
  - rewrite bindings_push_front by eauto with nvecd.
    rewrite take_ge; [done|]. simpl. lia.
Qed.

(** [CheckAndInsert] implements the abstract cache. *)
Lemma CheckAndInsert_contents c key ts now :
  dedup_ok c → window_sec_ c ≠ 0 →
  ((CheckAndInsert key ts now c).1, contents (CheckAndInsert key ts now c).2) =
  spec_check_and_insert (max_size_ c) (window_sec_ c) key ts now (contents c).
Proof.
  intros Hok Hw. unfold CheckAndInsert, spec_check_and_insert.
  rewrite assoc_find_contents by done.
  rewrite (proj2 (Z.eqb_neq _ _) Hw).
  destruct (find c key) as [e|] eqn:Hf.
  - destruct (IsWithinWindow (window_sec_ c) e ts now); simpl; f_equal; apply bindings_set_touch.
  - simpl. f_equal. by apply (contents_insert_new (miss c)).
Qed.

Lemma WouldDeduplicate_CheckAndInsert c key ts now :
  (CheckAndInsert key ts now c).1 = WouldDeduplicate key ts now c.
Proof.
  unfold CheckAndInsert, WouldDeduplicate. repeat case_match; done.
Qed.

Lemma IsDuplicate_CheckAndInsert c key ts now :
  (CheckAndInsert key ts now c).1 = (IsDuplicate key ts now c).1.
Proof. unfold CheckAndInsert, IsDuplicate. repeat case_match; done. Qed.

Lemma IsWithinWindow_same w ts now now' : 0 ≤ w → IsWithinWindow w (MkCacheEntry ts now) ts now' = true.
Proof.
  intros. unfold IsWithinWindow; simpl. rewrite Z.leb_refl.
  destruct (Z.leb_spec (ts - ts) w); [done|lia].
Qed.

(** What [CheckAndInsert] leaves behind for its own key. *)
Lemma CheckAndInsert_find c key ts now :
  window_sec_ c ≠ 0 →
  find (CheckAndInsert key ts now c).2 key =
  Some (MkCacheEntry (if WouldDeduplicate key ts now c
                      then from_option timestamp ts (find c key) else ts) now).
Proof.
  intros Hw. unfold CheckAndInsert, WouldDeduplicate.
  rewrite (proj2 (Z.eqb_neq _ _) Hw).
  destruct (find c key) as [e|] eqn:Hf; [case_match|]; unfold find; simpl;
    by rewrite lookup_insert_eq.
Qed.

(** ** Claims *)

(** [CheckAndInsert] is a linearizable recency cache: on the bindings in
    recency order it answers and updates exactly as the association-list
    specification (hit inside the window: keep the event time, refresh the
    arrival time, move to front; stale hit: overwrite; miss: insert at the
    front and drop the oldest beyond [max_size]), and its invariant survives. *)
Lemma dedup_cache_refines (c : DedupCache) (key : EventKey) (ts now : Z) :
  dedup_ok c → window_sec_ c ≠ 0 →
  ((CheckAndInsert key ts now c).1, contents (CheckAndInsert key ts now c).2) =
    spec_check_and_insert (max_size_ c) (window_sec_ c) key ts now (contents c) ∧
  dedup_ok (CheckAndInsert key ts now c).2 ∧
  (length (contents (CheckAndInsert key ts now c).2) ≤ Z.to_nat (max_size_ c))%nat.
Proof.
  intros Hok Hw. split; [by apply CheckAndInsert_contents|].
  pose proof (dedup_ok_CheckAndInsert key ts now c Hok) as Hok'. split; [done|].
  assert (max_size_ (CheckAndInsert key ts now c).2 = max_size_ c) as Hmax
    by (unfold CheckAndInsert; repeat case_match; done).
  destruct Hok' as (Hm & Hl & Hs). unfold contents. rewrite length_bindings by done.
  unfold Size in Hs. rewrite Hmax in *. lia.
Qed.

Lemma dedup_cache_refines_witness :
  let c := (CheckAndInsert (MkEventKey "u" "a" 1) 100 0 (new 2 60)).2 in
  (CheckAndInsert (MkEventKey "u" "a" 1) 130 5 c).1 = true.
Proof.
  pose proof (dedup_cache_refines
    (CheckAndInsert (MkEventKey "u" "a" 1) 100 0 (new 2 60)).2 (MkEventKey "u" "a" 1) 130 5
    (dedup_ok_CheckAndInsert _ _ _ _ (dedup_ok_new 2 60 ltac:(lia))) ltac:(done)) as [H _].
  apply (f_equal fst) in H. etransitivity; [exact H|]. vm_compute. reflexivity.
Defined.
