(* ===== verification/StateCache.v ===== *)
(** * [events::StateCache] (src/events/state_cache.h, state_cache.cpp)

    The last-value deduplication cache for SET and DEL events. *)

From S2P Require Import Prelude Lru.
#[local] Open Scope Z_scope.

Record StateKey : Type := MkStateKey { sk_ctx : string; sk_id : string }.

#[export] Instance StateKey_eq_dec : EqDecision StateKey.
Proof. solve_decision. Defined.
#[export] Instance StateKey_countable : Countable StateKey :=
  inj_countable' (λ k, (sk_ctx k, sk_id k)) (λ t, MkStateKey t.1 t.2)
    (λ '(MkStateKey _ _), eq_refl).

Record StateCache : Type := MkStateCache {
  max_size_ : Z;
  states_ : lru StateKey Z;
  total_hits_ : Z;
  total_misses_ : Z
}.

#[export] Instance StateCache_eq_dec : EqDecision StateCache.
Proof. solve_decision. Defined.

Definition kDeletedScore : Z := -1.

Definition new (max_size : Z) : StateCache := MkStateCache max_size lru_empty 0 0.

Definition with_states (c : StateCache) (l : lru StateKey Z) : StateCache :=
  MkStateCache (max_size_ c) l (total_hits_ c) (total_misses_ c).
Definition hit (c : StateCache) : StateCache :=
  MkStateCache (max_size_ c) (states_ c) (u64 (total_hits_ c + 1)) (total_misses_ c).
Definition miss (c : StateCache) : StateCache :=
  MkStateCache (max_size_ c) (states_ c) (total_hits_ c) (u64 (total_misses_ c + 1)).

Definition find (c : StateCache) (key : StateKey) : option Z := lru_map (states_ c) !! key.

Definition TouchLocked (key : StateKey) (c : StateCache) : StateCache :=
  match find c key with
  | Some _ => with_states c (lru_touch key (states_ c))
  | None => c
  end.

Definition EvictIfFull (c : StateCache) : StateCache :=
  if (max_size_ c <=? Z.of_nat (size (lru_map (states_ c)))) &&
     negb (bool_decide (lru_list (states_ c) = []))
  then with_states c (lru_pop_back (states_ c)) else c.

(** Overwrite an existing key and touch it, or evict and push a new one: the
    tail common to the four mutators. *)
Definition UpdateScore (key : StateKey) (score : Z) (c : StateCache) : StateCache :=
  match find c key with
  | Some _ => TouchLocked key (with_states c (lru_set key score (states_ c)))
  | None => let c' := EvictIfFull c in with_states c' (lru_push_front key score (states_ c'))
  end.

Definition MarkDeleted (key : StateKey) (c : StateCache) : StateCache :=
  match find c key with
  | Some _ => TouchLocked key (with_states c (lru_set key kDeletedScore (states_ c)))
  | None => let c' := EvictIfFull c in with_states c' (lru_push_front key kDeletedScore (states_ c'))
  end.

Definition IsDuplicateSet (key : StateKey) (score : Z) (c : StateCache) : bool * StateCache :=
  match find c key with
  | None => (false, miss c)
  | Some s => if s =? score then (true, hit c) else (false, miss c)
  end.

Definition WouldDeduplicateSet (key : StateKey) (score : Z) (c : StateCache) : bool :=
  match find c key with Some s => s =? score | None => false end.

Definition CheckAndUpdateSet (key : StateKey) (score : Z) (c : StateCache) : bool * StateCache :=
  if match find c key with Some s => s =? score | None => false end
  then (true, TouchLocked key (hit c))
  else
    let c := miss c in
    match find c key with
    | Some _ => (false, TouchLocked key (with_states c (lru_set key score (states_ c))))
    | None => let c' := EvictIfFull c in
              (false, with_states c' (lru_push_front key score (states_ c')))
    end.

Definition IsDuplicateDel (key : StateKey) (c : StateCache) : bool * StateCache :=
  match find c key with
  | None => (false, miss c)
  | Some s => if s =? kDeletedScore then (true, hit c) else (false, miss c)
  end.

Definition WouldDeduplicateDel (key : StateKey) (c : StateCache) : bool :=
  match find c key with Some s => s =? kDeletedScore | None => false end.

Definition CheckAndMarkDeleted (key : StateKey) (c : StateCache) : bool * StateCache :=
  if match find c key with Some s => s =? kDeletedScore | None => false end
  then (true, TouchLocked key (hit c))
  else
    let c := miss c in
    match find c key with
    | Some _ => (false, TouchLocked key (with_states c (lru_set key kDeletedScore (states_ c))))
    | None => let c' := EvictIfFull c in
              (false, with_states c' (lru_push_front key kDeletedScore (states_ c')))
    end.

Definition Clear (c : StateCache) : StateCache := MkStateCache (max_size_ c) lru_empty 0 0.

Definition Size (c : StateCache) : Z := Z.of_nat (size (lru_map (states_ c))).

(** ** Invariant *)

Definition state_ok (c : StateCache) : Prop :=
  0 < max_size_ c ∧ lru_ok (states_ c) ∧ Size c ≤ max_size_ c.

Lemma state_ok_new m : 0 < m → state_ok (new m).
Proof.
  intros. split; [done|]. split; [apply lru_ok_empty|].
  unfold Size, new; simpl. rewrite map_size_empty. lia.
Qed.

Lemma CheckAndUpdateSet_2 key score c :
  (CheckAndUpdateSet key score c).2 =
  if WouldDeduplicateSet key score c then TouchLocked key (hit c) else UpdateScore key score (miss c).
Proof. unfold CheckAndUpdateSet, WouldDeduplicateSet, UpdateScore. repeat case_match; done. Qed.

Lemma CheckAndMarkDeleted_2 key c :
  (CheckAndMarkDeleted key c).2 =
  if WouldDeduplicateDel key c then TouchLocked key (hit c) else MarkDeleted key (miss c).
Proof. unfold CheckAndMarkDeleted, WouldDeduplicateDel, MarkDeleted. repeat case_match; done. Qed.

Lemma CheckAndUpdateSet_1 key score c :
  (CheckAndUpdateSet key score c).1 = WouldDeduplicateSet key score c.
Proof. unfold CheckAndUpdateSet, WouldDeduplicateSet. repeat case_match; done. Qed.

Lemma CheckAndMarkDeleted_1 key c :
  (CheckAndMarkDeleted key c).1 = WouldDeduplicateDel key c.
Proof. unfold CheckAndMarkDeleted, WouldDeduplicateDel. repeat case_match; done. Qed.

Lemma MarkDeleted_UpdateScore key c : MarkDeleted key c = UpdateScore key kDeletedScore c.
Proof. done. Qed.

Lemma states_TouchLocked key c :
  is_Some (find c key) → states_ (TouchLocked key c) = lru_touch key (states_ c).
Proof. intros [s Hs]. unfold TouchLocked. by rewrite Hs. Qed.

Lemma EvictIfFull_states c :
  lru_ok (states_ c) →
  states_ (EvictIfFull c) =
  if max_size_ c <=? Size c then lru_pop_back (states_ c) else states_ c.
Proof.
  intros Hok. unfold EvictIfFull, Size. destruct (max_size_ c <=? _); [|done].
  case_bool_decide as Hl; simpl; [|done].
  unfold lru_pop_back. by rewrite Hl.
Qed.

Lemma max_size_EvictIfFull c : max_size_ (EvictIfFull c) = max_size_ c.
Proof. unfold EvictIfFull. by case_match. Qed.
Lemma max_size_TouchLocked key c : max_size_ (TouchLocked key c) = max_size_ c.
Proof. unfold TouchLocked. by case_match. Qed.

Lemma state_ok_counters c c' :
  max_size_ c' = max_size_ c → states_ c' = states_ c → state_ok c → state_ok c'.
Proof. unfold state_ok, Size. by intros -> ->. Qed.

Lemma state_ok_TouchLocked key c : state_ok c → state_ok (TouchLocked key c).
Proof.
  intros (Hm & Hok & Hs). unfold TouchLocked. destruct (find c key) eqn:Hf; [|done].
  split; [done|]. split; simpl; [|done]. apply lru_ok_touch; [done|]. unfold find in Hf. eauto.
Qed.

Lemma state_ok_UpdateScore key score c : state_ok c → state_ok (UpdateScore key score c).
Proof.
  intros (Hm & Hok & Hs). unfold UpdateScore. destruct (find c key) eqn:Hf.
  - apply state_ok_TouchLocked. unfold find in Hf. split; [done|]. split; simpl.
    + apply lru_ok_set; eauto.
    + unfold Size in *. simpl. by rewrite map_size_insert_Some by eauto.
  - unfold state_ok, Size, find in *. simpl.
    rewrite max_size_EvictIfFull, EvictIfFull_states by done. split; [done|].
    unfold Size. destruct (Z.leb_spec (max_size_ c) (Z.of_nat (size (lru_map (states_ c))))).
    + split; [eauto with nvecd|]. rewrite map_size_insert_None by eauto with nvecd.
      rewrite lru_pop_back_size by done. lia.
    + split; [eauto with nvecd|]. rewrite map_size_insert_None by done. lia.
Qed.

Lemma state_ok_CheckAndUpdateSet key score c :
  state_ok c → state_ok (CheckAndUpdateSet key score c).2.
Proof.
  intros Hok. rewrite CheckAndUpdateSet_2. case_match.
  - by apply state_ok_TouchLocked, (state_ok_counters c).
  - by apply state_ok_UpdateScore, (state_ok_counters c).
Qed.

Lemma state_ok_CheckAndMarkDeleted key c :
  state_ok c → state_ok (CheckAndMarkDeleted key c).2.
Proof.
  intros Hok. rewrite CheckAndMarkDeleted_2. case_match.
  - by apply state_ok_TouchLocked, (state_ok_counters c).
  - rewrite MarkDeleted_UpdateScore. by apply state_ok_UpdateScore, (state_ok_counters c).
Qed.

(** ** The abstract cache *)

Definition contents (c : StateCache) : list (StateKey * Z) := lru_bindings (states_ c).

(** Record [score] for [key]: to the front, evicting beyond [max]. *)
Definition spec_update (max : Z) (key : StateKey) (score : Z) (l : list (StateKey * Z)) :
    list (StateKey * Z) :=
  take (Z.to_nat max) ((key, score) :: assoc_remove key l).

Lemma assoc_remove_absent c key :
  lru_ok (states_ c) → find c key = None → assoc_remove key (contents c) = contents c.
Proof.
  intros Hok Hf. apply filter_id. intros [k v] Hin Hk. simpl in Hk; subst k.
  apply bindings_lookup in Hin; [|done]. unfold find in Hf. congruence.
Qed.

Lemma length_assoc_remove_present c key :
  state_ok c → is_Some (find c key) →
  Z.of_nat (S (length (assoc_remove key (contents c)))) ≤ max_size_ c.
Proof.
  intros (_ & Hok & Hs) Hf. unfold contents. rewrite <- bindings_remove.
  rewrite length_bindings by (by apply lru_ok_remove). simpl.
  pose proof (size_delete_Some (lru_map (states_ c)) key Hf). unfold Size in Hs. lia.
Qed.

Lemma UpdateScore_contents key score c :
  state_ok c →
  contents (UpdateScore key score c) = spec_update (max_size_ c) key score (contents c).
Proof.
  intros Hst. pose proof Hst as (Hm & Hok & Hs). unfold UpdateScore, spec_update.
  destruct (find c key) eqn:Hf.
  - unfold contents. rewrite states_TouchLocked
      by (unfold find; simpl; rewrite lookup_insert_eq; eauto).
    simpl. rewrite bindings_set_touch. rewrite take_ge; [done|].
    pose proof (length_assoc_remove_present c key Hst ltac:(eauto)).
    unfold contents in *. simpl. lia.
  - rewrite assoc_remove_absent by done. unfold contents; simpl.
    rewrite EvictIfFull_states by done. unfold Size, find in *.
    assert (Hlen : length (lru_bindings (states_ c)) = size (lru_map (states_ c)))
      by by apply length_bindings.
    destruct (Z.leb_spec (max_size_ c) (Z.of_nat (size (lru_map (states_ c))))).
    + rewrite bindings_push_front by eauto with nvecd.
      rewrite bindings_pop_back by done.
      replace (Z.to_nat (max_size_ c)) with (S (size (lru_map (states_ c)) - 1)) by lia. done.
    + rewrite bindings_push_front by eauto with nvecd.
      rewrite take_ge; [done|]. simpl. lia.
Qed.

(** The value recorded for the key just updated, and for every other key that
    has not been evicted. *)
Lemma find_UpdateScore key score c : find (UpdateScore key score c) key = Some score.
Proof.
  unfold UpdateScore. destruct (find c key) eqn:Hf.
  - unfold find. unfold TouchLocked, find; simpl. rewrite lookup_insert_eq. simpl.
    apply lookup_insert_eq.
  - unfold find; simpl. apply lookup_insert_eq.
Qed.

Lemma find_TouchLocked key k c : find (TouchLocked key c) k = find c k.
Proof. unfold TouchLocked. by case_match. Qed.

(** What either checked mutator does with the score it records. *)
Lemma checked_put_refines (c : StateCache) (key : StateKey) (score : Z) (r : bool * StateCache) :
  state_ok c →
  r.1 = match find c key with Some s => s =? score | None => false end →
  r.2 = (if r.1 then TouchLocked key (hit c) else UpdateScore key score (miss c)) →
  (if r.1 then find c key = Some score ∧ states_ r.2 = lru_touch key (states_ c)
   else find c key ≠ Some score ∧ contents r.2 = spec_update (max_size_ c) key score (contents c)) ∧
  find r.2 key = Some score ∧ state_ok r.2.
Proof.
  intros Hok E1 E2. destruct r as [[] c']; simpl in *; subst c'.
  - destruct (find c key) as [s|] eqn:Hf; [|done].
    symmetry in E1. apply Z.eqb_eq in E1 as ->.
    split; [split; [done|]|split].
    + apply (states_TouchLocked key (hit c)). by exists score.
    + by rewrite find_TouchLocked.
    + by apply state_ok_TouchLocked, (state_ok_counters c).
  - split; [split|split].
    + intros Hf. rewrite Hf, Z.eqb_refl in E1. done.
    + apply (UpdateScore_contents _ _ (miss c)). by apply (state_ok_counters c).
    + apply find_UpdateScore.
    + by apply state_ok_UpdateScore, (state_ok_counters c).
Qed.

(** ** Claims *)

(** The two checked mutators of the last-value cache implement the
    recency-list specification: a repeated SET of the recorded score (or a
    repeated DEL) is reported as a duplicate and only moves to the front; any
    other SET/DEL is accepted and recorded at the front, with the oldest entry
    dropped beyond [max_size]; afterwards the same call is a duplicate. *)
Lemma state_cache_refines (c : StateCache) (key : StateKey) (score : Z) :
  state_ok c →
  let s := CheckAndUpdateSet key score c in
  let d := CheckAndMarkDeleted key c in
  (if s.1 then find c key = Some score ∧ states_ s.2 = lru_touch key (states_ c)
   else find c key ≠ Some score ∧
        contents s.2 = spec_update (max_size_ c) key score (contents c)) ∧
  (if d.1 then find c key = Some kDeletedScore ∧ states_ d.2 = lru_touch key (states_ c)
   else find c key ≠ Some kDeletedScore ∧
        contents d.2 = spec_update (max_size_ c) key kDeletedScore (contents c)) ∧
  WouldDeduplicateSet key score s.2 = true ∧ WouldDeduplicateDel key d.2 = true ∧
  state_ok s.2 ∧ state_ok d.2.
Proof.
  intros Hok. cbn zeta.
  destruct (checked_put_refines c key score (CheckAndUpdateSet key score c)) as (S1 & S2 & S3);
    [done|apply CheckAndUpdateSet_1|rewrite CheckAndUpdateSet_1; apply CheckAndUpdateSet_2|].
  destruct (checked_put_refines c key kDeletedScore (CheckAndMarkDeleted key c)) as (D1 & D2 & D3);
    [done|apply CheckAndMarkDeleted_1
    |rewrite CheckAndMarkDeleted_1, <- MarkDeleted_UpdateScore; apply CheckAndMarkDeleted_2|].
  unfold WouldDeduplicateSet, WouldDeduplicateDel. rewrite S2, D2, !Z.eqb_refl. done.
Qed.

Lemma state_cache_refines_witness :
  WouldDeduplicateSet (MkStateKey "u" "a") 5
    (CheckAndUpdateSet (MkStateKey "u" "a") 5 (new 2)).2 = true.
Proof.
  apply (state_cache_refines (new 2) (MkStateKey "u" "a") 5 (state_ok_new 2 ltac:(lia))).
Defined.
