(* ===== verification/EventStore.v ===== *)
(** * [events::EventStore] (src/events/event_store.h, event_store.cpp)

    Per-context ring buffers, the two deduplication caches, least-recently-used
    context eviction, and the counters.  Structured logging and the locks are
    not modelled: every operation runs under one lock and is one step. *)

From S2P Require Import Prelude RingBuffer Lru DedupCache StateCache.
#[local] Open Scope Z_scope.

(** [enum class EventType : uint8_t].  The underlying type is fixed, so a
    value read from a WAL payload may have no enumerator: [Unnamed]. *)
Inductive EventType : Type := ADD | SET | DEL | Unnamed (raw : byte).

#[export] Instance EventType_eq_dec : EqDecision EventType.
Proof. solve_decision. Defined.

Record Event : Type := MkEvent {
  item_id : string;
  score : Z;
  ev_timestamp : Z;
  type : EventType
}.

#[export] Instance Event_eq_dec : EqDecision Event.
Proof. solve_decision. Defined.
#[export] Instance Event_inhabited : Inhabited Event := populate (MkEvent "" 0 0 ADD).
#[export] Instance RingBuffer_eq_dec {T} `{EqDecision T} : EqDecision (RingBuffer T).
Proof. solve_decision. Defined.

(** The fields of [config::EventsConfig] the store reads. *)
Record EventsConfig : Type := MkEventsConfig {
  ctx_buffer_size : Z;
  max_contexts : Z;
  dedup_window_sec : Z;
  dedup_cache_size : Z
}.
#[export] Instance EventsConfig_eq_dec : EqDecision EventsConfig.
Proof. solve_decision. Defined.

(** Readings of the two clocks: seconds since the epoch, monotonic nanoseconds. *)
Record Clock : Type := MkClock { wall : Z; mono : Z }.

Record EventStore : Type := MkEventStore {
  config_ : EventsConfig;
  ctx_events_ : gmap string (RingBuffer Event);
  ctx_last_access_ : gmap string Z;
  context_access_sequence_ : Z;
  total_events_ : Z;
  deduped_events_ : Z;
  dedup_cache_ : option DedupCache;
  state_cache_ : option StateCache
}.
#[export] Instance EventStore_eq_dec : EqDecision EventStore.
Proof. solve_decision. Defined.

Record IngestResult : Type := MkIngestResult {
  deduped : bool;
  stored_event : Event;
  prior_events : list Event
}.
Record PreparedEvent : Type := MkPreparedEvent { p_deduped : bool; p_event : Event }.

#[export] Instance IngestResult_eq_dec : EqDecision IngestResult.
Proof. solve_decision. Defined.
#[export] Instance PreparedEvent_eq_dec : EqDecision PreparedEvent.
Proof. solve_decision. Defined.

Definition new_store (config : EventsConfig) : EventStore :=
  MkEventStore config ∅ ∅ 0 0 0
    (if (0 <? dedup_window_sec config) && (0 <? dedup_cache_size config)
     then Some (DedupCache.new (dedup_cache_size config) (dedup_window_sec config)) else None)
    (if 0 <? dedup_cache_size config
     then Some (StateCache.new (dedup_cache_size config)) else None).

Definition kMinEventScore : Z := 0.
Definition kMaxEventScore : Z := 100.

Definition ResolveTimestamp (clk : Clock) (ts : Z) : Z :=
  if ts =? 0 then u64 (wall clk) else ts.

(** The input checks shared by [PrepareEvent] and [AddEventAndGetPrior]. *)
Definition ValidateEvent (ctx id : string) (sc : Z) (ty : EventType) : Expected unit :=
  if bool_decide (ctx = "") then throw kEventStoreError "Context cannot be empty"
  else if bool_decide (id = "") then throw kEventStoreError "ID cannot be empty"
  else if negb (bool_decide (ty = DEL)) && ((sc <? kMinEventScore) || (kMaxEventScore <? sc))
  then throw kEventInvalidScore ("Score must be in range [0, 100], got " +:+ pretty sc)
  else Ok tt.

Definition PrepareEvent (clk : Clock) (ctx id : string) (sc : Z) (ty : EventType) (ts : Z)
    (s : EventStore) : Expected PreparedEvent :=
  let? _ := ValidateEvent ctx id sc ty in
  let rts := ResolveTimestamp clk ts in
  let '(dup, sc) :=
    match ty with
    | ADD => (match dedup_cache_ s with
              | Some c => WouldDeduplicate (MkEventKey ctx id sc) rts (mono clk) c
              | None => false end, sc)
    | SET => (match state_cache_ s with
              | Some c => WouldDeduplicateSet (MkStateKey ctx id) sc c
              | None => false end, sc)
    | DEL => (match state_cache_ s with
              | Some c => WouldDeduplicateDel (MkStateKey ctx id) c
              | None => false end, 0)
    | Unnamed _ => (false, sc)
    end in
  Ok (MkPreparedEvent dup (MkEvent id sc rts ty)).

Definition bump_total (s : EventStore) : EventStore :=
  MkEventStore (config_ s) (ctx_events_ s) (ctx_last_access_ s) (context_access_sequence_ s)
    (u64 (total_events_ s + 1)) (deduped_events_ s) (dedup_cache_ s) (state_cache_ s).
Definition bump_deduped (s : EventStore) : EventStore :=
  MkEventStore (config_ s) (ctx_events_ s) (ctx_last_access_ s) (context_access_sequence_ s)
    (total_events_ s) (u64 (deduped_events_ s + 1)) (dedup_cache_ s) (state_cache_ s).
Definition with_dedup (c : option DedupCache) (s : EventStore) : EventStore :=
  MkEventStore (config_ s) (ctx_events_ s) (ctx_last_access_ s) (context_access_sequence_ s)
    (total_events_ s) (deduped_events_ s) c (state_cache_ s).
Definition with_state (c : option StateCache) (s : EventStore) : EventStore :=
  MkEventStore (config_ s) (ctx_events_ s) (ctx_last_access_ s) (context_access_sequence_ s)
    (total_events_ s) (deduped_events_ s) (dedup_cache_ s) c.
Definition with_contexts (ev : gmap string (RingBuffer Event)) (la : gmap string Z) (seq : Z)
    (s : EventStore) : EventStore :=
  MkEventStore (config_ s) ev la seq (total_events_ s) (deduped_events_ s)
    (dedup_cache_ s) (state_cache_ s).

(** [std::min_element] by access sequence: the first smallest. *)
Fixpoint min_access (l : list (string * Z)) : option (string * Z) :=
  match l with
  | [] => None
  | p :: l' => match min_access l' with
               | Some q => Some (if q.2 <? p.2 then q else p)
               | None => Some p
               end
  end.

Section with_order.
Context {order : IterOrder}.

Definition EvictLeastRecentlyUsedContextLocked (s : EventStore) : EventStore :=
  if (max_contexts (config_ s) =? 0) ||
     (Z.of_nat (size (ctx_events_ s)) <? max_contexts (config_ s)) then s
  else match min_access (iter_order (ctx_last_access_ s)) with
       | None => s
       | Some (victim, _) =>
           with_contexts (delete victim (ctx_events_ s)) (delete victim (ctx_last_access_ s))
             (context_access_sequence_ s) s
       end.

Definition TouchContextLocked (ctx : string) (s : EventStore) : EventStore :=
  let seq := u64 (context_access_sequence_ s + 1) in
  with_contexts (ctx_events_ s) (<[ctx := seq]> (ctx_last_access_ s)) seq s.

(** Find-or-create the context's ring buffer, evicting if needed, then touch. *)
Definition EnsureContext (ctx : string) (s : EventStore) : EventStore :=
  let s := match ctx_events_ s !! ctx with
           | Some _ => s
           | None =>
               let s := EvictLeastRecentlyUsedContextLocked s in
               with_contexts
                 (<[ctx := RingBuffer.new (Z.to_nat (ctx_buffer_size (config_ s)))]> (ctx_events_ s))
                 (ctx_last_access_ s) (context_access_sequence_ s) s
           end in
  TouchContextLocked ctx s.

Definition ring_of (ctx : string) (s : EventStore) : RingBuffer Event :=
  default (RingBuffer.new (Z.to_nat (ctx_buffer_size (config_ s)))) (ctx_events_ s !! ctx).

Definition PushEvent (ctx : string) (e : Event) (s : EventStore) : EventStore :=
  with_contexts (<[ctx := Push e (ring_of ctx s)]> (ctx_events_ s))
    (ctx_last_access_ s) (context_access_sequence_ s) s.

(** The deduplication switch: whether the event is a duplicate, and the store
    with the cache that was consulted updated. *)
Definition CheckDuplicate (clk : Clock) (ctx id : string) (sc : Z) (ty : EventType) (ts : Z)
    (s : EventStore) : bool * EventStore :=
  match ty with
  | ADD => match dedup_cache_ s with
           | Some c => let '(d, c') := CheckAndInsert (MkEventKey ctx id sc) ts (mono clk) c in
                       (d, with_dedup (Some c') s)
           | None => (false, s)
           end
  | SET => match state_cache_ s with
           | Some c => let '(d, c') := CheckAndUpdateSet (MkStateKey ctx id) sc c in
                       (d, with_state (Some c') s)
           | None => (false, s)
           end
  | DEL => match state_cache_ s with
           | Some c => let '(d, c') := CheckAndMarkDeleted (MkStateKey ctx id) c in
                       (d, with_state (Some c') s)
           | None => (false, s)
           end
  | Unnamed _ => (false, s)
  end.

Definition AddEventAndGetPrior (clk : Clock) (ctx id : string) (sc : Z) (ty : EventType) (ts : Z)
    (s : EventStore) : Expected IngestResult * EventStore :=
  match ValidateEvent ctx id sc ty with
  | Unexpected e => (Unexpected e, s)
  | Ok _ =>
      let ts := ResolveTimestamp clk ts in
      let s := bump_total s in
      let '(dup, s) := CheckDuplicate clk ctx id sc ty ts s in
      if dup then (Ok (MkIngestResult true (MkEvent "" 0 0 ADD) []), bump_deduped s)
      else
        let sc := if bool_decide (ty = DEL) then 0 else sc in
        let event := MkEvent id sc ts ty in
        let s := EnsureContext ctx s in
        let prior := GetAll (ring_of ctx s) in
        (Ok (MkIngestResult false event prior), PushEvent ctx event s)
  end.

Definition AddEvent (clk : Clock) (ctx id : string) (sc : Z) (ty : EventType) (ts : Z)
    (s : EventStore) : Expected unit * EventStore :=
  let '(r, s) := AddEventAndGetPrior clk ctx id sc ty ts s in
  (let? _ := r in Ok tt, s).

Definition RestoreEvent (ctx : string) (event : Event) (s : EventStore)
    : Expected unit * EventStore :=
  if bool_decide (ctx = "") then (throw kInvalidArgument "Context cannot be empty", s)
  else if bool_decide (item_id event = "") then (throw kInvalidArgument "ID cannot be empty", s)
  else
    let s := PushEvent ctx event (EnsureContext ctx (bump_total s)) in
    let key := MkStateKey ctx (item_id event) in
    (Ok tt,
     match state_cache_ s with
     | None => s
     | Some c => match type event with
                 | SET => with_state (Some (UpdateScore key (score event) c)) s
                 | DEL => with_state (Some (MarkDeleted key c)) s
                 | _ => s
                 end
     end).

Definition GetEvents (ctx : string) (s : EventStore) : list Event :=
  match ctx_events_ s !! ctx with None => [] | Some r => GetAll r end.

Definition GetContextCount (s : EventStore) : Z := Z.of_nat (size (ctx_events_ s)).
Definition GetAllContexts (s : EventStore) : list string := (iter_order (ctx_events_ s)).*1.

(** [Clear] resets the store and both caches. *)
Definition ClearStore (s : EventStore) : EventStore :=
  MkEventStore (config_ s) ∅ ∅ 0 0 0
    (DedupCache.Clear <$> dedup_cache_ s) (StateCache.Clear <$> state_cache_ s).

(** [a.SwapState(b)] for distinct stores: everything but the configuration. *)
Definition SwapState (a b : EventStore) : EventStore * EventStore :=
  (MkEventStore (config_ a) (ctx_events_ b) (ctx_last_access_ b) (context_access_sequence_ b)
     (total_events_ b) (deduped_events_ b) (dedup_cache_ b) (state_cache_ b),
   MkEventStore (config_ b) (ctx_events_ a) (ctx_last_access_ a) (context_access_sequence_ a)
     (total_events_ a) (deduped_events_ a) (dedup_cache_ a) (state_cache_ a)).

Definition stored_events (s : EventStore) : Z :=
  Z.of_nat (sum_list ((λ p, RingBuffer.Size p.2) <$> iter_order (ctx_events_ s))).
End with_order.

(** ** Invariant *)

Record store_ok (s : EventStore) : Prop := {
  so_buffer : 0 < ctx_buffer_size (config_ s);
  so_max : 0 ≤ max_contexts (config_ s);
  so_rings : map_Forall (λ _ r, ring_ok r ∧
    capacity_ r = Z.to_nat (ctx_buffer_size (config_ s))) (ctx_events_ s);
  so_dom : dom (ctx_events_ s) = dom (ctx_last_access_ s);
  so_seq : map_Forall (λ _ n, 0 < n ≤ context_access_sequence_ s) (ctx_last_access_ s);
  so_seq_nonneg : 0 ≤ context_access_sequence_ s;
  so_inj : ∀ c c' n, ctx_last_access_ s !! c = Some n → ctx_last_access_ s !! c' = Some n → c = c';
  so_bound : max_contexts (config_ s) ≠ 0 →
    Z.of_nat (size (ctx_events_ s)) ≤ max_contexts (config_ s);
  so_dedup : ∀ c, dedup_cache_ s = Some c → dedup_ok c;
  so_state : ∀ c, state_cache_ s = Some c → state_ok c
}.

(** The access counter has not reached the last [uint64_t]. *)
Definition seq_room (s : EventStore) : Prop := context_access_sequence_ s < u64_max.

Lemma store_ok_new cfg :
  0 < ctx_buffer_size cfg → 0 ≤ max_contexts cfg → store_ok (new_store cfg).
Proof.
  intros Hb Hm. unfold new_store.
  constructor; simpl; rewrite ?dom_empty_L, ?map_size_empty; try done;
    try by (intros ???; rewrite ?lookup_empty).
  - intros c. destruct (Z.ltb_spec 0 (dedup_window_sec cfg)),
      (Z.ltb_spec 0 (dedup_cache_size cfg)); intros; simpl in *; simplify_eq.
    by apply dedup_ok_new.
  - intros c. destruct (Z.ltb_spec 0 (dedup_cache_size cfg)); intros; simpl in *; simplify_eq.
    by apply state_ok_new.
Qed.

(** Only the fields of the invariant matter. *)
Lemma store_ok_counters s s' :
  config_ s' = config_ s → ctx_events_ s' = ctx_events_ s →
  ctx_last_access_ s' = ctx_last_access_ s →
  context_access_sequence_ s' = context_access_sequence_ s →
  (∀ c, dedup_cache_ s' = Some c → dedup_ok c) →
  (∀ c, state_cache_ s' = Some c → state_ok c) →
  store_ok s → store_ok s'.
Proof.
  intros E1 E2 E3 E4 Hd Hs []. constructor; rewrite ?E1, ?E2, ?E3, ?E4; done.
Qed.

Lemma size_dom_eq (s : EventStore) :
  dom (ctx_events_ s) = dom (ctx_last_access_ s) →
  size (ctx_events_ s) = size (ctx_last_access_ s).
Proof. intros Hd. by rewrite <- !size_dom, Hd. Qed.

Lemma min_access_None l : min_access l = None ↔ l = [].
Proof. destruct l as [|p l]; simpl; [done|]. destruct (min_access l); done. Qed.

Lemma min_access_Some l p :
  min_access l = Some p → p ∈ l ∧ ∀ q, q ∈ l → p.2 ≤ q.2.
Proof.
  revert p; induction l as [|x l IH]; intros p; simpl; [done|].
  destruct (min_access l) as [m|] eqn:E; intros Heq; simplify_eq.
  - destruct (IH m eq_refl) as [Hin Hle].
    destruct (Z.ltb_spec m.2 x.2); (split; [set_solver|]);
      intros q [->|Hq]%elem_of_cons; try specialize (Hle _ Hq); lia.
  - apply min_access_None in E as ->. split; [left|].
    intros q ->%list_elem_of_singleton. lia.
Qed.

Section facts.
Context {order : IterOrder}.
Implicit Types (s : EventStore) (ctx id : string).

(** The context the eviction removes: present, and least recently used. *)
Definition lru_victim s (v : string) : Prop :=
  ∃ n, ctx_last_access_ s !! v = Some n ∧
    ∀ c m, ctx_last_access_ s !! c = Some m → n ≤ m.

Lemma min_access_victim s v n :
  min_access (iter_order (ctx_last_access_ s)) = Some (v, n) → lru_victim s v.
Proof.
  intros [Hin Hle]%min_access_Some. exists n. split.
  - by apply elem_of_iter_order in Hin.
  - intros c m Hc. apply (Hle (c, m)). by apply elem_of_iter_order.
Qed.

Lemma Evict_cases s :
  store_ok s →
  (EvictLeastRecentlyUsedContextLocked s = s ∧
    (max_contexts (config_ s) = 0 ∨
     Z.of_nat (size (ctx_events_ s)) < max_contexts (config_ s))) ∨
  (∃ v, lru_victim s v ∧ max_contexts (config_ s) ≠ 0 ∧
    max_contexts (config_ s) = Z.of_nat (size (ctx_events_ s)) ∧
    EvictLeastRecentlyUsedContextLocked s =
      with_contexts (delete v (ctx_events_ s)) (delete v (ctx_last_access_ s))
        (context_access_sequence_ s) s).
Proof.
  intros Hok. unfold EvictLeastRecentlyUsedContextLocked.
  destruct (Z.eqb_spec (max_contexts (config_ s)) 0); [by left; auto|].
  destruct (Z.ltb_spec (Z.of_nat (size (ctx_events_ s))) (max_contexts (config_ s)));
    [by left; auto|]. simpl.
  pose proof (so_bound _ Hok ltac:(done)). pose proof (so_max _ Hok).
  destruct (min_access _) as [[v k]|] eqn:E.
  - right. exists v. split; [by eapply min_access_victim|]. split; [done|]. split; [lia|done].
  - exfalso. apply min_access_None in E.
    pose proof (length_iter_order (ctx_last_access_ s)) as Hl. rewrite E in Hl. simpl in Hl.
    rewrite (size_dom_eq s) in * by apply Hok. lia.
Qed.

Lemma store_ok_delete s v :
  store_ok s →
  store_ok (with_contexts (delete v (ctx_events_ s)) (delete v (ctx_last_access_ s))
              (context_access_sequence_ s) s).
Proof.
  intros []. constructor; simpl; try done.
  - by apply map_Forall_delete.
  - rewrite !dom_delete_L. by f_equal.
  - by apply map_Forall_delete.
  - intros c c' n [_ Hc]%lookup_delete_Some [_ Hc']%lookup_delete_Some. eauto.
  - intros Hm. specialize (so_bound0 Hm).
    pose proof (size_delete_le (ctx_events_ s) v). lia.
Qed.

Lemma store_ok_Evict s : store_ok s → store_ok (EvictLeastRecentlyUsedContextLocked s).
Proof.
  intros Hok. destruct (Evict_cases s Hok) as [[-> _]|(v & _ & _ & _ & ->)]; [done|].
  by apply store_ok_delete.
Qed.

Lemma size_Evict s :
  store_ok s → max_contexts (config_ s) ≠ 0 →
  Z.of_nat (size (ctx_events_ (EvictLeastRecentlyUsedContextLocked s))) < max_contexts (config_ s).
Proof.
  intros Hok Hm. destruct (Evict_cases s Hok) as [[-> [?|?]]|(v & Hv & _ & Hs & ->)]; try lia.
  simpl. destruct Hv as (k & Hk & _).
  assert (is_Some (ctx_events_ s !! v)) as [r Hr].
  { apply elem_of_dom. rewrite (so_dom _ Hok). apply elem_of_dom. eauto. }
  pose proof (size_delete_Some (ctx_events_ s) v ltac:(eauto)). lia.
Qed.

(** *** EnsureContext, PushEvent *)

Lemma config_Evict s : config_ (EvictLeastRecentlyUsedContextLocked s) = config_ s.
Proof. unfold EvictLeastRecentlyUsedContextLocked. repeat case_match; done. Qed.

Lemma config_EnsureContext ctx s : config_ (EnsureContext ctx s) = config_ s.
Proof. unfold EnsureContext. simpl. case_match; [done|]. simpl. apply config_Evict. Qed.

Lemma seq_Evict s :
  context_access_sequence_ (EvictLeastRecentlyUsedContextLocked s) = context_access_sequence_ s.
Proof. unfold EvictLeastRecentlyUsedContextLocked. repeat case_match; done. Qed.

Lemma Evict_None s ctx :
  ctx_events_ s !! ctx = None → ctx_events_ (EvictLeastRecentlyUsedContextLocked s) !! ctx = None.
Proof.
  intros Hn. unfold EvictLeastRecentlyUsedContextLocked. repeat case_match; try done.
  simpl. rewrite lookup_delete. by case_decide.
Qed.

Lemma dedup_Evict s : dedup_cache_ (EvictLeastRecentlyUsedContextLocked s) = dedup_cache_ s.
Proof. unfold EvictLeastRecentlyUsedContextLocked. repeat case_match; done. Qed.
Lemma state_Evict s : state_cache_ (EvictLeastRecentlyUsedContextLocked s) = state_cache_ s.
Proof. unfold EvictLeastRecentlyUsedContextLocked. repeat case_match; done. Qed.

Lemma store_ok_Touch ctx s r :
  store_ok s → seq_room s → ctx_events_ s !! ctx = Some r →
  store_ok (TouchContextLocked ctx s).
Proof.
  intros [] Hroom Hr. unfold seq_room, u64_max in Hroom.
  unfold TouchContextLocked, u64. rewrite wrap_small by (unfold in_u; lia).
  constructor; simpl; try done.
  - rewrite dom_insert_L, so_dom0. symmetry. apply subseteq_union_1_L.
    rewrite <- so_dom0. apply singleton_subseteq_l, elem_of_dom. eauto.
  - apply map_Forall_insert_2; [lia|]. eapply map_Forall_impl; [done|]. simpl. lia.
  - lia.
  - intros c c' n. rewrite !lookup_insert. repeat case_decide; subst; try done.
    + intros [= <-] Hc'. apply so_seq0 in Hc'. lia.
    + intros Hc' [= <-]. apply so_seq0 in Hc'. lia.
    + eauto.
Qed.

Lemma store_ok_create ctx s :
  store_ok s → seq_room s →
  (max_contexts (config_ s) ≠ 0 →
    Z.of_nat (size (ctx_events_ s)) < max_contexts (config_ s)) →
  ctx_events_ s !! ctx = None →
  store_ok (TouchContextLocked ctx (with_contexts
    (<[ctx := RingBuffer.new (Z.to_nat (ctx_buffer_size (config_ s)))]> (ctx_events_ s))
    (ctx_last_access_ s) (context_access_sequence_ s) s)).
Proof.
  intros [] Hroom Hsz Hn. unfold seq_room, u64_max in Hroom.
  unfold TouchContextLocked, u64. simpl. rewrite wrap_small by (unfold in_u; lia).
  constructor; simpl; try done.
  - apply map_Forall_insert_2; [|done]. split; [|done]. apply ring_ok_new. lia.
  - rewrite !dom_insert_L. by f_equal.
  - apply map_Forall_insert_2; [lia|]. eapply map_Forall_impl; [done|]. simpl. lia.
  - lia.
  - intros c c' n. rewrite !lookup_insert. repeat case_decide; subst; try done.
    + intros [= <-] Hc'. apply so_seq0 in Hc'. lia.
    + intros Hc' [= <-]. apply so_seq0 in Hc'. lia.
    + eauto.
  - intros Hm. rewrite map_size_insert_None by done. specialize (Hsz Hm). lia.
Qed.

Lemma store_ok_EnsureContext ctx s : store_ok s → seq_room s → store_ok (EnsureContext ctx s).
Proof.
  intros Hok Hroom. unfold EnsureContext.
  destruct (ctx_events_ s !! ctx) as [r|] eqn:Hr.
  - by eapply store_ok_Touch.
  - apply store_ok_create.
    + by apply store_ok_Evict.
    + unfold seq_room. by rewrite seq_Evict.
    + rewrite config_Evict. intros. by apply size_Evict.
    + by apply Evict_None.
Qed.

Lemma EnsureContext_is_Some ctx s : is_Some (ctx_events_ (EnsureContext ctx s) !! ctx).
Proof.
  unfold EnsureContext. simpl. destruct (ctx_events_ s !! ctx) eqn:E; simpl.
  - rewrite E. eauto.
  - rewrite lookup_insert_eq. eauto.
Qed.

Lemma store_ok_PushEvent ctx e s :
  store_ok s → is_Some (ctx_events_ s !! ctx) → store_ok (PushEvent ctx e s).
Proof.
  intros Hok [r Hr]. destruct (so_rings _ Hok ctx r Hr) as [Hring Hcap]. destruct Hok.
  unfold PushEvent, ring_of. rewrite Hr. simpl. constructor; simpl; try done.
  - apply map_Forall_insert_2; [|done]. split; [by apply ring_ok_push|done].
  - rewrite dom_insert_L, <- so_dom0. apply subseteq_union_1_L.
    apply singleton_subseteq_l, elem_of_dom. eauto.
  - intros Hm. rewrite map_size_insert_Some by eauto. auto.
Qed.

Lemma GetEvents_ring ctx s : GetEvents ctx s = GetAll (ring_of ctx s).
Proof. unfold GetEvents, ring_of. by destruct (ctx_events_ s !! ctx). Qed.

(** The ring of a context that is ensured holds what it held before. *)
Lemma GetEvents_EnsureContext ctx s : GetEvents ctx (EnsureContext ctx s) = GetEvents ctx s.
Proof.
  unfold GetEvents, EnsureContext. simpl.
  destruct (ctx_events_ s !! ctx) eqn:E; simpl; [by rewrite E|].
  by rewrite lookup_insert_eq.
Qed.

Lemma GetEvents_EnsureContext_other ctx c s :
  store_ok s → c ≠ ctx →
  GetEvents c (EnsureContext ctx s) = GetEvents c s ∨
  (ctx_events_ s !! ctx = None ∧ lru_victim s c ∧
   max_contexts (config_ s) = GetContextCount s ∧ GetEvents c (EnsureContext ctx s) = []).
Proof.
  intros Hok Hne. unfold GetEvents, EnsureContext. simpl.
  destruct (ctx_events_ s !! ctx) eqn:E; simpl; [by left|].
  rewrite lookup_insert_ne by done.
  destruct (Evict_cases s Hok) as [[-> _]|(v & Hv & _ & Hmax & ->)]; [by left|]. simpl.
  destruct (decide (v = c)) as [->|].
  - right. rewrite lookup_delete_eq. done.
  - left. by rewrite lookup_delete_ne.
Qed.

Lemma GetEvents_PushEvent ctx e s :
  store_ok s → is_Some (ctx_events_ s !! ctx) →
  GetEvents ctx (PushEvent ctx e s) =
    lastn (Z.to_nat (ctx_buffer_size (config_ s))) (GetEvents ctx s ++ [e]).
Proof.
  intros Hok [r Hr]. destruct (so_rings _ Hok ctx r Hr) as [Hring Hcap].
  rewrite (GetEvents_ring ctx s). unfold GetEvents, PushEvent, ring_of; simpl.
  rewrite lookup_insert_eq, Hr. simpl. rewrite GetAll_push by done. by rewrite Hcap.
Qed.

Lemma GetEvents_PushEvent_other ctx c e s :
  c ≠ ctx → GetEvents c (PushEvent ctx e s) = GetEvents c s.
Proof. intros. unfold GetEvents, PushEvent; simpl. by rewrite lookup_insert_ne. Qed.

(** *** The deduplication switch *)

Lemma store_ok_bump_total s : store_ok s → store_ok (bump_total s).
Proof. intros Hok. eapply store_ok_counters; [..|exact Hok]; try done; apply Hok. Qed.
Lemma store_ok_bump_deduped s : store_ok s → store_ok (bump_deduped s).
Proof. intros Hok. eapply store_ok_counters; [..|exact Hok]; try done; apply Hok. Qed.

(** [CheckDuplicate] touches nothing but the caches. *)
Lemma CheckDuplicate_frame clk ctx id sc ty ts s :
  let s' := (CheckDuplicate clk ctx id sc ty ts s).2 in
  config_ s' = config_ s ∧ ctx_events_ s' = ctx_events_ s ∧
  ctx_last_access_ s' = ctx_last_access_ s ∧
  context_access_sequence_ s' = context_access_sequence_ s ∧
  total_events_ s' = total_events_ s ∧ deduped_events_ s' = deduped_events_ s.
Proof. unfold CheckDuplicate. repeat case_match; done. Qed.

Lemma store_ok_CheckDuplicate clk ctx id sc ty ts s :
  store_ok s → store_ok (CheckDuplicate clk ctx id sc ty ts s).2.
Proof.
  intros Hok.
  destruct (CheckDuplicate_frame clk ctx id sc ty ts s) as (E1 & E2 & E3 & E4 & _).
  apply (store_ok_counters s); try done; unfold CheckDuplicate;
    destruct Hok; repeat case_match; simpl; intros ? ?; simplify_eq; eauto.
  all: match goal with H : _ = (_, ?c) |- _ ?c => apply (f_equal snd) in H; simpl in H; subst c end;
    eauto using dedup_ok_CheckAndInsert, state_ok_CheckAndUpdateSet, state_ok_CheckAndMarkDeleted.
Qed.

Lemma store_ok_AddEvent clk ctx id sc ty ts s :
  store_ok s → seq_room s → store_ok (AddEventAndGetPrior clk ctx id sc ty ts s).2.
Proof.
  intros Hok Hroom. unfold AddEventAndGetPrior. case_match; [|done].
  pose proof (store_ok_CheckDuplicate clk ctx id sc ty (ResolveTimestamp clk ts) (bump_total s)
                (store_ok_bump_total s Hok)) as Hok'.
  destruct (CheckDuplicate_frame clk ctx id sc ty (ResolveTimestamp clk ts) (bump_total s))
    as (_ & _ & _ & Hseq & _).
  destruct (CheckDuplicate _ _ _ _ _ _ _) as [dup s']. simpl in *.
  destruct dup; simpl; [by apply store_ok_bump_deduped|].
  apply store_ok_PushEvent; [|apply EnsureContext_is_Some].
  apply store_ok_EnsureContext; [done|]. unfold seq_room. by rewrite Hseq.
Qed.

Lemma store_ok_with_state c s :
  store_ok s → state_ok c → store_ok (with_state (Some c) s).
Proof.
  intros Hok Hc. apply (store_ok_counters s); try done; [apply Hok|].
  simpl. intros ? [= <-]. done.
Qed.

Lemma state_cache_EnsureContext ctx s : state_cache_ (EnsureContext ctx s) = state_cache_ s.
Proof. unfold EnsureContext. simpl. case_match; [done|]. simpl. apply state_Evict. Qed.

Lemma store_ok_RestoreEvent ctx e s :
  store_ok s → seq_room s → store_ok (RestoreEvent ctx e s).2.
Proof.
  intros Hok Hroom. unfold RestoreEvent. do 2 (case_bool_decide; [done|]). cbn [snd].
  assert (Hok' : store_ok (PushEvent ctx e (EnsureContext ctx (bump_total s)))).
  { apply store_ok_PushEvent; [|apply EnsureContext_is_Some].
    apply store_ok_EnsureContext; [by apply store_ok_bump_total|done]. }
  assert (Hst : state_cache_ (PushEvent ctx e (EnsureContext ctx (bump_total s))) = state_cache_ s)
    by apply (state_cache_EnsureContext ctx (bump_total s)).
  rewrite Hst. destruct (state_cache_ s) as [c|] eqn:Hc; [|done].
  pose proof (so_state _ Hok c Hc).
  destruct (type e); try done; apply store_ok_with_state; try done.
  - by apply state_ok_UpdateScore.
  - rewrite MarkDeleted_UpdateScore. by apply state_ok_UpdateScore.
Qed.
End facts.

(** ** Histories of a store *)

Section histories.
Context {order : IterOrder}.

(** [store_history cfg n s]: [s] is reached from the constructor by [n]
    calls of the mutating operations. *)
Inductive store_history (cfg : EventsConfig) : nat → EventStore → Prop :=
| hist_new : store_history cfg 0 (new_store cfg)
| hist_add n s clk ctx id sc ty ts :
    store_history cfg n s →
    store_history cfg (S n) (AddEventAndGetPrior clk ctx id sc ty ts s).2
| hist_restore n s ctx e :
    store_history cfg n s → store_history cfg (S n) (RestoreEvent ctx e s).2
| hist_clear n s : store_history cfg n s → store_history cfg (S n) (ClearStore s).

Lemma seq_EnsureContext ctx s :
  context_access_sequence_ (EnsureContext ctx s) = u64 (context_access_sequence_ s + 1).
Proof. unfold EnsureContext. simpl. case_match; [done|]. simpl. by rewrite seq_Evict. Qed.

Lemma u64_succ_le z n : 0 ≤ z ≤ n → 0 ≤ u64 (z + 1) ≤ n + 1.
Proof.
  intros. unfold u64, wrap. pose proof (Z.mod_pos_bound (z + 1) (2 ^ 64) ltac:(lia)).
  pose proof (Z.mod_le (z + 1) (2 ^ 64) ltac:(lia) ltac:(lia)). lia.
Qed.

Lemma seq_AddEvent clk ctx id sc ty ts s n :
  0 ≤ context_access_sequence_ s ≤ n →
  0 ≤ context_access_sequence_ (AddEventAndGetPrior clk ctx id sc ty ts s).2 ≤ n + 1.
Proof.
  intros Hs. unfold AddEventAndGetPrior. case_match; [|simpl; lia].
  destruct (CheckDuplicate_frame clk ctx id sc ty (ResolveTimestamp clk ts) (bump_total s))
    as (_ & _ & _ & Hseq & _).
  destruct (CheckDuplicate _ _ _ _ _ _ _) as [dup s']. simpl in Hseq.
  destruct dup; cbn [snd]; [simpl; lia|].
  change (context_access_sequence_ (PushEvent ctx ?e ?s)) with (context_access_sequence_ s).
  rewrite seq_EnsureContext, Hseq. by apply u64_succ_le.
Qed.

Lemma seq_RestoreEvent ctx e s n :
  0 ≤ context_access_sequence_ s ≤ n →
  0 ≤ context_access_sequence_ (RestoreEvent ctx e s).2 ≤ n + 1.
Proof.
  intros Hs. unfold RestoreEvent. do 2 (case_bool_decide; [simpl; lia|]). cbn [snd].
  assert (E : ∀ s', s' = PushEvent ctx e (EnsureContext ctx (bump_total s)) →
            0 ≤ context_access_sequence_ s' ≤ n + 1).
  { intros s' ->.
    change (context_access_sequence_ (PushEvent ctx ?e ?s)) with (context_access_sequence_ s).
    rewrite seq_EnsureContext. by apply u64_succ_le. }
  specialize (E _ eq_refl). repeat case_match; exact E.
Qed.

Lemma store_ok_Clear s : store_ok s → store_ok (ClearStore s).
Proof.
  intros Hok. pose proof (store_ok_new (config_ s) (so_buffer _ Hok) (so_max _ Hok)) as Hnew.
  apply (store_ok_counters (new_store (config_ s))); try done; unfold ClearStore; simpl.
  - destruct (dedup_cache_ s) as [c|] eqn:Hc; intros ?; simpl; intros; simplify_eq.
    apply dedup_ok_new. by apply (so_dedup _ Hok).
  - destruct (state_cache_ s) as [c|] eqn:Hc; intros ?; simpl; intros; simplify_eq.
    apply state_ok_new. by apply (so_state _ Hok).
Qed.

Lemma store_history_seq cfg n s :
  store_history cfg n s → 0 ≤ context_access_sequence_ s ≤ Z.of_nat n.
Proof.
  induction 1; rewrite ?Nat2Z.inj_succ, <-?Z.add_1_r.
  - simpl. lia.
  - by apply seq_AddEvent.
  - by apply seq_RestoreEvent.
  - simpl. lia.
Qed.

Lemma store_history_ok cfg n s :
  0 < ctx_buffer_size cfg → 0 ≤ max_contexts cfg → Z.of_nat n < u64_max →
  store_history cfg n s → store_ok s.
Proof.
  intros Hb Hm Hn Hh. revert Hn.
  induction Hh as [|n s clk ctx id sc ty ts Hh IH|n s ctx e Hh IH|n s Hh IH]; intros Hn.
  - by apply store_ok_new.
  - apply store_ok_AddEvent; [apply IH; lia|].
    unfold seq_room. pose proof (store_history_seq _ _ _ Hh). lia.
  - apply store_ok_RestoreEvent; [apply IH; lia|].
    unfold seq_room. pose proof (store_history_seq _ _ _ Hh). lia.
  - apply store_ok_Clear. apply IH. lia.
Qed.

Lemma config_history cfg n s : store_history cfg n s → config_ s = cfg.
Proof.
  induction 1 as [|n s clk ctx id sc ty ts _ IH|n s ctx e _ IH|]; try done.
  - unfold AddEventAndGetPrior. case_match; [|done].
    destruct (CheckDuplicate_frame clk ctx id sc ty (ResolveTimestamp clk ts) (bump_total s))
      as (Hc & _).
    destruct (CheckDuplicate _ _ _ _ _ _ _) as [dup s']. simpl in Hc.
    destruct dup; cbn [snd].
    + simpl. congruence.
    + change (config_ (PushEvent ctx ?e ?s)) with (config_ s).
      rewrite config_EnsureContext. congruence.
  - unfold RestoreEvent. do 2 (case_bool_decide; [done|]). cbn [snd].
    assert (E : ∀ s', s' = PushEvent ctx e (EnsureContext ctx (bump_total s)) →
            config_ s' = cfg).
    { intros s' ->. change (config_ (PushEvent ctx ?e ?s)) with (config_ s).
      by rewrite config_EnsureContext. }
    specialize (E _ eq_refl). repeat case_match; exact E.
Qed.

Lemma length_GetEvents ctx s :
  store_ok s → Z.of_nat (length (GetEvents ctx s)) ≤ ctx_buffer_size (config_ s).
Proof.
  intros Hok. pose proof (so_buffer _ Hok). unfold GetEvents.
  destruct (ctx_events_ s !! ctx) as [r|] eqn:Hr; [|simpl; lia].
  destruct (so_rings _ Hok _ _ Hr) as [Hring Hcap].
  rewrite length_GetAll by done. destruct Hring as (_ & _ & _ & Hle & _). lia.
Qed.

Lemma CheckDuplicate_bump clk ctx id sc ty ts s :
  (CheckDuplicate clk ctx id sc ty ts (bump_total s)).1 = (CheckDuplicate clk ctx id sc ty ts s).1.
Proof. unfold CheckDuplicate. simpl. repeat case_match; done. Qed.

(** The whole effect of an accepted event. *)
Lemma AddEvent_accepted clk ctx id sc ty ts s :
  store_ok s → ValidateEvent ctx id sc ty = Ok tt →
  (CheckDuplicate clk ctx id sc ty (ResolveTimestamp clk ts) s).1 = false →
  let e := MkEvent id (if bool_decide (ty = DEL) then 0 else sc) (ResolveTimestamp clk ts) ty in
  let r := AddEventAndGetPrior clk ctx id sc ty ts s in
  r.1 = Ok (MkIngestResult false e (GetEvents ctx s)) ∧
  GetEvents ctx r.2 =
    lastn (Z.to_nat (ctx_buffer_size (config_ s))) (GetEvents ctx s ++ [e]) ∧
  (∀ c, c ≠ ctx → GetEvents c r.2 = GetEvents c s ∨
    (ctx_events_ s !! ctx = None ∧ lru_victim s c ∧
     max_contexts (config_ s) = GetContextCount s ∧ GetEvents c r.2 = [])).
Proof.
  intros Hok Hv Hd. unfold AddEventAndGetPrior. rewrite Hv.
  rewrite <- CheckDuplicate_bump in Hd.
  pose proof (store_ok_CheckDuplicate clk ctx id sc ty (ResolveTimestamp clk ts) _
    (store_ok_bump_total s Hok)) as Hok'.
  destruct (CheckDuplicate_frame clk ctx id sc ty (ResolveTimestamp clk ts) (bump_total s))
    as (E1 & E2 & E3 & E4 & _).
  destruct (CheckDuplicate clk ctx id sc ty (ResolveTimestamp clk ts) (bump_total s)) as [dup s'].
  simpl in *. subst dup. simpl.
  assert (Hge : ∀ c, GetEvents c s' = GetEvents c s) by (intros; unfold GetEvents; by rewrite E2).
  set (e := MkEvent _ _ _ _).
  split; [|split].
  - by rewrite <- GetEvents_ring, GetEvents_EnsureContext, Hge.
  - assert (Hring : ∀ r, ctx_events_ (EnsureContext ctx s') !! ctx = Some r →
              ring_ok r ∧ capacity_ r = Z.to_nat (ctx_buffer_size (config_ s))).
    { intros r. unfold EnsureContext. simpl.
      destruct (ctx_events_ s' !! ctx) eqn:E; simpl.
      - rewrite E. intros [= <-]. rewrite <- E1. by apply (so_rings _ Hok' _ _ E).
      - rewrite lookup_insert_eq, config_Evict, E1. intros [= <-]. split; [|done].
        apply ring_ok_new. pose proof (so_buffer _ Hok). lia. }
    destruct (EnsureContext_is_Some ctx s') as [r Hr].
    destruct (Hring r Hr) as [Hro Hcap].
    rewrite <- (Hge ctx), <- (GetEvents_EnsureContext ctx s'), (GetEvents_ring ctx (EnsureContext ctx s')).
    unfold GetEvents at 1. unfold PushEvent, ring_of; cbn [ctx_events_ with_contexts].
    rewrite lookup_insert_eq, Hr. cbn [default from_option].
    change (Datatypes.id r) with r. rewrite GetAll_push by done. by rewrite Hcap.
  - intros c Hc. rewrite GetEvents_PushEvent_other by done.
    destruct (GetEvents_EnsureContext_other ctx c s' Hok' Hc) as [->|(H1 & H2 & H3 & ->)].
    + left. apply Hge.
    + right. unfold lru_victim, GetContextCount in *. rewrite E2, E3, E1 in *. done.
Qed.

(** [PrepareEvent] previews the duplicate test under the same clock. *)
Lemma PrepareEvent_CheckDuplicate clk ctx id sc ty ts s :
  PrepareEvent clk ctx id sc ty ts s =
  let? _ := ValidateEvent ctx id sc ty in
  Ok (MkPreparedEvent (CheckDuplicate clk ctx id sc ty (ResolveTimestamp clk ts) s).1
    (MkEvent id (if bool_decide (ty = DEL) then 0 else sc) (ResolveTimestamp clk ts) ty)).
Proof.
  unfold PrepareEvent, CheckDuplicate. destruct (ValidateEvent ctx id sc ty); [|done]. simpl.
  destruct ty; simpl; try done.
  - destruct (dedup_cache_ s) as [c|]; [|done].
    rewrite <- WouldDeduplicate_CheckAndInsert. by destruct (CheckAndInsert _ _ _ _).
  - destruct (state_cache_ s) as [c|]; [|done].
    rewrite <- CheckAndUpdateSet_1. by destruct (CheckAndUpdateSet _ _ _).
  - destruct (state_cache_ s) as [c|]; [|done].
    rewrite <- CheckAndMarkDeleted_1. by destruct (CheckAndMarkDeleted _ _).
Qed.

(** The window only closes as the monotonic clock advances. *)
Lemma IsWithinWindow_mono w e ts now now' :
  now ≤ now' → IsWithinWindow w e ts now = false → IsWithinWindow w e ts now' = false.
Proof.
  intros Hle. unfold IsWithinWindow. case_match; [done|].
  rewrite !andb_false_iff, !Z.leb_gt. intros [?|?]; [by left|right; lia].
Qed.

Lemma CheckDuplicate_mono clk clk' ctx id sc ty ts s :
  mono clk ≤ mono clk' →
  (CheckDuplicate clk ctx id sc ty ts s).1 = false →
  (CheckDuplicate clk' ctx id sc ty ts s).1 = false.
Proof.
  intros Hle. unfold CheckDuplicate. destruct ty; try done.
  destruct (dedup_cache_ s) as [c|]; [|done].
  pose proof (WouldDeduplicate_CheckAndInsert c (MkEventKey ctx id sc) ts (mono clk)) as H1.
  pose proof (WouldDeduplicate_CheckAndInsert c (MkEventKey ctx id sc) ts (mono clk')) as H2.
  destruct (CheckAndInsert _ _ (mono clk) _), (CheckAndInsert _ _ (mono clk') _).
  simpl in *. subst. unfold WouldDeduplicate. repeat case_match; try done.
  by apply IsWithinWindow_mono.
Qed.

(** What a preview promises: the input is valid, the stored event carries the
    resolved score and timestamp, and the resolved score is looked up as the
    given one is. *)
Lemma PrepareEvent_inv clk ctx id sc ty ts s p :
  PrepareEvent clk ctx id sc ty ts s = Ok p →
  p_event p = MkEvent id (if bool_decide (ty = DEL) then 0 else sc) (ResolveTimestamp clk ts) ty ∧
  ValidateEvent ctx id sc ty = Ok tt ∧
  ValidateEvent ctx id (score (p_event p)) ty = Ok tt ∧
  p_deduped p = (CheckDuplicate clk ctx id sc ty (ResolveTimestamp clk ts) s).1 ∧
  ∀ clk' ts', CheckDuplicate clk' ctx id (score (p_event p)) ty ts' s = CheckDuplicate clk' ctx id sc ty ts' s.
Proof.
  rewrite PrepareEvent_CheckDuplicate.
  destruct (ValidateEvent ctx id sc ty) as [[]|e] eqn:Hv; simpl; [|done]. intros [= <-]. simpl.
  split_and!; try done.
  - revert Hv. unfold ValidateEvent. repeat case_bool_decide; simplify_eq; done.
  - intros. destruct (decide (ty = DEL)) as [->|]; [done|]. by rewrite bool_decide_false.
Qed.

Lemma ResolveTimestamp_fixed clk ts : ts ≠ 0 → ResolveTimestamp clk ts = ts.
Proof. intros. unfold ResolveTimestamp. by rewrite (proj2 (Z.eqb_neq _ _)). Qed.

(** A valid event is taken, with the verdict of the duplicate test. *)
Lemma AddEvent_verdict clk ctx id sc ty ts s :
  ValidateEvent ctx id sc ty = Ok tt →
  ∃ r, (AddEventAndGetPrior clk ctx id sc ty ts s).1 = Ok r ∧
    deduped r = (CheckDuplicate clk ctx id sc ty (ResolveTimestamp clk ts) s).1.
Proof.
  intros Hv. unfold AddEventAndGetPrior. rewrite Hv, <- CheckDuplicate_bump.
  destruct (CheckDuplicate _ _ _ _ _ _ (bump_total s)) as [d s']. destruct d; by eexists.
Qed.

(** The commit of a previewed new event, under a later clock. *)
Lemma prepared_fresh clk clk' ctx id sc ty ts s p :
  mono clk ≤ mono clk' → PrepareEvent clk ctx id sc ty ts s = Ok p → p_deduped p = false →
  (CheckDuplicate clk' ctx id (score (p_event p)) ty (ev_timestamp (p_event p)) s).1 = false.
Proof.
  intros Hle (He & _ & _ & Hd & Hc)%PrepareEvent_inv Hf. rewrite Hc, He. simpl.
  eapply CheckDuplicate_mono; [exact Hle|]. congruence.
Qed.
End histories.

(** ** Claims *)

Section claims.
Context {order : IterOrder}.

(** C8: every store reached from the constructor by fewer than 2^64-1 adds,
    restores and clears keeps its invariant (rings well formed and of the
    configured capacity, access table in step with the contexts and injective,
    caches well formed), holds at most [max_contexts] contexts when a limit is
    set, and at most [ctx_buffer_size] events per context. *)
Theorem event_store_bounded (cfg : EventsConfig) (n : nat) (s : EventStore) :
  0 < ctx_buffer_size cfg → 0 ≤ max_contexts cfg → Z.of_nat n < u64_max →
  store_history cfg n s →
  store_ok s ∧
  (max_contexts cfg ≠ 0 → GetContextCount s ≤ max_contexts cfg) ∧
  ∀ ctx, Z.of_nat (length (GetEvents ctx s)) ≤ ctx_buffer_size cfg.
Proof.
  intros Hb Hm Hn Hh. pose proof (store_history_ok cfg n s Hb Hm Hn Hh) as Hok.
  pose proof (config_history _ _ _ Hh) as Hcfg. split; [done|]. rewrite <- Hcfg. split.
  - apply (so_bound _ Hok).
  - intros ctx. by apply length_GetEvents.
Qed.

(** C9: [AddEventAndGetPrior], on every branch.  A rejected input changes
    nothing.  A duplicate leaves every context's events alone and bumps both
    counters.  An accepted event returns the context's previous events as the
    prior, appends itself keeping the last [ctx_buffer_size], and disturbs no
    other context, except that creating a context in a full store empties
    exactly one context, a least recently used one. *)
Theorem add_event_functional (s : EventStore) clk ctx id sc ty ts :
  store_ok s →
  let r := AddEventAndGetPrior clk ctx id sc ty ts s in
  let dup := (CheckDuplicate clk ctx id sc ty (ResolveTimestamp clk ts) s).1 in
  match ValidateEvent ctx id sc ty with
  | Unexpected e => r = (Unexpected e, s)
  | Ok _ =>
      if dup then
        r.1 = Ok (MkIngestResult true (MkEvent "" 0 0 ADD) []) ∧
        (∀ c, GetEvents c r.2 = GetEvents c s) ∧
        total_events_ r.2 = u64 (total_events_ s + 1) ∧
        deduped_events_ r.2 = u64 (deduped_events_ s + 1)
      else
        let e := MkEvent id (if bool_decide (ty = DEL) then 0 else sc)
                   (ResolveTimestamp clk ts) ty in
        r.1 = Ok (MkIngestResult false e (GetEvents ctx s)) ∧
        GetEvents ctx r.2 =
          lastn (Z.to_nat (ctx_buffer_size (config_ s))) (GetEvents ctx s ++ [e]) ∧
        (∀ c, c ≠ ctx → GetEvents c r.2 = GetEvents c s ∨
          (ctx_events_ s !! ctx = None ∧ lru_victim s c ∧
           max_contexts (config_ s) = GetContextCount s ∧ GetEvents c r.2 = []))
  end.
Proof.
  intros Hok r dup. destruct (ValidateEvent ctx id sc ty) as [[]|e] eqn:Hv.
  - destruct dup eqn:Hd; [|by apply AddEvent_accepted].
    subst r dup. unfold AddEventAndGetPrior. rewrite Hv.
    rewrite <- CheckDuplicate_bump in Hd.
    destruct (CheckDuplicate_frame clk ctx id sc ty (ResolveTimestamp clk ts) (bump_total s))
      as (_ & E2 & _ & _ & E5 & E6).
    destruct (CheckDuplicate clk ctx id sc ty (ResolveTimestamp clk ts) (bump_total s)) as [d s'].
    simpl in *. subst d. simpl. split; [done|]. split; [|by rewrite E5, E6].
    intros c. unfold GetEvents. simpl. by rewrite E2.
  - subst r. unfold AddEventAndGetPrior. by rewrite Hv.
Qed.

(** [PrepareEvent] is an exact preview.  Under one clock it fails with
    the error [AddEventAndGetPrior] fails with and otherwise announces the
    same verdict and the same stored event; and an event it announces as new
    is still accepted when the commit reads a later monotonic clock. *)
Lemma prepare_event_previews (s : EventStore) clk clk' ctx id sc ty ts :
  store_ok s → mono clk ≤ mono clk' →
  match PrepareEvent clk ctx id sc ty ts s with
  | Unexpected e => (AddEventAndGetPrior clk ctx id sc ty ts s).1 = Unexpected e
  | Ok p =>
      (∃ r, (AddEventAndGetPrior clk ctx id sc ty ts s).1 = Ok r ∧
        deduped r = p_deduped p ∧ (deduped r = false → stored_event r = p_event p)) ∧
      (p_deduped p = false → ev_timestamp (p_event p) ≠ 0 →
        (AddEventAndGetPrior clk' ctx id (score (p_event p)) (type (p_event p))
           (ev_timestamp (p_event p)) s).1 =
          Ok (MkIngestResult false (p_event p) (GetEvents ctx s)))
  end.
Proof.
  intros Hok Hmono. destruct (PrepareEvent clk ctx id sc ty ts s) as [p|e] eqn:Hp.
  - pose proof (PrepareEvent_inv _ _ _ _ _ _ _ _ Hp) as (He & Hv & Hv' & Hd & _). split.
    + destruct (AddEvent_verdict clk ctx id sc ty ts s Hv) as (r & Hr & Hrd).
      exists r. split_and!; [done|congruence|]. intros Hf.
      destruct (AddEvent_accepted clk ctx id sc ty ts s Hok Hv) as [Hacc _]; [congruence|].
      rewrite Hacc in Hr. injection Hr as <-. by rewrite He.
    + intros Hf Hts. pose proof (prepared_fresh _ clk' _ _ _ _ _ _ _ Hmono Hp Hf) as Hc.
      rewrite <- (ResolveTimestamp_fixed clk' (ev_timestamp (p_event p))) in Hc by done.
      assert (Hty : type (p_event p) = ty) by (by rewrite He). rewrite Hty.
      destruct (AddEvent_accepted clk' _ _ _ _ _ s Hok Hv' Hc) as [-> _].
      rewrite ResolveTimestamp_fixed by done. do 2 f_equal. rewrite He. simpl.
      by destruct (bool_decide (ty = DEL)).
  - rewrite PrepareEvent_CheckDuplicate in Hp. unfold AddEventAndGetPrior.
    by destruct (ValidateEvent ctx id sc ty) as [[]|e'] eqn:Hv; simplify_eq/=.
Qed.
End claims.

Lemma event_store_bounded_witness :
  let cfg := MkEventsConfig 2 1 60 10 in
  let add c i s := (AddEventAndGetPrior (order := tree_order) (MkClock 9 0) c i 5 SET 0 s).2 in
  let s := add "b" "z" (add "a" "y" (add "a" "x" (new_store cfg))) in
  GetContextCount s ≤ 1.
Proof.
  intros cfg add s.
  assert (Hh : store_history (order := tree_order) cfg 3 s).
  { unfold s, add. apply hist_add, hist_add, hist_add, hist_new. }
  apply (event_store_bounded (order := tree_order) cfg 3 s ltac:(done) ltac:(done) ltac:(done) Hh).
  done.
Defined.

Lemma add_event_functional_witness :
  let s := new_store (MkEventsConfig 2 1 60 10) in
  (AddEventAndGetPrior (order := tree_order) (MkClock 9 0) "a" "x" 7 DEL 0 s).1 =
  Ok (MkIngestResult false (MkEvent "x" 0 9 DEL) []).
Proof.
  intros s.
  apply (add_event_functional (order := tree_order) s (MkClock 9 0) "a" "x" 7 DEL 0
    (store_ok_new (MkEventsConfig 2 1 60 10) ltac:(done) ltac:(done))).
Defined.

Lemma prepare_event_previews_witness :
  let s := new_store (MkEventsConfig 2 1 60 10) in
  (AddEventAndGetPrior (order := tree_order) (MkClock 9 7) "a" "x" 7 ADD 9 s).1 =
  Ok (MkIngestResult false (MkEvent "x" 7 9 ADD) []).
Proof.
  intros s.
  apply (prepare_event_previews (order := tree_order) s (MkClock 9 0) (MkClock 9 7) "a" "x" 7 ADD 0
    (store_ok_new (MkEventsConfig 2 1 60 10) ltac:(done) ltac:(done)) ltac:(done)); done.
Defined.
