(* ===== verification/Floats.v ===== *)
(** * C++ [float] and [double]

    A floating-point object is its IEEE-754 bit pattern ([Z] in [0, 2^32) or
    [0, 2^64)), so copying, comparing bytes and serialising are exact, NaN
    payloads included.  Arithmetic decodes the pattern to the Standard
    Library's [spec_float], computes there with round-to-nearest-even, and
    encodes the result (a NaN result is the quiet NaN).  [std::exp2] has no
    correctly-rounded specification: it is a parameter. *)

From S2P Require Import Prelude.
From Stdlib Require Export Floats.SpecFloat.
#[local] Open Scope Z_scope.

(** ** Formats *)

Record format : Type := MkFormat { mbits : Z; ebits : Z }.
Definition binary32 : format := MkFormat 23 8.
Definition binary64 : format := MkFormat 52 11.

Definition prec (f : format) : Z := mbits f + 1.
Definition emax (f : format) : Z := 2 ^ (ebits f - 1).
Definition fmin (f : format) : Z := emin (prec f) (emax f).
Definition width (f : format) : Z := 1 + ebits f + mbits f.

Definition decode (f : format) (b : Z) : spec_float :=
  let s := Z.testbit b (mbits f + ebits f) in
  let e := (b / 2 ^ mbits f) mod 2 ^ ebits f in
  let m := b mod 2 ^ mbits f in
  if e =? 2 ^ ebits f - 1 then (if m =? 0 then S754_infinity s else S754_nan)
  else if e =? 0 then
    match m with Zpos p => S754_finite s p (fmin f) | _ => S754_zero s end
  else match m + 2 ^ mbits f with
       | Zpos p => S754_finite s p (e - 1 + fmin f)
       | _ => S754_zero s
       end.

Definition sign_bit (f : format) (s : bool) : Z := if s then 2 ^ (mbits f + ebits f) else 0.

Definition encode (f : format) (x : spec_float) : Z :=
  match x with
  | S754_zero s => sign_bit f s
  | S754_infinity s => sign_bit f s + (2 ^ ebits f - 1) * 2 ^ mbits f
  | S754_nan => (2 ^ ebits f - 1) * 2 ^ mbits f + 2 ^ (mbits f - 1)
  | S754_finite s p e =>
      if Zpos p <? 2 ^ mbits f then sign_bit f s + Zpos p
      else sign_bit f s + (e - fmin f + 1) * 2 ^ mbits f + (Zpos p - 2 ^ mbits f)
  end.

(** ** [float] *)

Definition f32 (b : Z) : spec_float := decode binary32 b.
Definition f64 (b : Z) : spec_float := decode binary64 b.
Definition to32 (x : spec_float) : Z := encode binary32 x.
Definition to64 (x : spec_float) : Z := encode binary64 x.

Definition f32_add (a b : Z) : Z := to32 (SFadd 24 128 (f32 a) (f32 b)).
Definition f32_sub (a b : Z) : Z := to32 (SFsub 24 128 (f32 a) (f32 b)).
Definition f32_mul (a b : Z) : Z := to32 (SFmul 24 128 (f32 a) (f32 b)).
Definition f32_div (a b : Z) : Z := to32 (SFdiv 24 128 (f32 a) (f32 b)).
Definition f32_sqrt (a : Z) : Z := to32 (SFsqrt 24 128 (f32 a)).
Definition f32_abs (a : Z) : Z := to32 (SFabs (f32 a)).
Definition f32_opp (a : Z) : Z := to32 (SFopp (f32 a)).
Definition f32_ltb (a b : Z) : bool := SFltb (f32 a) (f32 b).
Definition f32_leb (a b : Z) : bool := SFleb (f32 a) (f32 b).
Definition f32_eqb (a b : Z) : bool := SFeqb (f32 a) (f32 b).

Definition f64_add (a b : Z) : Z := to64 (SFadd 53 1024 (f64 a) (f64 b)).
Definition f64_sub (a b : Z) : Z := to64 (SFsub 53 1024 (f64 a) (f64 b)).
Definition f64_mul (a b : Z) : Z := to64 (SFmul 53 1024 (f64 a) (f64 b)).
Definition f64_div (a b : Z) : Z := to64 (SFdiv 53 1024 (f64 a) (f64 b)).
Definition f64_opp (a : Z) : Z := to64 (SFopp (f64 a)).
Definition f64_ltb (a b : Z) : bool := SFltb (f64 a) (f64 b).
Definition f64_leb (a b : Z) : bool := SFleb (f64 a) (f64 b).
Definition f64_eqb (a b : Z) : bool := SFeqb (f64 a) (f64 b).

(** Conversions: integer to [float]/[double], [double] to [float] and back. *)
Definition f32_of_Z (z : Z) : Z := to32 (binary_normalize 24 128 z 0 false).
Definition f64_of_Z (z : Z) : Z := to64 (binary_normalize 53 1024 z 0 false).

Definition round_to (f : format) (x : spec_float) : spec_float :=
  match x with
  | S754_finite s p e => binary_round (prec f) (emax f) s p e
  | _ => x
  end.
Definition f32_of_f64 (b : Z) : Z := to32 (round_to binary32 (f64 b)).
Definition f64_of_f32 (b : Z) : Z := to64 (round_to binary64 (f32 b)).

(** [std::max(a, b)] is [(a < b) ? b : a]. *)
Definition f32_max (a b : Z) : Z := if f32_ltb a b then b else a.

Definition is_nan32 (b : Z) : bool := match f32 b with S754_nan => true | _ => false end.
Definition is_finite64 (b : Z) : bool :=
  match f64 b with S754_nan | S754_infinity _ => false | _ => true end.
Definition is_finite32 (b : Z) : bool :=
  match f32 b with S754_nan | S754_infinity _ => false | _ => true end.

(** Constants of the code. *)
Definition f32_zero : Z := 0.
Definition f32_one : Z := f32_of_Z 1.
Definition f64_one : Z := f64_of_Z 1.
(** [1e-6F]: the [float] nearest to 10^-6. *)
Definition f32_1em6 : Z := 0x358637BD.

Class Libm : Type := { exp2 : Z → Z }.

Example f32_arith : f32_add (f32_of_Z 3) (f32_of_Z 4) = f32_of_Z 7 ∧
  f32_mul (f32_of_Z 100) (f32_of_Z 100) = f32_of_Z 10000 ∧ f32_of_Z 1 = 0x3F800000 ∧
  f64_of_Z 1 = 0x3FF0000000000000.
Proof. vm_compute. done. Qed.

Lemma SFmul_comm p e x y : SFmul p e x y = SFmul p e y x.
Proof.
  destruct x, y; cbn; try done; rewrite 1?xorb_comm; try done.
  by rewrite Pos.mul_comm, Z.add_comm.
Qed.

Lemma f32_mul_comm a b : f32_mul a b = f32_mul b a.
Proof. unfold f32_mul. by rewrite SFmul_comm. Qed.

(** ** The order on non-NaN values

    [SFcompare] is the lexicographic comparison of (class, exponent, mantissa),
    with the last two negated for negative values. *)

Definition rank (x : spec_float) : Z * Z * Z :=
  match x with
  | S754_infinity true => (-2, 0, 0)
  | S754_finite true m e => (-1, - e, - Zpos m)
  | S754_zero _ | S754_nan => (0, 0, 0)
  | S754_finite false m e => (1, e, Zpos m)
  | S754_infinity false => (2, 0, 0)
  end.

Definition rank_lt (a b : Z * Z * Z) : Prop :=
  a.1.1 < b.1.1 ∨ (a.1.1 = b.1.1 ∧ (a.1.2 < b.1.2 ∨ (a.1.2 = b.1.2 ∧ a.2 < b.2))).

Definition is_nan (x : spec_float) : bool := match x with S754_nan => true | _ => false end.

Lemma SFcompare_rank x y :
  is_nan x = false → is_nan y = false →
  match SFcompare x y with
  | Some Lt => rank_lt (rank x) (rank y)
  | Some Eq => rank x = rank y
  | Some Gt => rank_lt (rank y) (rank x)
  | None => False
  end.
Proof.
  unfold rank_lt.
  destruct x as [[]|[]| |[] m e], y as [[]|[]| |[] m' e']; simpl; intros; try done; try lia.
  - change (Pos.compare_cont Eq m m') with (m ?= m')%positive.
    destruct (Z.compare_spec e e'), (Pos.compare_spec m m'); simpl; subst; try lia; done.
  - change (Pos.compare_cont Eq m m') with (m ?= m')%positive.
    destruct (Z.compare_spec e e'), (Pos.compare_spec m m'); simpl; subst; try lia; done.
Qed.

Lemma SFltb_rank x y :
  is_nan x = false → is_nan y = false → SFltb x y = true ↔ rank_lt (rank x) (rank y).
Proof.
  intros Hx Hy. pose proof (SFcompare_rank x y Hx Hy) as H. unfold SFltb.
  destruct (SFcompare x y) as [[]|]; [..|done]; unfold rank_lt in *; try rewrite H;
    (split; [done|lia]) || done.
Qed.

Definition not_nan (b : Z) : Prop := is_nan32 b = false.

Lemma f32_ltb_rank a b :
  not_nan a → not_nan b → f32_ltb a b = true ↔ rank_lt (rank (f32 a)) (rank (f32 b)).
Proof. intros. by apply SFltb_rank. Qed.

Lemma f32_ltb_trans_neg a b c :
  not_nan a → not_nan b → not_nan c →
  f32_ltb a b = false → f32_ltb b c = false → f32_ltb a c = false.
Proof.
  intros Ha Hb Hc. rewrite <- !not_true_iff_false, !f32_ltb_rank by done.
  unfold rank_lt. lia.
Qed.

Lemma f32_ltb_asym a b :
  not_nan a → not_nan b → f32_ltb a b = true → f32_ltb b a = false.
Proof.
  intros Ha Hb. rewrite <- not_true_iff_false, !f32_ltb_rank by done. unfold rank_lt. lia.
Qed.

Lemma f32_ltb_not_nan a b : f32_ltb a b = true → not_nan a ∧ not_nan b.
Proof.
  unfold f32_ltb, SFltb, not_nan, is_nan32. destruct (f32 a) as [[]|[]| |[] m e], (f32 b) as [[]|[]| |[] m' e']; cbn; done.
Qed.

(** Unlike its negation, the order itself is transitive on every value. *)
Lemma f32_ltb_trans a b c : f32_ltb a b = true → f32_ltb b c = true → f32_ltb a c = true.
Proof.
  intros H1 H2. destruct (f32_ltb_not_nan _ _ H1), (f32_ltb_not_nan _ _ H2). rewrite f32_ltb_rank in * by done.
  unfold rank_lt in *. lia.
Qed.

Lemma f32_ltb_irrefl a : f32_ltb a a = false.
Proof. apply not_true_is_false. intros H. destruct (f32_ltb_not_nan _ _ H). rewrite f32_ltb_rank in H by done. unfold rank_lt in H. lia. Qed.

Lemma f32_eqb_rank a b : not_nan a → not_nan b → f32_eqb a b = true ↔ rank (f32 a) = rank (f32 b).
Proof.
  intros Ha Hb. pose proof (SFcompare_rank (f32 a) (f32 b) Ha Hb) as H. unfold f32_eqb, SFeqb.
  destruct (SFcompare (f32 a) (f32 b)) as [[]|]; [done|..|done]; (split; [done|]); unfold rank_lt in H; intros E; rewrite E in H; lia.
Qed.

(** Encoding is a left inverse of decoding, except on NaNs. *)
Lemma bits_split f b :
  0 < mbits f → 0 < ebits f → in_u (width f) b →
  b = sign_bit f (Z.testbit b (mbits f + ebits f)) +
      ((b / 2 ^ mbits f) mod 2 ^ ebits f) * 2 ^ mbits f + b mod 2 ^ mbits f.
Proof.
  intros Hm He [Hl Hu]. unfold width in Hu.
  rewrite (Z.div_mod b (2 ^ mbits f)) at 1 by lia.
  rewrite (Z.div_mod (b / 2 ^ mbits f) (2 ^ ebits f)) at 1 by lia.
  rewrite Z.div_div by lia. rewrite <- Z.pow_add_r by lia.
  assert (Hb : b / 2 ^ (mbits f + ebits f) = if Z.testbit b (mbits f + ebits f) then 1 else 0).
  { rewrite Z.testbit_eqb by lia.
    assert (0 ≤ b / 2 ^ (mbits f + ebits f) < 2).
    { split; [apply Z.div_pos; lia|]. apply Z.div_lt_upper_bound; [lia|].
      rewrite Z.mul_comm, <- Z.pow_succ_r by lia.
      replace (Z.succ (mbits f + ebits f)) with (1 + ebits f + mbits f) by lia. done. }
    destruct (Z.eqb_spec ((b / 2 ^ (mbits f + ebits f)) mod 2) 1) as [H1|H1];
      rewrite Z.mod_small in H1 by lia; lia. }
  rewrite Hb. unfold sign_bit. destruct (Z.testbit _ _); rewrite ?Z.pow_add_r by lia; lia.
Qed.

Lemma encode_decode f b :
  0 < mbits f → 0 < ebits f → in_u (width f) b →
  is_nan (decode f b) = false → encode f (decode f b) = b.
Proof.
  intros Hm He Hb. pose proof (bits_split f b Hm He Hb) as Hsplit. unfold decode.
  set (s := Z.testbit _ _) in *. set (e := (b / _) mod _) in *. set (m := b mod _) in *.
  assert (0 ≤ e < 2 ^ ebits f) by (apply Z.mod_pos_bound; lia).
  assert (0 ≤ m < 2 ^ mbits f) by (apply Z.mod_pos_bound; lia).
  clearbody s e m.
  destruct (Z.eqb_spec e (2 ^ ebits f - 1)).
  - destruct (Z.eqb_spec m 0); simpl; [intros _|done]. subst. lia.
  - destruct (Z.eqb_spec e 0).
    + destruct m as [|p|p]; simpl; intros _; try lia.
      destruct (Z.ltb_spec (Zpos p) (2 ^ mbits f)); lia.
    + destruct (m + 2 ^ mbits f) as [|p|p] eqn:E; simpl; intros _; try lia.
      destruct (Z.ltb_spec (Zpos p) (2 ^ mbits f)); [lia|].
      replace (e - 1 + fmin f - fmin f + 1) with e by lia. lia.
Qed.

(** [std::abs] clears the sign bit. *)
Lemma decode_abs f b :
  0 < mbits f → 0 < ebits f → decode f (b mod 2 ^ (mbits f + ebits f)) = SFabs (decode f b).
Proof.
  intros Hm He. unfold decode.
  assert (Hd : (b mod 2 ^ (mbits f + ebits f)) =
    (b / 2 ^ mbits f) mod 2 ^ ebits f * 2 ^ mbits f + b mod 2 ^ mbits f).
  { rewrite Z.pow_add_r, Z.rem_mul_r by lia. lia. }
  assert (0 ≤ (b / 2 ^ mbits f) mod 2 ^ ebits f < 2 ^ ebits f) by (apply Z.mod_pos_bound; lia).
  assert (0 ≤ b mod 2 ^ mbits f < 2 ^ mbits f) by (apply Z.mod_pos_bound; lia).
  rewrite Z.mod_pow2_bits_high by lia.
  rewrite Hd, Z.div_add_l, (Z.div_small (b mod _)), Z.add_0_r by lia.
  rewrite (Z.add_comm (_ * _)), Z.mod_add, !(Z.mod_small (_ mod _)) by lia.
  repeat case_match; try done.
Qed.

Lemma f32_abs_bits v : not_nan v → f32_abs v = v mod 2 ^ 31.
Proof.
  intros Hv. unfold f32_abs, to32, f32. rewrite <- (decode_abs binary32) by done.
  apply encode_decode; [done..| |].
  - change (mbits binary32 + ebits binary32) with 31.
    pose proof (Z.mod_pos_bound v (2 ^ 31) ltac:(lia)). split; [lia|].
    change (2 ^ width binary32) with (2 ^ 31 * 2). lia.
  - rewrite decode_abs by done. revert Hv. unfold not_nan, is_nan32, f32.
    by destruct (decode binary32 v).
Qed.

Lemma f32_f32_abs v : not_nan v → f32 (f32_abs v) = SFabs (f32 v).
Proof. intros. rewrite f32_abs_bits by done. by apply (decode_abs binary32). Qed.

Lemma not_nan_abs v : not_nan v → not_nan (f32_abs v).
Proof.
  intros Hv. unfold not_nan, is_nan32. rewrite f32_f32_abs by done.
  revert Hv. unfold not_nan, is_nan32. by destruct (f32 v).
Qed.
