(* ===== verification/CoOccurrence.v ===== *)
(** * [events::CoOccurrenceIndex] (src/events/co_occurrence_index.h, .cpp)

    The symmetric matrix of co-occurrence scores, its streaming and batch
    updates, negative signals, decay, pruning and top-k queries.  Scores are
    [float] bit patterns ([Floats]); the matrix is a map of rows. *)

From S2P Require Import Prelude RingBuffer Lru DedupCache StateCache EventStore Floats.
#[local] Open Scope Z_scope.

Abbreviation matrix := (gmap string (gmap string Z)).

Record CoConfig : Type := MkCoConfig {
  max_neighbors_per_item : Z;
  min_support : Z;                 (* float bits *)
  negative_max_propagation : Z
}.

Record CoOccurrenceIndex : Type := MkCoIndex {
  co_config_ : CoConfig;
  co_scores_ : matrix;
  generation_ : Z
}.

#[export] Instance CoConfig_eq_dec : EqDecision CoConfig.
Proof. solve_decision. Defined.
#[export] Instance CoOccurrenceIndex_eq_dec : EqDecision CoOccurrenceIndex.
Proof. solve_decision. Defined.

Record IngestOptions : Type := MkIngestOptions {
  temporal_enabled : bool;
  half_life_sec : Z;               (* double bits *)
  negative_signals : bool;
  negative_weight : Z              (* double bits *)
}.

Definition new_index (cfg : CoConfig) : CoOccurrenceIndex := MkCoIndex cfg ∅ 0.

Definition with_scores (m : matrix) (i : CoOccurrenceIndex) : CoOccurrenceIndex :=
  MkCoIndex (co_config_ i) m (generation_ i).
Definition bump_generation (i : CoOccurrenceIndex) : CoOccurrenceIndex :=
  MkCoIndex (co_config_ i) (co_scores_ i) (u64 (generation_ i + 1)).

(** ** Cells *)

Definition row (m : matrix) (a : string) : gmap string Z := default ∅ (m !! a).
Definition cell (m : matrix) (a b : string) : option Z := m !! a ≫= λ r, r !! b.

(** [co_scores_[a][b] = f(co_scores_[a][b])]: [operator[]] inserts the missing
    row and a zero entry. *)
Definition cell_update (f : Z → Z) (a b : string) (m : matrix) : matrix :=
  <[a := <[b := f (default f32_zero (row m a !! b))]> (row m a)]> m.

(** The two statements that update both directions. *)
Definition pair_update (f : Z → Z) (a b : string) (m : matrix) : matrix :=
  cell_update f b a (cell_update f a b m).

(** ** Scoring a pair *)

Section scoring.
Context {libm : Libm}.

Definition decay_for (half_life pair_max_ts ts : Z) : Z :=
  let inv_half_life := f64_div f64_one half_life in
  let age := f64_of_Z (pair_max_ts - ts) in
  f32_max (f32_of_f64 (exp2 (f64_mul (f64_opp age) inv_half_life))) f32_1em6.

Definition pair_score (temporal : bool) (half_life : Z) (e1 e2 : Event) : Z :=
  let s := f32_of_Z (score e1 * score e2) in
  if temporal && f64_ltb 0 half_life then
    let pair_max_ts := Z.max (ev_timestamp e1) (ev_timestamp e2) in
    f32_mul s (f32_mul (decay_for half_life pair_max_ts (ev_timestamp e1))
                       (decay_for half_life pair_max_ts (ev_timestamp e2)))
  else s.

(** One pair's contribution: self-pairs and zero scores are skipped. *)
Definition add_pair (temporal : bool) (half_life : Z) (e1 e2 : Event) (m : matrix) : matrix :=
  if bool_decide (item_id e1 = item_id e2) then m
  else let s := pair_score temporal half_life e1 e2 in
       if f32_eqb s f32_zero then m
       else pair_update (λ v, f32_add v s) (item_id e1) (item_id e2) m.

End scoring.

Section index.
Context {order : IterOrder} {libm : Libm}.

(** ** Pruning *)

Definition erase_reverse (item other : string) (m : matrix) : matrix :=
  match m !! other with
  | None => m
  | Some r => let r' := delete item r in
              if bool_decide (r' = ∅) then delete other m else <[other := r']> m
  end.

(** Erase the neighbor [k] from the row of [item], which stays in place even
    when it becomes empty, and the reverse entry. *)
Definition erase_pair (item : string) (m : matrix) (k : string) : matrix :=
  erase_reverse item k (<[item := delete k (row m item)]> m).

Definition below_support (cfg : CoConfig) (v : Z) : bool := f32_ltb (f32_abs v) (min_support cfg).

Definition by_abs_desc (p q : string * Z) : bool := f32_ltb (f32_abs q.2) (f32_abs p.2).

Definition has_support (cfg : CoConfig) : bool := f32_ltb f32_zero (min_support cfg).

Definition PruneItemLocked (cfg : CoConfig) (m : matrix) (item : string) : matrix :=
  match m !! item with
  | None => m
  | Some neighbors =>
      let m := if has_support cfg then
                 fold_left (erase_pair item)
                   (filter (λ p, below_support cfg p.2 = true) (iter_order neighbors)).*1 m
               else m in
      let m := if (0 <? max_neighbors_per_item cfg) &&
                  (max_neighbors_per_item cfg <? Z.of_nat (size (row m item))) then
                 fold_left (erase_pair item)
                   (drop (Z.to_nat (max_neighbors_per_item cfg))
                      (std_sort by_abs_desc (iter_order (row m item)))).*1 m
               else m in
      if bool_decide (row m item = ∅) then delete item m else m
  end.

Definition prunes (cfg : CoConfig) : bool :=
  (0 <? max_neighbors_per_item cfg) || f32_ltb f32_zero (min_support cfg).

Definition Prune (i : CoOccurrenceIndex) : CoOccurrenceIndex :=
  let items := (iter_order (co_scores_ i)).*1 in
  bump_generation (with_scores (fold_left (PruneItemLocked (co_config_ i)) items (co_scores_ i)) i).

(** ** Streaming update *)

(** [std::unique]: drop every element equal to its predecessor. *)
Fixpoint std_unique (l : list string) : list string :=
  match l with
  | x :: (y :: _) as l' => if bool_decide (x = y) then std_unique l' else x :: std_unique l'
  | _ => l
  end.

Definition affected_ids (prior : list Event) (e : Event) : list string :=
  std_unique (std_sort String.ltb
    (item_id e :: (item_id <$> filter (λ p, item_id p ≠ item_id e) prior))).

Definition AddEventIncrementalInternal (prior : list Event) (e : Event) (temporal : bool)
    (half_life : Z) (i : CoOccurrenceIndex) : CoOccurrenceIndex :=
  if bool_decide (prior = []) then i
  else
    let m := fold_left (λ m p, add_pair temporal half_life e p m) prior (co_scores_ i) in
    let i := bump_generation (with_scores m i) in
    if prunes (co_config_ i) then
      with_scores (fold_left (PruneItemLocked (co_config_ i)) (affected_ids prior e) m) i
    else i.

Definition ApplyNegativeSignalLocked (removed_id : string) (context_events : list Event)
    (weight : Z) (i : CoOccurrenceIndex) : CoOccurrenceIndex :=
  if negative_max_propagation (co_config_ i) =? 0 then i
  else
    let m := fold_left (λ m p,
      if bool_decide (item_id p = removed_id) then m
      else let reduction := f32_of_f64 (f64_mul (f64_of_Z (score p)) weight) in
           pair_update (λ v, f32_sub v reduction) removed_id (item_id p) m)
      context_events (co_scores_ i) in
    bump_generation (with_scores m i).

Definition ApplyIngestedEvent (prior : list Event) (e : Event) (o : IngestOptions)
    (i : CoOccurrenceIndex) : CoOccurrenceIndex :=
  let i := AddEventIncrementalInternal prior e (temporal_enabled o) (half_life_sec o) i in
  if negative_signals o && bool_decide (type e = DEL)
  then ApplyNegativeSignalLocked (item_id e) prior (negative_weight o) i else i.

(** ** Batch update *)

Fixpoint add_all_pairs (temporal : bool) (half_life : Z) (events : list Event) (m : matrix) : matrix :=
  match events with
  | [] => m
  | e :: events' =>
      add_all_pairs temporal half_life events'
        (fold_left (λ m e2, add_pair temporal half_life e e2 m) events' m)
  end.

Definition UpdateFromEventsInternal (events : list Event) (temporal : bool) (half_life : Z)
    (i : CoOccurrenceIndex) : CoOccurrenceIndex :=
  let cfg := co_config_ i in
  let m := add_all_pairs temporal half_life events (co_scores_ i) in
  let i := bump_generation (with_scores m i) in
  if prunes cfg then
    with_scores (fold_left (λ m e,
      match m !! item_id e with
      | Some r => if max_neighbors_per_item cfg <? Z.of_nat (size r)
                  then PruneItemLocked cfg m (item_id e) else m
      | None => m
      end) events m) i
  else i.

(** The public entry points return early on an empty vector. *)
Definition UpdateFromEvents (events : list Event) (temporal : bool) (half_life : Z)
    (i : CoOccurrenceIndex) : CoOccurrenceIndex :=
  if bool_decide (events = []) then i else UpdateFromEventsInternal events temporal half_life i.

(** ** Decay *)

Definition kDecayThreshold : Z := f32_1em6.

Definition decay_threshold (cfg : CoConfig) : Z :=
  if f32_ltb f32_zero (min_support cfg) then min_support cfg else kDecayThreshold.

Definition decay_cell (threshold alpha v : Z) : option Z :=
  let v' := f32_mul v alpha in
  if f32_ltb (f32_abs v') threshold then None else Some v'.

Definition decay_row (threshold alpha : Z) (r : gmap string Z) : option (gmap string Z) :=
  let r' := omap (decay_cell threshold alpha) r in
  if bool_decide (r' = ∅) then None else Some r'.

Definition ApplyDecay (alpha : Z) (i : CoOccurrenceIndex) : CoOccurrenceIndex :=
  if f64_ltb alpha 0 || f64_ltb f64_one alpha then i
  else if f64_eqb alpha 0 then
    if bool_decide (co_scores_ i = ∅) then i else bump_generation (with_scores ∅ i)
  else
    bump_generation (with_scores
      (omap (decay_row (decay_threshold (co_config_ i)) (f32_of_f64 alpha)) (co_scores_ i)) i).

(** ** Direct writes *)

Definition SetScore (item1 item2 : string) (v : Z) (i : CoOccurrenceIndex) : CoOccurrenceIndex :=
  bump_generation (with_scores (pair_update (λ _, v) item1 item2 (co_scores_ i)) i).

Definition ClearIndex (i : CoOccurrenceIndex) : CoOccurrenceIndex :=
  bump_generation (with_scores ∅ i).

(** [a.SwapState(b)] for distinct indexes. *)
Definition SwapIndex (a b : CoOccurrenceIndex) : CoOccurrenceIndex * CoOccurrenceIndex :=
  (MkCoIndex (co_config_ a) (co_scores_ b) (generation_ b),
   MkCoIndex (co_config_ b) (co_scores_ a) (generation_ a)).

(** ** Queries *)

Definition GetNeighborCount (item : string) (i : CoOccurrenceIndex) : Z :=
  match co_scores_ i !! item with None => 0 | Some r => Z.of_nat (size r) end.

Definition by_score_desc (p q : string * Z) : bool := f32_ltb q.2 p.2.

Definition GetSimilar (item : string) (top_k : Z) (i : CoOccurrenceIndex) : list (string * Z) :=
  if top_k <=? 0 then []
  else match co_scores_ i !! item with
       | None => []
       | Some r => take (Z.to_nat top_k)
           (std_sort by_score_desc (filter (λ p, f32_ltb f32_zero p.2 = true) (iter_order r)))
       end.

Definition GetScore (a b : string) (i : CoOccurrenceIndex) : Z :=
  match co_scores_ i !! a with
  | None => f32_zero
  | Some r => match r !! b with None => f32_zero | Some v => v end
  end.

Definition GetItemCount (i : CoOccurrenceIndex) : Z := Z.of_nat (size (co_scores_ i)).
Definition GetAllItems (i : CoOccurrenceIndex) : list string := (iter_order (co_scores_ i)).*1.
Definition GetAllNeighbors (item : string) (i : CoOccurrenceIndex) : list (string * Z) :=
  match co_scores_ i !! item with None => [] | Some r => iter_order r end.

Definition co_pairs (i : CoOccurrenceIndex) : Z :=
  Z.of_nat (sum_list ((λ p : string * gmap string Z, size p.2) <$> iter_order (co_scores_ i))) / 2.

End index.

(** ** Cells after each primitive *)

Lemma lookup_row m a b : row m a !! b = cell m a b.
Proof. unfold row, cell. by destruct (m !! a). Qed.

Lemma cell_None_row m a b : m !! a = None → cell m a b = None.
Proof. unfold cell. by intros ->. Qed.

Lemma row_insert m a r x : row (<[a := r]> m) x = if decide (x = a) then r else row m x.
Proof. unfold row. case_decide; subst; [by rewrite lookup_insert_eq|by rewrite lookup_insert_ne]. Qed.

Lemma row_delete m a x : row (delete a m) x = if decide (x = a) then ∅ else row m x.
Proof. unfold row. case_decide; subst; [by rewrite lookup_delete_eq|by rewrite lookup_delete_ne]. Qed.

Lemma cell_cell_update f a b m x y :
  cell (cell_update f a b m) x y =
  if decide (x = a ∧ y = b) then Some (f (default f32_zero (cell m a b))) else cell m x y.
Proof.
  rewrite <- !lookup_row. unfold cell_update. rewrite row_insert.
  destruct (decide (x = a)) as [->|]; [|by rewrite decide_False by tauto].
  destruct (decide (y = b)) as [->|];
    [rewrite lookup_insert_eq, decide_True|rewrite lookup_insert_ne, decide_False]; tauto || done.
Qed.

Lemma cell_pair_update f a b m x y :
  a ≠ b → cell m a b = cell m b a →
  cell (pair_update f a b m) x y =
  if decide (x = a ∧ y = b ∨ x = b ∧ y = a)
  then Some (f (default f32_zero (cell m a b))) else cell m x y.
Proof.
  intros Hne Hs. unfold pair_update. rewrite !cell_cell_update.
  repeat case_decide; try tauto; try congruence; intuition congruence.
Qed.

Lemma cell_erase_pair item m k x y :
  cell (erase_pair item m k) x y =
  if decide (x = item ∧ y = k ∨ x = k ∧ y = item) then None else cell m x y.
Proof.
  assert (Hr : ∀ m x, row (erase_reverse item k m) x =
    if decide (x = k) then delete item (row m k) else row m x).
  { clear. intros m x. unfold erase_reverse. destruct (m !! k) as [r|] eqn:E.
    - assert (row m k = r) as -> by (unfold row; by rewrite E).
      case_bool_decide as He; [rewrite row_delete, He|rewrite row_insert]; done.
    - case_decide; [subst|done]. unfold row. rewrite E. simpl. by rewrite delete_empty. }
  rewrite <- !lookup_row. unfold erase_pair. rewrite Hr, !row_insert.
  repeat case_decide; subst; rewrite ?lookup_delete; repeat case_decide; naive_solver.
Qed.

Lemma erase_pair_rows item m k a :
  a ≠ item → m !! a ≠ Some ∅ → erase_pair item m k !! a ≠ Some ∅.
Proof.
  intros Ha Hm. unfold erase_pair, erase_reverse.
  destruct (decide (a = k)) as [->|Hk].
  - rewrite lookup_insert_ne by done. destruct (m !! k) eqn:E; [|by rewrite lookup_insert_ne, E].
    case_bool_decide; [by rewrite lookup_delete_eq|]. rewrite lookup_insert_eq. congruence.
  - destruct (_ !! k); [case_bool_decide|];
      rewrite ?lookup_delete_ne, ?lookup_insert_ne by done; done.
Qed.

Lemma cell_erase_pairs item ks m x y :
  cell (fold_left (erase_pair item) ks m) x y =
  if decide (x = item ∧ y ∈ ks ∨ x ∈ ks ∧ y = item) then None else cell m x y.
Proof.
  revert m. induction ks as [|k ks IH]; intros m; cbn [fold_left].
  - rewrite decide_False; [done|]. set_solver.
  - rewrite IH, cell_erase_pair. repeat case_decide; try done; set_solver.
Qed.

Lemma erase_pairs_rows item ks m a :
  a ≠ item → m !! a ≠ Some ∅ → fold_left (erase_pair item) ks m !! a ≠ Some ∅.
Proof.
  intros Ha. revert m. induction ks; intros m Hm; cbn [fold_left]; auto using erase_pair_rows.
Qed.

(** ** The representation invariant

    The matrix is symmetric bit for bit, has no self-edges and no empty rows. *)

Record co_ok (m : matrix) : Prop := MkCoOk {
  co_sym : ∀ a b, cell m a b = cell m b a;
  co_irrefl : ∀ a, cell m a a = None;
  co_rows : ∀ a, m !! a ≠ Some ∅
}.

Lemma co_ok_empty : co_ok ∅.
Proof. by split. Qed.

Lemma co_ok_pair_update f a b m : a ≠ b → co_ok m → co_ok (pair_update f a b m).
Proof.
  intros Hne [Hs Hi Hr]. split.
  - intros x y. rewrite !cell_pair_update by auto. repeat case_decide; auto; tauto.
  - intros x. rewrite cell_pair_update by auto. case_decide; auto. intuition congruence.
  - intros x. unfold pair_update, cell_update. rewrite !lookup_insert.
    repeat case_decide; auto; intros [= He]; by eapply insert_non_empty in He.
Qed.

Lemma co_ok_fold {A} (f : matrix → A → matrix) (l : list A) m :
  (∀ m x, co_ok m → co_ok (f m x)) → co_ok m → co_ok (fold_left f l m).
Proof. intros Hf. revert m. induction l; simpl; auto. Qed.

(** *** Pruning one item *)

(** What pruning may leave of a row [r]. *)
Record pruned (cfg : CoConfig) (r r' : gmap string Z) : Prop := MkPruned {
  pruned_sub : r' ⊆ r;
  pruned_support : ∀ k v, r' !! k = Some v → has_support cfg = true → below_support cfg v = false;
  pruned_cap : 0 < max_neighbors_per_item cfg → Z.of_nat (size r') ≤ max_neighbors_per_item cfg;
  pruned_best : (∀ k v, r !! k = Some v → not_nan v) → ∀ k v,
    r !! k = Some v → r' !! k = None →
    (has_support cfg = true ∧ below_support cfg v = true) ∨
    (0 < max_neighbors_per_item cfg ∧ Z.of_nat (size r') = max_neighbors_per_item cfg ∧
     ∀ k' v', r' !! k' = Some v' → f32_ltb (f32_abs v') (f32_abs v) = false)
}.

Section prune.
Context {order : IterOrder}.

Definition weak_entries (cfg : CoConfig) (r : gmap string Z) : list string :=
  if has_support cfg
  then (filter (λ p, below_support cfg p.2 = true) (iter_order r)).*1 else [].

Definition trim_entries (cfg : CoConfig) (r : gmap string Z) : list string :=
  if (0 <? max_neighbors_per_item cfg) && (max_neighbors_per_item cfg <? Z.of_nat (size r))
  then (drop (Z.to_nat (max_neighbors_per_item cfg)) (std_sort by_abs_desc (iter_order r))).*1
  else [].

Definition without (ks : list string) (r : gmap string Z) : gmap string Z :=
  filter (λ p, p.1 ∉ ks) r.

Definition prune_row (cfg : CoConfig) (r : gmap string Z) : gmap string Z :=
  let r1 := without (weak_entries cfg r) r in without (trim_entries cfg r1) r1.

Lemma lookup_without ks r k : without ks r !! k = if decide (k ∈ ks) then None else r !! k.
Proof.
  unfold without. apply option_eq. intros v. rewrite map_lookup_filter_Some. simpl.
  case_decide; naive_solver.
Qed.

Lemma row_erase_pairs item ks m :
  row (fold_left (erase_pair item) ks m) item = without ks (row m item).
Proof.
  apply map_eq. intros k. rewrite lookup_row, lookup_without, cell_erase_pairs, lookup_row.
  repeat case_decide; try done; naive_solver.
Qed.

Lemma PruneItemLocked_unfold cfg m item r :
  m !! item = Some r →
  PruneItemLocked cfg m item =
  let m' := fold_left (erase_pair item)
    (weak_entries cfg r ++ trim_entries cfg (without (weak_entries cfg r) r)) m in
  if bool_decide (row m' item = ∅) then delete item m' else m'.
Proof.
  intros Hr. unfold PruneItemLocked. rewrite Hr.
  assert (Hrow : row m item = r) by (unfold row; by rewrite Hr).
  rewrite fold_left_app.
  set (m1 := if has_support cfg then _ else m).
  assert (m1 = fold_left (erase_pair item) (weak_entries cfg r) m) as ->
    by (unfold m1, weak_entries; by destruct (has_support cfg)).
  unfold trim_entries. rewrite row_erase_pairs, Hrow. by destruct (_ && _).
Qed.

Lemma cell_PruneItemLocked cfg m item x y :
  co_ok m →
  cell (PruneItemLocked cfg m item) x y =
  if decide (x = item) then prune_row cfg (row m item) !! y
  else if decide (y = item) then prune_row cfg (row m item) !! x else cell m x y.
Proof.
  intros [Hs Hi Hr]. destruct (m !! item) as [r|] eqn:E.
  - rewrite (PruneItemLocked_unfold cfg m item r E). cbv zeta.
    assert (row m item = r) as Hrow by (unfold row; by rewrite E).
    assert (Hp : ∀ k, prune_row cfg r !! k =
      if decide (k ∈ weak_entries cfg r ++ trim_entries cfg (without (weak_entries cfg r) r))
      then None else cell m item k).
    { intros k. unfold prune_row. rewrite !lookup_without, <- lookup_row, Hrow.
      repeat case_decide; try done; set_solver. }
    rewrite Hrow, !Hp. set (ks := _ ++ _).
    assert (Hc : cell (fold_left (erase_pair item) ks m) x y =
      if decide (x = item) then if decide (y ∈ ks) then None else cell m item y
      else if decide (y = item) then if decide (x ∈ ks) then None else cell m item x
      else cell m x y).
    { rewrite cell_erase_pairs. repeat case_decide; subst; try tauto; auto; naive_solver. }
    case_bool_decide as He; [|done]. rewrite <- Hc, <- !lookup_row, row_delete.
    case_decide; subst; [|done]. by rewrite He.
  - assert (PruneItemLocked cfg m item = m) as -> by (unfold PruneItemLocked; by rewrite E).
    assert (Hrow : row m item = ∅) by (unfold row; by rewrite E).
    assert (Hp : ∀ k, prune_row cfg (row m item) !! k = None).
    { intros k. unfold prune_row. rewrite !lookup_without, Hrow, lookup_empty.
      by repeat case_decide. }
    rewrite !Hp. repeat case_decide; subst; [| |done].
    + by apply cell_None_row.
    + rewrite Hs. by apply cell_None_row.
Qed.

Lemma co_ok_PruneItemLocked cfg m item : co_ok m → co_ok (PruneItemLocked cfg m item).
Proof.
  intros Hok. pose proof Hok as [Hs Hi Hr]. split.
  - intros a b. rewrite !cell_PruneItemLocked by done. repeat case_decide; subst; auto.
  - intros a. rewrite cell_PruneItemLocked by done. case_decide; [subst|done].
    unfold prune_row. rewrite !lookup_without, lookup_row, Hi. by repeat case_decide.
  - intros a. destruct (m !! item) as [r|] eqn:E.
    + rewrite (PruneItemLocked_unfold cfg m item r E). cbv zeta. set (ks := _ ++ _).
      destruct (decide (a = item)) as [->|Hne].
      * case_bool_decide as He; [by rewrite lookup_delete_eq|].
        intros Hx. apply He. unfold row. by rewrite Hx.
      * case_bool_decide; rewrite ?lookup_delete_ne by done; by apply erase_pairs_rows.
    + unfold PruneItemLocked. rewrite E. apply Hr.
Qed.
(** *** The trimmed row *)

Lemma by_abs_desc_asym p q :
  not_nan p.2 → not_nan q.2 → by_abs_desc p q = true → by_abs_desc q p = false.
Proof. unfold by_abs_desc. intros ??. apply f32_ltb_asym; by apply not_nan_abs. Qed.

Lemma by_abs_desc_trans p q s :
  not_nan p.2 → not_nan q.2 → not_nan s.2 →
  by_abs_desc q p = false → by_abs_desc s q = false → by_abs_desc s p = false.
Proof.
  unfold by_abs_desc. intros. by apply (f32_ltb_trans_neg _ (f32_abs q.2)); try apply not_nan_abs.
Qed.

(** Keeping the first [n] entries of any permutation of the row. *)
Lemma without_drop (l : list (string * Z)) n (r : gmap string Z) :
  l ≡ₚ map_to_list r → without (drop n l).*1 r = list_to_map (take n l).
Proof.
  intros Hp. pose proof (NoDup_fst_map_to_list r) as Hnd. rewrite <- Hp in Hnd.
  assert (Hr : r = list_to_map l)
    by (by rewrite (list_to_map_proper l (map_to_list r)), list_to_map_to_list).
  rewrite <- (take_drop n l), fmap_app in Hnd. apply NoDup_app in Hnd as (Hn1 & Hd & Hn2).
  apply map_eq. intros k. rewrite lookup_without, Hr.
  assert (list_to_map l =@{gmap string Z} list_to_map (take n l) ∪ list_to_map (drop n l)) as ->
    by (by rewrite <- list_to_map_app, take_drop).
  case_decide as Hk.
  - symmetry. apply not_elem_of_list_to_map_1. intros Hk'. by apply (Hd k).
  - rewrite lookup_union_l; [done|]. by apply not_elem_of_list_to_map_1.
Qed.

Lemma trim_row_cap cfg r :
  0 < max_neighbors_per_item cfg →
  Z.of_nat (size (without (trim_entries cfg r) r)) =
  Z.min (max_neighbors_per_item cfg) (Z.of_nat (size r)).
Proof.
  intros Hpos. unfold trim_entries. rewrite (proj2 (Z.ltb_lt _ _) Hpos). cbn [andb].
  destruct (Z.ltb_spec (max_neighbors_per_item cfg) (Z.of_nat (size r))) as [Hlt|Hge].
  - set (l := std_sort by_abs_desc (iter_order r)).
    assert (Hp : l ≡ₚ map_to_list r) by (unfold l; by rewrite std_sort_perm, iter_order_perm).
    rewrite without_drop by done. rewrite map_size_list_to_map.
    + rewrite length_take, (Permutation_length Hp), length_map_to_list. lia.
    + eapply sublist_NoDup; [|apply fmap_sublist, sublist_take].
      rewrite Hp. apply NoDup_fst_map_to_list.
  - unfold without. rewrite map_filter_id; [lia|]. intros k v _ Hk. simpl in Hk. set_solver.
Qed.

Lemma trim_row_best cfg r k v :
  (∀ k v, r !! k = Some v → not_nan v) →
  r !! k = Some v → without (trim_entries cfg r) r !! k = None →
  0 < max_neighbors_per_item cfg < Z.of_nat (size r) ∧
  ∀ k' v', without (trim_entries cfg r) r !! k' = Some v' →
    f32_ltb (f32_abs v') (f32_abs v) = false.
Proof.
  intros Hnn Hk Hn. unfold trim_entries in *.
  destruct (Z.ltb_spec 0 (max_neighbors_per_item cfg)); cbn [andb] in *;
    [|rewrite lookup_without, decide_False in Hn by set_solver; congruence].
  destruct (Z.ltb_spec (max_neighbors_per_item cfg) (Z.of_nat (size r)));
    [|rewrite lookup_without, decide_False in Hn by set_solver; congruence].
  split; [done|]. set (n := Z.to_nat _) in *.
  set (l := std_sort by_abs_desc (iter_order r)) in *.
  assert (Hp : l ≡ₚ map_to_list r) by (unfold l; by rewrite std_sort_perm, iter_order_perm).
  assert (HS : StronglySorted (comp_le by_abs_desc) l).
  { apply (std_sort_sorted _ (λ p, not_nan p.2));
      [intros; by apply by_abs_desc_asym|intros a b c; by apply (by_abs_desc_trans a b c)|].
    apply Forall_forall. intros [a b] Hab%elem_of_iter_order. eauto. }
  intros k' v' Hk'. rewrite without_drop in Hk' by done.
  apply elem_of_list_to_map_2 in Hk'.
  rewrite lookup_without in Hn. case_decide as Hd; [|congruence].
  apply list_elem_of_fmap in Hd as ([k0 v0] & -> & Hd). simpl in Hk.
  assert (v0 = v) as ->.
  { assert (Hin : (k0, v0) ∈ l) by (eapply subseteq_drop, Hd).
    rewrite Hp, elem_of_map_to_list in Hin. simplify_eq/=. done. }
  rewrite <- (take_drop n l) in HS.
  by apply (StronglySorted_app_1_elem_of _ _ _ (k', v') (k0, v) HS).
Qed.

Lemma prune_row_pruned cfg r : pruned cfg r (prune_row cfg r).
Proof.
  unfold prune_row. set (r1 := without (weak_entries cfg r) r).
  assert (Hr1 : ∀ k v, r1 !! k = Some v ↔
    r !! k = Some v ∧ ¬ (has_support cfg = true ∧ below_support cfg v = true)).
  { intros k v. unfold r1, weak_entries. rewrite lookup_without.
    destruct (has_support cfg); [|rewrite decide_False by set_solver; naive_solver].
    assert (Hin : k ∈ (filter (λ p : string * Z, below_support cfg p.2 = true) (iter_order r)).*1
      ↔ ∃ w, r !! k = Some w ∧ below_support cfg w = true).
    { rewrite list_elem_of_fmap. setoid_rewrite list_elem_of_filter. split.
      - intros ([a w] & -> & ? & ?%elem_of_iter_order). eauto.
      - intros (w & Hw & ?). exists (k, w). rewrite elem_of_iter_order. auto. }
    case_decide as Hd; rewrite Hin in Hd; naive_solver. }
  split.
  - intros. apply map_subseteq_spec. intros k v. rewrite lookup_without.
    case_decide; [done|]. rewrite Hr1. tauto.
  - intros k v Hk Hs. rewrite lookup_without in Hk. case_decide; [done|].
    apply Hr1 in Hk as [_ Hk]. apply not_true_iff_false. tauto.
  - intros Hpos. rewrite trim_row_cap by done. lia.
  - intros Hnn k v Hk Hn. destruct (r1 !! k) as [w|] eqn:E.
    + apply Hr1 in E as E'. destruct E' as [E' _]. assert (w = v) by congruence. subst w.
      destruct (trim_row_best cfg r1 k v) as [Hm Hb]; [|done..|].
      { intros k' v' [Hk' _]%Hr1. eauto. }
      right. split; [lia|]. split; [|done]. rewrite trim_row_cap by lia. lia.
    + left. destruct (has_support cfg) eqn:Es, (below_support cfg v) eqn:Eb; auto;
        assert (r1 !! k = Some v) by (apply Hr1; split; [done|]; intuition congruence); congruence.
Qed.
End prune.

(** ** Every operation keeps the invariant *)

Section preservation.
Context {order : IterOrder} {libm : Libm}.

Lemma co_ok_add_pair t h e1 e2 m : co_ok m → co_ok (add_pair t h e1 e2 m).
Proof.
  intros Hm. unfold add_pair. case_bool_decide; [done|].
  destruct (f32_eqb _ _); [done|]. by apply co_ok_pair_update.
Qed.

Lemma co_ok_AddEventIncremental prior e t h i :
  co_ok (co_scores_ i) → co_ok (co_scores_ (AddEventIncrementalInternal prior e t h i)).
Proof.
  intros Hm. unfold AddEventIncrementalInternal. case_bool_decide; [done|].
  assert (co_ok (fold_left (λ m p, add_pair t h e p m) prior (co_scores_ i)))
    by (apply co_ok_fold; [intros; by apply co_ok_add_pair|done]).
  case_match; simpl; [|done]. apply co_ok_fold; [intros; by apply co_ok_PruneItemLocked|done].
Qed.

Lemma co_ok_ApplyNegativeSignal r ctx w i :
  co_ok (co_scores_ i) → co_ok (co_scores_ (ApplyNegativeSignalLocked r ctx w i)).
Proof.
  intros Hm. unfold ApplyNegativeSignalLocked. case_match; [done|]. simpl.
  apply co_ok_fold; [|done]. intros m p Hm'. case_bool_decide; [done|]. by apply co_ok_pair_update.
Qed.

Lemma co_ok_ApplyIngestedEvent prior e o i :
  co_ok (co_scores_ i) → co_ok (co_scores_ (ApplyIngestedEvent prior e o i)).
Proof.
  intros Hm. unfold ApplyIngestedEvent.
  case_match; [apply co_ok_ApplyNegativeSignal|]; by apply co_ok_AddEventIncremental.
Qed.

Lemma co_ok_add_all_pairs t h events m : co_ok m → co_ok (add_all_pairs t h events m).
Proof.
  revert m. induction events as [|e events IH]; intros m Hm; [done|]. simpl. apply IH.
  apply co_ok_fold; [intros; by apply co_ok_add_pair|done].
Qed.

Lemma co_ok_UpdateFromEvents events t h i :
  co_ok (co_scores_ i) → co_ok (co_scores_ (UpdateFromEvents events t h i)).
Proof.
  intros Hm. unfold UpdateFromEvents, UpdateFromEventsInternal. case_bool_decide; [done|].
  pose proof (co_ok_add_all_pairs t h events _ Hm). cbv zeta.
  destruct (prunes (co_config_ i)); simpl; [|done].
  apply co_ok_fold; [|done]. intros m e Hm'. destruct (m !! item_id e); [|done].
  case_match; [|done].
  by apply co_ok_PruneItemLocked.
Qed.

Lemma cell_decayed th alpha m a b :
  cell (omap (decay_row th alpha) m) a b = cell m a b ≫= decay_cell th alpha.
Proof.
  unfold cell. rewrite lookup_omap. destruct (m !! a) as [r|] eqn:E; [simpl|done].
  unfold decay_row. case_bool_decide as He; simpl; [|by rewrite lookup_omap].
  rewrite <- lookup_omap, He. by rewrite lookup_empty.
Qed.

Lemma co_ok_ApplyDecay alpha i :
  co_ok (co_scores_ i) → co_ok (co_scores_ (ApplyDecay alpha i)).
Proof.
  intros Hm. unfold ApplyDecay. destruct (_ || _); [done|].
  destruct (f64_eqb alpha 0); [case_bool_decide; [done|apply co_ok_empty]|].
  destruct Hm as [Hs Hi Hr]. simpl. split.
  - intros a b. by rewrite !cell_decayed, Hs.
  - intros a. by rewrite cell_decayed, Hi.
  - intros a. rewrite lookup_omap. destruct (co_scores_ i !! a); [simpl|done].
    unfold decay_row. case_bool_decide; congruence.
Qed.

Lemma co_ok_SetScore a b v i :
  a ≠ b → co_ok (co_scores_ i) → co_ok (co_scores_ (SetScore a b v i)).
Proof. intros. simpl. by apply co_ok_pair_update. Qed.

Lemma co_ok_Prune i : co_ok (co_scores_ i) → co_ok (co_scores_ (Prune i)).
Proof. intros. simpl. apply co_ok_fold; [intros; by apply co_ok_PruneItemLocked|done]. Qed.

(** The operations as a step relation; [SetScore] is only used on distinct
    ids, [SwapState] is the exchange with another index of the same program. *)
Inductive co_step : CoOccurrenceIndex → CoOccurrenceIndex → Prop :=
| step_ingest prior e o i : co_step i (ApplyIngestedEvent prior e o i)
| step_add prior e t h i : co_step i (AddEventIncrementalInternal prior e t h i)
| step_update events t h i : co_step i (UpdateFromEvents events t h i)
| step_negative r ctx w i : co_step i (ApplyNegativeSignalLocked r ctx w i)
| step_decay alpha i : co_step i (ApplyDecay alpha i)
| step_set a b v i : a ≠ b → co_step i (SetScore a b v i)
| step_prune i : co_step i (Prune i)
| step_clear i : co_step i (ClearIndex i).

Inductive co_reachable (cfg : CoConfig) : CoOccurrenceIndex → Prop :=
| co_initial : co_reachable cfg (new_index cfg)
| co_after i i' : co_reachable cfg i → co_step i i' → co_reachable cfg i'
| co_swapped cfg' i j : co_reachable cfg i → co_reachable cfg' j →
    co_reachable cfg (fst (SwapIndex i j)).

Lemma co_step_ok i i' : co_step i i' → co_ok (co_scores_ i) → co_ok (co_scores_ i').
Proof.
  destruct 1; eauto using co_ok_ApplyIngestedEvent, co_ok_AddEventIncremental,
    co_ok_UpdateFromEvents, co_ok_ApplyNegativeSignal, co_ok_ApplyDecay, co_ok_SetScore,
    co_ok_Prune, co_ok_empty.
Qed.

Lemma co_reachable_ok cfg i : co_reachable cfg i → co_ok (co_scores_ i).
Proof.
  induction 1; [apply co_ok_empty|by eapply co_step_ok|done].
Qed.

(** The generation is unchanged, or has moved by one or two steps. *)
Definition bumped (i i' : CoOccurrenceIndex) : Prop :=
  (i' = i) ∨ ∃ n, 1 ≤ n ≤ 2 ∧ generation_ i' = wrap 64 (generation_ i + n).

Lemma bumped_add prior e t h i :
  AddEventIncrementalInternal prior e t h i = i ∨
  generation_ (AddEventIncrementalInternal prior e t h i) = u64 (generation_ i + 1).
Proof.
  unfold AddEventIncrementalInternal. case_bool_decide; [by left|right]. cbv zeta.
  by destruct (prunes _).
Qed.

Lemma bumped_negative r ctx w i :
  ApplyNegativeSignalLocked r ctx w i = i ∨
  generation_ (ApplyNegativeSignalLocked r ctx w i) = u64 (generation_ i + 1).
Proof. unfold ApplyNegativeSignalLocked. case_match; auto. Qed.

Lemma wrap_add_wrap w a b : 0 ≤ w → wrap w (wrap w a + b) = wrap w (a + b).
Proof. intros. unfold wrap. by rewrite Zplus_mod_idemp_l. Qed.

Lemma co_step_bumped i i' : co_step i i' → bumped i i'.
Proof.
  assert (H1 : ∀ i i', i' = i ∨ generation_ i' = u64 (generation_ i + 1) → bumped i i').
  { intros ? ? [->|?]; [by left|right]. exists 1. split; [lia|done]. }
  destruct 1; try (apply H1; right; reflexivity).
  - unfold ApplyIngestedEvent.
    destruct (bumped_add prior e (temporal_enabled o) (half_life_sec o) i) as [E|E];
      destruct (_ && _); try (rewrite E); auto using bumped_negative.
    set (j := AddEventIncrementalInternal _ _ _ _ _) in *.
    destruct (bumped_negative (item_id e) prior (negative_weight o) j) as [E'|E']; [rewrite E'; auto|].
    right. exists 2. split; [lia|]. rewrite E', E. unfold u64. rewrite wrap_add_wrap by lia.
    f_equal. lia.
  - apply H1, bumped_add.
  - apply H1. unfold UpdateFromEvents, UpdateFromEventsInternal.
    case_bool_decide; [by left|right]. cbv zeta. by destruct (prunes _).
  - apply H1, bumped_negative.
  - apply H1. unfold ApplyDecay. repeat case_match; auto.
Qed.

Lemma co_reachable_generation cfg i : co_reachable cfg i → in_u 64 (generation_ i).
Proof.
  assert (Hb : ∀ i i', bumped i i' → in_u 64 (generation_ i) → in_u 64 (generation_ i')).
  { intros ? ? [->|(n & _ & Hg)]; [done|]. intros _. rewrite Hg. by apply wrap_in_u. }
  induction 1 as [|cfg i i' Hr IH Hs|]; [done| |done]. eapply Hb, IH. by apply co_step_bumped.
Qed.

Lemma GetScore_cell a b i : GetScore a b i = default f32_zero (cell (co_scores_ i) a b).
Proof. unfold GetScore, cell. destruct (_ !! a); [simpl|done]. by destruct (_ !! b). Qed.

End preservation.

(** ** Accumulated contributions *)

Section accumulation.
Context {order : IterOrder} {libm : Libm}.
Context (t : bool) (h : Z).

(** What the pair of events [e1], [e2] adds to the cell of [a] and [b]. *)
Definition contrib (a b : string) (e1 e2 : Event) : list Z :=
  if bool_decide (item_id e1 = item_id e2) then []
  else let s := pair_score t h e1 e2 in
       if f32_eqb s f32_zero then []
       else if bool_decide (item_id e1 = a ∧ item_id e2 = b ∨ item_id e1 = b ∧ item_id e2 = a)
       then [s] else [].

Definition accumulate (o : option Z) (l : list Z) : option Z :=
  match l with [] => o | _ => Some (fold_left f32_add l (default f32_zero o)) end.

Lemma accumulate_app o l1 l2 : accumulate o (l1 ++ l2) = accumulate (accumulate o l1) l2.
Proof.
  destruct l1 as [|x l1]; [done|]. destruct l2 as [|y l2]; [by rewrite app_nil_r|].
  simpl. by rewrite fold_left_app.
Qed.

Lemma cell_add_pair e1 e2 m a b :
  co_ok m → cell (add_pair t h e1 e2 m) a b = accumulate (cell m a b) (contrib a b e1 e2).
Proof.
  intros [Hs _ _]. unfold add_pair, contrib. case_bool_decide; [done|].
  destruct (f32_eqb _ _); [done|]. rewrite cell_pair_update by auto.
  case_decide; [rewrite bool_decide_eq_true_2 by naive_solver|
    by rewrite bool_decide_eq_false_2 by naive_solver].
  assert (cell m a b = cell m (item_id e1) (item_id e2)) as -> by naive_solver. done.
Qed.

Lemma cell_add_pairs e l m a b :
  co_ok m →
  cell (fold_left (λ m p, add_pair t h e p m) l m) a b =
  accumulate (cell m a b) (l ≫= contrib a b e).
Proof.
  revert m. induction l as [|p l IH]; intros m Hm; [done|]. cbn [fold_left].
  rewrite IH by (by apply co_ok_add_pair). rewrite cell_add_pair by done.
  by rewrite <- accumulate_app.
Qed.

Fixpoint batch_contribs (a b : string) (events : list Event) : list Z :=
  match events with
  | [] => []
  | e :: events' => (events' ≫= contrib a b e) ++ batch_contribs a b events'
  end.

Lemma cell_add_all_pairs events m a b :
  co_ok m →
  cell (add_all_pairs t h events m) a b = accumulate (cell m a b) (batch_contribs a b events).
Proof.
  revert m. induction events as [|e events IH]; intros m Hm; [done|]. simpl.
  rewrite IH by (apply co_ok_fold; [intros; by apply co_ok_add_pair|done]).
  by rewrite cell_add_pairs, <- accumulate_app.
Qed.

(** Streaming: each event of [events] is added against all its predecessors. *)
Fixpoint stream (prior events : list Event) (i : CoOccurrenceIndex) : CoOccurrenceIndex :=
  match events with
  | [] => i
  | e :: events' => stream (prior ++ [e]) events' (AddEventIncrementalInternal prior e t h i)
  end.

Fixpoint stream_contribs (a b : string) (prior events : list Event) : list Z :=
  match events with
  | [] => []
  | e :: events' => (prior ≫= contrib a b e) ++ stream_contribs a b (prior ++ [e]) events'
  end.

Lemma config_AddEventIncremental prior e i :
  co_config_ (AddEventIncrementalInternal prior e t h i) = co_config_ i.
Proof.
  unfold AddEventIncrementalInternal. case_bool_decide; [done|]. by destruct (prunes _).
Qed.

Lemma cell_AddEventIncremental prior e i a b :
  prunes (co_config_ i) = false → co_ok (co_scores_ i) →
  cell (co_scores_ (AddEventIncrementalInternal prior e t h i)) a b =
  accumulate (cell (co_scores_ i) a b) (prior ≫= contrib a b e).
Proof.
  intros Hp Hm. unfold AddEventIncrementalInternal. case_bool_decide; [by subst|].
  cbv zeta. simpl. rewrite Hp. by apply cell_add_pairs.
Qed.

Lemma cell_stream prior events i a b :
  prunes (co_config_ i) = false → co_ok (co_scores_ i) →
  cell (co_scores_ (stream prior events i)) a b =
  accumulate (cell (co_scores_ i) a b) (stream_contribs a b prior events).
Proof.
  revert prior i. induction events as [|e events IH]; intros prior i Hp Hm; [done|]. simpl.
  rewrite IH by (rewrite ?config_AddEventIncremental; auto using co_ok_AddEventIncremental).
  by rewrite cell_AddEventIncremental, <- accumulate_app.
Qed.

Lemma contrib_sym a b e1 e2 : contrib a b e1 e2 = contrib a b e2 e1.
Proof.
  assert (Hs : pair_score t h e1 e2 = pair_score t h e2 e1).
  { unfold pair_score. rewrite (Z.mul_comm (score e1)), (Z.max_comm (ev_timestamp e1)).
    case_match; [|done]. f_equal. apply f32_mul_comm. }
  unfold contrib. rewrite Hs.
  rewrite (bool_decide_ext (item_id e1 = item_id e2) (item_id e2 = item_id e1)) by done.
  by rewrite (bool_decide_ext (_ ∨ _) (item_id e2 = a ∧ item_id e1 = b ∨ item_id e2 = b ∧ item_id e1 = a)) by tauto.
Qed.

(** Both orders visit the same pairs. *)
Lemma stream_contribs_perm a b prior events :
  stream_contribs a b prior events ≡ₚ
  (events ≫= λ e, prior ≫= contrib a b e) ++ batch_contribs a b events.
Proof.
  revert prior. induction events as [|e events IH]; intros prior; [done|]. simpl.
  rewrite IH, <- (assoc_L (++)). apply Permutation_app_head. rewrite (assoc_L (++)).
  apply Permutation_app_tail. clear IH. induction events as [|e' events IH]; [done|]. simpl.
  rewrite bind_app. simpl. rewrite app_nil_r, (contrib_sym a b e' e).
  rewrite IH. rewrite !(assoc_L (++)). apply Permutation_app_tail.
  rewrite <- !(assoc_L (++)). apply Permutation_app_head. apply Permutation_app_comm.
Qed.

End accumulation.

(** ** Pruning a list of items *)

Section prune_many.
Context {order : IterOrder} (cfg : CoConfig).

Lemma row_PruneItemLocked m item :
  co_ok m → row (PruneItemLocked cfg m item) item = prune_row cfg (row m item).
Proof.
  intros. apply map_eq. intros k. rewrite lookup_row, cell_PruneItemLocked by done.
  by rewrite decide_True.
Qed.

Lemma row_PruneItemLocked_sub m item a :
  co_ok m → row (PruneItemLocked cfg m item) a ⊆ row m a.
Proof.
  intros Hm. pose proof (pruned_sub _ _ _ (prune_row_pruned cfg (row m item))) as Hsub.
  rewrite map_subseteq_spec in Hsub.
  apply map_subseteq_spec. intros k v. rewrite !lookup_row, cell_PruneItemLocked by done.
  repeat case_decide; subst; auto.
  - intros Hk%Hsub. by rewrite lookup_row in Hk.
  - intros Hk%Hsub. rewrite lookup_row in Hk. by rewrite (co_sym _ Hm).
Qed.

Lemma co_ok_prunes ids m : co_ok m → co_ok (fold_left (PruneItemLocked cfg) ids m).
Proof. apply co_ok_fold. intros. by apply co_ok_PruneItemLocked. Qed.

Lemma row_prunes_sub ids m a :
  co_ok m → row (fold_left (PruneItemLocked cfg) ids m) a ⊆ row m a.
Proof.
  revert m. induction ids as [|x ids IH]; intros m Hm; [done|]. simpl.
  etransitivity; [apply IH; by apply co_ok_PruneItemLocked|]. by apply row_PruneItemLocked_sub.
Qed.

(** The row of a pruned item respects the cap and the support threshold. *)
Definition row_within (r : gmap string Z) : Prop :=
  (0 < max_neighbors_per_item cfg → Z.of_nat (size r) ≤ max_neighbors_per_item cfg) ∧
  (∀ k v, r !! k = Some v → has_support cfg = true → below_support cfg v = false).

Lemma row_within_sub r r' : r' ⊆ r → row_within r → row_within r'.
Proof.
  intros Hsub [Hc Hs]. split.
  - intros Hp%Hc. apply map_subseteq_size in Hsub. lia.
  - intros k v Hk. eapply Hs, lookup_weaken; eauto.
Qed.

Lemma row_prunes_within ids m a :
  co_ok m → a ∈ ids → row_within (row (fold_left (PruneItemLocked cfg) ids m) a).
Proof.
  intros Hm Ha. revert m Hm. induction ids as [|x ids IH]; intros m Hm; simpl; [by apply not_elem_of_nil in Ha|].
  apply elem_of_cons in Ha as [<-|Ha].
  - eapply row_within_sub; [by apply row_prunes_sub, co_ok_PruneItemLocked|].
    rewrite row_PruneItemLocked by done.
    destruct (prune_row_pruned cfg (row m a)) as [_ Hs Hc _]. by split.
  - apply IH; [done|]. by apply co_ok_PruneItemLocked.
Qed.
End prune_many.

Lemma elem_of_std_unique x l : x ∈ std_unique l ↔ x ∈ l.
Proof.
  induction l as [|y [|z l] IH]; [done..|]. cbn [std_unique].
  case_bool_decide as Hyz; [subst|]; rewrite !elem_of_cons in *; rewrite IH; naive_solver.
Qed.

Lemma elem_of_affected_ids x prior e :
  x ∈ affected_ids prior e ↔ x = item_id e ∨ ∃ p, p ∈ prior ∧ x = item_id p.
Proof.
  unfold affected_ids. rewrite elem_of_std_unique, std_sort_perm, elem_of_cons, list_elem_of_fmap.
  setoid_rewrite list_elem_of_filter. split; [naive_solver|].
  intros [->|(p & Hp & ->)]; [by left|].
  destruct (decide (item_id p = item_id e)) as [->|]; [by left|right]. naive_solver.
Qed.

Section claims.
Context {order : IterOrder} {libm : Libm}.

Lemma contribs_elsewhere t h a k e prior :
  a ≠ item_id e → (∀ p, p ∈ prior → a ≠ item_id p) → (prior ≫= contrib t h a k e) = [].
Proof.
  intros He. induction prior as [|p prior IH]; intros Hp; [done|].
  rewrite bind_cons, IH by set_solver. rewrite app_nil_r. unfold contrib.
  assert (a ≠ item_id p) by set_solver.
  case_bool_decide; [done|]. destruct (f32_eqb _ _); [done|]. rewrite bool_decide_eq_false_2; naive_solver.
Qed.

(** C27: after [AddEventIncremental] on a well-formed index, every item the
    event touched (its own id and the ids of the prior events) respects the
    neighbor cap and the support threshold, and no other item's row has grown;
    so when every row respected the cap before, every row does after. *)
Theorem add_event_incremental_capped prior e t h i :
  co_ok (co_scores_ i) → prior ≠ [] → prunes (co_config_ i) = true →
  let i' := AddEventIncrementalInternal prior e t h i in
  (∀ a, a ∈ affected_ids prior e → row_within (co_config_ i) (row (co_scores_ i') a)) ∧
  (∀ a, a ∉ affected_ids prior e → row (co_scores_ i') a ⊆ row (co_scores_ i) a) ∧
  ((∀ a, row_within (co_config_ i) (row (co_scores_ i) a)) →
   ∀ a, row_within (co_config_ i) (row (co_scores_ i') a)).
Proof.
  intros Hm Hne Hp. cbv zeta. unfold AddEventIncrementalInternal.
  rewrite bool_decide_eq_false_2 by done. cbv zeta. simpl. rewrite Hp. simpl.
  set (m := fold_left _ prior (co_scores_ i)).
  assert (Hok : co_ok m) by (apply co_ok_fold; [intros; by apply co_ok_add_pair|done]).
  assert (H1 : ∀ a, a ∈ affected_ids prior e → row_within (co_config_ i)
    (row (fold_left (PruneItemLocked (co_config_ i)) (affected_ids prior e) m) a))
    by (intros; by apply row_prunes_within).
  assert (H2 : ∀ a, a ∉ affected_ids prior e →
    row (fold_left (PruneItemLocked (co_config_ i)) (affected_ids prior e) m) a
    ⊆ row (co_scores_ i) a).
  { intros a Ha. etransitivity; [by apply row_prunes_sub|]. apply map_subseteq_spec.
    intros k v. rewrite !lookup_row. unfold m. rewrite cell_add_pairs by done.
    rewrite elem_of_affected_ids in Ha. by rewrite contribs_elsewhere by naive_solver. }
  split_and!; [done..|]. intros Hw a.
  destruct (decide (a ∈ affected_ids prior e)); [by apply H1|].
  eapply row_within_sub; [by apply H2|apply Hw].
Qed.


(** [GetSimilar] returns at most [top_k] distinct neighbors, all with a
    positive score that is the stored one, in decreasing score order; every
    positive neighbor it leaves out scores no more than each one it returns,
    and it leaves some out only when it returns exactly [top_k]. *)
Lemma get_similar_spec item k i :
  (∀ b v, cell (co_scores_ i) item b = Some v → not_nan v) → 0 < k →
  let r := GetSimilar item k i in
  NoDup r.*1 ∧ Z.of_nat (length r) ≤ k ∧
  StronglySorted (comp_le by_score_desc) r ∧
  (∀ b v, (b, v) ∈ r → cell (co_scores_ i) item b = Some v ∧ f32_ltb f32_zero v = true) ∧
  (∀ b v, cell (co_scores_ i) item b = Some v → f32_ltb f32_zero v = true → (b, v) ∉ r →
    Z.of_nat (length r) = k ∧ ∀ b' v', (b', v') ∈ r → f32_ltb v' v = false).
Proof.
  intros Hnn Hk. cbv zeta. unfold GetSimilar. destruct (Z.leb_spec k 0); [lia|].
  unfold cell in *. destruct (co_scores_ i !! item) as [r|]; simpl in *;
    [|split_and!; [constructor|simpl; lia|constructor|set_solver|done]].
  set (f := filter _ (iter_order r)).
  assert (Hf : ∀ b v, (b, v) ∈ f ↔ r !! b = Some v ∧ f32_ltb f32_zero v = true).
  { intros. unfold f. rewrite list_elem_of_filter, elem_of_iter_order. simpl. tauto. }
  set (l := std_sort by_score_desc f).
  assert (Hl : l ≡ₚ f) by apply std_sort_perm.
  assert (HS : StronglySorted (comp_le by_score_desc) l).
  { apply (std_sort_sorted _ (λ p, not_nan p.2)).
    - intros p q Hp Hq. by apply f32_ltb_asym.
    - unfold by_score_desc. intros p q s Hp Hq Hs H1 H2. by apply (f32_ltb_trans_neg _ q.2).
    - apply Forall_forall. intros [b v] [Hb _]%Hf. eauto. }
  assert (Hnd : NoDup l.*1).
  { rewrite Hl. eapply sublist_NoDup; [apply (NoDup_fst_iter_order r)|].
    apply fmap_sublist, sublist_filter. }
  split_and!.
  - eapply sublist_NoDup; [done|]. apply fmap_sublist, sublist_take.
  - rewrite length_take. lia.
  - by apply StronglySorted_take.
  - intros b v Hb. apply Hf. rewrite <- Hl. by eapply subseteq_take.
  - intros b v Hb Hpos Hn.
    assert (Hin : (b, v) ∈ l) by (rewrite Hl; by apply Hf).
    rewrite <- (take_drop (Z.to_nat k) l) in Hin. apply elem_of_app in Hin as [?|Hd]; [done|].
    split.
    + assert (0 < length (drop (Z.to_nat k) l))%nat by (destruct (drop _ l); [set_solver|simpl; lia]).
      rewrite length_drop in *. rewrite length_take. lia.
    + intros b' v' Hb'. rewrite <- (take_drop (Z.to_nat k) l) in HS.
      by apply (StronglySorted_app_1_elem_of _ _ _ (b', v') (b, v) HS).
Qed.


(** Pruning an item leaves every cell that is not in its row or column
    alone, keeps its row inside the support threshold and the cap, and drops a
    supported neighbor only when the cap is reached and every kept neighbor has
    at least its absolute score; the reverse entries go with it. *)
Lemma prune_item_spec cfg m item :
  co_ok m →
  let m' := PruneItemLocked cfg m item in
  co_ok m' ∧ pruned cfg (row m item) (row m' item) ∧
  (∀ x, cell m' x item = cell m' item x) ∧
  (∀ x y, x ≠ item → y ≠ item → cell m' x y = cell m x y).
Proof.
  intros Hm. cbv zeta. pose proof (co_ok_PruneItemLocked cfg m item Hm) as Hm'. split_and!.
  - done.
  - rewrite row_PruneItemLocked by done. apply prune_row_pruned.
  - intros. apply (co_sym _ Hm').
  - intros. rewrite cell_PruneItemLocked by done. by rewrite !decide_False.
Qed.

(** [ApplyDecay] with a factor in (0, 1] multiplies every cell and drops
    exactly those whose magnitude falls under the threshold, so every survivor
    is at or above it; a factor of zero empties the index, a factor outside
    [0, 1] changes nothing. *)
Lemma apply_decay_spec alpha i :
  let i' := ApplyDecay alpha i in
  let th := decay_threshold (co_config_ i) in
  if f64_ltb alpha 0 || f64_ltb f64_one alpha then i' = i
  else if f64_eqb alpha 0 then co_scores_ i' = ∅
  else ∀ a b,
    cell (co_scores_ i') a b =
      (v ← cell (co_scores_ i) a b;
       let v' := f32_mul v (f32_of_f64 alpha) in
       if f32_ltb (f32_abs v') th then None else Some v') ∧
    (∀ v, cell (co_scores_ i') a b = Some v → f32_ltb (f32_abs v) th = false).
Proof.
  cbv zeta. unfold ApplyDecay. destruct (_ || _); [done|].
  destruct (f64_eqb alpha 0); [by case_bool_decide|].
  intros a b. simpl. rewrite cell_decayed. split; [done|].
  intros v. destruct (cell _ a b) as [w|]; [simpl|done]. unfold decay_cell.
  destruct (f32_ltb _ _) eqn:E; [done|]. by intros [= <-].
Qed.
End claims.

(** ** Concrete runs *)

(** [std::exp2] on small negative integers, where it is exact. *)
Definition exp2_table : Libm :=
  {| exp2 := λ b,
       match list_find (λ k, f64_opp (f64_of_Z k) = b) (seqZ 0 32) with
       | Some (_, k) => f64_div f64_one (f64_of_Z (2 ^ k))
       | None => 0
       end |}.

Definition ev (id : string) (s ts : Z) : Event := MkEvent id s ts ADD.
Definition unlimited : CoConfig := MkCoConfig 0 f32_zero 1.
Definition capped_at (n : Z) : CoConfig := MkCoConfig n f32_zero 1.

Lemma add_event_incremental_capped_witness :
  let i := @AddEventIncrementalInternal tree_order exp2_table [ev "b" 1 0; ev "c" 2 0] (ev "a" 3 0) false 0
             (new_index (capped_at 1)) in
  size (row (co_scores_ i) "a") = 1%nat ∧
  row_within (co_config_ (new_index (capped_at 1))) (row (co_scores_ i) "c").
Proof.
  cbv zeta. split; [vm_compute; reflexivity|].
  refine (proj1 (@add_event_incremental_capped tree_order exp2_table [ev "b" 1 0; ev "c" 2 0] (ev "a" 3 0) false 0
    (new_index (capped_at 1)) _ _ _) "c" _); [apply co_ok_empty|done|reflexivity|].
  apply (bool_decide_unpack _). vm_compute. exact I.
Defined.


Definition three_neighbors : CoOccurrenceIndex :=
  SetScore "a" "b" (f32_of_Z 2) (SetScore "a" "c" (f32_of_Z 5) (SetScore "a" "d" (f32_of_Z (-1))
    (new_index unlimited))).

Lemma get_similar_spec_witness :
  let r := @GetSimilar tree_order "a" 1 three_neighbors in
  r = [("c", f32_of_Z 5)] ∧ NoDup r.*1.
Proof.
  cbv zeta. split; [vm_compute; reflexivity|].
  refine (proj1 (@get_similar_spec tree_order "a" 1 three_neighbors _ _)); [|lia].
  intros b v. rewrite <- lookup_row.
  intros Hv%elem_of_map_to_list. revert Hv.
  assert (Forall (λ p, not_nan p.2) (map_to_list (row (co_scores_ three_neighbors) "a")))
    as HF by (apply (bool_decide_unpack _); vm_compute; exact I).
  rewrite Forall_forall in HF. intros Hv. apply (HF _ Hv).
Defined.


Lemma prune_item_spec_witness :
  let m' := @PruneItemLocked tree_order (capped_at 1) (co_scores_ three_neighbors) "a" in
  map_to_list (row m' "a") = [("c", f32_of_Z 5)] ∧ co_ok m'.
Proof.
  cbv zeta. split; [vm_compute; reflexivity|].
  refine (proj1 (@prune_item_spec tree_order (capped_at 1) (co_scores_ three_neighbors) "a" _)).
  repeat (apply co_ok_SetScore; [done|]). apply co_ok_empty.
Defined.

(** A streaming update is not bit-for-bit the batch rebuild: additions of
    [float] do not associate, and the two visit the pairs in another order. *)
Theorem streaming_differs_from_batch :
  let es := [ev "a" 1 100; ev "b" 100 118; ev "a" 100 118; ev "b" 50 117] in
  @GetScore "a" "b" (@stream tree_order exp2_table true f64_one [] es (new_index unlimited)) ≠
  @GetScore "a" "b" (@UpdateFromEvents tree_order exp2_table es true f64_one (new_index unlimited)).
Proof. vm_compute. congruence. Qed.

(** Negative signals are applied after pruning: they can leave a row over the
    cap. *)
Lemma negative_signal_exceeds_cap :
  let i := @ApplyIngestedEvent tree_order exp2_table [ev "b" 1 0; ev "c" 1 0] (MkEvent "a" 0 0 DEL)
    (MkIngestOptions false 0 true (f64_of_Z 1)) (new_index (capped_at 1)) in
  GetNeighborCount "a" i = 2.
Proof. vm_compute. reflexivity. Qed.

(** A batch update keeps edges under [min_support] in rows that are within the
    neighbor cap. *)
Theorem batch_keeps_weak_edges :
  let cfg := MkCoConfig 10 (f32_of_Z 5) 1 in
  let i := @UpdateFromEvents tree_order exp2_table [ev "a" 1 0; ev "b" 1 0] false 0 (new_index cfg) in
  GetScore "a" "b" i = f32_of_Z 1 ∧ below_support cfg (f32_of_Z 1) = true.
Proof. vm_compute. split; reflexivity. Qed.
