(* ===== verification/Wal.v ===== *)
(** * [storage::WriteAheadLog] (src/storage/wal.h, wal.cpp)

    The write-ahead log: segments of framed, checksummed records in a
    directory, with rotation, poisoning after a failed write, recovery of a torn
    tail, replay and truncation.

    The directory is a map from file names to contents ([World]); every system
    call whose result the code looks at consumes one [outcome] of an oracle, so
    failures, short reads and writes and interrupted calls can happen anywhere
    (an exhausted oracle succeeds).  [crc32] is zlib's.  Error values carry the
    code and the fixed part of the message, without [strerror] and paths. *)

From S2P Require Import Prelude.
#[local] Open Scope Z_scope.

(** ** The operating system *)

Inductive outcome : Type := SysOk | SysFail | SysShort (n : nat) | SysEintr.

#[export] Instance outcome_eq_dec : EqDecision outcome.
Proof. solve_decision. Defined.

Record World : Type := MkWorld {
  w_files : gmap string (list byte);
  w_faults : list outcome
}.

Class Zlib : Type := {
  crc32 : list byte → Z;
  crc32_range : ∀ bs, in_u 32 (crc32 bs)
}.

(** ** Constants and records *)

Definition kWalRecordHeaderSize : Z := 17.
Definition kWalFileHeaderSize : Z := 8.
Definition kMaxWalRecordBodySize : Z := 64 * 1024 * 1024.
Definition kWalMagic : Z := 0x4C41574E.
Definition kWalVersion : Z := 1.

(** [enum class WalOpType : uint8_t]; a byte read from disk need not name an
    enumerator. *)
Inductive WalOpType : Type :=
| kVecSet | kVecDel | kEventAdd | kEventDel | kMetaSet | kMetaDel
| kCoOccurrenceMaintenance | UnnamedOp (raw : byte).

#[export] Instance WalOpType_eq_dec : EqDecision WalOpType.
Proof. solve_decision. Defined.

Definition op_byte (op : WalOpType) : byte :=
  match op with
  | kVecSet => byte_of_Z 1 | kVecDel => byte_of_Z 2 | kEventAdd => byte_of_Z 3
  | kEventDel => byte_of_Z 4 | kMetaSet => byte_of_Z 5 | kMetaDel => byte_of_Z 6
  | kCoOccurrenceMaintenance => byte_of_Z 7 | UnnamedOp b => b
  end.

Definition op_of_byte (b : byte) : WalOpType :=
  let z := Z_of_byte b in
  if z =? 1 then kVecSet else if z =? 2 then kVecDel else if z =? 3 then kEventAdd
  else if z =? 4 then kEventDel else if z =? 5 then kMetaSet else if z =? 6 then kMetaDel
  else if z =? 7 then kCoOccurrenceMaintenance else UnnamedOp b.

Record WalRecord : Type := MkRecord {
  sequence : Z;
  timestamp_us : Z;
  op : WalOpType;
  payload : list byte
}.

#[export] Instance WalRecord_eq_dec : EqDecision WalRecord.
Proof. solve_decision. Defined.

Record WalFile : Type := MkWalFile {
  path : string;
  file_number : Z;
  min_sequence : Z;
  max_sequence : Z;
  file_size : Z
}.

Record WalConfig : Type := MkWalConfig {
  max_file_size : Z;
  sync_on_write : bool;
  sync_interval_ms : Z
}.

Record WriteAheadLog : Type := MkWal {
  config_ : WalConfig;
  current_fd_ : option string;     (* the file the descriptor writes to *)
  current_sequence_ : Z;
  current_file_size_ : Z;
  current_file_number_ : Z;
  files_ : list WalFile;
  open_ : bool;
  needs_sync_ : bool;
  sync_running_ : bool
}.

Definition new_wal : WriteAheadLog :=
  MkWal (MkWalConfig (64 * 1024 * 1024) false 100) None 0 0 0 [] false false false.

Record State : Type := MkState { wal : WriteAheadLog; world : World }.

(** ** Field updates *)

Definition on_wal (f : WriteAheadLog → WriteAheadLog) (s : State) : State :=
  MkState (f (wal s)) (world s).
Definition set_config c (l : WriteAheadLog) := MkWal c (current_fd_ l) (current_sequence_ l)
  (current_file_size_ l) (current_file_number_ l) (files_ l) (open_ l) (needs_sync_ l) (sync_running_ l).
Definition set_fd fd (l : WriteAheadLog) := MkWal (config_ l) fd (current_sequence_ l)
  (current_file_size_ l) (current_file_number_ l) (files_ l) (open_ l) (needs_sync_ l) (sync_running_ l).
Definition set_sequence q (l : WriteAheadLog) := MkWal (config_ l) (current_fd_ l) q
  (current_file_size_ l) (current_file_number_ l) (files_ l) (open_ l) (needs_sync_ l) (sync_running_ l).
Definition set_file_size z (l : WriteAheadLog) := MkWal (config_ l) (current_fd_ l) (current_sequence_ l)
  z (current_file_number_ l) (files_ l) (open_ l) (needs_sync_ l) (sync_running_ l).
Definition set_file_number n (l : WriteAheadLog) := MkWal (config_ l) (current_fd_ l) (current_sequence_ l)
  (current_file_size_ l) n (files_ l) (open_ l) (needs_sync_ l) (sync_running_ l).
Definition set_files fs (l : WriteAheadLog) := MkWal (config_ l) (current_fd_ l) (current_sequence_ l)
  (current_file_size_ l) (current_file_number_ l) fs (open_ l) (needs_sync_ l) (sync_running_ l).
Definition set_open b (l : WriteAheadLog) := MkWal (config_ l) (current_fd_ l) (current_sequence_ l)
  (current_file_size_ l) (current_file_number_ l) (files_ l) b (needs_sync_ l) (sync_running_ l).
Definition set_needs_sync b (l : WriteAheadLog) := MkWal (config_ l) (current_fd_ l) (current_sequence_ l)
  (current_file_size_ l) (current_file_number_ l) (files_ l) (open_ l) b (sync_running_ l).
Definition set_sync_running b (l : WriteAheadLog) := MkWal (config_ l) (current_fd_ l) (current_sequence_ l)
  (current_file_size_ l) (current_file_number_ l) (files_ l) (open_ l) (needs_sync_ l) b.

Definition modify (f : WriteAheadLog → WriteAheadLog) : SE State unit := se_put (on_wal f).

(** ** System calls *)

Definition next_outcome (w : World) : outcome * World :=
  match w_faults w with
  | [] => (SysOk, w)
  | o :: fs => (o, MkWorld (w_files w) fs)
  end.

(** A call that either succeeds or fails. *)
Definition sys : SE State bool := λ s,
  let '(o, w) := next_outcome (world s) in (Ok (bool_decide (o = SysOk)), MkState (wal s) w).

Definition set_contents (name : string) (bs : list byte) (s : State) : State :=
  MkState (wal s) (MkWorld (<[name := bs]> (w_files (world s))) (w_faults (world s))).
Definition remove_file (name : string) (s : State) : State :=
  MkState (wal s) (MkWorld (delete name (w_files (world s))) (w_faults (world s))).
Definition contents (name : string) (s : State) : list byte := default [] (w_files (world s) !! name).

Definition unlink (name : string) : SE State bool :=
  let! ok := sys in
  if ok then se_put (remove_file name) ;! se_ret true else se_ret false.

(** The loop of [WriteAll]: what reaches the file, success, what is left of
    the oracle.  A [write] that returns 0 is repeated. *)
Fixpoint write_loop (faults : list outcome) (data : list byte) : list byte * bool * list outcome :=
  match data with
  | [] => ([], true, faults)
  | _ =>
    match faults with
    | [] => (data, true, [])
    | SysOk :: fs => (data, true, fs)
    | SysFail :: fs => ([], false, fs)
    | SysEintr :: fs => write_loop fs data
    | SysShort n :: fs =>
        let '(w, ok, fs') := write_loop fs (drop n data) in (take n data ++ w, ok, fs')
    end
  end.

(** Writing through a descriptor appends to its file. *)
Definition WriteAll (name : string) (data : list byte) : SE State bool := λ s,
  let '(w, ok, fs) := write_loop (w_faults (world s)) data in
  (Ok ok, MkState (wal s) (MkWorld (<[name := contents name s ++ w]> (w_files (world s))) fs)).

(** The loop of [ReadAll]: the next [n] bytes of [rest].  A [read] that returns
    0 is the end of the file. *)
Fixpoint ReadAll (faults : list outcome) (n : nat) (rest : list byte)
    : option (list byte * list byte) * list outcome :=
  match n with
  | O => (Some ([], rest), faults)
  | _ =>
    match faults with
    | [] => (if (n <=? length rest)%nat then Some (take n rest, drop n rest) else None, [])
    | SysOk :: fs => (if (n <=? length rest)%nat then Some (take n rest, drop n rest) else None, fs)
    | SysFail :: fs => (None, fs)
    | SysEintr :: fs => ReadAll fs n rest
    | SysShort m :: fs =>
        let m := (m `min` n `min` length rest)%nat in
        if bool_decide (m = 0%nat) then (None, fs)
        else match ReadAll fs (n - m) (drop m rest) with
             | (Some (bs, rest'), fs') => (Some (take m rest ++ bs, rest'), fs')
             | (None, fs') => (None, fs')
             end
    end
  end.

(** ** File names: [snprintf("wal-%06u.log")] and the pattern of the scan *)

Definition digit (d : Z) : Ascii.ascii := Ascii.ascii_of_N (Z.to_N (48 + d)).

Definition digits6 (n : Z) : string :=
  String (digit (n / 100000 mod 10)) (String (digit (n / 10000 mod 10))
  (String (digit (n / 1000 mod 10)) (String (digit (n / 100 mod 10))
  (String (digit (n / 10 mod 10)) (String (digit (n mod 10)) EmptyString))))).

Definition MakeFilePath (n : Z) : string :=
  "wal-" +:+ (if n <? 1000000 then "" else pretty (Z.to_N (n / 1000000))) +:+ digits6 n +:+ ".log".

Definition isdigit (c : Ascii.ascii) : bool :=
  let z := Z.of_N (Ascii.N_of_ascii c) in (48 <=? z) && (z <=? 57).

Definition stoul (ds : list Ascii.ascii) : Z :=
  fold_left (λ acc c, 10 * acc + (Z.of_N (Ascii.N_of_ascii c) - 48)) ds 0.

(** [Some num] when [readdir]'s name is [wal-NNNNNN.log]. *)
Definition segment_number (name : string) : option Z :=
  if (String.length name =? 14)%nat && String.eqb (String.substring 0 4 name) "wal-" &&
     String.eqb (String.substring 10 4 name) ".log"
  then let ds := String.list_ascii_of_string (String.substring 4 6 name) in
       if forallb isdigit ds then Some (u32 (stoul ds)) else None
  else None.

Example names : MakeFilePath 7 = "wal-000007.log" ∧ MakeFilePath 1234567 = "wal-1234567.log" ∧
  segment_number "wal-000042.log" = Some 42 ∧ segment_number (MakeFilePath 1000000) = None.
Proof. vm_compute. auto. Qed.

(** ** Records on disk *)

Section wal.
Context {order : IterOrder} {zlib : Zlib}.

Definition encode_body (r : WalRecord) : list byte :=
  le_bytes 8 (sequence r) ++ le_bytes 8 (timestamp_us r) ++ [op_byte (op r)] ++ payload r.

Definition encode_record (r : WalRecord) : list byte :=
  let body := encode_body r in
  le_bytes 4 (Z.of_nat (length body)) ++ le_bytes 4 (crc32 body) ++ body.

Definition file_header : list byte := le_bytes 4 kWalMagic ++ le_bytes 4 kWalVersion.

Definition decode_body (body : list byte) : WalRecord :=
  MkRecord (le_value (take 8 body)) (le_value (take 8 (drop 8 body)))
    (op_of_byte (nth 16 body Byte.x00)) (drop 17 body).

(** ** Creating segments *)

Definition WriteFileHeader (name : string) : SE State unit :=
  let! ok := WriteAll name file_header in
  if ok then modify (set_file_size kWalFileHeaderSize)
  else se_throw kWalWriteError "Failed to write WAL file header".

(** Close the current descriptor, if any. *)
Definition CloseForRotation : SE State unit :=
  let! s := se_get in
  match current_fd_ (wal s) with
  | None => se_ret tt
  | Some _ =>
      let! synced := sys in
      if negb synced then se_throw kWalRotationFailed "Failed to fsync WAL segment before rotation"
      else
        let! closed := sys in
        modify (set_fd None) ;!
        if negb closed then se_throw kWalRotationFailed "Failed to close WAL segment before rotation"
        else se_ret tt
  end.

(** The [do ... while (fd < 0 && errno == EEXIST)] loop; [O_EXCL] refuses a
    file that exists, so [fuel] above the number of files is enough. *)
Fixpoint CreateNext (fuel : nat) : SE State string :=
  let! s := se_get in
  if current_file_number_ (wal s) =? u32_max
  then se_throw kWalRotationFailed "WAL file number space exhausted"
  else
    let num := current_file_number_ (wal s) + 1 in
    let name := MakeFilePath num in
    modify (set_file_number num) ;!
    if bool_decide (is_Some (w_files (world s) !! name)) then
      match fuel with
      | O => se_throw kWalRotationFailed "fuel"
      | S fuel' => CreateNext fuel'
      end
    else
      let! ok := sys in
      if ok then se_put (set_contents name []) ;! se_ret name
      else se_throw kWalRotationFailed "Failed to create WAL file".

(** Drop the new segment after a failed sync. *)
Definition abandon_segment (name m : string) : SE State unit :=
  modify (set_fd None) ;!
  let! _ := unlink name in
  se_throw kWalRotationFailed m.

(** From the creation of the file [name] to its entry in [files_]. *)
Definition InitSegment (name : string) : SE State unit :=
  modify (λ l, set_file_size 0 (set_fd (Some name) l)) ;!
  se_cleanup (WriteFileHeader name) (on_wal (set_fd None)) ;!
  let! synced := sys in
  if negb synced then abandon_segment name "Failed to fsync new WAL segment"
  else
    let! dir_synced := sys in
    if negb dir_synced then abandon_segment name "Failed to fsync WAL directory"
    else
      modify (λ l, set_files (files_ l ++ [MkWalFile name (current_file_number_ l)
                                             (current_sequence_ l + 1) 0 (current_file_size_ l)]) l).

Definition RotateFile : SE State unit :=
  CloseForRotation ;!
  let! s := se_get in
  let! name := CreateNext (size (w_files (world s))) in
  InitSegment name.

(** ** Appending *)

(** [files_.back()]: last sequence and size; nothing when there is no file. *)
Definition set_back (seq sz : Z) (fs : list WalFile) : list WalFile :=
  match reverse fs with
  | [] => []
  | f :: rest => reverse rest ++ [MkWalFile (path f) (file_number f) (min_sequence f) seq sz]
  end.

Definition poison_current_segment {A} (m : string) : SE State A :=
  modify (set_fd None) ;! modify (set_open false) ;! se_throw kWalWriteError m.

Definition record_size (payload : list byte) : Z := 8 + (kWalRecordHeaderSize + Z.of_nat (length payload)).

(** The part of [Append] after the rotation check.  [NowMicros()] is the
    argument [now]. *)
Definition WriteRecord (op : WalOpType) (payload : list byte) (now : Z) : SE State Z :=
  modify (λ l, set_sequence (current_sequence_ l + 1) l) ;!
  let! s := se_get in
  let seq := current_sequence_ (wal s) in
  let body := encode_body (MkRecord seq (u64 now) op payload) in
  let name := default EmptyString (current_fd_ (wal s)) in
  let! header_ok := WriteAll name
    (le_bytes 4 (Z.of_nat (length body)) ++ le_bytes 4 (crc32 body)) in
  if negb header_ok then poison_current_segment "Failed to write record header"
  else
    let! body_ok := WriteAll name body in
    if negb body_ok then poison_current_segment "Failed to write record body"
    else
      modify (λ l, set_file_size (current_file_size_ l + record_size payload) l) ;!
      modify (λ l, set_files (set_back seq (current_file_size_ l) (files_ l)) l) ;!
      if sync_on_write (config_ (wal s)) then
        let! synced := sys in
        if negb synced then poison_current_segment "Failed to fsync WAL record" else se_ret seq
      else modify (set_needs_sync true) ;! se_ret seq.

Definition needs_rotation (l : WriteAheadLog) (payload : list byte) : bool :=
  (max_file_size (config_ l) <? current_file_size_ l + record_size payload) &&
  (kWalFileHeaderSize <? current_file_size_ l).

Definition Append (op : WalOpType) (payload : list byte) (now : Z) : SE State Z :=
  let! s := se_get in
  match (if open_ (wal s) then current_fd_ (wal s) else None) with
  | None => se_throw kWalNotOpen "WAL is not open"
  | Some _ =>
    if current_sequence_ (wal s) =? u64_max
    then se_throw kWalWriteError "WAL sequence number space exhausted"
    else if kMaxWalRecordBodySize - kWalRecordHeaderSize <? Z.of_nat (length payload)
    then se_throw kWalWriteError "WAL payload exceeds maximum record size"
    else
      (if needs_rotation (wal s) payload
       then modify (λ l, set_files (set_back (current_sequence_ l) (current_file_size_ l) (files_ l)) l) ;!
            RotateFile
       else se_ret tt) ;!
      WriteRecord op payload now
  end.

(** ** Reading segments *)

(** One round of the record loops of [ScanExistingFiles] and
    [ReplayValidated]; [rest] is the file from the current offset on. *)
Inductive frame : Type :=
| FEnd                                  (* remaining == 0 *)
| FTornHeader | FTornBody
| FReadHeader | FReadBody               (* ReadAll failed *)
| FBadLength | FBadCrc
| FRecord (body rest : list byte).

Definition read_frame (rest : list byte) (faults : list outcome) : frame * list outcome :=
  if bool_decide (rest = []) then (FEnd, faults)
  else if (length rest <? 8)%nat then (FTornHeader, faults)
  else match ReadAll faults 8 rest with
  | (None, fs) => (FReadHeader, fs)
  | (Some (hdr, rest'), fs) =>
      let body_length := le_value (take 4 hdr) in
      let expected_crc := le_value (drop 4 hdr) in
      if (body_length <? kWalRecordHeaderSize) || (kMaxWalRecordBodySize <? body_length)
      then (FBadLength, fs)
      else if Z.of_nat (length rest) - 8 <? body_length then (FTornBody, fs)
      else match ReadAll fs (Z.to_nat body_length) rest' with
      | (None, fs) => (FReadBody, fs)
      | (Some (body, rest''), fs) =>
          if crc32 body =? expected_crc then (FRecord body rest'', fs) else (FBadCrc, fs)
      end
  end.

(** The oracle as a resource of a computation. *)
Definition with_faults {A} (f : list outcome → A * list outcome) : SE State A := λ s,
  let '(a, fs) := f (w_faults (world s)) in
  (Ok a, MkState (wal s) (MkWorld (w_files (world s)) fs)).

Definition ValidateFileHeader (bs : list byte) : SE State (list byte) :=
  let! r := with_faults (λ fs, ReadAll fs 8 bs) in
  match r with
  | None => se_throw kWalReadError "Failed to read WAL file header"
  | Some (hdr, rest) =>
      if negb (le_value (take 4 hdr) =? kWalMagic)
      then se_throw kWalCorrupted "Invalid WAL magic number"
      else if negb (le_value (drop 4 hdr) =? kWalVersion)
      then se_throw kWalCorrupted "Unsupported WAL version"
      else se_ret rest
  end.

(** [previous_sequence.has_value() && (previous == max || seq != previous + 1)] *)
Definition not_contiguous (previous : option Z) (seq : Z) : bool :=
  match previous with
  | None => false
  | Some p => (p =? u64_max) || negb (seq =? p + 1)
  end.

(** The record loop of the scan.  [lo], [hi]: smallest and largest sequence so
    far; [off]: end of the last valid record.  The result is (lo, hi, previous,
    whether the tail was torn and truncated). *)
Fixpoint ScanRecords (fuel : nat) (latest : bool) (name : string) (rest : list byte)
    (off lo hi : Z) (previous : option Z) : SE State (Z * Z * option Z) :=
  let! f := with_faults (read_frame rest) in
  let torn m :=
    if negb latest then se_throw kWalCorrupted m
    else let! ok := sys in
         if ok then se_put (λ s, set_contents name (take (Z.to_nat off) (contents name s)) s) ;!
                    se_ret (lo, hi, previous)
         else se_throw kWalCorrupted m in
  match f with
  | FEnd => se_ret (lo, hi, previous)
  | FTornHeader => torn "Torn WAL header in segment"
  | FReadHeader => se_throw kWalReadError "Failed to read WAL record header"
  | FBadLength => se_throw kWalCorrupted "Invalid WAL record length"
  | FTornBody => torn "Torn WAL body in segment"
  | FReadBody => se_throw kWalReadError "Failed to read WAL record body"
  | FBadCrc => se_throw kWalCorrupted "WAL record CRC mismatch"
  | FRecord body rest' =>
      let seq := le_value (take 8 body) in
      if not_contiguous previous seq then se_throw kWalCorrupted "WAL sequence is not contiguous"
      else match fuel with
           | O => se_throw kInternalError "fuel"
           | S fuel' =>
               ScanRecords fuel' latest name rest' (off + 8 + Z.of_nat (length body))
                 (if seq <? lo then seq else lo) (if hi <? seq then seq else hi) (Some seq)
           end
  end.

(** One segment of [ScanExistingFiles]; fuel: the file's length. *)
Definition ScanSegment (latest : bool) (num : Z) (previous : option Z) : SE State (option Z) :=
  let name := MakeFilePath num in
  let! s := se_get in
  let! opened := sys in
  match (if opened then w_files (world s) !! name else None) with
  | None => se_throw kWalReadError "Failed to open WAL segment"
  | Some bs =>
      let! rest := ValidateFileHeader bs in
      let! stat_ok := sys in
      if negb stat_ok then se_throw kWalReadError "Failed to stat WAL segment"
      else
        let! '(lo, hi, previous) :=
          ScanRecords (length bs) latest name rest kWalFileHeaderSize u64_max 0 previous in
        let! restat_ok := sys in
        if negb restat_ok then se_throw kWalReadError "Failed to restat WAL segment"
        else
          let! s := se_get in
          let wf := MkWalFile name num (if lo =? u64_max then 0 else lo) hi
                      (Z.of_nat (length (contents name s))) in
          modify (λ l, set_sequence (Z.max (current_sequence_ l) hi) l) ;!
          modify (λ l, set_file_number (Z.max (current_file_number_ l) num) l) ;!
          modify (λ l, set_files (files_ l ++ [wf]) l) ;!
          se_ret previous
  end.

Fixpoint ScanSegments (nums : list Z) (previous : option Z) : SE State unit :=
  match nums with
  | [] => se_ret tt
  | num :: nums' =>
      let! previous := ScanSegment (bool_decide (nums' = [])) num previous in
      ScanSegments nums' previous
  end.

Fixpoint adjacent_find (l : list Z) : bool :=
  match l with
  | x :: (y :: _) as l' => (x =? y) || adjacent_find l'
  | _ => false
  end.

Definition segment_numbers (w : World) : list Z :=
  std_sort Z.ltb (omap (λ p, segment_number p.1) (iter_order (w_files w))).

Definition ScanExistingFiles : SE State unit :=
  modify (set_files []) ;! modify (set_sequence 0) ;! modify (set_file_number 0) ;!
  let! opened := sys in
  if negb opened then se_ret tt
  else
    let! s := se_get in
    let nums := segment_numbers (world s) in
    if adjacent_find nums then se_throw kWalCorrupted "Duplicate WAL segment number"
    else ScanSegments nums None.

(** ** Opening and closing *)

Definition Close : SE State unit :=
  modify (set_sync_running false) ;!
  let! s := se_get in
  (match current_fd_ (wal s) with
   | None => se_ret tt
   | Some _ => let! _ := sys in modify (set_fd None)
   end) ;!
  modify (set_open false).

(** Unlink the segments without records; the others are kept, in order. *)
Fixpoint RemoveEmpty (fs : list WalFile) : SE State (list WalFile * bool) :=
  match fs with
  | [] => se_ret ([], false)
  | f :: fs' =>
      if negb (max_sequence f =? 0)
      then let! '(kept, removed) := RemoveEmpty fs' in se_ret (f :: kept, removed)
      else let! ok := unlink (path f) in
           if ok then let! '(kept, _) := RemoveEmpty fs' in se_ret (kept, true)
           else se_throw kWalTruncateFailed "Failed to remove empty WAL segment"
  end.

(** [directory] is the verdict of [utils::ValidatePrivateDirectory] and of
    [std::filesystem::canonical] on the configured directory. *)
Definition Open (cfg : WalConfig) (directory : Expected unit) : SE State unit :=
  Close ;!
  modify (set_config cfg) ;!
  let! made := sys in
  if negb made then se_throw kWalWriteError "Failed to create WAL directory"
  else
    let! _ := se_lift directory in
    ScanExistingFiles ;!
    let! s := se_get in
    let! '(kept, removed) := RemoveEmpty (files_ (wal s)) in
    modify (set_files kept) ;!
    (if removed then
       let! synced := sys in
       if synced then se_ret tt
       else se_throw kWalTruncateFailed "Failed to fsync WAL directory after removing empty segments"
     else se_ret tt) ;!
    RotateFile ;!
    modify (set_open true) ;!
    if negb (sync_on_write cfg) && (0 <? sync_interval_ms cfg)
    then modify (set_sync_running true) else se_ret tt.

(** One wake-up of the background [SyncLoop]. *)
Definition SyncTick : SE State unit :=
  let! s := se_get in
  if sync_running_ (wal s) && needs_sync_ (wal s) then
    modify (set_needs_sync false) ;!
    match current_fd_ (wal s) with
    | None => se_ret tt
    | Some _ => let! synced := sys in
                if synced then se_ret tt
                else modify (set_fd None) ;! modify (set_open false)
    end
  else se_ret tt.

(** ** Truncation *)

Definition truncatable (upto : Z) (l : WriteAheadLog) (f : WalFile) : bool :=
  (max_sequence f <=? upto) && (0 <? max_sequence f) &&
  negb (file_number f =? current_file_number_ l).

(** The remaining files, how many were deleted, whether an unlink failed. *)
Fixpoint TruncateFiles (upto : Z) (fs : list WalFile) : SE State (list WalFile * Z * bool) :=
  match fs with
  | [] => se_ret ([], 0, false)
  | f :: fs' =>
      let! s := se_get in
      if truncatable upto (wal s) f then
        let! ok := unlink (path f) in
        let! '(rem, n, failed) := TruncateFiles upto fs' in
        if ok then se_ret (rem, n + 1, failed) else se_ret (f :: rem, n, true)
      else
        let! '(rem, n, failed) := TruncateFiles upto fs' in se_ret (f :: rem, n, failed)
  end.

Definition Truncate (upto : Z) : SE State unit :=
  let! s := se_get in
  let! '(rem, deleted, failed) := TruncateFiles upto (files_ (wal s)) in
  modify (set_files rem) ;!
  (if 0 <? deleted then
     let! synced := sys in
     if synced then se_ret tt else se_throw kWalTruncateFailed "Failed to fsync WAL directory after truncate"
   else se_ret tt) ;!
  if failed then se_throw kWalTruncateFailed "Failed to unlink WAL segment" else se_ret tt.

(** ** Replay *)

Section replay.
Context {Acc : Type} (callback : WalRecord → Acc → Expected unit * Acc).

Record ReplayState : Type := MkReplay {
  r_count : Z;
  r_floor_seen : bool;
  r_previous : option Z;
  r_acc : Acc
}.

(** Replay does not change the log: it runs on the caller's state and the
    oracle. *)
Inductive replay_end : Type :=
| RNext                       (* end of the segment *)
| RTorn                       (* recoverable torn tail of the newest segment *)
| RError (e : Error).

(** The record loop of one segment; [from] is [from_sequence]. *)
Fixpoint ReplayRecords (fuel : nat) (latest : bool) (from : Z) (rest : list byte)
    (faults : list outcome) (r : ReplayState) : replay_end * ReplayState * list outcome :=
  let '(f, faults) := read_frame rest faults in
  match f with
  | FEnd => (RNext, r, faults)
  | FTornHeader => (if latest then RTorn else RError (MakeError kStorageCorrupted "Torn WAL header in non-latest segment"), r, faults)
  | FReadHeader => (RError (MakeError kWalReadError "Failed to read WAL record header"), r, faults)
  | FBadLength => (RError (MakeError kStorageCorrupted "Invalid WAL record length in"), r, faults)
  | FTornBody => (if latest then RTorn else RError (MakeError kStorageCorrupted "Torn WAL body in non-latest segment"), r, faults)
  | FReadBody => (RError (MakeError kWalReadError "Failed to read WAL record body"), r, faults)
  | FBadCrc => (RError (MakeError kStorageCorrupted "WAL record CRC mismatch in"), r, faults)
  | FRecord body rest' =>
      let rec := decode_body body in
      if not_contiguous (r_previous r) (sequence rec)
      then (RError (MakeError kStorageCorrupted "WAL sequence is not contiguous"), r, faults)
      else
        let r := MkReplay (r_count r) (r_floor_seen r || (sequence rec =? from))
                   (Some (sequence rec)) (r_acc r) in
        match fuel with
        | O => (RError (MakeError kInternalError "fuel"), r, faults)
        | S fuel' =>
            if sequence rec <? from then ReplayRecords fuel' latest from rest' faults r
            else
              match callback rec (r_acc r) with
              | (Unexpected e, acc) =>
                  (RError e, MkReplay (r_count r) (r_floor_seen r) (r_previous r) acc, faults)
              | (Ok _, acc) =>
                  ReplayRecords fuel' latest from rest' faults
                    (MkReplay (r_count r + 1) (r_floor_seen r) (r_previous r) acc)
              end
        end
  end.

Definition replay_header (bs : list byte) (faults : list outcome) : Expected (list byte) * list outcome :=
  let '(r, s) := ValidateFileHeader bs (MkState new_wal (MkWorld ∅ faults)) in
  (r, w_faults (world s)).

Fixpoint ReplayPaths (from : Z) (files : gmap string (list byte)) (paths : list string)
    (faults : list outcome) (r : ReplayState) : replay_end * ReplayState * list outcome :=
  match paths with
  | [] => (RNext, r, faults)
  | name :: paths' =>
      let '(o, w) := next_outcome (MkWorld files faults) in
      let faults := w_faults w in
      match (if bool_decide (o = SysOk) then files !! name else None) with
      | None => (RError (MakeError kWalReadError "Failed to open WAL segment"), r, faults)
      | Some bs =>
          match replay_header bs faults with
          | (Unexpected e, faults) => (RError e, r, faults)
          | (Ok rest, faults) =>
              let '(o, w) := next_outcome (MkWorld files faults) in
              let faults := w_faults w in
              if negb (bool_decide (o = SysOk))
              then (RError (MakeError kWalReadError "Failed to stat WAL segment"), r, faults)
              else
                match ReplayRecords (length bs) (bool_decide (paths' = [])) from rest faults r with
                | (RNext, r, faults) => ReplayPaths from files paths' faults r
                | stop => stop
                end
          end
      end
  end.

Definition replay_paths (from : Z) (fs : list WalFile) : list string :=
  path <$> filter (λ f, from <= max_sequence f ∨ max_sequence f = 0) fs.

Definition ReplayValidated (from : Z) (s : State) (acc : Acc) : Expected Z * Acc * State :=
  let '(stop, r, faults) := ReplayPaths from (w_files (world s)) (replay_paths from (files_ (wal s)))
    (w_faults (world s)) (MkReplay 0 (from =? 0) None acc) in
  let s' := MkState (wal s) (MkWorld (w_files (world s)) faults) in
  match stop with
  | RError e => (Unexpected e, r_acc r, s')
  | RTorn => (Ok (r_count r), r_acc r, s')
  | RNext =>
      if negb (r_floor_seen r) && (from <=? current_sequence_ (wal s))
      then (throw kWalCorrupted "WAL does not contain requested replay floor sequence", r_acc r, s')
      else (Ok (r_count r), r_acc r, s')
  end.

End replay.
End wal.

(** ** A concrete [crc32] for the evaluations *)

Fixpoint crc_bits (n : nat) (c : Z) : Z :=
  match n with
  | O => c
  | S n' => crc_bits n' (if Z.odd c then Z.lxor (Z.shiftr c 1) 0xEDB88320 else Z.shiftr c 1)
  end.
Definition crc_ieee (bs : list byte) : Z :=
  u32 (Z.lxor (fold_left (λ c b, crc_bits 8 (Z.lxor c (Z_of_byte b))) bs u32_max) u32_max).

Definition zlib_ieee : Zlib :=
  {| crc32 := crc_ieee; crc32_range := λ bs, wrap_in_u 32 _ ltac:(lia) |}.

Example crc_check : crc_ieee (bytes_of_string "123456789") = 0xCBF43926.
Proof. vm_compute. reflexivity. Qed.
