(* ===== verification/WalRecovery.v ===== *)
(** * Durability and recovery of the write-ahead log

    The log as a list of records cut into segments, its representation on disk
    and in the [WriteAheadLog] object, and the theorems: what [Append] leaves
    on disk whatever call fails, what [Open] recovers, what [ReplayValidated]
    delivers and what [Truncate] keeps. *)

From S2P Require Import Prelude Wal.
#[local] Open Scope Z_scope.

(** ** Frames *)

Section frames.
Context {zlib : Zlib}.

Record record_ok (r : WalRecord) : Prop := MkRecordOk {
  seq_pos : 1 ≤ sequence r;
  seq_u64 : in_u 64 (sequence r);
  ts_u64 : in_u 64 (timestamp_us r);
  op_named : op_of_byte (op_byte (op r)) = op r;
  fits : kWalRecordHeaderSize + Z.of_nat (length (payload r)) ≤ kMaxWalRecordBodySize
}.

Lemma length_encode_body r : length (encode_body r) = (17 + length (payload r))%nat.
Proof. unfold encode_body. rewrite !length_app, !length_le_bytes. simpl. lia. Qed.

Lemma length_encode_record r : length (encode_record r) = (25 + length (payload r))%nat.
Proof.
  unfold encode_record. rewrite !length_app, !length_le_bytes, length_encode_body. simpl. lia.
Qed.

Lemma length_file_header : length file_header = 8%nat.
Proof. reflexivity. Qed.

Lemma ReadAll_nil n bs rest : n = length bs → ReadAll [] n (bs ++ rest) = (Some (bs, rest), []).
Proof.
  intros ->. destruct bs as [|b bs]; [done|]. cbn [ReadAll].
  change (ReadAll [] (length (b :: bs)) ((b :: bs) ++ rest))
    with (if (length (b :: bs) <=? length ((b :: bs) ++ rest))%nat
          then Some (take (length (b :: bs)) ((b :: bs) ++ rest), drop (length (b :: bs)) ((b :: bs) ++ rest))
          else None, @nil outcome).
  rewrite take_app_length, drop_app_length, length_app.
  destruct (Nat.leb_spec (length (b :: bs)) (length (b :: bs) + length rest)); [done|lia].
Qed.

Lemma decode_encode_body r : record_ok r → decode_body (encode_body r) = r.
Proof.
  intros [_ Hs Ht Ho _]. unfold decode_body, encode_body.
  rewrite take_app_length' by (by rewrite length_le_bytes).
  rewrite drop_app_length' by (by rewrite length_le_bytes).
  rewrite take_app_length' by (by rewrite length_le_bytes).
  rewrite app_nth2 by (rewrite length_le_bytes; lia).
  rewrite app_nth2 by (rewrite !length_le_bytes; lia).
  rewrite !length_le_bytes. change (16 - 8 - 8)%nat with 0%nat. cbn [nth app].
  rewrite (assoc_L (++)), drop_app. rewrite length_app, !length_le_bytes.
  rewrite drop_ge by (rewrite length_app, !length_le_bytes; lia).
  rewrite !le_value_bytes_small by done. destruct r; simpl in *. by rewrite Ho, drop_0.
Qed.

Lemma sequence_encode_body r : record_ok r → le_value (take 8 (encode_body r)) = sequence r.
Proof. intros Hr. by rewrite <- (decode_encode_body r Hr) at 2. Qed.

Lemma read_frame_record r rest :
  record_ok r → read_frame (encode_record r ++ rest) [] = (FRecord (encode_body r) rest, []).
Proof.
  intros [_ _ _ _ Hf]. pose proof (length_encode_body r) as Hb.
  unfold kWalRecordHeaderSize, kMaxWalRecordBodySize in *.
  unfold read_frame. rewrite bool_decide_eq_false_2 by (by destruct (encode_record r) eqn:E;
    [apply (f_equal length) in E; rewrite length_encode_record in E|]).
  rewrite length_app, length_encode_record.
  destruct (Nat.ltb_spec (25 + length (payload r) + length rest) 8); [lia|].
  unfold encode_record. set (hdr := le_bytes 4 (Z.of_nat (length (encode_body r)))).
  rewrite (assoc_L (++) hdr), <- (assoc_L (++) (hdr ++ _)).
  unfold hdr. rewrite ReadAll_nil by (by rewrite length_app, !length_le_bytes).
  rewrite take_app_length', drop_app_length' by (by rewrite length_le_bytes).
  rewrite !le_value_bytes_small by
    (apply crc32_range || (rewrite Hb; unfold in_u; change (2 ^ (8 * Z.of_nat 4)) with 4294967296; lia)).
  rewrite Hb. unfold kWalRecordHeaderSize, kMaxWalRecordBodySize.
  destruct (Z.ltb_spec (Z.of_nat (17 + length (payload r))) 17); [lia|].
  destruct (Z.ltb_spec (64 * 1024 * 1024) (Z.of_nat (17 + length (payload r)))); [lia|]. cbn [orb].
  destruct (Z.ltb_spec (Z.of_nat (25 + length (payload r) + length rest) - 8)
    (Z.of_nat (17 + length (payload r)))); [lia|].
  rewrite ReadAll_nil by lia. by rewrite Z.eqb_refl.
Qed.

(** A strict prefix of a record: what a torn write leaves. *)
Definition torn (t : list byte) : Prop :=
  ∃ r, record_ok r ∧ t `prefix_of` encode_record r ∧ t ≠ encode_record r.

Lemma torn_nil : torn [].
Proof.
  exists (MkRecord 1 0 kVecSet []). split_and!; [|apply prefix_nil|].
  - split; simpl; try (vm_compute; split; congruence || done); done.
  - intros E%(f_equal length). by rewrite length_encode_record in E.
Qed.

Lemma read_frame_torn t :
  torn t → read_frame t [] = (FEnd, []) ∧ t = [] ∨
    (read_frame t [] = (FTornHeader, []) ∨ read_frame t [] = (FTornBody, [])) ∧ t ≠ [].
Proof.
  intros (r & [_ _ _ _ Hf] & [t' Ht'] & Hne). unfold read_frame.
  destruct t as [|b t]; [by left|right]. split; [|done]. rewrite bool_decide_eq_false_2 by done.
  set (bs := b :: t) in *. destruct (Nat.ltb_spec (length bs) 8) as [|Hlen]; [by left|right].
  pose proof (length_encode_record r) as Hr. pose proof (length_encode_body r) as Hb.
  assert (Hlt : (length bs < 25 + length (payload r))%nat).
  { rewrite <- Hr, Ht', length_app. destruct t'; [|simpl; lia].
    rewrite app_nil_r in Ht'. congruence. }
  unfold kWalRecordHeaderSize, kMaxWalRecordBodySize in *.
  unfold encode_record in Ht'. rewrite (assoc_L (++)) in Ht'.
  set (h := le_bytes 4 _ ++ le_bytes 4 _) in Ht'.
  assert (Hh : length h = 8%nat) by (unfold h; by rewrite length_app, !length_le_bytes).
  assert (Hbs : bs = h ++ drop 8 bs).
  { rewrite <- (take_drop 8 bs) at 1. f_equal. apply (f_equal (take 8)) in Ht'.
    rewrite take_app_length' in Ht' by done. by rewrite take_app_le in Ht' by lia. }
  rewrite Hbs at 1. rewrite ReadAll_nil by done. unfold h.
  rewrite take_app_length', drop_app_length' by (by rewrite length_le_bytes).
  rewrite le_value_bytes_small by
    (rewrite Hb; unfold in_u; change (2 ^ (8 * Z.of_nat 4)) with 4294967296; lia).
  rewrite Hb. unfold kWalRecordHeaderSize, kMaxWalRecordBodySize.
  destruct (Z.ltb_spec (Z.of_nat (17 + length (payload r))) 17); [lia|].
  destruct (Z.ltb_spec (64 * 1024 * 1024) (Z.of_nat (17 + length (payload r)))); [lia|]. cbn [orb].
  by destruct (Z.ltb_spec (Z.of_nat (length bs) - 8) (Z.of_nat (17 + length (payload r)))); [|lia].
Qed.

End frames.

(** ** File names *)

Definition segment_range (n : Z) : Prop := 0 ≤ n < 1000000.

Lemma N_of_digit d : 0 ≤ d < 10 → Z.of_N (Ascii.N_of_ascii (digit d)) = 48 + d.
Proof. intros. unfold digit. rewrite Ascii.N_ascii_embedding; lia. Qed.

Lemma isdigit_digit d : 0 ≤ d < 10 → isdigit (digit d) = true.
Proof.
  intros. unfold isdigit. rewrite N_of_digit by done. apply andb_true_iff.
  rewrite !Z.leb_le. lia.
Qed.

Lemma digit_of_isdigit c : isdigit c = true → ∃ d, c = digit d ∧ 0 ≤ d < 10.
Proof.
  unfold isdigit. rewrite andb_true_iff, !Z.leb_le. intros.
  exists (Z.of_N (Ascii.N_of_ascii c) - 48). split; [|lia].
  unfold digit. rewrite Z.add_comm, Z.sub_add, N2Z.id. by rewrite Ascii.ascii_N_embedding.
Qed.

Lemma digits6_value n :
  segment_range n →
  10 * (10 * (10 * (10 * (10 * (n / 100000 mod 10) + n / 10000 mod 10) + n / 1000 mod 10) +
    n / 100 mod 10) + n / 10 mod 10) + n mod 10 = n.
Proof.
  intros Hn. red in Hn.
  assert (H : ∀ a, 10 * (a / 10) + a mod 10 = a) by (intros; symmetry; apply Z.div_mod; lia).
  assert (E1 : n / 100 = n / 10 / 10) by (by rewrite Z.div_div).
  assert (E2 : n / 1000 = n / 100 / 10) by (by rewrite Z.div_div).
  assert (E3 : n / 10000 = n / 1000 / 10) by (by rewrite Z.div_div).
  assert (E4 : n / 100000 = n / 10000 / 10) by (by rewrite Z.div_div).
  assert (0 ≤ n / 100000 < 10) by (split; [apply Z.div_pos; lia|apply Z.div_lt_upper_bound; lia]).
  rewrite (Z.mod_small (n / 100000)) by lia.
  rewrite E4 at 1. rewrite H, E3 at 1. rewrite H, E2 at 1. rewrite H, E1 at 1. by rewrite H, H.
Qed.

(** A name of the segment pattern with the six characters [c0] to [c5]. *)
Definition segment_name (c0 c1 c2 c3 c4 c5 : Ascii.ascii) : string :=
  "wal-" +:+ String c0 (String c1 (String c2 (String c3 (String c4 (String c5 ".log"))))).

Lemma segment_number_name c0 c1 c2 c3 c4 c5 :
  segment_number (segment_name c0 c1 c2 c3 c4 c5) =
  if forallb isdigit [c0; c1; c2; c3; c4; c5] then Some (u32 (stoul [c0; c1; c2; c3; c4; c5])) else None.
Proof. reflexivity. Qed.

Lemma MakeFilePath_name n :
  segment_range n →
  MakeFilePath n = segment_name (digit (n / 100000 mod 10)) (digit (n / 10000 mod 10))
    (digit (n / 1000 mod 10)) (digit (n / 100 mod 10)) (digit (n / 10 mod 10)) (digit (n mod 10)).
Proof.
  intros Hn. unfold MakeFilePath. destruct (Z.ltb_spec n 1000000); [|red in Hn; lia]. reflexivity.
Qed.

Lemma segment_number_MakeFilePath n : segment_range n → segment_number (MakeFilePath n) = Some n.
Proof.
  intros Hn. rewrite MakeFilePath_name, segment_number_name by done.
  pose proof (digits6_value n Hn) as Hv.
  assert (Hm : ∀ a, 0 ≤ a mod 10 < 10) by (intros; apply Z.mod_pos_bound; lia).
  cbn [forallb]. rewrite !isdigit_digit by done. cbn [andb].
  unfold stoul. cbn [fold_left]. rewrite !N_of_digit by done. f_equal.
  unfold u32. rewrite wrap_small; [|split]; red in Hn; lia.
Qed.

Lemma MakeFilePath_inj n m :
  segment_range n → segment_range m → MakeFilePath n = MakeFilePath m → n = m.
Proof.
  intros Hn Hm E%(f_equal segment_number).
  rewrite !segment_number_MakeFilePath in E by done. congruence.
Qed.

Lemma div10 a d : 0 ≤ d < 10 → (10 * a + d) / 10 = a ∧ (10 * a + d) mod 10 = d.
Proof.
  intros. rewrite (Z.add_comm (10 * a)), (Z.mul_comm 10).
  rewrite Z.div_add, Z.mod_add, Z.div_small, Z.mod_small by lia. lia.
Qed.

Lemma mod10 a d : 0 ≤ d < 10 → (10 * a + d) mod 10 = d.
Proof. intros. by apply div10. Qed.

Lemma segment_number_inv name n :
  segment_number name = Some n → name = MakeFilePath n ∧ segment_range n.
Proof.
  intros E. assert (∃ c0 c1 c2 c3 c4 c5, name = segment_name c0 c1 c2 c3 c4 c5)
    as (c0 & c1 & c2 & c3 & c4 & c5 & ->).
  { unfold segment_number in E.
    destruct (String.length name =? 14)%nat eqn:El; [cbn [andb] in E|done].
    destruct (String.eqb_spec (String.substring 0 4 name) "wal-") as [E1|]; [cbn [andb] in E|done].
    destruct (String.eqb_spec (String.substring 10 4 name) ".log") as [E2|]; [clear E|done].
    do 14 (destruct name as [|? name]; [done|]). destruct name; [|done].
    cbn in E1, E2. injection E1 as -> -> -> ->. injection E2 as -> -> -> ->.
    by eexists _, _, _, _, _, _. }
  rewrite segment_number_name in E. destruct (forallb _ _) eqn:Hd; [|done].
  cbn [forallb] in Hd. rewrite !andb_true_iff in Hd.
  destruct Hd as (H0 & H1 & H2 & H3 & H4 & H5 & _).
  apply digit_of_isdigit in H0 as (d0 & -> & R0), H1 as (d1 & -> & R1), H2 as (d2 & -> & R2),
    H3 as (d3 & -> & R3), H4 as (d4 & -> & R4), H5 as (d5 & -> & R5).
  revert E. unfold stoul. cbn [fold_left].
  rewrite !N_of_digit by done. intros E.
  assert (Hn : n = 10 * (10 * (10 * (10 * (10 * d0 + d1) + d2) + d3) + d4) + d5).
  { injection E as <-. unfold u32. rewrite wrap_small; [lia|]. split; lia. }
  assert (Hr : segment_range n) by (red; lia). split; [|done].
  rewrite MakeFilePath_name by done. clear E Hr.
  assert (E1 : n / 10 = 10 * (10 * (10 * (10 * d0 + d1) + d2) + d3) + d4) by (rewrite Hn; by apply div10).
  assert (E2 : n / 100 = 10 * (10 * (10 * d0 + d1) + d2) + d3)
    by (change 100 with (10 * 10); rewrite <- Z.div_div, E1 by lia; by apply div10).
  assert (E3 : n / 1000 = 10 * (10 * d0 + d1) + d2)
    by (change 1000 with (100 * 10); rewrite <- Z.div_div, E2 by lia; by apply div10).
  assert (E4 : n / 10000 = 10 * d0 + d1)
    by (change 10000 with (1000 * 10); rewrite <- Z.div_div, E3 by lia; by apply div10).
  assert (E5 : n / 100000 = d0)
    by (change 100000 with (10000 * 10); rewrite <- Z.div_div, E4 by lia; by apply div10).
  rewrite E5, E4, E3, E2, E1, Hn, !mod10 by done.
  by rewrite (Z.mod_small d0) by lia.
Qed.

(** ** Logs *)

Definition segment : Type := Z * list WalRecord.

Definition log (segs : list segment) : list WalRecord := segs ≫= snd.

Definition last_seq (l : list WalRecord) : Z :=
  match last l with Some r => sequence r | None => 0 end.

Definition prev_after (prev : option Z) (l : list WalRecord) : option Z :=
  match last l with Some r => Some (sequence r) | None => prev end.

Fixpoint contiguous (prev : option Z) (l : list WalRecord) : Prop :=
  match l with
  | [] => True
  | r :: l' => match prev with Some p => sequence r = p + 1 | None => True end ∧
               contiguous (Some (sequence r)) l'
  end.

Lemma log_cons n recs segs : log ((n, recs) :: segs) = recs ++ log segs.
Proof. reflexivity. Qed.

Lemma log_app segs1 segs2 : log (segs1 ++ segs2) = log segs1 ++ log segs2.
Proof. apply bind_app. Qed.

Lemma prev_after_cons prev r l : prev_after prev (r :: l) = prev_after (Some (sequence r)) l.
Proof. unfold prev_after. rewrite last_cons. by destruct (last l). Qed.

Lemma contiguous_app prev l1 l2 :
  contiguous prev (l1 ++ l2) ↔ contiguous prev l1 ∧ contiguous (prev_after prev l1) l2.
Proof.
  revert prev. induction l1 as [|r l1 IH]; intros prev; simpl; [tauto|].
  rewrite IH, prev_after_cons. tauto.
Qed.

Lemma contiguous_weaken prev l : contiguous prev l → contiguous None l.
Proof. destruct l; simpl; tauto. Qed.

Lemma contiguous_lower p l r : contiguous (Some p) l → r ∈ l → p < sequence r.
Proof.
  revert p. induction l as [|r' l IH]; intros p; [intros _ Hr; by apply not_elem_of_nil in Hr|].
  intros [Hr Hl] [->|Hin]%elem_of_cons; [lia|]. specialize (IH _ Hl Hin). lia.
Qed.

Lemma last_seq_snoc l r : last_seq (l ++ [r]) = sequence r.
Proof. unfold last_seq. by rewrite last_snoc. Qed.

Lemma last_seq_app prev l1 l2 :
  contiguous prev (l1 ++ l2) → Forall (λ r, 1 ≤ sequence r) (l1 ++ l2) →
  last_seq (l1 ++ l2) = Z.max (last_seq l1) (last_seq l2).
Proof.
  intros Hc HF. destruct l2 as [|r l2 _] using rev_ind.
  - rewrite app_nil_r in *. destruct l1 as [|r l1 _] using rev_ind; [done|].
    rewrite last_seq_snoc. change (last_seq []) with 0.
    apply Forall_app in HF as [_ HF]. rewrite Forall_singleton in HF. simpl in HF. lia.
  - rewrite (assoc_L (++)), !last_seq_snoc.
    destruct l1 as [|r1 l1 _] using rev_ind.
    + change (last_seq []) with 0. rewrite Forall_forall in HF.
      pose proof (HF r ltac:(set_solver)). simpl in *. lia.
    + rewrite last_seq_snoc. apply contiguous_app in Hc as [_ Hc].
      unfold prev_after in Hc. rewrite last_snoc in Hc.
      pose proof (contiguous_lower _ _ r Hc ltac:(set_solver)). lia.
Qed.

(** Every record up to the last one has a smaller sequence. *)
Lemma last_seq_upper prev l r :
  contiguous prev l → Forall (λ r, 1 ≤ sequence r) l → r ∈ l → sequence r ≤ last_seq l.
Proof.
  intros Hc HF (l1 & l2 & ->)%list_elem_of_split.
  rewrite cons_middle, (assoc_L (++)) in *.
  rewrite (last_seq_app _ _ _ Hc HF), last_seq_snoc. lia.
Qed.

(** ** Quiet states: no more failures *)

Definition quiet (s : State) : Prop := w_faults (world s) = [].
Definition disk (s : State) : gmap string (list byte) := w_files (world s).

Lemma quiet_eq s : quiet s → s = MkState (wal s) (MkWorld (disk s) []).
Proof. destruct s as [l [fs o]]. unfold quiet, disk. simpl. by intros ->. Qed.

Lemma with_faults_quiet {A} (f : list outcome → A * list outcome) a s :
  quiet s → f [] = (a, []) → with_faults f s = (Ok a, s).
Proof.
  destruct s as [l [fs o]]. unfold quiet, with_faults. simpl. intros -> Hf. by rewrite Hf.
Qed.

Lemma sys_quiet s : quiet s → sys s = (Ok true, s).
Proof.
  destruct s as [l [fs o]]. unfold quiet. simpl. by intros ->.
Qed.

Lemma bind_ok {S A B} (e : SE S A) (k : A → SE S B) s a s' :
  e s = (Ok a, s') → se_bind e k s = k a s'.
Proof. unfold se_bind. by intros ->. Qed.

Section scan.
Context {order : IterOrder} {zlib : Zlib}.

Definition seg_bytes (recs : list WalRecord) : list byte :=
  file_header ++ concat (encode_record <$> recs).

Lemma seg_bytes_nil : seg_bytes [] = file_header.
Proof. apply app_nil_r. Qed.

(** The segments are on disk, the last one followed by [t]. *)
Fixpoint on_disk (fs : gmap string (list byte)) (segs : list segment) (t : list byte) : Prop :=
  match segs with
  | [] => True
  | (n, recs) :: segs' =>
      fs !! MakeFilePath n = Some (seg_bytes recs ++ (if bool_decide (segs' = []) then t else [])) ∧
      on_disk fs segs' t
  end.

Lemma hi_after hi r :
  (if hi <? sequence r then sequence r else hi) = Z.max hi (sequence r).
Proof. destruct (Z.ltb_spec hi (sequence r)); lia. Qed.

Lemma concat_fmap_cons r recs t :
  concat (encode_record <$> r :: recs) ++ t = encode_record r ++ (concat (encode_record <$> recs) ++ t).
Proof. simpl. by rewrite <- (assoc_L (++)). Qed.

Lemma ScanRecords_torn fuel latest name t off lo hi prev s pre :
  quiet s → t = [] ∨ torn t ∧ latest = true → Z.of_nat (length pre) = off →
  disk s !! name = Some (pre ++ t) →
  ScanRecords fuel latest name t off lo hi prev s = (Ok (lo, hi, prev), set_contents name pre s).
Proof.
  intros Hq Ht Hoff Hd.
  assert (Ht' : torn t) by (destruct Ht as [->|[? _]]; [apply torn_nil|done]).
  assert (Hcut : set_contents name (take (Z.to_nat off) (contents name s)) s = set_contents name pre s).
  { unfold contents. unfold disk in Hd. rewrite Hd. simpl. do 2 f_equal.
    rewrite take_app_length'; [done|lia]. }
  destruct (read_frame_torn t Ht') as [[Hf ->]|[Hf Hne]].
  - assert (set_contents name pre s = s) as ->.
    { unfold set_contents. rewrite app_nil_r in Hd. rewrite insert_id by done.
      red in Hq. rewrite Hq. symmetry. by apply quiet_eq. }
    destruct fuel; cbn [ScanRecords]; erewrite bind_ok by (by apply with_faults_quiet); done.
  - destruct Ht as [->|[_ ->]]; [done|].
    destruct Hf as [Hf|Hf]; destruct fuel; cbn [ScanRecords];
      erewrite bind_ok by (by apply with_faults_quiet); cbn [negb];
      erewrite bind_ok by (by apply sys_quiet); unfold se_bind, se_put, se_ret; by rewrite Hcut.
Qed.

Lemma ScanRecords_spec recs : ∀ fuel latest name t pre off lo hi prev s,
  quiet s → Forall record_ok recs → contiguous prev recs →
  t = [] ∨ torn t ∧ latest = true →
  (length recs ≤ fuel)%nat → Z.of_nat (length pre) = off →
  disk s !! name = Some (pre ++ concat (encode_record <$> recs) ++ t) →
  ∃ lo',
    ScanRecords fuel latest name (concat (encode_record <$> recs) ++ t) off lo hi prev s =
    (Ok (lo', fold_left (λ h r, Z.max h (sequence r)) recs hi, prev_after prev recs),
     set_contents name (pre ++ concat (encode_record <$> recs)) s).
Proof.
  induction recs as [|r recs IH]; intros fuel latest name t pre off lo hi prev s Hq Hok Hc Ht Hfuel Hoff Hd.
  - exists lo. cbn [fmap list_fmap concat app]. rewrite app_nil_r. by apply ScanRecords_torn.
  - apply Forall_cons in Hok as [Hr Hok]. destruct Hc as [Hp Hc].
    destruct fuel as [|fuel]; [simpl in Hfuel; lia|]. rewrite concat_fmap_cons in *.
    edestruct (IH fuel latest name t (pre ++ encode_record r)
      (off + 8 + Z.of_nat (length (encode_body r)))
      (if sequence r <? lo then sequence r else lo) (Z.max hi (sequence r)) (Some (sequence r)) s)
      as [lo' IH']; [done|done|done|done|simpl in Hfuel; lia|..].
    + rewrite length_app, length_encode_record, length_encode_body. lia.
    + by rewrite <- (assoc_L (++)).
    + exists lo'. cbn [ScanRecords].
      erewrite bind_ok by (apply with_faults_quiet; [done|by apply read_frame_record]).
      cbv beta iota zeta. rewrite sequence_encode_body by done.
      assert (not_contiguous prev (sequence r) = false) as ->.
      { destruct prev as [p|]; [simpl|done]. pose proof (seq_u64 _ Hr) as [_ Hs].
        rewrite Hp, Z.eqb_refl, orb_false_r. apply Z.eqb_neq. unfold u64_max. lia. }
      rewrite hi_after, IH', prev_after_cons. cbn [fold_left fmap list_fmap concat].
      by rewrite (assoc_L (++)).
Qed.

Lemma records_positive recs : Forall record_ok recs → Forall (λ r, 1 ≤ sequence r) recs.
Proof. intros HF. eapply Forall_impl; [exact HF|]. by intros r []. Qed.

Lemma last_seq_nonneg recs : Forall record_ok recs → 0 ≤ last_seq recs.
Proof.
  intros HF%records_positive. unfold last_seq. destruct (last recs) eqn:E; [|done].
  rewrite Forall_forall in HF. pose proof (HF w (last_Some_elem_of _ _ E)). simpl in *. lia.
Qed.

Lemma fold_max_last prev recs hi :
  contiguous prev recs → Forall record_ok recs → 0 ≤ hi →
  fold_left (λ h r, Z.max h (sequence r)) recs hi = Z.max hi (last_seq recs).
Proof.
  intros Hc HF. revert prev hi Hc. induction recs as [|r recs IH]; intros prev hi Hc Hhi.
  - change (last_seq []) with 0. simpl. lia.
  - pose proof (last_seq_app prev [r] recs Hc (records_positive _ HF)) as Hl.
    apply Forall_cons in HF as [Hr HF]. destruct Hc as [_ Hc]. simpl.
    rewrite (IH HF _ _ Hc) by lia. change ([r] ++ recs) with (r :: recs) in Hl.
    rewrite Hl. change (last_seq [r]) with (sequence r). lia.
Qed.

(** What the scan and the appends record about a segment. *)
Definition file_of (f : WalFile) (seg : segment) : Prop :=
  path f = MakeFilePath seg.1 ∧ file_number f = seg.1 ∧ max_sequence f = last_seq seg.2.

Lemma ReadAll_header rest : ReadAll [] 8 (file_header ++ rest) = (Some (file_header, rest), []).
Proof. by apply ReadAll_nil. Qed.

Lemma ValidateFileHeader_ok rest s :
  quiet s → ValidateFileHeader (file_header ++ rest) s = (Ok rest, s).
Proof.
  intros Hq. unfold ValidateFileHeader.
  erewrite bind_ok by (apply with_faults_quiet; [done|apply ReadAll_header]). reflexivity.
Qed.

Lemma ScanSegment_spec latest n recs t prev s :
  quiet s → Forall record_ok recs → contiguous prev recs → t = [] ∨ torn t ∧ latest = true →
  disk s !! MakeFilePath n = Some (seg_bytes recs ++ t) →
  ∃ wf s', file_of wf (n, recs) ∧
    ScanSegment latest n prev s = (Ok (prev_after prev recs), s') ∧ quiet s' ∧
    disk s' = <[MakeFilePath n := seg_bytes recs]> (disk s) ∧
    wal s' = set_files (files_ (wal s) ++ [wf])
               (set_file_number (Z.max (current_file_number_ (wal s)) n)
                 (set_sequence (Z.max (current_sequence_ (wal s)) (last_seq recs)) (wal s))).
Proof.
  intros Hq Hok Hc Ht Hd. set (name := MakeFilePath n) in *.
  set (bs := seg_bytes recs ++ t) in *.
  assert (Hbs : bs = file_header ++ (concat (encode_record <$> recs) ++ t))
    by (unfold bs, seg_bytes; by rewrite (assoc_L (++))).
  assert (Hfuel : (length recs ≤ length bs)%nat).
  { rewrite Hbs, !length_app. clear. induction recs as [|r recs IH]; [simpl; lia|].
    cbn [fmap list_fmap concat]. rewrite length_app, length_encode_record. cbn [length] in *. lia. }
  edestruct (ScanRecords_spec recs (length bs) latest name t file_header kWalFileHeaderSize u64_max 0 prev s)
    as [lo Hscan]; [done..|by rewrite <- Hbs|].
  rewrite (fold_max_last prev) in Hscan by done.
  rewrite Z.max_r in Hscan by (by apply last_seq_nonneg).
  set (s' := set_contents name (file_header ++ concat (encode_record <$> recs)) s) in *.
  assert (Hq' : quiet s') by done.
  exists (MkWalFile name n (if lo =? u64_max then 0 else lo) (last_seq recs)
            (Z.of_nat (length (contents name s')))). eexists. split; [done|].
  split; [|shelve]. unfold ScanSegment. erewrite (bind_ok se_get) by reflexivity.
  erewrite bind_ok by (by apply sys_quiet). cbv beta iota zeta.
  unfold disk in Hd. fold name. rewrite Hd, Hbs.
  erewrite bind_ok by (by apply ValidateFileHeader_ok). erewrite bind_ok by (by apply sys_quiet).
  cbn [negb]. rewrite <- Hbs. erewrite bind_ok by exact Hscan. cbv beta iota.
  erewrite bind_ok by (by apply sys_quiet). cbn [negb].
  unfold se_bind, se_get, modify, se_put, se_ret, on_wal. cbn. reflexivity.
Unshelve. split_and!; [exact Hq|reflexivity..].
Qed.

Definition same_names (a b : gmap string (list byte)) : Prop :=
  ∀ name, is_Some (a !! name) ↔ is_Some (b !! name).

Lemma on_disk_insert fs segs t name bs :
  (∀ n, n ∈ segs.*1 → MakeFilePath n ≠ name) → on_disk fs segs t → on_disk (<[name := bs]> fs) segs t.
Proof.
  induction segs as [|[n recs] segs IH]; [done|]. intros Hn [Hd Ht]. split.
  - rewrite lookup_insert_ne; [done|]. intros E. apply (Hn n); [set_solver|done].
  - apply IH; [|done]. intros m Hm. apply Hn. set_solver.
Qed.

Lemma on_disk_prefix fs n recs segs t :
  on_disk fs ((n, recs) :: segs) t →
  fs !! MakeFilePath n = Some (seg_bytes recs ++ (if bool_decide (segs = []) then t else [])).
Proof. by intros [? _]. Qed.

(** Segment numbers: increasing, six digits. *)
Definition numbers_ok (segs : list segment) : Prop :=
  StronglySorted Z.lt segs.*1 ∧ Forall segment_range segs.*1.

Lemma numbers_ok_cons n recs segs :
  numbers_ok ((n, recs) :: segs) →
  segment_range n ∧ numbers_ok segs ∧ Forall (Z.lt n) segs.*1 ∧
  (∀ m, m ∈ segs.*1 → MakeFilePath m ≠ MakeFilePath n).
Proof.
  intros [HS HF]. cbn [fmap list_fmap fst] in *. apply StronglySorted_inv in HS as [HS Hlt].
  apply Forall_cons in HF as [Hn HF]. split_and!; try done.
  intros m Hm E. rewrite Forall_forall in HF, Hlt.
  apply MakeFilePath_inj in E; [|by apply HF|done]. specialize (Hlt _ Hm). lia.
Qed.

Lemma ScanSegments_spec segs : ∀ t prev s,
  quiet s → Forall record_ok (log segs) → contiguous prev (log segs) → torn t →
  numbers_ok segs → on_disk (disk s) segs t → 0 ≤ current_sequence_ (wal s) →
  ∃ wfs s', Forall2 file_of wfs segs ∧ ScanSegments segs.*1 prev s = (Ok tt, s') ∧ quiet s' ∧
    on_disk (disk s') segs [] ∧ same_names (disk s) (disk s') ∧
    (∀ name, (∀ m, m ∈ segs.*1 → MakeFilePath m ≠ name) → disk s' !! name = disk s !! name) ∧
    wal s' = set_files (files_ (wal s) ++ wfs)
      (set_file_number (fold_left Z.max segs.*1 (current_file_number_ (wal s)))
        (set_sequence (Z.max (current_sequence_ (wal s)) (last_seq (log segs))) (wal s))).
Proof.
  induction segs as [|[n recs] segs IH]; intros t prev s Hq Hok Hc Ht Hn Hd Hpos.
  - exists [], s. change (last_seq (log [])) with 0. cbn [fmap list_fmap fold_left].
    rewrite app_nil_r, Z.max_l by lia. split_and!; try done. by destruct (wal s).
  - rewrite log_cons in *. pose proof Hok as Hok'. apply Forall_app in Hok' as [Hok1 Hok2].
    apply contiguous_app in Hc as Hc'. destruct Hc' as [Hc1 Hc2].
    apply numbers_ok_cons in Hn as (Hr & Hns & Hlt & Hne). destruct Hd as [Hd1 Hd2].
    destruct (ScanSegment_spec (bool_decide (segs = [])) n recs
      (if bool_decide (segs = []) then t else []) prev s)
      as (wf & s1 & Hwf & E & Hq1 & Hdisk1 & Hw1); try done.
    { case_bool_decide; auto. }
    destruct (IH t (prev_after prev recs) s1)
      as (wfs & s' & Hwfs & E' & Hq' & Hd' & Hsn & Hfr & Hw); try done.
    { rewrite Hdisk1. by apply on_disk_insert. }
    { rewrite Hw1. cbn. lia. }
    exists (wf :: wfs), s'. split_and!; [by constructor| |done| | | |].
    + cbn [fmap list_fmap fst ScanSegments]. erewrite bind_ok; [exact E'|].
      rewrite <- E. f_equal. apply bool_decide_ext. by destruct segs.
    + split; [|done]. rewrite Hfr by done. rewrite Hdisk1, lookup_insert_eq.
      by case_bool_decide; rewrite app_nil_r.
    + intros name. rewrite <- (Hsn name), Hdisk1.
      destruct (decide (MakeFilePath n = name)) as [<-|Hne'];
        [rewrite lookup_insert_eq, Hd1|rewrite lookup_insert_ne by done]; naive_solver.
    + intros name Hnames. rewrite Hfr, Hdisk1, lookup_insert_ne; [done|apply Hnames; left|].
      intros m Hm. apply Hnames. by right.
    + rewrite Hw, Hw1. cbn. rewrite <- (assoc_L (++)). cbn.
      rewrite <- Z.max_assoc, <- (last_seq_app prev) by (done || by apply records_positive). done.
Qed.
End scan.

(** ** Symbolic execution under arbitrary failures *)

Lemma bind_inv {S A B} (e : SE S A) (k : A → SE S B) s r s' :
  se_bind e k s = (r, s') →
  (∃ a s1, e s = (Ok a, s1) ∧ k a s1 = (r, s')) ∨
  (∃ err, e s = (Unexpected err, s') ∧ r = Unexpected err).
Proof. unfold se_bind. destruct (e s) as [[a|err] s1]; [|intros [= <- <-]]; eauto. Qed.

Lemma sys_inv s r s' :
  sys s = (r, s') →
  ∃ b, r = Ok b ∧ wal s' = wal s ∧ disk s' = disk s ∧ (quiet s → b = true ∧ quiet s').
Proof.
  unfold sys, next_outcome, quiet, disk.
  destruct (w_faults (world s)) as [|o fs] eqn:E; intros [= <- <-]; eauto 10.
  eexists. split_and!; done.
Qed.

Lemma write_loop_spec data : ∀ faults w ok fs,
  write_loop faults data = (w, ok, fs) →
  w `prefix_of` data ∧ (ok = true → w = data) ∧ (faults = [] → ok = true ∧ fs = []).
Proof.
  intros faults. revert data. induction faults as [|o faults IH]; intros data w ok fs.
  - destruct data; simpl; intros [= <- <- <-]; done.
  - destruct data as [|b data]; [simpl; intros [= <- <- <-]; split_and!; done|].
    destruct o as [| |n|]; cbn [write_loop].
    + intros [= <- <- <-]. done.
    + intros [= <- <- <-]. split_and!; [apply prefix_nil|done..].
    + destruct (write_loop faults (drop n (b :: data))) as [[w' ok'] fs'] eqn:E.
      intros [= <- <- <-]. apply IH in E as (Hp & Hok & _).
      split_and!; [|intros ->%Hok; apply take_drop|done].
      etransitivity; [apply prefix_app, Hp|]. by rewrite take_drop.
    + intros E. apply IH in E as (? & ? & _). done.
Qed.

Lemma WriteAll_inv name data s r s' :
  WriteAll name data s = (r, s') →
  ∃ ok w, r = Ok ok ∧ w `prefix_of` data ∧ (ok = true → w = data) ∧ wal s' = wal s ∧
    disk s' = <[name := contents name s ++ w]> (disk s) ∧ (quiet s → ok = true ∧ quiet s').
Proof.
  unfold WriteAll. destruct (write_loop _ data) as [[w ok] fs] eqn:E.
  apply write_loop_spec in E as (? & ? & ?). intros [= <- <-]. exists ok, w.
  unfold disk, quiet. simpl. split_and!; auto.
Qed.

Lemma sys_error s e s' : sys s = (Unexpected e, s') → False.
Proof. by intros (b & [=] & _)%sys_inv. Qed.

Lemma sys_ok s b s' :
  sys s = (Ok b, s') → wal s' = wal s ∧ disk s' = disk s ∧ (quiet s → b = true ∧ quiet s').
Proof. by intros (b' & [= ->] & ?)%sys_inv. Qed.

Lemma unlink_error name s e s' : unlink name s = (Unexpected e, s') → False.
Proof.
  unfold unlink. intros [(b & s1 & E & H)|(e' & E & _)]%bind_inv; [|by apply sys_error in E].
  by destruct b.
Qed.

Lemma unlink_ok name s b s' :
  unlink name s = (Ok b, s') →
  wal s' = wal s ∧ disk s' = (if b then delete name (disk s) else disk s) ∧
  (quiet s → b = true ∧ quiet s').
Proof.
  unfold unlink. intros [(b' & s1 & E & H)|(e' & E & _)]%bind_inv; [|by apply sys_error in E].
  apply sys_ok in E as (Hw & Hd & Hq). unfold disk, quiet in *.
  destruct b'; injection H as <- <-; simpl; by rewrite ?Hd.
Qed.

Lemma WriteAll_error name data s e s' : WriteAll name data s = (Unexpected e, s') → False.
Proof. by intros (ok & w & [=] & _)%WriteAll_inv. Qed.

Lemma WriteAll_ok name data s ok s' :
  WriteAll name data s = (Ok ok, s') →
  ∃ w, w `prefix_of` data ∧ (ok = true → w = data) ∧ wal s' = wal s ∧
    disk s' = <[name := contents name s ++ w]> (disk s) ∧ (quiet s → ok = true ∧ quiet s').
Proof. intros (ok' & w & [= ->] & ?)%WriteAll_inv. eauto. Qed.

Lemma cleanup_inv {S A} (e : SE S A) (f : S → S) s r s' :
  se_cleanup e f s = (r, s') →
  (∃ a, r = Ok a ∧ e s = (Ok a, s')) ∨ (∃ err s1, r = Unexpected err ∧ e s = (Unexpected err, s1) ∧ s' = f s1).
Proof. unfold se_cleanup. destruct (e s) as [[a|err] s1]; intros [= <- <-]; eauto 10. Qed.

Lemma disk_on_wal f s : disk (on_wal f s) = disk s.
Proof. reflexivity. Qed.
Lemma wal_on_wal f s : wal (on_wal f s) = f (wal s).
Proof. reflexivity. Qed.
Lemma contents_on_wal name f s : contents name (on_wal f s) = contents name s.
Proof. reflexivity. Qed.
Lemma quiet_on_wal f s : quiet (on_wal f s) = quiet s.
Proof. reflexivity. Qed.

Create Rewrite HintDb nvecd_wal.
#[export] Hint Rewrite disk_on_wal wal_on_wal contents_on_wal quiet_on_wal : nvecd_wal.

(** One step of a run: split a bind, or use what is known of a call. *)
Ltac inv_step :=
  match goal with
  | H : sys _ = (Unexpected _, _) |- _ => exfalso; exact (sys_error _ _ _ H)
  | H : unlink _ _ = (Unexpected _, _) |- _ => exfalso; exact (unlink_error _ _ _ _ H)
  | H : WriteAll _ _ _ = (Unexpected _, _) |- _ => exfalso; exact (WriteAll_error _ _ _ _ _ H)
  | H : sys _ = (Ok _, _) |- _ =>
      let Hw := fresh "Hw" in let Hd := fresh "Hd" in let Hq := fresh "Hq" in
      apply sys_ok in H as (Hw & Hd & Hq)
  | H : unlink _ _ = (Ok _, _) |- _ =>
      let Hw := fresh "Hw" in let Hd := fresh "Hd" in let Hq := fresh "Hq" in
      apply unlink_ok in H as (Hw & Hd & Hq)
  | H : WriteAll _ _ _ = (Ok _, _) |- _ =>
      let w := fresh "w" in let Hp := fresh "Hp" in let Hf := fresh "Hfull" in
      let Hw := fresh "Hw" in let Hd := fresh "Hd" in let Hq := fresh "Hq" in
      apply WriteAll_ok in H as (w & Hp & Hf & Hw & Hd & Hq)
  | H : se_bind _ _ _ = (_, _) |- _ =>
      let a := fresh "v" in let s := fresh "s" in let E := fresh "E" in let e := fresh "e" in
      let He := fresh in
      apply bind_inv in H as [(a & s & E & H)|(e & E & He)];
      [|match type of He with
        | ?x = _ => first [discriminate He | subst x | injection He as <-]
        end]
  | H : se_cleanup _ _ _ = (Ok _, _) |- _ =>
      apply cleanup_inv in H as [(? & [= <-] & H)|(? & ? & [=] & _)]
  | H : se_cleanup _ _ _ = (Unexpected _, _) |- _ =>
      let s := fresh "s" in
      apply cleanup_inv in H as [(? & [=] & _)|(? & s & [= <-] & H & ->)]
  | H : se_get _ = (_, _) |- _ => injection H as <- <-
  | H : se_get _ = (Unexpected _, _) |- _ => discriminate H
  | H : se_put _ _ = (Unexpected _, _) |- _ => discriminate H
  | H : modify _ _ = (Unexpected _, _) |- _ => discriminate H
  | H : se_ret _ _ = (Unexpected _, _) |- _ => discriminate H
  | H : se_throw _ _ _ = (Ok _, _) |- _ => discriminate H
  | H : se_ret _ _ = (_, _) |- _ => injection H as <- <-
  | H : se_throw _ _ _ = (_, _) |- _ => injection H as <- <-
  | H : se_put _ _ = (_, _) |- _ => injection H as <- <-
  | H : modify _ _ = (_, _) |- _ => injection H as <- <-
  end.

Ltac run_calls :=
  repeat (inv_step || match goal with
    | H : (if negb ?b then _ else _) _ = _ |- _ => is_var b; destruct b; cbn [negb] in H
    | H : (if ?b then _ else _) _ = _ |- _ => is_var b; destruct b
    end).

(** Resolve the [quiet] premises of the calls made. *)
Ltac quiet_tac :=
  repeat match goal with
  | Hq : quiet ?s → _ |- _ =>
      let H := fresh in
      assert (H : quiet s) by (assumption || (unfold quiet in *; cbn in *; assumption));
      specialize (Hq H); clear H
  | H : _ ∧ _ |- _ => destruct H
  end.

#[export] Instance ltb_antisymm : AntiSymm (=) (comp_le Z.ltb).
Proof. intros a b. unfold comp_le. rewrite !Z.ltb_ge. lia. Qed.

Section operations.
Context {order : IterOrder} {zlib : Zlib}.

Definition no_stray (fs : gmap string (list byte)) (segs : list segment) : Prop :=
  ∀ name n, segment_number name = Some n → is_Some (fs !! name) → n ∈ segs.*1.

Lemma segment_numbers_segs w segs t :
  numbers_ok segs → on_disk (w_files w) segs t → no_stray (w_files w) segs →
  segment_numbers w = segs.*1.
Proof.
  intros [HS HF] Hd Hns. unfold segment_numbers. set (nums := omap _ _).
  assert (Hnums : ∀ n, n ∈ nums ↔ n ∈ segs.*1).
  { intros n. unfold nums. rewrite list_elem_of_omap. split.
    - intros ([name bs] & Hin%elem_of_iter_order & Hnum). by eapply Hns.
    - intros Hn. rewrite Forall_forall in HF. clear nums Hns HS.
      induction segs as [|[m recs] segs IH]; [by apply not_elem_of_nil in Hn|]. destruct Hd as [Hm Hd].
      cbn [fmap list_fmap fst] in *. apply elem_of_cons in Hn as [->|Hn].
      + eexists (MakeFilePath m, _). rewrite elem_of_iter_order. split; [done|].
        apply segment_number_MakeFilePath, HF. left.
      + apply IH; try done. intros k Hk. apply HF. by right. }
  assert (Hnd : NoDup nums).
  { unfold nums. pose proof (NoDup_fst_iter_order (w_files w)) as Hk. clear -Hk.
    induction (iter_order (w_files w)) as [|[name bs] l IH]; [constructor|].
    cbn [fmap list_fmap fst] in Hk. apply NoDup_cons in Hk as [Hn Hk]. simpl.
    destruct (segment_number name) as [n|] eqn:E; [|by apply IH].
    constructor; [|by apply IH]. intros ([name' bs'] & Hin & E')%list_elem_of_omap. apply Hn.
    apply segment_number_inv in E as [-> _], E' as [E' _]. simpl in E'. subst.
    apply list_elem_of_fmap. by exists (MakeFilePath n, bs'). }
  apply (StronglySorted_unique (comp_le Z.ltb)).
  - eapply (std_sort_sorted _ (λ _, True)).
    + intros ????. rewrite Z.ltb_lt, Z.ltb_ge. lia.
    + intros ??????. rewrite !Z.ltb_ge. lia.
    + by apply Forall_true.
  - eapply StronglySorted_weaken; [|exact HS]. intros a b Hab. unfold comp_le. apply Z.ltb_ge. lia.
  - rewrite std_sort_perm. apply NoDup_Permutation; [done| |done].
    clear -HS. induction HS as [|a l HS IH HF]; [constructor|]. constructor; [|done].
    rewrite Forall_forall in HF. intros Hin%HF. lia.
Qed.


(** Rotation whatever call fails: either the new, empty segment is in place, or
    no other file has changed and no descriptor is left (or nothing at all
    happened). *)
Lemma CreateNext_inv fuel s r s' :
  CreateNext fuel s = (r, s') →
  current_file_number_ (wal s) ≠ u32_max →
  disk s !! MakeFilePath (current_file_number_ (wal s) + 1) = None →
  let name := MakeFilePath (current_file_number_ (wal s) + 1) in
  wal s' = set_file_number (current_file_number_ (wal s) + 1) (wal s) ∧
  (quiet s → r = Ok name ∧ quiet s') ∧
  ((r = Ok name ∧ disk s' = <[name := []]> (disk s)) ∨
   (∃ e, r = Unexpected e ∧ disk s' = disk s)).
Proof.
  intros H Hmax Hnone name.
  assert (H' : (let! ok := sys in
      if ok then se_put (set_contents name []) ;! se_ret name
      else se_throw kWalRotationFailed "Failed to create WAL file")
      (on_wal (set_file_number (current_file_number_ (wal s) + 1)) s) = (r, s')).
  { rewrite <- H. destruct fuel; cbn [CreateNext]; rewrite (bind_ok se_get _ s s s) by done;
      rewrite (proj2 (Z.eqb_neq _ _) Hmax); cbv zeta; unfold disk in Hnone; rewrite Hnone;
      by rewrite bool_decide_eq_false_2 by (intros [? [=]]). }
  clear H. repeat inv_step. unfold disk in *. cbn in Hd, Hw.
  destruct v; repeat inv_step; cbn; rewrite Hw, Hd; (split; [done|split]); try by eauto.
  all: intros Hqs; by destruct (Hq Hqs).
Qed.

(** The file [name] is being created: every other file is as before. *)
Definition disk_except (name : string) (a b : gmap string (list byte)) : Prop :=
  ∀ name', name' ≠ name → a !! name' = b !! name'.

Lemma CloseForRotation_inv s r s' :
  CloseForRotation s = (r, s') →
  disk s' = disk s ∧ (quiet s → r = Ok tt ∧ quiet s') ∧
  (wal s' = set_fd None (wal s) ∨ (∃ e, r = Unexpected e) ∧ wal s' = wal s).
Proof.
  unfold CloseForRotation. rewrite (bind_ok se_get _ s s s) by done.
  destruct (current_fd_ (wal s)) as [fd|] eqn:Efd; intros H.
  - repeat inv_step. destruct v; cbn [negb] in H; repeat inv_step.
    + destruct v; cbn [negb] in H; repeat inv_step; unfold disk in *; cbn; rewrite Hd0, Hw0, Hd, Hw;
        split_and!; try (by eauto); intros Hqs; by quiet_tac.
    + split_and!; [done| |right; eauto]. intros Hqs. by quiet_tac.
  - inv_step. split_and!; [done..|]. left. unfold set_fd. destruct (wal s). simpl in *. by subst.
Qed.

(** What a rotation that fails leaves: other files untouched, nothing recorded
    in [files_], and either no descriptor or the log object as it was. *)
Definition rotation_failed (name : string) (s s' : State) : Prop :=
  disk_except name (disk s') (disk s) ∧ files_ (wal s') = files_ (wal s) ∧
  current_sequence_ (wal s') = current_sequence_ (wal s) ∧
  (current_fd_ (wal s') = None ∨ wal s' = wal s ∧ disk s' = disk s).

Definition rotated (s : State) : WriteAheadLog :=
  let l := wal s in
  let num := current_file_number_ l + 1 in
  MkWal (config_ l) (Some (MakeFilePath num)) (current_sequence_ l) kWalFileHeaderSize num
    (files_ l ++ [MkWalFile (MakeFilePath num) num (current_sequence_ l + 1) 0 kWalFileHeaderSize])
    (open_ l) (needs_sync_ l) (sync_running_ l).

Lemma abandon_segment_inv name m s r s' :
  abandon_segment name m s = (r, s') →
  (∃ e, r = Unexpected e) ∧ wal s' = set_fd None (wal s) ∧ disk_except name (disk s') (disk s).
Proof.
  unfold abandon_segment. intros H. repeat inv_step. cbn in Hw, Hd. rewrite Hw, Hd.
  split_and!; eauto. unfold disk_except, disk. cbn. intros. destruct v0; [|done].
  by rewrite lookup_delete_ne.
Qed.

Lemma InitSegment_inv name s r s' :
  InitSegment name s = (r, s') → contents name s = [] →
  (quiet s → r = Ok tt ∧ quiet s') ∧
  ((r = Ok tt ∧ disk s' = <[name := seg_bytes []]> (disk s) ∧
    wal s' = MkWal (config_ (wal s)) (Some name) (current_sequence_ (wal s)) kWalFileHeaderSize
      (current_file_number_ (wal s))
      (files_ (wal s) ++ [MkWalFile name (current_file_number_ (wal s)) (current_sequence_ (wal s) + 1) 0 kWalFileHeaderSize])
      (open_ (wal s)) (needs_sync_ (wal s)) (sync_running_ (wal s))) ∨
   (∃ e, r = Unexpected e ∧ disk_except name (disk s') (disk s) ∧ files_ (wal s') = files_ (wal s) ∧
     current_sequence_ (wal s') = current_sequence_ (wal s) ∧ current_fd_ (wal s') = None)).
Proof.
  intros H Hempty. unfold InitSegment, WriteFileHeader in H. run_calls.
  all: try apply abandon_segment_inv in H as ((e & ->) & Hw' & Hd').
  all: autorewrite with nvecd_wal in *; rewrite ?Hempty in *.
  all: split; [intros Hqs; quiet_tac; try done|].
  2-4: right; eexists; split; [done|]; rewrite ?Hw', ?Hw1, ?Hw, ?Hw0; split_and!; try done.
  - left. rewrite Hd1, Hd, Hd0, Hw1, Hw, Hw0, Hfull, seg_bytes_nil by done.
    by destruct (wal s).
  - intros name' Hne. rewrite Hd' by done. by rewrite Hd1, Hd, Hd0, lookup_insert_ne.
  - intros name' Hne. rewrite Hd' by done. by rewrite Hd, Hd0, lookup_insert_ne.
  - intros name' Hne. by rewrite Hd, lookup_insert_ne.
Qed.

Lemma RotateFile_inv s r s' :
  RotateFile s = (r, s') →
  current_file_number_ (wal s) ≠ u32_max →
  disk s !! MakeFilePath (current_file_number_ (wal s) + 1) = None →
  let name := MakeFilePath (current_file_number_ (wal s) + 1) in
  (quiet s → r = Ok tt ∧ quiet s') ∧
  ((r = Ok tt ∧ wal s' = rotated s ∧ disk s' = <[name := seg_bytes []]> (disk s)) ∨
   (∃ e, r = Unexpected e ∧ rotation_failed name s s')).
Proof.
  intros H Hmax Hnone name. unfold RotateFile in H. inv_step.
  2: { apply CloseForRotation_inv in E as (Hd & Hq & Hw). split; [by intros []%Hq|].
       right. eexists. split; [done|]. unfold rotation_failed. rewrite Hd.
       destruct Hw as [->|[_ ->]]; split_and!; done || (by left) || by right. }
  apply CloseForRotation_inv in E as (Hd & Hq & Hw).
  destruct Hw as [Hw|[[? [=]] _]]. rewrite (bind_ok se_get _ s0 s0 s0) in H by done. inv_step.
  - apply CreateNext_inv in E as (Hw1 & Hq1 & [[[= ->] Hd1]|(e & [=] & _)]);
      [|by rewrite Hw|by rewrite Hw, Hd]. rewrite Hw, Hd in *. cbn in *. fold name in H, Hd1.
    apply InitSegment_inv in H as (Hq2 & [(-> & Hd2 & Hw2)|(e & -> & Hd2 & Hf2 & Hs2 & Hfd2)]);
      [..|unfold contents; unfold disk in Hd1; by rewrite Hd1, lookup_insert_eq].
    + split; [intros Hqs; split; [done|]; by apply Hq2, Hq1, Hq|]. left. split; [done|].
      rewrite Hd2, Hd1, insert_insert_eq. split; [|done]. rewrite Hw2, Hw1. done.
    + split; [intros Hqs; by destruct (Hq2 (proj2 (Hq1 (proj2 (Hq Hqs)))))|].
      right. eexists. split; [done|]. unfold rotation_failed. rewrite Hf2, Hs2, Hw1. cbn.
      split_and!; try done; [|by left]. intros name' Hne. rewrite Hd2, Hd1 by done.
      by rewrite lookup_insert_ne.
  - apply CreateNext_inv in E as (Hw1 & Hq1 & [[[=] _]|(e' & [= ->] & Hd1)]);
      [|by rewrite Hw|by rewrite Hw, Hd]. rewrite Hw, Hd in *. cbn in *.
    split; [intros Hqs; by destruct (Hq1 (proj2 (Hq Hqs)))|].
    right. eexists. split; [done|]. unfold rotation_failed. rewrite Hd1, Hw1.
    split_and!; try done. by left.
Qed.

Lemma RotateFile_quiet s :
  quiet s → current_file_number_ (wal s) ≠ u32_max →
  disk s !! MakeFilePath (current_file_number_ (wal s) + 1) = None →
  ∃ s', RotateFile s = (Ok tt, s') ∧ quiet s' ∧ wal s' = rotated s ∧
    disk s' = <[MakeFilePath (current_file_number_ (wal s) + 1) := seg_bytes []]> (disk s).
Proof.
  intros Hq Hmax Hnone. destruct (RotateFile s) as [r s'] eqn:E.
  destruct (RotateFile_inv _ _ _ E Hmax Hnone) as [H1 H2]. destruct (H1 Hq) as [-> Hq'].
  exists s'. split; [done|]. by destruct H2 as [(_ & ? & ?)|(e & [=] & _)].
Qed.


(** ** The open log *)

Record wal_rep (s : State) (segs : list segment) : Prop := MkWalRep {
  rep_numbers : numbers_ok segs;
  rep_disk : on_disk (disk s) segs [];
  rep_stray : no_stray (disk s) segs;
  rep_records : Forall record_ok (log segs);
  rep_contiguous : contiguous None (log segs);
  rep_files : Forall2 file_of (files_ (wal s)) segs;
  rep_current : ∃ init n recs, segs = init ++ [(n, recs)] ∧
    current_fd_ (wal s) = Some (MakeFilePath n) ∧ current_file_number_ (wal s) = n ∧
    current_file_size_ (wal s) = Z.of_nat (length (seg_bytes recs));
  rep_sequence : in_u 64 (current_sequence_ (wal s)) ∧
    (log segs = [] ∨ last_seq (log segs) = current_sequence_ (wal s));
  rep_open : open_ (wal s) = true
}.

(** The directory after a crash: the segments, the last one with a torn tail. *)
Record crashed (fs : gmap string (list byte)) (segs : list segment) (t : list byte) : Prop := MkCrashed {
  cr_numbers : numbers_ok segs;
  cr_room : Forall (λ n, n + 1 < 1000000) segs.*1;
  cr_disk : on_disk fs segs t;
  cr_torn : torn t;
  cr_stray : no_stray fs segs;
  cr_records : Forall record_ok (log segs);
  cr_contiguous : contiguous None (log segs)
}.

Lemma on_disk_nil fs segs :
  on_disk fs segs [] ↔
  ∀ n recs, (n, recs) ∈ segs → fs !! MakeFilePath n = Some (seg_bytes recs).
Proof.
  induction segs as [|[n recs] segs IH]; cbn [on_disk].
  - split; [intros _ n recs Hin; by apply not_elem_of_nil in Hin|done].
  - rewrite IH. assert ((if bool_decide (segs = []) then [] else [] : list byte) = []) as ->
      by by case_bool_decide. rewrite app_nil_r. setoid_rewrite elem_of_cons. split.
    + intros [H1 H2] m rs [[= -> ->]|Hin]; auto.
    + intros H. split; [apply H; by left|intros; apply H; by right].
Qed.

Definition nonempty (segs : list segment) : list segment := filter (λ seg, seg.2 ≠ []) segs.

Lemma nonempty_cons n recs segs :
  nonempty ((n, recs) :: segs) =
  if decide (recs = []) then nonempty segs else (n, recs) :: nonempty segs.
Proof.
  unfold nonempty. rewrite filter_cons. cbn [snd]. by repeat case_decide.
Qed.

Lemma log_nonempty segs : log (nonempty segs) = log segs.
Proof.
  induction segs as [|[n recs] segs IH]; [done|].
  rewrite nonempty_cons. case_decide; subst; rewrite !log_cons, IH; done.
Qed.

Lemma last_seq_zero recs : Forall record_ok recs → last_seq recs = 0 ↔ recs = [].
Proof.
  intros HF%records_positive. split; [|by intros ->].
  destruct recs as [|r recs _] using rev_ind; [done|]. rewrite last_seq_snoc.
  apply Forall_app in HF as [_ HF]. rewrite Forall_singleton in HF. simpl in HF. lia.
Qed.

Lemma unlink_quiet name s :
  quiet s → ∃ s', unlink name s = (Ok true, s') ∧ quiet s' ∧ wal s' = wal s ∧
    disk s' = delete name (disk s).
Proof.
  intros Hq. unfold unlink. erewrite bind_ok by (by apply sys_quiet).
  eexists. split; [reflexivity|]. done.
Qed.

Lemma numbers_path segs n recs :
  numbers_ok segs → (n, recs) ∈ segs → segment_range n.
Proof.
  intros [_ HF] Hin. rewrite Forall_forall in HF. apply HF, list_elem_of_fmap. by exists (n, recs).
Qed.

Lemma RemoveEmpty_spec segs : ∀ fs s,
  quiet s → Forall2 file_of fs segs → Forall record_ok (log segs) → numbers_ok segs →
  ∃ kept removed s', RemoveEmpty fs s = (Ok (kept, removed), s') ∧ quiet s' ∧ wal s' = wal s ∧
    Forall2 file_of kept (nonempty segs) ∧
    (∀ name, (∀ n, (n, []) ∈ segs → name ≠ MakeFilePath n) → disk s' !! name = disk s !! name) ∧
    (∀ n, (n, []) ∈ segs → disk s' !! MakeFilePath n = None).
Proof.
  induction segs as [|[n recs] segs IH]; intros fs s Hq HF Hok Hn.
  - inversion HF; subst. exists [], false, s. split_and!; try done.
    intros n Hin. by apply not_elem_of_nil in Hin.
  - inversion HF as [|f ? fs' ? Hf HF']; subst. rewrite log_cons in Hok.
    pose proof Hf as (Hp & _ & Hm). apply Forall_app in Hok as [Hok1 Hok2].
    apply numbers_ok_cons in Hn as (Hr & Hn & Hlt & Hne).
    cbn [RemoveEmpty fst snd] in *. rewrite Hm, Hp, nonempty_cons.
    pose proof (last_seq_zero recs Hok1) as Hz.
    destruct (Z.eqb_spec (last_seq recs) 0) as [E|E]; cbn [negb].
    + apply Hz in E. subst recs. rewrite decide_True by done.
      destruct (unlink_quiet (MakeFilePath n) s Hq) as (s1 & E1 & Hq1 & Hw1 & Hd1).
      destruct (IH fs' s1 Hq1 HF' Hok2 Hn) as (kept & removed & s' & E' & Hq' & Hw' & HK & Hs & Hx).
      erewrite bind_ok by exact E1. cbv beta iota. erewrite bind_ok by exact E'.
      eexists _, _, s'. split; [reflexivity|]. split_and!; [done|congruence|done| |].
      * intros name Hname. rewrite Hs, Hd1 by (intros m Hm'; apply Hname; by right).
        apply lookup_delete_ne. intros <-. by apply (Hname n); [left|].
      * intros m [[= ->]|Hm']%elem_of_cons; [|by apply Hx].
        rewrite Hs, Hd1; [by rewrite lookup_delete_eq|]. intros m' Hm' E.
        apply (Hne m'); [|done]. apply list_elem_of_fmap. by exists (m', []).
    + assert (recs ≠ []) by tauto. rewrite decide_False by done.
      destruct (IH fs' s Hq HF' Hok2 Hn) as (kept & removed & s' & E' & Hq' & Hw' & HK & Hs & Hx).
      erewrite bind_ok by exact E'. eexists _, _, s'. split; [reflexivity|].
      split_and!; [done|done|by constructor| |].
      * intros name Hname. apply Hs. intros m Hm'. apply Hname. by right.
      * intros m [Em|Hm']%elem_of_cons; [congruence|by apply Hx].
Qed.


Lemma fold_max_upper l a : ∀ m, m = a ∨ m ∈ l → m ≤ fold_left Z.max l a.
Proof.
  revert a. induction l as [|x l IH]; intros a m; simpl.
  - intros [->|H]; [lia|by apply not_elem_of_nil in H].
  - intros [->|[->|Hin]%elem_of_cons].
    + etransitivity; [|apply IH; by left]. lia.
    + etransitivity; [|apply IH; by left]. lia.
    + apply IH. by right.
Qed.

Lemma fold_max_in l a : fold_left Z.max l a = a ∨ fold_left Z.max l a ∈ l.
Proof.
  revert a. induction l as [|x l IH]; intros a; simpl; [by left|].
  destruct (IH (Z.max a x)) as [E|Hin]; [|right; by right].
  rewrite E. destruct (Z.max_spec a x) as [[_ ->]|[_ ->]]; [right; left|by left].
Qed.

Lemma numbers_ok_snoc segs n recs :
  numbers_ok segs → segment_range n → (∀ m, m ∈ segs.*1 → m < n) → numbers_ok (segs ++ [(n, recs)]).
Proof.
  intros [HS HF] Hn Hlt. split; rewrite fmap_app; cbn [fmap list_fmap fst].
  - apply StronglySorted_app. split_and!; [set_solver|done|repeat constructor].
  - apply Forall_app. by split; [|constructor].
Qed.

Lemma numbers_ok_nonempty segs : numbers_ok segs → numbers_ok (nonempty segs).
Proof.
  intros [HS HF]. induction segs as [|[n recs] segs IH]; [done|].
  cbn [fmap list_fmap fst] in *. apply StronglySorted_inv in HS as [HS Hlt].
  apply Forall_cons in HF as [Hn HF]. specialize (IH HS HF) as [IH1 IH2].
  rewrite nonempty_cons. case_decide; [done|]. split; cbn [fmap list_fmap fst]; [|by constructor].
  constructor; [done|]. rewrite Forall_forall in *. intros m (seg & -> & Hs)%list_elem_of_fmap.
  apply Hlt, list_elem_of_fmap. exists seg. split; [done|].
  unfold nonempty in Hs. apply list_elem_of_filter in Hs. tauto.
Qed.

Lemma elem_of_nonempty n recs segs : (n, recs) ∈ nonempty segs ↔ (n, recs) ∈ segs ∧ recs ≠ [].
Proof. unfold nonempty. rewrite list_elem_of_filter. simpl. tauto. Qed.

Lemma numbers_ok_fun segs n r1 r2 : numbers_ok segs → (n, r1) ∈ segs → (n, r2) ∈ segs → r1 = r2.
Proof.
  induction segs as [|[m recs] segs IH]; [intros _ H; by apply not_elem_of_nil in H|].
  intros (_ & Hn & Hlt & _)%numbers_ok_cons. rewrite Forall_forall in Hlt.
  assert (∀ r, (m, r) ∉ segs).
  { intros r Hin. assert (m < m); [|lia]. apply Hlt, list_elem_of_fmap. by exists (m, r). }
  rewrite !elem_of_cons. intros [E1|H1] [E2|H2]; [congruence| | |by eapply IH]; naive_solver.
Qed.

(** The scan of a crashed directory. *)
Lemma ScanExistingFiles_spec s segs t :
  quiet s → crashed (disk s) segs t →
  ∃ s', ScanExistingFiles s = (Ok tt, s') ∧ quiet s' ∧
    on_disk (disk s') segs [] ∧ same_names (disk s) (disk s') ∧
    Forall2 file_of (files_ (wal s')) segs ∧
    current_file_number_ (wal s') = fold_left Z.max segs.*1 0 ∧
    current_sequence_ (wal s') = last_seq (log segs) ∧
    current_fd_ (wal s') = current_fd_ (wal s) ∧ config_ (wal s') = config_ (wal s) ∧
    open_ (wal s') = open_ (wal s).
Proof.
  intros Hq [Hn Hroom Hd Ht Hns Hok Hc].
  set (s0 := on_wal (set_file_number 0) (on_wal (set_sequence 0) (on_wal (set_files []) s))).
  destruct (ScanSegments_spec segs t None s0) as (wfs & s' & HF & E & Hq' & Hd' & Hsn & _ & Hw);
    [done..|simpl; lia|].
  exists s'. split.
  - unfold ScanExistingFiles. repeat (erewrite bind_ok by reflexivity).
    change (on_wal _ (on_wal _ (on_wal _ s))) with s0.
    erewrite bind_ok by (by apply sys_quiet). cbn [negb]. erewrite (bind_ok se_get) by reflexivity.
    cbv zeta. rewrite (segment_numbers_segs (world s0) segs t) by done.
    assert (adjacent_find segs.*1 = false) as ->; [|done].
    destruct Hn as [HS _]. clear -HS. induction HS as [|a l HS IH HF]; [done|].
    destruct l as [|b l]; [done|]. cbn [adjacent_find] in *. rewrite IH, orb_false_r.
    apply Z.eqb_neq. apply Forall_cons in HF as [? _]. lia.
  - rewrite Hw. cbn. split_and!; try done. rewrite Z.max_r; [done|by apply last_seq_nonneg].
Qed.


Lemma log_open segs n : log (nonempty segs ++ [(n, [])]) = log segs.
Proof. rewrite log_app, log_nonempty. cbn. apply app_nil_r. Qed.

(** After the scan: unlink the empty segments and start the next one. *)
Lemma open_tail s segs :
  quiet s → numbers_ok segs → Forall (λ n, n + 1 < 1000000) segs.*1 → on_disk (disk s) segs [] →
  no_stray (disk s) segs → Forall record_ok (log segs) → contiguous None (log segs) →
  Forall2 file_of (files_ (wal s)) segs →
  current_file_number_ (wal s) = fold_left Z.max segs.*1 0 →
  current_sequence_ (wal s) = last_seq (log segs) → current_fd_ (wal s) = None →
  ∃ kept removed s1 s2 n,
    RemoveEmpty (files_ (wal s)) s = (Ok (kept, removed), s1) ∧ quiet s1 ∧
    RotateFile (on_wal (set_files kept) s1) = (Ok tt, s2) ∧ quiet s2 ∧
    wal_rep (on_wal (set_open true) s2) (nonempty segs ++ [(n, [])]) ∧
    current_sequence_ (wal s2) = last_seq (log segs).
Proof.
  intros Hq Hn Hroom Hd Hns Hok Hc HF Hnum Hseq Hfd.
  destruct (RemoveEmpty_spec segs (files_ (wal s)) s Hq HF Hok Hn)
    as (kept & removed & s1 & E1 & Hq1 & Hw1 & HK & Hsame & Hgone).
  set (top := fold_left Z.max segs.*1 0) in *.
  assert (Hle : ∀ m, m ∈ segs.*1 → m ≤ top) by (intros; apply fold_max_upper; by right).
  assert (Htop : segment_range (top + 1)).
  { assert (0 ≤ top) by (apply fold_max_upper; by left). red.
    destruct (fold_max_in segs.*1 0) as [E|E]; fold top in E; [lia|].
    rewrite Forall_forall in Hroom. specialize (Hroom _ E). simpl in Hroom. lia. }
  assert (Hnone : disk s !! MakeFilePath (top + 1) = None).
  { apply eq_None_not_Some. intros Hs.
    pose proof (Hle _ (Hns _ _ (segment_number_MakeFilePath _ Htop) Hs)). lia. }
  assert (Hnone1 : disk s1 !! MakeFilePath (top + 1) = None).
  { rewrite Hsame; [done|]. intros n Hin E.
    apply MakeFilePath_inj in E; [|done|by eapply numbers_path].
    assert (n ≤ top); [|lia]. apply Hle, list_elem_of_fmap. by exists (n, []). }
  destruct (RotateFile_quiet (on_wal (set_files kept) s1)) as (s2 & E2 & Hq2 & Hw2 & Hd2);
    [done|cbn; rewrite Hw1, Hnum; red in Htop; unfold u32_max; lia|cbn; by rewrite Hw1, Hnum|].
  exists kept, removed, s1, s2, (top + 1). split_and!; try done;
    [|rewrite Hw2; cbn; by rewrite Hw1].
  cbn in Hd2, Hw2. rewrite Hw1, Hnum in Hd2. rewrite disk_on_wal in Hd2.
  assert (Hpath : ∀ n recs, (n, recs) ∈ nonempty segs → n ≠ top + 1).
  { intros n recs [Hin _]%elem_of_nonempty ->.
    assert (top + 1 ≤ top); [|lia]. apply Hle, list_elem_of_fmap. by exists (top + 1, recs). }
  split; rewrite ?log_open, ?wal_on_wal, ?disk_on_wal.
  - apply numbers_ok_snoc; [by apply numbers_ok_nonempty|done|].
    intros m ([m' recs] & -> & [Hin _]%elem_of_nonempty)%list_elem_of_fmap. simpl.
    assert (m' ≤ top); [|lia]. apply Hle, list_elem_of_fmap. by exists (m', recs).
  - apply on_disk_nil. intros n recs [Hin|Hin]%elem_of_app.
    + rewrite Hd2, lookup_insert_ne.
      * rewrite Hsame. { rewrite on_disk_nil in Hd. apply Hd. apply elem_of_nonempty in Hin. tauto. }
        apply elem_of_nonempty in Hin as [Hin Hne]. intros m Hm E.
        apply MakeFilePath_inj in E; [|by eapply numbers_path..]. subst.
        by rewrite (numbers_ok_fun segs m recs []) in Hne.
      * intros E. apply (Hpath _ _ Hin). apply MakeFilePath_inj in E; [lia|done|].
        eapply numbers_path; [by apply numbers_ok_nonempty|done].
    + apply list_elem_of_singleton in Hin as [= -> ->]. by rewrite Hd2, lookup_insert_eq.
  - intros name n Hname Hs. rewrite fmap_app, elem_of_app. cbn [fmap list_fmap fst].
    rewrite list_elem_of_singleton. rewrite Hd2 in Hs.
    destruct (decide (name = MakeFilePath (top + 1))) as [->|Hne].
    + right. rewrite segment_number_MakeFilePath in Hname by done. congruence.
    + left. rewrite lookup_insert_ne in Hs by done.
      apply segment_number_inv in Hname as Hname'. destruct Hname' as [-> Hr].
      destruct (decide ((n, []) ∈ segs)) as [Hin|Hin]; [rewrite Hgone in Hs by done; by destruct Hs|].
      rewrite Hsame in Hs.
      * pose proof (Hns _ _ Hname Hs) as ([m recs] & E & Hm)%list_elem_of_fmap. simpl in E. subst m.
        apply list_elem_of_fmap. exists (n, recs). rewrite elem_of_nonempty. naive_solver.
      * intros m Hm E. apply MakeFilePath_inj in E; [|done|by eapply numbers_path]. by subst.
  - done.
  - done.
  - rewrite Hw2. cbn. rewrite Hw1, Hnum. apply Forall2_app; [done|]. constructor; [|constructor].
    by split_and!.
  - exists (nonempty segs), (top + 1), []. rewrite Hw2, seg_bytes_nil. cbn. by rewrite Hw1, Hnum.
  - rewrite Hw2. cbn. rewrite Hw1, Hseq. split; [|by right].
    destruct (log segs) as [|r l _] eqn:E using rev_ind; [done|]. rewrite last_seq_snoc.
    apply Forall_app in Hok as [_ Hok]. rewrite Forall_singleton in Hok. apply Hok.
  - done.
Qed.

End operations.
