(* ===== verification/WalTheorems.v ===== *)
(** * The properties of the write-ahead log

    What [Append] promises and leaves behind, what [Open] recovers, what
    [Replay] delivers, what [Truncate] keeps, and the corner cases in which a
    log is lost or refused. *)

From S2P Require Import Prelude Wal WalRecovery.
#[local] Open Scope Z_scope.

Section theorems.
Context {order : IterOrder} {zlib : Zlib}.

Lemma Close_quiet s :
  quiet s → ∃ s', Close s = (Ok tt, s') ∧ quiet s' ∧ disk s' = disk s ∧ current_fd_ (wal s') = None.
Proof.
  intros Hq. unfold Close. erewrite bind_ok by reflexivity. erewrite (bind_ok se_get) by reflexivity.
  rewrite wal_on_wal. cbn [current_fd_ set_sync_running].
  destruct (current_fd_ (wal s)) as [fd|] eqn:E.
  - erewrite bind_ok by (erewrite bind_ok by (by apply sys_quiet); reflexivity).
    eexists. split; [reflexivity|]. done.
  - erewrite bind_ok by reflexivity. eexists. split; [reflexivity|]. done.
Qed.

(** [Open] on a crashed directory. *)
Lemma Open_crashed cfg s segs t :
  quiet s → crashed (disk s) segs t →
  ∃ s' n, Open cfg (Ok tt) s = (Ok tt, s') ∧ quiet s' ∧
    wal_rep s' (nonempty segs ++ [(n, [])]) ∧
    log (nonempty segs ++ [(n, [])]) = log segs ∧
    current_sequence_ (wal s') = last_seq (log segs).
Proof.
  intros Hq Hcr. destruct (Close_quiet s Hq) as (s1 & E1 & Hq1 & Hd1 & Hfd1).
  set (s2 := on_wal (set_config cfg) s1).
  destruct (ScanExistingFiles_spec s2 segs t) as
    (s3 & E3 & Hq3 & Hd3 & Hsn3 & HF3 & Hnum3 & Hseq3 & Hfd3 & Hcfg3 & _);
    [done|unfold s2; by rewrite disk_on_wal, Hd1|].
  destruct Hcr as [Hn Hroom Hd Ht Hns Hok Hc].
  assert (Hns3 : no_stray (disk s3) segs).
  { intros name n Hname Hs. eapply Hns; [done|]. rewrite <- Hd1. by apply (Hsn3 name). }
  destruct (open_tail s3 segs) as (kept & removed & s4 & s5 & n & E4 & Hq4 & E5 & Hq5 & Hrep & Hseq5);
    try done; [by rewrite Hfd3|].
  assert (Hopen : ∃ s', Open cfg (Ok tt) s = (Ok tt, s') ∧ quiet s' ∧
    (s' = on_wal (set_open true) s5 ∨ s' = on_wal (set_sync_running true) (on_wal (set_open true) s5))).
  { unfold Open. erewrite bind_ok by exact E1. erewrite bind_ok by reflexivity. fold s2.
    erewrite bind_ok by (by apply sys_quiet). cbn [negb]. erewrite bind_ok by reflexivity.
    erewrite bind_ok by exact E3. erewrite (bind_ok se_get) by reflexivity.
    erewrite bind_ok by exact E4. cbv beta iota. erewrite bind_ok by reflexivity.
    erewrite bind_ok.
    2: { destruct removed; [|reflexivity]. by erewrite bind_ok by (by apply sys_quiet). }
    erewrite bind_ok by exact E5. erewrite bind_ok by reflexivity.
    case_match; eexists; (split; [reflexivity|]); eauto. }
  destruct Hopen as (s' & E & Hq' & Hs'). exists s', n. split_and!; [done|done| |apply log_open|].
  - destruct Hs' as [->| ->]; [done|]. by destruct Hrep; split.
  - by destruct Hs' as [->| ->].
Qed.

(** C5: recovery.  Opening a directory left by a crash - contiguous segments,
    the newest one possibly followed by a strict prefix of a record - succeeds,
    drops the torn tail and the empty segments, starts a fresh segment, and the
    open log holds exactly the complete records, with the sequence of the last
    one as current. *)
Theorem open_recovers cfg s segs t :
  quiet s → crashed (disk s) segs t →
  ∃ s' n, Open cfg (Ok tt) s = (Ok tt, s') ∧ quiet s' ∧
    wal_rep s' (nonempty segs ++ [(n, [])]) ∧
    log (nonempty segs ++ [(n, [])]) = log segs ∧
    current_sequence_ (wal s') = last_seq (log segs).
Proof. apply Open_crashed. Qed.


(** ** Replay *)

Section replay.
Context {Acc : Type} (callback : WalRecord → Acc → Expected unit * Acc).

(** The reference: call back on every record from [from] on, in order, until
    one is refused; how many were accepted. *)
Fixpoint run_from (from : Z) (l : list WalRecord) (acc : Acc) : Expected Z * Acc :=
  match l with
  | [] => (Ok 0, acc)
  | r :: l' =>
      if sequence r <? from then run_from from l' acc
      else match callback r acc with
           | (Unexpected e, acc') => (Unexpected e, acc')
           | (Ok _, acc') =>
               match run_from from l' acc' with
               | (Ok n, acc'') => (Ok (n + 1), acc'')
               | r => r
               end
           end
  end.

Lemma run_from_app from l1 l2 acc :
  run_from from (l1 ++ l2) acc =
  match run_from from l1 acc with
  | (Ok n, acc') => match run_from from l2 acc' with
                    | (Ok m, acc'') => (Ok (n + m), acc'')
                    | r => r
                    end
  | r => r
  end.
Proof.
  revert acc. induction l1 as [|r l1 IH]; intros acc; cbn [app run_from].
  - destruct (run_from from l2 acc) as [[m|e] acc'']; [|done]. by rewrite Z.add_0_l.
  - destruct (sequence r <? from); [apply IH|].
    destruct (callback r acc) as [[u|e] acc']; [|done]. rewrite IH.
    destruct (run_from from l1 acc') as [[n|e] acc'']; [|done].
    destruct (run_from from l2 acc'') as [[m|e] acc3]; [|done]. do 2 f_equal. lia.
Qed.

Lemma run_from_below from l acc :
  (∀ r, r ∈ l → sequence r < from) → run_from from l acc = (Ok 0, acc).
Proof.
  induction l as [|r l IH]; intros Hl; [done|]. cbn [run_from].
  rewrite (proj2 (Z.ltb_lt _ _)) by (apply Hl; left). apply IH. intros. apply Hl. by right.
Qed.

Definition seen (from : Z) (l : list WalRecord) : bool := existsb (λ r, sequence r =? from) l.

Lemma ReplayRecords_spec recs : ∀ fuel latest from r,
  Forall record_ok recs → contiguous (r_previous r) recs → (length recs ≤ fuel)%nat →
  ∃ r', ReplayRecords callback fuel latest from (concat (encode_record <$> recs)) [] r =
    (match (run_from from recs (r_acc r)).1 with Ok _ => RNext | Unexpected e => RError e end, r', []) ∧
  r_acc r' = (run_from from recs (r_acc r)).2 ∧
  (∀ n, (run_from from recs (r_acc r)).1 = Ok n →
    r_count r' = r_count r + n ∧ r_floor_seen r' = r_floor_seen r || seen from recs ∧
    r_previous r' = prev_after (r_previous r) recs).
Proof.
  induction recs as [|x recs IH]; intros fuel latest from r Hok Hc Hfuel.
  - exists r. split; [by destruct fuel|]. split; [done|]. intros n [= <-]. rewrite orb_false_r.
    split_and!; [lia|done..].
  - apply Forall_cons in Hok as [Hx Hok]. destruct Hc as [Hp Hc].
    destruct fuel as [|fuel]; [simpl in Hfuel; lia|].
    cbn [fmap list_fmap concat ReplayRecords]. rewrite read_frame_record by done.
    rewrite decode_encode_body by done.
    assert (not_contiguous (r_previous r) (sequence x) = false) as ->.
    { destruct (r_previous r) as [p|]; [simpl|done]. pose proof (seq_u64 _ Hx) as [_ Hs].
      rewrite Hp, Z.eqb_refl, orb_false_r. apply Z.eqb_neq. unfold u64_max. lia. }
    cbv zeta. cbn [run_from seen existsb r_acc r_count r_floor_seen r_previous].
    rewrite prev_after_cons.
    destruct (sequence x <? from) eqn:Efrom.
    + destruct (IH fuel latest from
        (MkReplay (r_count r) (r_floor_seen r || (sequence x =? from)) (Some (sequence x)) (r_acc r)))
        as (r' & E & Hacc & Hres); [done|done|simpl in Hfuel; lia|].
      exists r'. split_and!; [done|done|]. intros n Hn. rewrite orb_assoc. by apply Hres.
    + destruct (callback x (r_acc r)) as [[u|e] acc'];
        [|eexists; split; [reflexivity|]; split; [done|]; intros n [=]].
      destruct (IH fuel latest from
        (MkReplay (r_count r + 1) (r_floor_seen r || (sequence x =? from)) (Some (sequence x)) acc'))
        as (r' & E & Hacc & Hres); [done|done|simpl in Hfuel; lia|].
      exists r'. cbn [r_acc] in *.
      destruct (run_from from recs acc') as [[n|e] acc''] eqn:Erun; cbn [fst snd] in *.
      * split_and!; [done|done|]. intros m [= <-]. destruct (Hres n eq_refl) as (Hcount & Hfl & Hpr).
        cbn [r_count r_floor_seen r_previous] in *. rewrite orb_assoc. split_and!; [lia|done..].
      * split_and!; [done|done|]. intros m [=].
Qed.


Lemma replay_header_ok rest : replay_header (file_header ++ rest) [] = (Ok rest, []).
Proof. unfold replay_header. by rewrite ValidateFileHeader_ok. Qed.

Lemma seen_app from l1 l2 : seen from (l1 ++ l2) = seen from l1 || seen from l2.
Proof. apply existsb_app. Qed.

Lemma seen_below from l : (∀ r, r ∈ l → sequence r < from) → seen from l = false.
Proof.
  intros Hl. apply not_true_iff_false. unfold seen. rewrite existsb_exists.
  intros (r & Hin & Hr). apply list_elem_of_In, Hl in Hin. lia.
Qed.

Definition included (from : Z) (seg : segment) : Prop :=
  from <= last_seq seg.2 ∨ last_seq seg.2 = 0.
#[local] Instance included_dec from seg : Decision (included from seg).
Proof. unfold included. apply _. Defined.

Lemma replay_paths_segs from fs segs :
  Forall2 file_of fs segs →
  replay_paths from fs = (λ seg : segment, MakeFilePath seg.1) <$> filter (included from) segs.
Proof.
  unfold replay_paths. induction 1 as [|f seg fs segs (Hp & _ & Hm) HF IH]; [done|].
  rewrite !filter_cons, Hm. unfold included at 2.
  repeat case_decide; try tauto; cbn [fmap list_fmap] in *; by rewrite IH, ?Hp.
Qed.

(** What the replay state remembers of the records before a segment. *)
Definition tracks (from : Z) (prev : option Z) (r : @ReplayState Acc) : Prop :=
  r_previous r = None ∨ (r_previous r = prev ∧ ∃ p, prev = Some p ∧ from ≤ p).

Lemma ReplayPaths_spec from fs segs : ∀ prev r,
  on_disk fs segs [] → Forall record_ok (log segs) → contiguous prev (log segs) → tracks from prev r →
  let run := run_from from (log segs) (r_acc r) in
  ∃ r', ReplayPaths callback from fs ((λ seg : segment, MakeFilePath seg.1) <$> filter (included from) segs) [] r =
    (match run.1 with Ok _ => RNext | Unexpected e => RError e end, r', []) ∧
  r_acc r' = run.2 ∧
  (∀ n, run.1 = Ok n → r_count r' = r_count r + n ∧
    r_floor_seen r' = r_floor_seen r || seen from (log segs)).
Proof.
  induction segs as [|[n recs] segs IH]; intros prev r Hd Hok Hc Htr; cbv zeta.
  - exists r. cbn. split_and!; try done. intros n [= <-]. rewrite orb_false_r. split; [lia|done].
  - rewrite log_cons in *. apply Forall_app in Hok as [Hok1 Hok2].
    apply contiguous_app in Hc as [Hc1 Hc2]. destruct Hd as [Hd1 Hd2].
    assert (Hb : (if bool_decide (segs = []) then [] else [] : list byte) = []) by by case_bool_decide.
    rewrite Hb, app_nil_r in Hd1. clear Hb.
    rewrite run_from_app, seen_app, filter_cons. case_decide as Hin.
    + assert (Htr1 : contiguous (r_previous r) recs).
      { destruct Htr as [->|[-> _]]; [by eapply contiguous_weaken|done]. }
      cbn [fmap list_fmap fst ReplayPaths]. cbn [next_outcome w_faults w_files].
      rewrite bool_decide_eq_true_2 by done. rewrite Hd1. unfold seg_bytes. rewrite replay_header_ok.
      cbn [next_outcome w_faults w_files]. rewrite bool_decide_eq_true_2 by done. cbn [negb].
      match goal with |- context [ReplayRecords _ _ ?b] => generalize b; intros latest end.
      destruct (ReplayRecords_spec recs
        (length (file_header ++ concat (encode_record <$> recs))) latest from r)
        as (r1 & E1 & Hacc1 & Hres1); [done|done| |].
      { rewrite length_app. clear. induction recs as [|x recs IH]; [simpl; lia|].
        cbn [fmap list_fmap concat]. rewrite length_app, length_encode_record. cbn [length] in *. lia. }
      rewrite E1. destruct (run_from from recs (r_acc r)) as [[k|e] acc1] eqn:Erun; cbn [fst snd] in *.
      * destruct (Hres1 k eq_refl) as (Hcount & Hfl & Hprev).
        destruct (IH (prev_after prev recs) r1) as (r' & E' & Hacc' & Hres'); [done|done|done| |].
        { unfold tracks. rewrite Hprev.
          destruct recs as [|x recs _] using rev_ind.
          - unfold prev_after. simpl. destruct Htr as [->|[-> ?]]; [by left|by right].
          - right. unfold prev_after. rewrite last_snoc. split; [done|]. eexists. split; [done|].
            red in Hin. cbn [snd] in Hin. rewrite last_seq_snoc in Hin.
            apply Forall_app in Hok1 as [_ Hx]. rewrite Forall_singleton in Hx.
            destruct Hin as [|Hz]; [done|]. pose proof (seq_pos _ Hx). lia. }
        exists r'. rewrite E', <- Hacc1 in *.
        destruct (run_from from (log segs) (r_acc r1)) as [[m|e] acc2]; cbn [fst snd] in *.
        -- split_and!; [done|done|]. intros n' [= <-]. destruct (Hres' m eq_refl) as [-> ->].
           rewrite Hcount, Hfl, orb_assoc. split; [lia|done].
        -- split_and!; [done|done|]. intros n' [=].
      * exists r1. split_and!; [done|done|]. intros n' [=].
    + assert (Hbelow : ∀ x, x ∈ recs → sequence x < from).
      { intros x Hx. pose proof (last_seq_upper _ _ x Hc1 (records_positive _ Hok1) Hx).
        unfold included in Hin. cbn [snd] in Hin. lia. }
      rewrite run_from_below, seen_below by done. cbn [orb].
      assert (Hne : recs ≠ []).
      { intros ->. apply Hin. by right. }
      destruct (IH (prev_after prev recs) r) as (r' & E' & Hacc' & Hres'); [done|done|done| |].
      { left. destruct Htr as [?|[Hp (p & -> & Hle)]]; [done|exfalso].
        destruct recs as [|x recs]; [done|]. destruct Hc1 as [Hx _].
        pose proof (Hbelow x ltac:(left)). lia. }
      exists r'. rewrite E'.
      destruct (run_from from (log segs) (r_acc r)) as [[m|e] acc2]; cbn [fst snd] in *.
      * split_and!; [done|done|]. intros n' [= <-]. destruct (Hres' m eq_refl) as [-> ->].
        split; [lia|done].
      * split_and!; [done|done|]. intros n' [=].
Qed.

(** [ReplayValidated] on an open log. *)
Lemma ReplayValidated_open from s segs acc :
  quiet s → wal_rep s segs →
  ReplayValidated callback from s acc =
  let run := run_from from (log segs) acc in
  (match run.1 with
   | Unexpected e => Unexpected e
   | Ok n => if negb ((from =? 0) || seen from (log segs)) && (from <=? current_sequence_ (wal s))
             then throw kWalCorrupted "WAL does not contain requested replay floor sequence"
             else Ok n
   end, run.2, s).
Proof.
  intros Hq [Hn Hd _ Hok Hc HF _ _ _]. cbv zeta. unfold ReplayValidated.
  rewrite (replay_paths_segs from _ segs) by done.
  assert (Hs : MkState (wal s) (MkWorld (w_files (world s)) []) = s) by (symmetry; by apply quiet_eq).
  red in Hq. rewrite Hq.
  destruct (ReplayPaths_spec from (disk s) segs None (MkReplay 0 (from =? 0) None acc))
    as (r' & E & Hacc & Hres); [done|done|done|by left|].
  unfold disk in E. rewrite E. cbn [r_acc r_count r_floor_seen] in *.
  rewrite Hs.
  destruct (run_from from (log segs) acc) as [[n|e] acc']; cbn [fst snd] in *; [|by subst].
  destruct (Hres n eq_refl) as [-> ->]. subst. rewrite Z.add_0_l. by destruct (negb _ && _).
Qed.

(** C6: replay.  On an open log, [Replay] calls back on exactly the records
    whose sequence is at least [from], once each and in order, stops at the
    first one the callback refuses, counts the accepted ones, and afterwards
    reports a missing floor exactly when [from] is a past sequence that is no
    longer in the log.  The log is not changed. *)
Theorem replay_delivers from s segs acc :
  quiet s → wal_rep s segs →
  ReplayValidated callback from s acc =
  let run := run_from from (log segs) acc in
  (match run.1 with
   | Unexpected e => Unexpected e
   | Ok n => if negb ((from =? 0) || seen from (log segs)) && (from <=? current_sequence_ (wal s))
             then throw kWalCorrupted "WAL does not contain requested replay floor sequence"
             else Ok n
   end, run.2, s).
Proof. apply ReplayValidated_open. Qed.

End replay.

(** ** Append *)

Lemma on_disk_snoc fs init n recs t :
  on_disk fs (init ++ [(n, recs)]) t ↔
  on_disk fs init [] ∧ fs !! MakeFilePath n = Some (seg_bytes recs ++ t).
Proof.
  induction init as [|[m rs] init IH]; cbn [app on_disk].
  - rewrite bool_decide_eq_true_2 by done. tauto.
  - rewrite IH, bool_decide_eq_false_2 by (by destruct init).
    case_bool_decide; rewrite !app_nil_r; tauto.
Qed.

Lemma seg_bytes_snoc recs r : seg_bytes (recs ++ [r]) = seg_bytes recs ++ encode_record r.
Proof.
  unfold seg_bytes. rewrite fmap_app, concat_app. cbn [fmap list_fmap concat].
  by rewrite app_nil_r, (assoc_L (++)).
Qed.

Lemma last_segment_fresh init n recs :
  numbers_ok (init ++ [(n, recs)]) → ∀ m, m ∈ init.*1 → MakeFilePath m ≠ MakeFilePath n.
Proof.
  intros [HS HF] m Hm E. rewrite fmap_app in HS, HF.
  apply Forall_app in HF as [HF1 HF2]. apply Forall_cons in HF2 as [Hn _].
  rewrite Forall_forall in HF1. apply MakeFilePath_inj in E; [|by apply HF1|done].
  pose proof (StronglySorted_app_1_elem_of _ _ _ m n HS Hm ltac:(left)). lia.
Qed.

Lemma set_back_spec fs init n recs recs' q sz :
  Forall2 file_of fs (init ++ [(n, recs)]) → q = last_seq recs' →
  Forall2 file_of (set_back q sz fs) (init ++ [(n, recs')]).
Proof.
  intros HF ->. apply Forall2_app_inv_r in HF as (fs1 & fs2 & HF1 & HF2 & ->).
  inversion HF2 as [|f ? fs3 ? (Hp & Hnum & _) HF3]; subst. inversion HF3; subst.
  unfold set_back. rewrite reverse_app. change (reverse [f]) with [f]. cbn [app].
  rewrite reverse_involutive.
  apply Forall2_app; [done|]. constructor; [by split_and!|constructor].
Qed.

(** What is on disk when an append is refused: every earlier record, then at
    most a prefix of the new one; nothing more will be written. *)
Definition refused (s' : State) (segs : list segment) (rec : WalRecord) : Prop :=
  ∃ segs' t, on_disk (disk s') segs' t ∧ log segs' = log segs ∧ t `prefix_of` encode_record rec.

Lemma numbers_ok_recs init n recs recs' :
  numbers_ok (init ++ [(n, recs)]) → numbers_ok (init ++ [(n, recs')]).
Proof. unfold numbers_ok. by rewrite !fmap_app. Qed.

Lemma log_snoc init n recs r : log (init ++ [(n, recs ++ [r])]) = log (init ++ [(n, recs)]) ++ [r].
Proof.
  rewrite !log_app. unfold log. cbn [mbind list_bind snd].
  by rewrite !app_nil_r, (assoc_L (++)).
Qed.

Lemma rep_appended s s' init n recs rec :
  wal_rep s (init ++ [(n, recs)]) → record_ok rec →
  sequence rec = current_sequence_ (wal s) + 1 →
  disk s' = <[MakeFilePath n := seg_bytes recs ++ encode_record rec]> (disk s) →
  files_ (wal s') = set_back (sequence rec) (current_file_size_ (wal s')) (files_ (wal s)) →
  current_fd_ (wal s') = current_fd_ (wal s) →
  current_file_number_ (wal s') = current_file_number_ (wal s) →
  current_file_size_ (wal s') = current_file_size_ (wal s) + record_size (payload rec) →
  current_sequence_ (wal s') = sequence rec → open_ (wal s') = true →
  wal_rep s' (init ++ [(n, recs ++ [rec])]).
Proof.
  intros [Hn Hd Hns Hok Hc HF (init' & n' & recs' & Hsegs & Hfd & Hnum & Hsz) [Hseq Hlast] _]
    Hrec Hs Hd' Hf' Hfd' Hnum' Hsz' Hseq' Hopen'.
  apply app_inj_tail in Hsegs as [<- [= <- <-]].
  apply on_disk_snoc in Hd as [Hd1 Hd2]. split; rewrite ?log_snoc.
  - by eapply numbers_ok_recs.
  - apply on_disk_snoc. rewrite Hd', lookup_insert_eq, seg_bytes_snoc, app_nil_r. split; [|done].
    apply on_disk_insert; [by apply last_segment_fresh with recs|done].
  - intros name m Hname Hin. rewrite fmap_app. rewrite Hd' in Hin.
    specialize (Hns name m Hname). rewrite fmap_app in Hns. apply Hns.
    destruct (decide (name = MakeFilePath n)) as [->|Hne]; [by rewrite Hd2|].
    by rewrite lookup_insert_ne in Hin.
  - apply Forall_app. split; [done|by constructor].
  - apply contiguous_app. split; [done|]. split; [|done]. unfold prev_after.
    destruct Hlast as [->|Hlast]; [done|].
    unfold last_seq in Hlast. destruct (last _); [lia|done].
  - rewrite Hf'. eapply set_back_spec; [done|]. by rewrite last_seq_snoc.
  - exists init, n, (recs ++ [rec]). split_and!; [done|congruence|congruence|].
    rewrite Hsz', Hsz, seg_bytes_snoc, length_app, length_encode_record.
    unfold record_size, kWalRecordHeaderSize. lia.
  - rewrite Hseq', last_seq_snoc. split; [apply Hrec|by right].
  - done.
Qed.

Lemma WriteRecord_inv op pl now s segs r s' :
  WriteRecord op pl now s = (r, s') → wal_rep s segs →
  current_sequence_ (wal s) ≠ u64_max → op_of_byte (op_byte op) = op →
  kWalRecordHeaderSize + Z.of_nat (length pl) ≤ kMaxWalRecordBodySize →
  let rec := MkRecord (current_sequence_ (wal s) + 1) (u64 now) op pl in
  (∃ segs', r = Ok (sequence rec) ∧ wal_rep s' segs' ∧ log segs' = log segs ++ [rec]) ∨
  (∃ e, r = Unexpected e ∧ refused s' segs rec ∧ current_fd_ (wal s') = None ∧ open_ (wal s') = false).
Proof.
  intros H Hrep Hmax Hop Hfits rec.
  pose proof Hrep as [Hn Hd _ _ _ _ (init & n & recs & -> & Hfd & _ & _) [Hseq _] Hopen].
  assert (Hrec : record_ok rec).
  { split; simpl; try done; unfold in_u, u64_max in *; [lia|lia|]. by apply wrap_in_u. }
  apply on_disk_snoc in Hd as [Hd1 Hd2]. rewrite app_nil_r in Hd2.
  set (name := MakeFilePath n) in *.
  assert (Hcont : contents name s = seg_bytes recs) by (unfold contents, disk in *; by rewrite Hd2).
  assert (Hrefused : ∀ s1 t, disk s1 = <[name := seg_bytes recs ++ t]> (disk s) →
    t `prefix_of` encode_record rec → refused s1 (init ++ [(n, recs)]) rec).
  { intros s1 t Hd' Ht. exists (init ++ [(n, recs)]), t. split_and!; [|done..].
    apply on_disk_snoc. rewrite Hd', lookup_insert_eq. split; [|done].
    apply on_disk_insert; [by apply last_segment_fresh with recs|done]. }
  unfold WriteRecord in H. cbv zeta in H.
  erewrite bind_ok in H by reflexivity. erewrite (bind_ok se_get) in H by reflexivity.
  autorewrite with nvecd_wal in H. cbn [current_fd_ set_sequence current_sequence_ config_] in H.
  rewrite Hfd in H. cbn [default] in H. fold name rec in H.
  unfold id, poison_current_segment in H. set (sync := sync_on_write _) in H. clearbody sync.
  set (hdr := le_bytes 4 _ ++ le_bytes 4 _) in H.
  assert (Henc : encode_record rec = hdr ++ encode_body rec)
    by (unfold encode_record, hdr; by rewrite (assoc_L (++))).
  run_calls; autorewrite with nvecd_wal in *.
  all: assert (Hd1' : disk s0 = <[name := seg_bytes recs ++ w]> (disk s))
    by (rewrite <- Hcont; assumption).
  5: { right. eexists. split; [done|]. split; [|done]. eapply Hrefused; [exact Hd1'|].
       rewrite Henc. by apply prefix_app_r. }
  all: assert (Hw' : w = hdr) by auto; subst w.
  all: assert (Hd2' : disk s1 = <[name := seg_bytes recs ++ (hdr ++ w0)]> (disk s))
    by (rewrite Hd0, Hd1'; unfold contents, disk in Hd1' |- *; rewrite Hd1', lookup_insert_eq;
        cbn [from_option]; unfold id; by rewrite insert_insert_eq, <- (assoc_L (++))).
  4: { right. eexists. split; [done|]. split; [|done]. eapply Hrefused; [exact Hd2'|].
       rewrite Henc. by apply prefix_app. }
  all: assert (Hw' : w0 = encode_body rec) by auto; subst w0; rewrite <- Henc in Hd2'.
  2: { right. eexists. split; [done|]. split; [|done].
       eapply Hrefused; [rewrite !disk_on_wal, Hd3; exact Hd2'|done]. }
  all: left; exists (init ++ [(n, recs ++ [rec])]); split_and!; [done| |apply log_snoc].
  all: eapply rep_appended; try done; autorewrite with nvecd_wal;
    rewrite ?Hd3, ?Hw1, ?Hw0, ?Hw; try done; exact Hd2'.
Qed.


(** The state after the finalisation of the current segment's entry. *)
Lemma rep_finalized s segs :
  wal_rep s segs → kWalFileHeaderSize < current_file_size_ (wal s) →
  wal_rep (on_wal (λ l, set_files (set_back (current_sequence_ l) (current_file_size_ l) (files_ l)) l) s) segs.
Proof.
  intros [Hn Hd Hns Hok Hc HF (init & n & recs & -> & Hfd & Hnum & Hsz) [Hseq Hlast] Hopen] Hne.
  split; try done; [|by exists init, n, recs]. rewrite wal_on_wal. cbn [files_ set_files].
  eapply set_back_spec; [done|]. rewrite Hsz in Hne.
  destruct recs as [|r recs _] using rev_ind.
  { rewrite seg_bytes_nil, length_file_header in Hne. unfold kWalFileHeaderSize in Hne. lia. }
  rewrite log_snoc in Hlast. destruct Hlast as [[_ [=]]%app_nil|Hlast].
  by rewrite last_seq_snoc in *.
Qed.

Lemma rep_next_fresh s segs :
  wal_rep s segs → segment_range (current_file_number_ (wal s) + 1) →
  (∀ m, m ∈ segs.*1 → m < current_file_number_ (wal s) + 1) ∧
  (∀ m, m ∈ segs.*1 → MakeFilePath m ≠ MakeFilePath (current_file_number_ (wal s) + 1)) ∧
  disk s !! MakeFilePath (current_file_number_ (wal s) + 1) = None.
Proof.
  intros [[HS HF] _ Hns _ _ _ (init & n & recs & -> & _ & -> & _) _ _] Hr.
  assert (Hlt : ∀ m, m ∈ (init ++ [(n, recs)]).*1 → m < n + 1).
  { intros m Hm. rewrite fmap_app in Hm, HS. cbn [fmap list_fmap fst] in *.
    apply elem_of_app in Hm as [Hm|Hm]; [|apply list_elem_of_singleton in Hm; lia].
    pose proof (StronglySorted_app_1_elem_of _ _ _ m n HS Hm ltac:(left)). lia. }
  split_and!; [done| |].
  - intros m Hm E. rewrite Forall_forall in HF.
    apply MakeFilePath_inj in E; [|by apply HF|done]. specialize (Hlt m Hm). lia.
  - apply eq_None_not_Some. intros Hs.
    pose proof (Hlt _ (Hns _ _ (segment_number_MakeFilePath _ Hr) Hs)). lia.
Qed.

Lemma rep_rotated s s' segs :
  wal_rep s segs → segment_range (current_file_number_ (wal s) + 1) →
  wal s' = rotated s →
  disk s' = <[MakeFilePath (current_file_number_ (wal s) + 1) := seg_bytes []]> (disk s) →
  wal_rep s' (segs ++ [(current_file_number_ (wal s) + 1, [])]) ∧
  log (segs ++ [(current_file_number_ (wal s) + 1, [])]) = log segs.
Proof.
  intros Hrep Hr Hw Hd'. destruct (rep_next_fresh s segs Hrep Hr) as (Hlt & Hfresh & _).
  destruct Hrep as [Hn Hd Hns Hok Hc HF _ [Hseq Hlast] Hopen]. set (n := current_file_number_ (wal s)) in *.
  assert (Hlog : log (segs ++ [(n + 1, [])]) = log segs) by (rewrite log_app; cbn; apply app_nil_r).
  split; [|done]. split; rewrite ?Hlog; try done.
  - by apply numbers_ok_snoc.
  - apply on_disk_snoc. rewrite Hd', lookup_insert_eq, app_nil_r. split; [|done].
    by apply on_disk_insert.
  - intros name m Hname Hin. rewrite fmap_app, elem_of_app. rewrite Hd' in Hin.
    destruct (decide (name = MakeFilePath (n + 1))) as [->|Hne].
    + right. rewrite segment_number_MakeFilePath in Hname by done. simplify_eq. left.
    + left. rewrite lookup_insert_ne in Hin by done. by eapply Hns.
  - rewrite Hw. cbn. apply Forall2_app; [done|]. constructor; [|constructor]. done.
  - exists segs, (n + 1), []. by rewrite Hw, seg_bytes_nil.
  - by rewrite Hw.
  - by rewrite Hw.
Qed.

Lemma on_disk_except name fs fs' segs t :
  disk_except name fs' fs → (∀ n, n ∈ segs.*1 → MakeFilePath n ≠ name) →
  on_disk fs segs t → on_disk fs' segs t.
Proof.
  intros He. induction segs as [|[n recs] segs IH]; [done|]. intros Hn [Hd1 Hd2]. split.
  - rewrite He; [done|]. apply Hn. left.
  - apply IH; [|done]. intros m Hm. apply Hn. by right.
Qed.

(** [Append], whatever fails. *)
Lemma Append_inv op pl now s segs r s' :
  Append op pl now s = (r, s') → wal_rep s segs →
  op_of_byte (op_byte op) = op → segment_range (current_file_number_ (wal s) + 1) →
  let rec := MkRecord (current_sequence_ (wal s) + 1) (u64 now) op pl in
  match r with
  | Ok seq => seq = sequence rec ∧ ∃ segs', wal_rep s' segs' ∧ log segs' = log segs ++ [rec]
  | Unexpected _ => refused s' segs rec ∧ (current_fd_ (wal s') = None ∨ wal_rep s' segs)
  end.
Proof.
  intros H Hrep Hop Hr rec. unfold Append in H. erewrite (bind_ok se_get) in H by reflexivity.
  pose proof Hrep as [Hn Hd Hns _ _ _ (init & n & recs & Hsegs & Hfd & Hnum & _) _ Hopen].
  rewrite Hopen, Hfd in H.
  assert (Hsame : refused s segs rec) by (exists segs, []; split_and!; [done..|apply prefix_nil]).
  destruct (Z.eqb_spec (current_sequence_ (wal s)) u64_max) as [|Hmax]; [inv_step; auto|].
  destruct (Z.ltb_spec (kMaxWalRecordBodySize - kWalRecordHeaderSize) (Z.of_nat (length pl)));
    [inv_step; auto|].
  assert (Hfits : kWalRecordHeaderSize + Z.of_nat (length pl) ≤ kMaxWalRecordBodySize) by lia.
  destruct (needs_rotation (wal s) pl) eqn:Erot.
  - apply andb_true_iff in Erot as [_ Hsz%Z.ltb_lt].
    pose proof (rep_finalized s segs Hrep Hsz) as Hrep1. set (s1 := on_wal _ s) in Hrep1.
    destruct (rep_next_fresh s segs Hrep Hr) as (_ & Hfresh & Hnone).
    inv_step.
    + rewrite (bind_ok (modify _) _ _ tt s1 eq_refl) in E.
      apply RotateFile_inv in E as [_ [(_ & Hw & Hd')|(e & [=] & _)]];
        [|red in Hr; unfold u32_max; cbn; lia|done].
      destruct (rep_rotated s1 s0 segs Hrep1 Hr Hw Hd') as [Hrep2 Hlog].
      destruct (WriteRecord_inv _ _ _ _ _ _ _ H Hrep2) as [(segs' & -> & Hrep' & Hl)|(e & -> & Href & Hfd' & _)];
        [by rewrite Hw|done|done|..]; rewrite Hw in *; cbn in *.
      * split; [done|]. exists segs'. by rewrite <- Hlog.
      * split; [|by left]. unfold refused in *. by rewrite <- Hlog.
    + rewrite (bind_ok (modify _) _ _ tt s1 eq_refl) in E.
      apply RotateFile_inv in E as [_ [([=] & _)|(e' & _ & Hex & Hf & Hs & Hend)]];
        [|red in Hr; unfold u32_max; cbn; lia|done].
      assert (Hd' : on_disk (disk s') segs []) by (eapply on_disk_except; [exact Hex|done..]).
      split; [exists segs, []; split_and!; [done..|apply prefix_nil]|].
      destruct Hend as [?|[Hw' Hdisk']]; [by left|right].
      destruct Hrep1 as [H1 H2 H3 H4 H5 H6 H7 H8 H9]. split; by rewrite ?Hw', ?Hdisk'.
  - rewrite (bind_ok (se_ret tt) _ _ tt s eq_refl) in H.
    destruct (WriteRecord_inv _ _ _ _ _ _ _ H Hrep) as [(segs' & -> & Hrep' & Hl)|(e & -> & Href & Hfd' & _)];
      [done..| |]; [by eauto|by auto].
Qed.

(** C4: durability.  An [Append] on an open log, whatever system call fails on
    the way: when it is acknowledged, the new record - and nothing else - has
    been added to the log at the next sequence, rotated or not; when it is
    refused, every earlier record is still on disk, followed by at most a
    prefix of the new one, and either the log is exactly as before or it has no
    descriptor any more and writes nothing further. *)
Theorem append_durable op pl now s segs r s' :
  Append op pl now s = (r, s') → wal_rep s segs →
  op_of_byte (op_byte op) = op → segment_range (current_file_number_ (wal s) + 1) →
  let rec := MkRecord (current_sequence_ (wal s) + 1) (u64 now) op pl in
  match r with
  | Ok seq => seq = sequence rec ∧ ∃ segs', wal_rep s' segs' ∧ log segs' = log segs ++ [rec]
  | Unexpected _ => refused s' segs rec ∧ (current_fd_ (wal s') = None ∨ wal_rep s' segs)
  end.
Proof. apply Append_inv. Qed.


(** ** Truncation *)

Definition droppable (upto cur : Z) (seg : segment) : Prop :=
  last_seq seg.2 ≤ upto ∧ 0 < last_seq seg.2 ∧ seg.1 ≠ cur.
#[local] Instance droppable_dec upto cur seg : Decision (droppable upto cur seg).
Proof. unfold droppable. apply _. Defined.

Definition above (upto : Z) (l : list WalRecord) : list WalRecord := filter (λ r, upto < sequence r) l.

Lemma above_app upto l1 l2 : above upto (l1 ++ l2) = above upto l1 ++ above upto l2.
Proof. apply filter_app. Qed.

Lemma above_nil upto l : (∀ r, r ∈ l → sequence r ≤ upto) → above upto l = [].
Proof. intros Hl. apply filter_none. intros r Hr%Hl. lia. Qed.

Lemma truncatable_droppable upto l f seg :
  file_of f seg → truncatable upto l f = bool_decide (droppable upto (current_file_number_ l) seg).
Proof.
  intros (_ & Hn & Hm). unfold truncatable, droppable. rewrite Hn, Hm.
  apply eq_bool_prop_intro. rewrite bool_decide_spec, !Is_true_true, !andb_true_iff, negb_true_iff.
  rewrite Z.leb_le, Z.ltb_lt, Z.eqb_neq. tauto.
Qed.

Lemma file_paths_ne seg segs :
  numbers_ok (seg :: segs) → ∀ x, x ∈ segs → MakeFilePath x.1 ≠ MakeFilePath seg.1.
Proof.
  destruct seg as [n recs]. intros (_ & _ & _ & Hne)%numbers_ok_cons x Hx.
  apply Hne, list_elem_of_fmap. by exists x.
Qed.

Lemma TruncateFiles_inv upto segs : ∀ fs s r s' prev,
  TruncateFiles upto fs s = (r, s') → Forall2 file_of fs segs → numbers_ok segs →
  Forall record_ok (log segs) → contiguous prev (log segs) →
  ∃ rem n failed segs', r = Ok (rem, n, failed) ∧ wal s' = wal s ∧
    Forall2 file_of rem segs' ∧ segs' `sublist_of` segs ∧
    above upto (log segs') = above upto (log segs) ∧
    (∀ seg, seg ∈ segs' → disk s' !! MakeFilePath seg.1 = disk s !! MakeFilePath seg.1) ∧
    (∀ seg, seg ∈ segs → seg ∈ segs' ∨ disk s' !! MakeFilePath seg.1 = None) ∧
    (∀ name, (∀ seg, seg ∈ segs → name ≠ MakeFilePath seg.1) → disk s' !! name = disk s !! name) ∧
    (quiet s → quiet s' ∧ failed = false ∧
      segs' = filter (λ seg, ¬ droppable upto (current_file_number_ (wal s)) seg) segs).
Proof.
  induction segs as [|[n recs] segs IH]; intros fs s r s' prev H HF Hn Hok Hc.
  - inversion HF; subst. injection H as <- <-. exists [], 0, false, []. split_and!; try done.
    intros seg Hin. by apply not_elem_of_nil in Hin.
  - inversion HF as [|f ? fs' ? Hf HF']; subst. rewrite log_cons in *.
    apply Forall_app in Hok as [Hok1 Hok2]. apply contiguous_app in Hc as [Hc1 Hc2].
    pose proof (file_paths_ne _ _ Hn) as Hne. cbn [fst] in Hne.
    apply numbers_ok_cons in Hn as (_ & Hn & _ & _).
    cbn [TruncateFiles] in H. erewrite (bind_ok se_get) in H by reflexivity.
    rewrite (truncatable_droppable _ _ _ _ Hf) in H. rewrite filter_cons.
    case_bool_decide as Hdrop.
    + assert (Habove : above upto recs = []).
      { apply above_nil. intros x Hx. destruct Hdrop as [Hle _]. cbn [snd] in Hle.
        pose proof (last_seq_upper _ _ x Hc1 (records_positive _ Hok1) Hx). lia. }
      rewrite decide_False by tauto. repeat inv_step.
      * destruct (IH _ _ _ _ _ E HF' Hn Hok2 Hc2)
          as (rem & k & failed & segs' & [= ->] & Hw' & HF2 & Hsub & Hab & Hk & Hgone & Hfr & Hquiet).
        destruct Hf as (Hp & Hf). rewrite Hp in *. destruct v; injection H as <- <-.
        -- exists rem, (k + 1), failed, segs'. split_and!; try done.
           ++ congruence.
           ++ by apply sublist_cons.
           ++ by rewrite above_app, Habove.
           ++ intros seg Hseg. rewrite Hk, Hd by done. apply lookup_delete_ne.
              intros Ex. apply (Hne seg); [by eapply (sublist_subseteq segs' segs)|done].
           ++ intros seg [->|Hseg]%elem_of_cons; [right|by apply Hgone].
              rewrite Hfr, Hd; [apply lookup_delete_eq|]. intros x Hx Ex. by apply (Hne x).
           ++ intros name Hname. rewrite Hfr, Hd by (intros; apply Hname; by right).
              apply lookup_delete_ne. intros Ex. apply (Hname (n, recs)); [left|done].
           ++ intros Hqs. destruct (Hq Hqs) as [_ Hq1]. rewrite <- Hw. by apply Hquiet.
        -- exists (f :: rem), k, true, ((n, recs) :: segs'). split_and!; try done.
           ++ congruence.
           ++ by constructor.
           ++ by apply sublist_skip.
           ++ by rewrite log_cons, !above_app, Hab.
           ++ intros seg [->|Hseg]%elem_of_cons; [|rewrite Hk by done; by rewrite Hd].
              cbn [fst]. rewrite Hfr, Hd; [done|]. intros x Hx Ex. by apply (Hne x).
           ++ intros seg [->|Hseg]%elem_of_cons; [left; left|].
              destruct (Hgone seg Hseg); [left; by right|by right].
           ++ intros name Hname. rewrite Hfr, Hd by (intros; apply Hname; by right). done.
           ++ intros Hqs. by destruct (Hq Hqs).
      * destruct (IH _ _ _ _ _ E HF' Hn Hok2 Hc2) as (? & ? & ? & ? & [=] & _).
    + rewrite decide_True by done. inv_step.
      * destruct (IH _ _ _ _ _ E HF' Hn Hok2 Hc2)
          as (rem & k & failed & segs' & [= ->] & Hw' & HF2 & Hsub & Hab & Hk & Hgone & Hfr & Hquiet).
        injection H as <- <-. exists (f :: rem), k, failed, ((n, recs) :: segs'). split_and!; try done.
        -- by constructor.
        -- by apply sublist_skip.
        -- by rewrite log_cons, !above_app, Hab.
        -- intros seg [->|Hseg]%elem_of_cons; [|by apply Hk].
           apply Hfr. intros x Hx Ex. by apply (Hne x).
        -- intros seg [->|Hseg]%elem_of_cons; [left; left|].
           destruct (Hgone seg Hseg); [left; by right|by right].
        -- intros name Hname. apply Hfr. intros; apply Hname; by right.
        -- intros Hqs. destruct (Hquiet Hqs) as (? & ? & ->). done.
      * destruct (IH _ _ _ _ _ E HF' Hn Hok2 Hc2) as (? & ? & ? & ? & [=] & _).
Qed.


Lemma numbers_ok_sublist segs' segs : segs' `sublist_of` segs → numbers_ok segs → numbers_ok segs'.
Proof.
  intros Hsub [HS HF]. split.
  - clear HF. induction Hsub as [|seg l1 l2 Hsub IH|seg l1 l2 Hsub IH]; [done|..];
      cbn [fmap list_fmap] in *; apply StronglySorted_inv in HS as [HS Hlt]; [|by apply IH].
    constructor; [by apply IH|]. rewrite Forall_forall in *. intros x (y & -> & Hy)%list_elem_of_fmap.
    apply Hlt, list_elem_of_fmap. exists y. split; [done|]. by eapply (sublist_subseteq l1 l2).
  - rewrite Forall_forall in *. intros x (y & -> & Hy)%list_elem_of_fmap.
    apply HF, list_elem_of_fmap. exists y. split; [done|]. by eapply (sublist_subseteq segs' segs).
Qed.

Lemma log_sublist_Forall (P : WalRecord → Prop) segs' segs :
  segs' `sublist_of` segs → Forall P (log segs) → Forall P (log segs').
Proof.
  induction 1 as [|[n recs] l1 l2 Hsub IH|[n recs] l1 l2 Hsub IH]; [done|..];
    rewrite !log_cons, ?Forall_app; tauto.
Qed.

(** Dropping droppable segments drops a prefix of the log. *)
Lemma filter_keeps_suffix upto cur segs : ∀ prev,
  numbers_ok segs → Forall record_ok (log segs) → contiguous prev (log segs) →
  (∀ n recs, (n, recs) ∈ segs → n ≤ cur) →
  ∃ dropped, log segs = dropped ++ log (filter (λ seg, ¬ droppable upto cur seg) segs).
Proof.
  induction segs as [|[n recs] segs IH]; intros prev Hn Hok Hc Hcur; [by exists []|].
  rewrite log_cons in *. pose proof Hok as Hok'. apply Forall_app in Hok' as [Hok1 Hok2].
  apply contiguous_app in Hc as Hc'. destruct Hc' as [Hc1 Hc2].
  apply numbers_ok_cons in Hn as (_ & Hn & Hlt & _). rewrite filter_cons.
  assert (IH' : ∃ dropped, log segs = dropped ++ log (filter (λ seg, ¬ droppable upto cur seg) segs)).
  { eapply IH; [done..|]. intros m rs Hm. apply (Hcur m rs). by right. }
  destruct IH' as [dropped Hdropped]. case_decide as Hd.
  - rewrite log_cons.
    destruct (decide (recs = [])) as [->|Hne]; [by exists dropped|].
    assert (filter (λ seg, ¬ droppable upto cur seg) segs = segs) as ->; [|by exists []].
    apply filter_id. intros [m rs] Hm [Hle [Hpos Hmc]]. cbn [fst snd] in *. apply Hd.
    assert (n < m). { rewrite Forall_forall in Hlt. apply Hlt, list_elem_of_fmap. by exists (m, rs). }
    pose proof (Hcur m rs ltac:(by right)). split_and!; cbn [fst snd].
    + assert (last_seq recs < last_seq rs); [|lia].
      destruct recs as [|x recs _] using rev_ind; [done|]. rewrite last_seq_snoc.
      destruct rs as [|y rs _] using rev_ind; [by change (last_seq []) with 0 in Hpos|].
      rewrite last_seq_snoc. unfold prev_after in Hc2. rewrite last_snoc in Hc2.
      apply (contiguous_lower _ (log segs)); [done|]. unfold log. apply list_elem_of_bind.
      exists (m, rs ++ [y]). split; [cbn [snd]; apply elem_of_app; right; left|done].
    + pose proof (last_seq_zero recs Hok1). pose proof (last_seq_nonneg recs Hok1).
      assert (last_seq recs ≠ 0) by tauto. lia.
    + lia.
  - exists (recs ++ dropped). by rewrite Hdropped, (assoc_L (++)).
Qed.

(** Truncation.  Whatever call fails, [Truncate] keeps on disk every
    segment that has a record above the given sequence and the current one,
    and [files_] lists the segments that are left.  Without failures it
    succeeds, the log stays well-formed and loses a prefix of records that are
    all covered. *)
Lemma truncate_keeps upto s segs r s' :
  Truncate upto s = (r, s') → wal_rep s segs →
  ∃ segs', Forall2 file_of (files_ (wal s')) segs' ∧ segs' `sublist_of` segs ∧
    on_disk (disk s') segs' [] ∧ above upto (log segs') = above upto (log segs) ∧
    (quiet s → r = Ok tt ∧ quiet s' ∧ wal_rep s' segs' ∧ ∃ dropped, log segs = dropped ++ log segs').
Proof.
  intros H Hrep. unfold Truncate in H. erewrite (bind_ok se_get) in H by reflexivity.
  pose proof Hrep as [Hn Hd Hns Hok Hc HF (init & n & recs & Hsegs & Hfd & Hnum & Hsz) [Hseq Hlast] Hopen].
  destruct (TruncateFiles upto (files_ (wal s)) s) as [rt s1] eqn:E.
  destruct (TruncateFiles_inv _ _ _ _ _ _ _ E HF Hn Hok Hc)
    as (rem & k & failed & segs' & -> & Hw & HF' & Hsub & Hab & Hk & Hgone & Hfr & Hquiet).
  rewrite (bind_ok _ _ _ _ _ E) in H. cbv beta iota in H. erewrite bind_ok in H by reflexivity.
  set (s2 := on_wal (set_files rem) s1) in H.
  assert (Hs' : wal s' = wal s2 ∧ disk s' = disk s2 ∧ (quiet s2 → quiet s' ∧ (failed = false → r = Ok tt))).
  { destruct (0 <? k); run_calls; unfold disk in *; split_and!; try congruence; try done;
      intros Hqs; quiet_tac; done. }
  destruct Hs' as (Hw' & Hd' & Hq').
  assert (Hdisk : on_disk (disk s') segs' []).
  { apply on_disk_nil. intros m rs Hm. rewrite Hd'. unfold s2. rewrite disk_on_wal.
    specialize (Hk (m, rs) Hm). cbn [fst] in Hk. rewrite Hk. apply (proj1 (on_disk_nil (disk s) segs) Hd).
    by eapply (sublist_subseteq segs' segs). }
  assert (Hfiles : Forall2 file_of (files_ (wal s')) segs') by (by rewrite Hw').
  exists segs'. split_and!; [done..|]. intros Hqs.
  destruct (Hquiet Hqs) as (Hq1 & -> & ->). destruct (Hq' Hq1) as [Hq2 Hr].
  assert (Hcur : ∀ m rs, (m, rs) ∈ segs → m ≤ current_file_number_ (wal s)).
  { subst segs. intros m rs [Hm|Hm]%elem_of_app; [|apply list_elem_of_singleton in Hm; simplify_eq; lia].
    destruct Hn as [HS _]. rewrite fmap_app in HS.
    assert (m < n); [|lia]. apply (StronglySorted_app_1_elem_of _ _ _ m n HS); [|left].
    apply list_elem_of_fmap. by exists (m, rs). }
  destruct (filter_keeps_suffix upto (current_file_number_ (wal s)) segs None) as [dropped Hdropped];
    [done..|].
  split_and!; [by apply Hr|done| |by exists dropped].
  assert (Hwal : wal s' = set_files rem (wal s)) by (rewrite Hw'; unfold s2; by rewrite wal_on_wal, Hw).
  split; [by eapply numbers_ok_sublist|done| |by eapply log_sublist_Forall| |done| | |].
  - intros name m Hname Hin.
    assert (Hin' : is_Some (disk s !! name)).
    { destruct (decide (name ∈ (λ seg : segment, MakeFilePath seg.1) <$> segs)) as [Hf|Hf].
      - apply list_elem_of_fmap in Hf as ([m' rs] & -> & Hf). rewrite on_disk_nil in Hd. cbn [fst]. by rewrite (Hd _ _ Hf).
      - rewrite <- Hfr; [by rewrite Hd' in Hin|]. intros seg Hseg ->. apply Hf, list_elem_of_fmap. eauto. }
    pose proof (Hns _ _ Hname Hin') as ([m' rs] & Em & Hm)%list_elem_of_fmap. cbn [fst] in Em. subst m'.
    apply segment_number_inv in Hname as [-> _].
    destruct (Hgone _ Hm) as [Hm'|Hnone]; [apply list_elem_of_fmap; by exists (m, rs)|].
    cbn [fst] in Hnone. rewrite Hd' in Hin. unfold s2 in Hin. rewrite disk_on_wal, Hnone in Hin.
    by destruct Hin.
  - rewrite Hdropped in Hc. apply contiguous_app in Hc as [_ Hc]. by eapply contiguous_weaken.
  - rewrite Hwal. cbn. subst segs. rewrite filter_app, filter_cons_True, filter_nil.
    + by exists (filter (λ seg, ¬ droppable upto (current_file_number_ (wal s)) seg) init), n, recs.
    + unfold droppable. cbn [fst]. lia.
  - rewrite Hwal. cbn. split; [done|]. destruct Hlast as [Hnil|Hlast]; rewrite Hdropped in *.
    + left. by apply app_nil in Hnil as [_ ?].
    + destruct (log (filter _ segs)) as [|x l _] using rev_ind; [by left|right].
      by rewrite (assoc_L (++)), last_seq_snoc in *.
  - rewrite Hwal. done.
Qed.

End theorems.
(** ** Framing *)

(** A record of the log survives its encoding: reading a frame at its first
    byte yields its body and the bytes that follow, decoding the body yields
    the record, and reading at a strict prefix of it - a torn write - is
    recognised as torn, never as a record. *)
Lemma record_roundtrip {zlib : Zlib} r rest :
  record_ok r →
  read_frame (encode_record r ++ rest) [] = (FRecord (encode_body r) rest, []) ∧
  decode_body (encode_body r) = r ∧
  ∀ t, t `prefix_of` encode_record r → t ≠ encode_record r →
    (read_frame t []).1 ∈ [FEnd; FTornHeader; FTornBody].
Proof.
  intros Hr. split_and!; [by apply read_frame_record|by apply decode_encode_body|].
  intros t Hp Hne. destruct (read_frame_torn t) as [[-> _]|[[-> | ->] _]]; [by exists r|set_solver..].
Qed.

(** ** Concrete logs *)

Definition record1 : WalRecord := MkRecord 1 7 kVecSet [Byte.x61].
Definition record2 : WalRecord := MkRecord 2 9 kEventAdd [Byte.x62; Byte.x63].

Lemma record1_ok : record_ok record1.
Proof. by split. Qed.
Lemma record2_ok : record_ok record2.
Proof. by split. Qed.

Definition test_config : WalConfig := MkWalConfig 1000 true 0.

Section concrete.
#[local] Existing Instance tree_order.
#[local] Existing Instance zlib_ieee.

(** A crash in the middle of the second record. *)
Definition crashed_state : State :=
  MkState new_wal (MkWorld {[MakeFilePath 1 := seg_bytes [record1] ++ take 11 (encode_record record2)]} []).

Definition two_segments : State :=
  MkState (MkWal test_config (Some (MakeFilePath 2)) 1 8 2
             [MkWalFile (MakeFilePath 1) 1 1 1 34; MkWalFile (MakeFilePath 2) 2 2 0 8] true false false)
    (MkWorld {[MakeFilePath 1 := seg_bytes [record1]; MakeFilePath 2 := seg_bytes []]} []).

Lemma names_of_two (f : gmap string (list byte)) n1 n2 bs1 bs2 :
  segment_range n1 → segment_range n2 → f = {[MakeFilePath n1 := bs1; MakeFilePath n2 := bs2]} →
  no_stray f [(n1, []); (n2, [])].
Proof.
  intros H1 H2 -> name n Hname [bs Hbs]. cbn.
  apply segment_number_inv in Hname as [-> Hn].
  rewrite lookup_insert_Some, lookup_singleton_Some in Hbs.
  destruct Hbs as [[E _]|[_ [E _]]]; apply MakeFilePath_inj in E; try done; subst; set_solver.
Qed.

Lemma two_segments_rep : wal_rep two_segments [(1, [record1]); (2, [])].
Proof.
  split.
  - split; cbn [fmap list_fmap fst]; repeat (constructor; [|]); by repeat constructor.
  - split; [vm_compute; reflexivity|]. split; [vm_compute; reflexivity|done].
  - pose proof (names_of_two (disk two_segments) 1 2 _ _ ltac:(done) ltac:(done) eq_refl) as H.
    intros name n Hn Hs. exact (H name n Hn Hs).
  - repeat constructor; apply record1_ok.
  - done.
  - repeat constructor.
  - by exists [(1, [record1])], 2, [].
  - split; [done|by right].
  - done.
Qed.

Lemma record_roundtrip_witness :
  read_frame (encode_record record2 ++ [Byte.x00]) [] = (FRecord (encode_body record2) [Byte.x00], []) ∧
  length (encode_record record2) = 27%nat.
Proof. split; [exact (proj1 (record_roundtrip record2 [Byte.x00] record2_ok))|reflexivity]. Defined.

Lemma crashed_state_crashed :
  crashed (disk crashed_state) [(1, [record1])] (take 11 (encode_record record2)).
Proof.
  split; try done.
  - by repeat constructor.
  - by repeat constructor.
  - exists record2. split_and!; [apply record2_ok|apply prefix_take|vm_compute; congruence].
  - intros name n [-> Hn]%segment_number_inv [bs Hbs].
    unfold disk in Hbs. cbn [world crashed_state w_files] in Hbs.
    apply lookup_singleton_Some in Hbs as [E _].
    apply MakeFilePath_inj in E; [|done..]. subst. left.
  - repeat constructor; apply record1_ok.
Qed.

Lemma open_recovers_witness :
  length (contents (MakeFilePath 1) crashed_state) = 45%nat ∧
  ∃ s' n, Open test_config (Ok tt) crashed_state = (Ok tt, s') ∧ quiet s' ∧
    wal_rep s' ([(1, [record1])] ++ [(n, [])]) ∧ log ([(1, [record1])] ++ [(n, [])]) = [record1] ∧
    current_sequence_ (wal s') = 1.
Proof.
  split; [reflexivity|].
  exact (open_recovers test_config crashed_state [(1, [record1])] (take 11 (encode_record record2))
    eq_refl crashed_state_crashed).
Defined.

Lemma append_durable_witness :
  ∃ s', Append kVecSet [Byte.x61] 7 two_segments = (Ok 2, s') ∧
    ∃ segs', wal_rep s' segs' ∧ log segs' = [record1; MkRecord 2 7 kVecSet [Byte.x61]].
Proof.
  destruct (Append kVecSet [Byte.x61] 7 two_segments) as [r s'] eqn:E.
  pose proof (append_durable kVecSet [Byte.x61] 7 two_segments [(1, [record1]); (2, [])] r s' E
    two_segments_rep eq_refl ltac:(done)) as H.
  assert (r = Ok 2) as -> by (change r with (r, s').1; rewrite <- E; vm_compute; reflexivity).
  exists s'. split; [reflexivity|]. exact (proj2 H).
Defined.

Lemma replay_delivers_witness :
  ReplayValidated (λ r acc, (Ok tt, acc ++ [sequence r])) 1 two_segments [] = (Ok 1, [1], two_segments).
Proof.
  rewrite (replay_delivers (λ r acc, (Ok tt, acc ++ [sequence r])) 1 two_segments
    [(1, [record1]); (2, [])] [] eq_refl two_segments_rep).
  vm_compute. reflexivity.
Defined.

Lemma truncate_keeps_witness :
  ∃ s', Truncate 1 two_segments = (Ok tt, s') ∧ disk s' = {[MakeFilePath 2 := seg_bytes []]} ∧
    ∃ segs', wal_rep s' segs'.
Proof.
  destruct (Truncate 1 two_segments) as [r s'] eqn:E. exists s'.
  destruct (truncate_keeps 1 two_segments [(1, [record1]); (2, [])] r s' E two_segments_rep)
    as (segs' & _ & _ & _ & _ & H). destruct (H eq_refl) as (-> & _ & Hrep & _).
  split; [reflexivity|]. split; [|by exists segs'].
  change s' with (Ok tt, s').2. rewrite <- E. vm_compute. reflexivity.
Defined.

(** ** Corner cases *)

(** Restart: everything in memory is lost, the directory stays. *)
Definition restart (cfg : WalConfig) : SE State unit :=
  se_put (λ s, MkState new_wal (world s)) ;! Open cfg (Ok tt).

Definition collect : WalRecord → list Z → Expected unit * list Z :=
  λ r acc, (Ok tt, acc ++ [sequence r]).

Definition empty_state : State := MkState new_wal (MkWorld ∅ []).

(** Sequence numbers are reused after a checkpoint.  Two records are
    written, the server restarts, a snapshot at sequence 2 truncates the log,
    the server restarts again and a record is acknowledged: it gets sequence 1,
    and the replay of the next start, which begins at 3, skips it without an
    error. *)
Lemma acknowledged_record_skipped :
  let run :=
    restart test_config ;!
    let! _ := Append kVecSet [Byte.x61] 1 in
    let! _ := Append kVecSet [Byte.x62] 2 in
    restart test_config ;!
    Truncate 2 ;!
    restart test_config ;!
    let! q := Append kVecSet [Byte.x63] 3 in
    restart test_config ;! se_ret q in
  let '(r, s) := run empty_state in
  r = Ok 1 ∧ fst (ReplayValidated collect 3 s []) = (Ok 0, []) ∧
  fst (ReplayValidated collect 0 s []) = (Ok 1, [1]).
Proof. vm_compute. auto. Qed.

(** A crash or a failed write while a segment's header is being written
    leaves a file that is too short; the next [Open] fails on it. *)
Theorem short_header_blocks_open :
  let '(r1, s1) := (restart test_config ;! Append kVecSet [Byte.x61] 1) empty_state in
  let s2 := MkState (wal s1) (MkWorld (disk s1) [SysOk; SysOk; SysOk; SysShort 3; SysFail]) in
  let '(r2, s3) := RotateFile s2 in
  let '(r4, _) := restart test_config (MkState new_wal (MkWorld (disk s3) [])) in
  r1 = Ok 1 ∧ r2 = throw kWalWriteError "Failed to write WAL file header" ∧
  r4 = throw kWalReadError "Failed to read WAL file header".
Proof. vm_compute. auto. Qed.

(** [Truncate] goes on after an unlink that fails; deleting a later segment
    then leaves a gap, and the next [Open] fails. *)
Theorem failed_unlink_leaves_gap :
  let cfg := MkWalConfig 30 true 0 in
  let '(r1, s1) := (restart cfg ;!
    let! _ := Append kVecSet [Byte.x61] 1 in
    let! _ := Append kVecSet [Byte.x62] 2 in
    Append kVecSet [Byte.x63] 3) empty_state in
  let '(r2, s2) := Truncate 2 (MkState (wal s1) (MkWorld (disk s1) [SysFail])) in
  let '(r3, _) := restart cfg s2 in
  r1 = Ok 3 ∧ r2 = throw kWalTruncateFailed "Failed to unlink WAL segment" ∧
  r3 = throw kWalCorrupted "WAL sequence is not contiguous".
Proof. vm_compute. auto. Qed.

(** From segment 1000000 on the name has seven digits, the scan ignores the
    file, and a record acknowledged in it is not in the log after a restart. *)
Theorem seven_digit_segment_ignored :
  let s0 := MkState new_wal (MkWorld {[MakeFilePath 999999 := file_header]} []) in
  let '(r1, s1) := (restart test_config ;! Append kVecSet [Byte.x61] 1) s0 in
  let '(r2, s2) := restart test_config s1 in
  r1 = Ok 1 ∧ r2 = Ok tt ∧ current_sequence_ (wal s2) = 0 ∧
  is_Some (disk s2 !! MakeFilePath 1000000) ∧
  fst (ReplayValidated collect 0 s2 []) = (Ok 0, []).
Proof. vm_compute. split_and!; eauto. Qed.

End concrete.
