(* ===== verification/Metadata.v ===== *)
(** * Metadata: [vectors::MetadataStore], [vectors::MetadataFilter]
    (src/vectors/metadata.h, metadata_filter.h, .cpp, metadata_store.h, .cpp)

    Typed metadata of items, the comparison of metadata values, filter
    conditions and the store keyed by item id. *)

From S2P Require Import Prelude Floats.
#[local] Open Scope Z_scope.

(** ** Values: [std::variant<std::string, int64_t, double, bool>] *)

Inductive MetadataValue : Type :=
| MString (s : string)
| MInt64 (z : Z)
| MDouble (bits : Z)
| MBool (b : bool).

#[export] Instance MetadataValue_eq_dec : EqDecision MetadataValue.
Proof. solve_decision. Defined.

Abbreviation Metadata := (gmap string MetadataValue).

(** [-1], [0], [1], or [-2]: not comparable. *)
Definition three_way (lt gt : bool) : Z := if lt then -1 else if gt then 1 else 0.

Definition CompareValues (lhs rhs : MetadataValue) : Z :=
  match lhs, rhs with
  | MInt64 l, MDouble r => let l := f64_of_Z l in three_way (f64_ltb l r) (f64_ltb r l)
  | MDouble l, MInt64 r => let r := f64_of_Z r in three_way (f64_ltb l r) (f64_ltb r l)
  | MString l, MString r => three_way (String.ltb l r) (String.ltb r l)
  | MInt64 l, MInt64 r => three_way (l <? r) (r <? l)
  | MDouble l, MDouble r => three_way (f64_ltb l r) (f64_ltb r l)
  | MBool l, MBool r => three_way (negb l && r) (negb r && l)
  | _, _ => -2
  end.

(** ** Conditions and filters *)

Inductive FilterOp : Type := kEq | kNe | kGt | kGe | kLt | kLe | kIn.

#[export] Instance FilterOp_eq_dec : EqDecision FilterOp.
Proof. solve_decision. Defined.

Record FilterCondition : Type := MkCondition {
  field : string;
  op : FilterOp;
  value : MetadataValue;
  values : list MetadataValue
}.

Definition ConditionMatch (c : FilterCondition) (meta_value : MetadataValue) : bool :=
  let cmp := CompareValues meta_value (value c) in
  match op c with
  | kEq => cmp =? 0
  | kNe => negb (cmp =? 0) && negb (cmp =? -2)
  | kGt => cmp =? 1
  | kGe => 0 <=? cmp
  | kLt => cmp =? -1
  | kLe => (cmp =? 0) || (cmp =? -1)
  | kIn => existsb (λ v, CompareValues meta_value v =? 0) (values c)
  end.

Abbreviation MetadataFilter := (list FilterCondition).

Definition FilterMatch (filter : MetadataFilter) (meta : Metadata) : bool :=
  forallb (λ c,
    match meta !! field c with
    | None => match op c with kNe => true | _ => false end
    | Some v => ConditionMatch c v
    end) filter.

Definition FilterEmpty (filter : MetadataFilter) : bool := bool_decide (length filter = 0%nat).

(** ** The store *)

Abbreviation MetadataStore := (gmap string Metadata).

Definition MetaSet (id : string) (meta : Metadata) (s : MetadataStore) : MetadataStore := <[id := meta]> s.
Definition MetaGet (id : string) (s : MetadataStore) : option Metadata := s !! id.
Definition MetaDelete (id : string) (s : MetadataStore) : MetadataStore := delete id s.
Definition MetaClear (s : MetadataStore) : MetadataStore := ∅.
Definition MetaSize (s : MetadataStore) : Z := u32 (Z.of_nat (size s)).
Definition MetaSwapState (a b : MetadataStore) : MetadataStore * MetadataStore := (b, a).

Definition entry_matches (filter : MetadataFilter) (s : MetadataStore) (id : string) : bool :=
  match s !! id with None => false | Some meta => FilterMatch filter meta end.

Definition Matches (id : string) (filter : MetadataFilter) (s : MetadataStore) : bool :=
  if FilterEmpty filter then true else entry_matches filter s id.

Section store.
Context {order : IterOrder}.

Definition Filter (filter : MetadataFilter) (candidates : list string) (s : MetadataStore) : list string :=
  if FilterEmpty filter then
    if bool_decide (candidates = []) then (iter_order s).*1 else candidates
  else
    if bool_decide (candidates = [])
    then (base.filter (λ p, FilterMatch filter p.2 = true) (iter_order s)).*1
    else base.filter (λ id, entry_matches filter s id = true) candidates.

(** [Filter] and [Matches] agree: with candidates, the result is the
    sublist of candidates that match, in order; without, it is exactly the set
    of stored ids that match, without repetition.  (An empty filter matches
    everything, stored or not, as [Matches] does.) *)
Lemma filter_matches filter candidates s :
  Filter filter candidates s =
    (if bool_decide (candidates = []) then Filter filter [] s
     else base.filter (λ id, Matches id filter s = true) candidates) ∧
  NoDup (Filter filter [] s) ∧
  ∀ id, id ∈ Filter filter [] s ↔ is_Some (s !! id) ∧ Matches id filter s = true.
Proof.
  unfold Filter, Matches. rewrite !(bool_decide_eq_true_2 ([] = [])) by done.
  split; [|split].
  - case_bool_decide; [done|]. destruct (FilterEmpty filter); [|done].
    symmetry. by apply filter_id.
  - destruct (FilterEmpty filter); [apply NoDup_fst_iter_order|].
    eapply sublist_NoDup; [apply (NoDup_fst_iter_order s)|]. apply fmap_sublist, sublist_filter.
  - intros id. destruct (FilterEmpty filter).
    + rewrite list_elem_of_fmap. split.
      * intros ([k m] & -> & Hk%elem_of_iter_order). simpl. rewrite Hk. split; [by eexists|done].
      * intros [[m Hm] _]. exists (id, m). by rewrite elem_of_iter_order.
    + rewrite list_elem_of_fmap. unfold entry_matches. setoid_rewrite list_elem_of_filter. split.
      * intros ([k m] & -> & Hm & Hk%elem_of_iter_order). simpl in *. rewrite Hk. split; [by eexists|done].
      * intros [[m Hm] Hf]. rewrite Hm in Hf. exists (id, m). by rewrite elem_of_iter_order.
Qed.
End store.

(** ** The comparison operators *)

Definition not_nan64 (b : Z) : Prop := is_nan (f64 b) = false.

(** Two values the code can compare: of one type or both numeric, not NaN. *)
Definition comparable (l r : MetadataValue) : Prop :=
  match l, r with
  | MString _, MString _ | MInt64 _, MInt64 _ | MBool _, MBool _ => True
  | MDouble a, MDouble b => not_nan64 a ∧ not_nan64 b
  | MInt64 a, MDouble b => not_nan64 (f64_of_Z a) ∧ not_nan64 b
  | MDouble a, MInt64 b => not_nan64 a ∧ not_nan64 (f64_of_Z b)
  | _, _ => False
  end.

Lemma f64_ltb_rank a b :
  not_nan64 a → not_nan64 b → f64_ltb a b = true ↔ rank_lt (rank (f64 a)) (rank (f64 b)).
Proof. intros. by apply SFltb_rank. Qed.

Lemma f64_ltb_asym a b : not_nan64 a → not_nan64 b → f64_ltb a b = true → f64_ltb b a = false.
Proof.
  intros Ha Hb. rewrite <- not_true_iff_false, !f64_ltb_rank by done. unfold rank_lt. lia.
Qed.

Lemma std_ltb_asym a b : String.ltb a b = true → String.ltb b a = false.
Proof.
  unfold String.ltb. rewrite (String.compare_antisym b a). by destruct (String.compare a b).
Qed.

Lemma three_way_flip lt gt : (lt = true → gt = false) → three_way gt lt = - three_way lt gt.
Proof. destruct lt, gt; simpl; intros H; try done. by specialize (H eq_refl). Qed.

Definition cond (o : FilterOp) (v : MetadataValue) : FilterCondition := MkCondition "" o v [].

(** On comparable values the operators are the comparisons of one order:
    exactly one of [<], [=], [>] holds, [!=], [>=] and [<=] are the negations of
    [=], [<] and [>], and exchanging the operands exchanges [<] and [>]. *)
Lemma operators_trichotomy l r :
  comparable l r →
  let m o := ConditionMatch (cond o r) l in
  let m' o := ConditionMatch (cond o l) r in
  (CompareValues l r = -1 ∨ CompareValues l r = 0 ∨ CompareValues l r = 1) ∧
  (m kLt = true ↔ CompareValues l r = -1) ∧ (m kEq = true ↔ CompareValues l r = 0) ∧
  (m kGt = true ↔ CompareValues l r = 1) ∧
  m kNe = negb (m kEq) ∧ m kGe = negb (m kLt) ∧ m kLe = negb (m kGt) ∧
  m' kEq = m kEq ∧ m' kLt = m kGt ∧ m' kGt = m kLt.
Proof.
  intros Hc. cbv zeta.
  assert (H3 : ∀ lt gt, three_way lt gt = -1 ∨ three_way lt gt = 0 ∨ three_way lt gt = 1)
    by (intros [] []; simpl; auto).
  assert (Hflip : CompareValues r l = - CompareValues l r ∧
    (CompareValues l r = -1 ∨ CompareValues l r = 0 ∨ CompareValues l r = 1)).
  { destruct l as [l|l|l|l], r as [r|r|r|r]; simpl in Hc; try done; cbn [CompareValues];
      (split; [apply three_way_flip|apply H3]); try destruct Hc;
      auto using f64_ltb_asym, std_ltb_asym.
    - rewrite Z.ltb_lt, Z.ltb_ge. lia.
    - by destruct l, r. }
  destruct Hflip as [Hflip Hcases]. unfold ConditionMatch. cbn [cond op value]. rewrite Hflip.
  destruct Hcases as [-> | [-> | ->]]; vm_compute; intuition congruence.
Qed.

Lemma operators_trichotomy_witness :
  ConditionMatch (cond kLt (MDouble (f64_of_Z 3))) (MInt64 2) = true ∧
  ConditionMatch (cond kNe (MDouble (f64_of_Z 3))) (MInt64 2) =
    negb (ConditionMatch (cond kEq (MDouble (f64_of_Z 3))) (MInt64 2)).
Proof.
  split; [vm_compute; reflexivity|].
  pose proof (operators_trichotomy (MInt64 2) (MDouble (f64_of_Z 3))
    (conj eq_refl eq_refl)) as (_ & _ & _ & _ & H & _). exact H.
Defined.

(** A NaN compares equal to every number: an item whose metadata value is
    NaN satisfies [=], [<=] and [>=] against any number. *)
Theorem nan_equals_everything (b : Z) :
  is_nan (f64 b) = true → ∀ r,
  ConditionMatch (cond kEq (MDouble r)) (MDouble b) = true ∧
  ConditionMatch (cond kGe (MDouble r)) (MDouble b) = true ∧
  ConditionMatch (cond kEq (MInt64 r)) (MDouble b) = true.
Proof.
  intros Hb r. assert (H : ∀ x, f64_ltb b x = false ∧ f64_ltb x b = false).
  { intros x. unfold f64_ltb, SFltb. destruct (f64 b); try done. by destruct (f64 x). }
  unfold ConditionMatch. cbn [cond op value CompareValues].
  by rewrite !(proj1 (H _)), !(proj2 (H _)).
Qed.

Lemma nan_equals_everything_witness :
  ConditionMatch (cond kEq (MInt64 5)) (MDouble 0x7FF8000000000000) = true.
Proof. apply (nan_equals_everything 0x7FF8000000000000 ltac:(reflexivity)). Defined.
