(* ===== verification/FilterParser.v ===== *)
(** * [server::ParseSimpleFilter] (src/server/filter_parser.cpp)

    The textual filter language [field op value, ...] of SIM/SIMV filters and
    METASET, parsed to conditions.  [strtod] is a parameter (its result when
    it consumes the whole C string without [ERANGE]); [strtoll] is defined. *)

From Stdlib Require Import Strings.Ascii.
From S2P Require Import Prelude StringLib Floats Metadata.
#[local] Open Scope Z_scope.

(** ** Values *)

Class Strtod : Type := { strtod : string → option Z }.

Definition isspace (c : Ascii.ascii) : bool :=
  let n := Z.of_N (Ascii.N_of_ascii c) in (n =? 32) || ((9 <=? n) && (n <=? 13)).

Definition digit_value (c : Ascii.ascii) : option Z :=
  let n := Z.of_N (Ascii.N_of_ascii c) in if (48 <=? n) && (n <=? 57) then Some (n - 48) else None.

(** [c_str()]: up to the first NUL. *)
Fixpoint c_str (s : string) : string :=
  match s with
  | "" => ""
  | String c s' => if Ascii.eqb c Ascii.zero then "" else String c (c_str s')
  end.

Fixpoint skip_space (s : string) : string :=
  match s with String c s' => if isspace c then skip_space s' else s | "" => "" end.

(** All of [s] as decimal digits. *)
Fixpoint digits (acc : Z) (s : string) : option Z :=
  match s with
  | "" => Some acc
  | String c s' => d ← digit_value c; digits (10 * acc + d) s'
  end.

Definition unsigned_digits (s : string) : option Z :=
  match s with "" => None | _ => digits 0 s end.

(** [strtoll(s, &end, 10)] with [*end == 0] and [errno == 0]. *)
Definition strtoll (s : string) : option Z :=
  let s := skip_space (c_str s) in
  z ← (match s with
       | String "-"%char s' => Z.opp <$> unsigned_digits s'
       | String "+"%char s' => unsigned_digits s'
       | _ => unsigned_digits s
       end);
  if bool_decide (in_s 64 z) then Some z else None.

Section parse.
Context {libc : Strtod}.

Definition ParseValue (val : string) : MetadataValue :=
  if String.eqb val "true" then MBool true
  else if String.eqb val "false" then MBool false
  else match strtoll val with
       | Some z => MInt64 z
       | None => match strtod val with
                 | Some d => MDouble d
                 | None => MString val
                 end
       end.

(** ** Conditions *)

Definition kOperators : list (string * FilterOp) :=
  [("!=", kNe); (">=", kGe); ("<=", kLe); ("=", kEq); (">", kGt); ("<", kLt); (":", kEq)].

(** The candidate replaces the selection when it is found earlier, or at the
    same place and is longer. *)
Definition try_operator (text : string) (sel : option (nat * (string * FilterOp)))
    (cand : string * FilterOp) : option (nat * (string * FilterOp)) :=
  match find_sub cand.1 text with
  | None => sel
  | Some pos =>
      match sel with
      | None => Some (pos, cand)
      | Some (p, c) =>
          if (pos <? p)%nat || ((pos =? p)%nat && (String.length c.1 <? String.length cand.1)%nat)
          then Some (pos, cand) else sel
      end
  end.

Definition select_operator (text : string) : option (nat * (string * FilterOp)) :=
  fold_left (try_operator text) kOperators None.

Definition ParseCondition (pair : string) : option FilterCondition :=
  match select_operator pair with
  | None => None
  | Some (O, _) => None
  | Some (pos, (text, op)) =>
      let field := str_take pos pair in
      let value := str_drop (pos + String.length text) pair in
      if String.eqb value "" then None
      else if bool_decide (op = kEq) && (5 <=? String.length value)%nat && String.prefix "in(" value &&
              bool_decide (str_back value = Some ")"%char) then
        let items := split_on "|"%char (str_take (String.length value - 4) (str_drop 3 value)) in
        if existsb (λ item, String.eqb item "") items then None
        else Some (MkCondition field kIn (MString "") (ParseValue <$> items))
      else Some (MkCondition field op (ParseValue value) [])
  end.

Fixpoint ParseConditions (pairs : list string) : Expected MetadataFilter :=
  match pairs with
  | [] => Ok []
  | part :: pairs' =>
      if String.eqb part "" then ParseConditions pairs'
      else match ParseCondition part with
           | None => throw kCommandParseError ("Invalid filter condition: '" +:+ part +:+ "'")
           | Some c => let? cs := ParseConditions pairs' in Ok (c :: cs)
           end
  end.

Definition ParseSimpleFilter (expr : string) : Expected MetadataFilter :=
  if String.eqb expr "" then Ok [] else ParseConditions (split_on ","%char expr).

(** ** Lemmas *)

Definition is_op_char (c : Ascii.ascii) : bool :=
  existsb (Ascii.eqb c) ["!"; "<"; ">"; "="; ":"]%char.

(** A text that starts with an operator character is not found inside [f]. *)
Lemma find_sub_skip c t f rest :
  is_op_char c = true → str_all (λ a, negb (is_op_char a)) f = true →
  find_sub (String c t) (f +:+ rest) =
  match find_sub (String c t) rest with
  | None => None | Some p => Some (String.length f + p)%nat end.
Proof.
  intros Hc. induction f as [|a f IH]; cbn [str_all].
  - intros _. rewrite app_nil. by destruct (find_sub _ rest).
  - intros [Ha Hf]%andb_true_iff. rewrite app_cons. cbn [find_sub].
    assert (String.prefix (String c t) (String a (f +:+ rest)) = false) as ->.
    { cbn. destruct (Ascii.ascii_dec c a) as [->|]; [|done]. by rewrite Hc in Ha. }
    rewrite IH by done. by destruct (find_sub _ rest).
Qed.

(** Operator texts and what may follow them: the longer operator must not be
    readable. *)
Definition operator_of (text : string) : option FilterOp :=
  match list_find (λ p, p.1 = text) kOperators with Some (_, p) => Some p.2 | None => None end.

Definition not_longer (text value : string) : Prop :=
  match text with
  | ">" | "<" => String.prefix "=" value = false
  | _ => True
  end.

Definition is_in_list (value : string) : bool :=
  (5 <=? String.length value)%nat && String.prefix "in(" value &&
  bool_decide (str_back value = Some ")"%char).

Record term : Type := MkTerm { t_field : string; t_text : string; t_value : string }.

Definition term_op (x : term) : FilterOp := default kEq (operator_of (t_text x)).
Definition print_term (x : term) : string := t_field x +:+ t_text x +:+ t_value x.
Definition no_comma (s : string) : bool := str_all (λ c, negb (Ascii.eqb c ","%char)) s.

Record term_ok (x : term) : Prop := MkTermOk {
  field_nonempty : t_field x ≠ "";
  field_plain : str_all (λ a, negb (is_op_char a)) (t_field x) = true;
  text_operator : is_Some (operator_of (t_text x));
  text_maximal : not_longer (t_text x) (t_value x);
  value_nonempty : t_value x ≠ "";
  value_scalar : term_op x = kEq → is_in_list (t_value x) = false;
  term_no_comma : no_comma (print_term x) = true
}.

Definition term_condition (x : term) : FilterCondition :=
  MkCondition (t_field x) (term_op x) (ParseValue (t_value x)) [].

Definition shift (n : nat) (sel : option (nat * (string * FilterOp))) :=
  match sel with None => None | Some (p, c) => Some ((n + p)%nat, c) end.

Lemma try_operator_skip f rest sel c t o :
  is_op_char c = true → str_all (λ a, negb (is_op_char a)) f = true →
  try_operator (f +:+ rest) (shift (String.length f) sel) (String c t, o) =
  shift (String.length f) (try_operator rest sel (String c t, o)).
Proof.
  intros Hc Hf. unfold try_operator. cbn [fst]. rewrite find_sub_skip by done.
  destruct (find_sub _ rest) as [p|]; [|done]. destruct sel as [[q x]|]; [|done]. cbn [shift].
  set (n := String.length f).
  assert ((n + p <? n + q)%nat = (p <? q)%nat) as ->.
  { destruct (Nat.ltb_spec (n + p) (n + q)), (Nat.ltb_spec p q); done || lia. }
  assert ((n + p =? n + q)%nat = (p =? q)%nat) as ->.
  { destruct (Nat.eqb_spec (n + p) (n + q)), (Nat.eqb_spec p q); done || lia. }
  by destruct (_ || _).
Qed.

Definition starts_with_op (t : string) : Prop :=
  match t with String c _ => is_op_char c = true | "" => False end.

Lemma try_operators_skip ops f rest sel :
  str_all (λ a, negb (is_op_char a)) f = true → Forall (λ p : string * FilterOp, starts_with_op p.1) ops →
  fold_left (try_operator (f +:+ rest)) ops (shift (String.length f) sel) =
  shift (String.length f) (fold_left (try_operator rest) ops sel).
Proof.
  intros Hf HF. revert sel. induction HF as [|[t o] ops Ht HF IH]; intros sel; [done|].
  cbn [fold_left]. destruct t as [|c t]; [done|]. by rewrite try_operator_skip.
Qed.

Lemma select_operator_skip f rest :
  str_all (λ a, negb (is_op_char a)) f = true →
  select_operator (f +:+ rest) = shift (String.length f) (select_operator rest).
Proof. intros Hf. apply (try_operators_skip kOperators f rest None Hf). by repeat constructor. Qed.

Lemma prefix_nil s : String.prefix "" s = true.
Proof. by destruct s. Qed.

(** The operator found at the start wins when no earlier candidate is found
    there and no later one there is longer. *)
Lemma try_operators_wins ops1 ops2 text t o :
  find_sub t text = Some 0%nat →
  Forall (λ c : string * FilterOp, find_sub c.1 text ≠ Some 0%nat) ops1 →
  Forall (λ c : string * FilterOp, find_sub c.1 text = Some 0%nat →
    (String.length c.1 ≤ String.length t)%nat) ops2 →
  fold_left (try_operator text) (ops1 ++ (t, o) :: ops2) None = Some (0%nat, (t, o)).
Proof.
  intros Ht H1 H2. rewrite fold_left_app. cbn [fold_left].
  assert (Hsel : match fold_left (try_operator text) ops1 None with Some (O, _) => False | _ => True end).
  { assert (Hgen : ∀ sel, match sel with Some (O, _) => False | _ => True end →
      match fold_left (try_operator text) ops1 sel with Some (O, _) => False | _ => True end);
      [|by apply Hgen].
    clear H2. induction H1 as [|c ops1 Hc H1 IH]; intros sel Hsel; [done|]. cbn [fold_left]. apply IH.
    unfold try_operator. destruct (find_sub c.1 text) as [[|p]|]; [done| |done].
    destruct sel as [[[|q] x]|]; try done. by destruct (_ || _). }
  assert (try_operator text (fold_left (try_operator text) ops1 None) (t, o) = Some (0%nat, (t, o))) as ->.
  { unfold try_operator at 1. cbn [fst]. rewrite Ht.
    destruct (fold_left _ _ _) as [[[|q] x]|]; [done|done|done]. }
  clear Hsel H1. induction H2 as [|c ops2 Hc H2 IH]; [done|]. cbn [fold_left].
  assert (try_operator text (Some (0%nat, (t, o))) c = Some (0%nat, (t, o))) as ->; [|done].
  unfold try_operator. destruct (find_sub c.1 text) as [[|p]|]; [|done|done]. cbn [fst snd].
  specialize (Hc eq_refl). by rewrite (proj2 (Nat.ltb_ge _ _) Hc), andb_false_r.
Qed.

Lemma find_sub_here t rest : t ≠ "" → find_sub t (t +:+ rest) = Some 0%nat.
Proof.
  intros Hne. destruct t as [|c t]; [done|]. rewrite app_cons. cbn [find_sub].
  assert (String.prefix (String c t) (String c (t +:+ rest)) = true) as ->; [|done].
  rewrite <- app_cons. generalize (String c t). clear. intros t.
  induction t as [|c t IH]; [by destruct rest|]. rewrite app_cons. cbn.
  by destruct (Ascii.ascii_dec c c).
Qed.

Lemma find_sub_not_here t s : String.prefix t s = false → find_sub t s ≠ Some 0%nat.
Proof.
  destruct s; cbn [find_sub]; intros ->; [done|]. destruct (find_sub t _); simpl; congruence.
Qed.

Lemma select_operator_here text value o :
  operator_of text = Some o → not_longer text value →
  select_operator (text +:+ value) = Some (0%nat, (text, o)).
Proof.
  unfold operator_of. destruct (list_find _ kOperators) as [[i [t o']]|] eqn:E; [|done].
  apply list_find_Some in E as (Hl & Ht & _). simpl in Ht. subst t. intros [= <-] Hn.
  assert (Hsplit : kOperators = take i kOperators ++ (text, o') :: drop (S i) kOperators)
    by (symmetry; by apply take_drop_middle).
  unfold select_operator. rewrite Hsplit.
  assert (Hi : (i < 7)%nat) by (apply lookup_lt_Some in Hl; exact Hl).
  clear Hsplit. do 7 (destruct i as [|i]; [injection Hl as <- <-;
    (apply try_operators_wins; [by apply find_sub_here|..]);
    repeat (constructor; [first [apply find_sub_not_here; rewrite !app_cons, app_nil; cbn in Hn |- *;
      rewrite ?Hn; reflexivity | intros _; cbn; lia]|]); constructor|]).
  lia.
Qed.

Lemma not_empty_eqb s : s ≠ "" → String.eqb s "" = false.
Proof. intros. by apply String.eqb_neq. Qed.

(** One condition: what was printed is what is parsed. *)
Lemma ParseCondition_print x : term_ok x → ParseCondition (print_term x) = Some (term_condition x).
Proof.
  intros [Hf Hp [o Ho] Hm Hv Hs _]. unfold ParseCondition, print_term.
  rewrite select_operator_skip, (select_operator_here _ _ o) by done. cbn [shift].
  rewrite Nat.add_0_r. destruct (String.length (t_field x)) as [|n] eqn:El;
    [by destruct (t_field x)|]. rewrite <- El.
  rewrite str_take_app, <- length_str_app, <- str_app_assoc, str_drop_app, not_empty_eqb by done.
  unfold term_condition, term_op in *. rewrite Ho in *. cbn [default from_option] in *. unfold id in *.
  assert (bool_decide (o = kEq) && is_in_list (t_value x) = false) as Hin.
  { case_bool_decide; [cbn [andb]; auto|done]. }
  unfold is_in_list in Hin. rewrite <- !andb_assoc in *. by rewrite Hin.
Qed.

Lemma split_on_plain c s : str_all (λ a, negb (Ascii.eqb a c)) s = true → split_on c s = [s].
Proof.
  induction s as [|a s IH]; [done|]. cbn [str_all split_on]. intros [Ha Hs]%andb_true_iff.
  apply negb_true_iff in Ha. by rewrite Ha, IH.
Qed.

Lemma split_on_app c s t :
  str_all (λ a, negb (Ascii.eqb a c)) s = true →
  split_on c (s +:+ String c t) = s :: split_on c t.
Proof.
  induction s as [|a s IH]; cbn [str_all].
  - intros _. rewrite app_nil. cbn [split_on]. by rewrite Ascii.eqb_refl.
  - intros [Ha Hs]%andb_true_iff. apply negb_true_iff in Ha. rewrite app_cons. cbn [split_on].
    by rewrite Ha, IH.
Qed.

(** The terms of an expression, separated by commas. *)
Fixpoint print_filter (xs : list term) : string :=
  match xs with
  | [] => ""
  | [x] => print_term x
  | x :: xs' => print_term x +:+ String ","%char (print_filter xs')
  end.

(** C28: parsing a filter expression is the inverse of printing it: for every
    list of terms [field op value] whose field has no operator character, whose
    operator is one of the seven, whose value is not empty and does not extend
    the operator, and without commas, the printed expression parses to exactly
    the corresponding conditions, with the value typed by [ParseValue]. *)
Theorem parse_print_filter xs :
  Forall term_ok xs → ParseSimpleFilter (print_filter xs) = Ok (term_condition <$> xs).
Proof.
  assert (Hne : ∀ x, term_ok x → print_term x ≠ "").
  { intros x [Hf _ _ _ _ _ _]. unfold print_term. by destruct (t_field x). }
  intros HF. unfold ParseSimpleFilter. destruct xs as [|x xs]; [done|].
  assert (Hsplit : split_on ","%char (print_filter (x :: xs)) = print_term <$> x :: xs).
  { revert x HF. induction xs as [|y xs IH]; intros x [Hx HF]%Forall_cons.
    - apply split_on_plain. apply (term_no_comma x Hx).
    - change (print_filter (x :: y :: xs)) with (print_term x +:+ String ","%char (print_filter (y :: xs))).
      rewrite split_on_app by (apply (term_no_comma x Hx)). by rewrite (IH y HF). }
  rewrite Hsplit. rewrite not_empty_eqb.
  - clear Hsplit. induction HF as [|z zs Hz HF IH]; [done|]. rewrite !fmap_cons. cbn [ParseConditions].
    rewrite not_empty_eqb, ParseCondition_print by auto. by rewrite IH.
  - apply Forall_cons in HF as [Hx _]. specialize (Hne x Hx). destruct xs; [done|].
    cbn [print_filter]. by destruct (print_term x).
Qed.
End parse.

(** [strtod] on a few literals. *)
Definition strtod_table : Strtod :=
  {| strtod := λ s, if String.eqb s "1.5" then Some 0x3FF8000000000000 else None |}.

Lemma parse_print_filter_witness :
  @ParseSimpleFilter strtod_table "status:active,price>=10,score<1.5,hot=true" =
  Ok [MkCondition "status" kEq (MString "active") []; MkCondition "price" kGe (MInt64 10) [];
      MkCondition "score" kLt (MDouble 0x3FF8000000000000) []; MkCondition "hot" kEq (MBool true) []].
Proof.
  exact (@parse_print_filter strtod_table
    [MkTerm "status" ":" "active"; MkTerm "price" ">=" "10"; MkTerm "score" "<" "1.5"; MkTerm "hot" "=" "true"]
    ltac:(repeat constructor; try done; eexists; vm_compute; reflexivity)).
Defined.
