(* ===== verification/Command.v ===== *)
(** * Commands (src/server/command_types.h, command_parser.h)

    The command types, their privileges and the parsed [Command] record. *)

From S2P Require Import Prelude RingBuffer Lru DedupCache StateCache EventStore Floats Metadata.
#[local] Open Scope Z_scope.

Inductive CommandType : Type :=
| kEvent | kVecset | kVecdel | kMetaset | kSim | kSimv
| kInfo | kConfigHelp | kConfigShow | kConfigVerify
| kDumpSave | kDumpLoad | kDumpVerify | kDumpInfo | kDumpStatus
| kDebugOn | kDebugOff | kCacheStats | kCacheClear | kCacheEnable | kCacheDisable
| kSet | kGet | kShowVariables | kAuth | kUnknown.

#[export] Instance CommandType_eq_dec : EqDecision CommandType.
Proof. solve_decision. Defined.

Inductive CommandPrivilege : Type := kRead | kWrite | kAdmin.

#[export] Instance CommandPrivilege_eq_dec : EqDecision CommandPrivilege.
Proof. solve_decision. Defined.

Definition GetCommandPrivilege (type : CommandType) : CommandPrivilege :=
  match type with
  | kEvent | kVecset | kVecdel | kMetaset | kSet | kCacheClear | kCacheEnable | kCacheDisable => kWrite
  | kDumpSave | kDumpLoad | kDumpVerify | kDumpInfo | kDumpStatus | kConfigVerify => kAdmin
  | _ => kRead
  end.

Record Command : Type := MkCommand {
  c_type : CommandType;
  c_ctx : string;
  c_id : string;
  c_score : Z;
  c_event_type : EventType;
  c_top_k : Z;
  c_mode : string;
  c_timestamp : option Z;
  c_adaptive : option bool;
  c_filter_expr : string;
  c_metadata : option Metadata;
  c_min_score : Z;                 (* float bits *)
  c_dimension : Z;
  c_vector : list Z;               (* float bits *)
  c_path : string;
  c_variable_name : string;
  c_variable_value : string;
  c_pattern : string
}.

#[export] Instance Command_eq_dec : EqDecision Command.
Proof. solve_decision. Defined.

(** A default-constructed command of a type. *)
Definition command (type : CommandType) : Command :=
  MkCommand type "" "" 0 ADD 100 "fusion" None None "" None f32_zero 0 [] "" "" "" "".

Definition event_command (ctx id : string) (score : Z) (ty : EventType) (ts : option Z) : Command :=
  MkCommand kEvent ctx id score ty 100 "fusion" ts None "" None f32_zero 0 [] "" "" "" "".
Definition vecset_command (id : string) (dim : Z) (v : list Z) (meta : option Metadata) : Command :=
  MkCommand kVecset "" id 0 ADD 100 "fusion" None None "" meta f32_zero dim v "" "" "" "".
Definition vecdel_command (id : string) : Command :=
  MkCommand kVecdel "" id 0 ADD 100 "fusion" None None "" None f32_zero 0 [] "" "" "" "".
Definition metaset_command (id filter_expr : string) (meta : option Metadata) : Command :=
  MkCommand kMetaset "" id 0 ADD 100 "fusion" None None filter_expr meta f32_zero 0 [] "" "" "" "".
