(* ===== verification/WalCodec.v ===== *)
(** * [server::EncodeCommand], [server::DecodeWalRecord] (src/server/wal_codec.cpp)

    The binary payload of a write command in a WAL record.  A [Reader] is the
    list of bytes from its position on. *)

From S2P Require Import Prelude RingBuffer Lru DedupCache StateCache EventStore Floats Metadata Wal Command.
#[local] Open Scope Z_scope.

Definition kTypedMetadataMagic : Z := 0x314D564E.

(** ** Encoding *)

Definition AppendLE (n : nat) (v : Z) (buf : list byte) : list byte := buf ++ le_bytes n v.

Definition AppendString (s : string) (buf : list byte) : list byte :=
  AppendLE 4 (Z.of_nat (String.length s)) buf ++ bytes_of_string s.

Definition event_type_byte (t : EventType) : byte :=
  match t with
  | ADD => byte_of_Z 0 | SET => byte_of_Z 1 | DEL => byte_of_Z 2 | Unnamed b => b
  end.

Definition event_type_of (z : Z) : EventType :=
  if z =? 0 then ADD else if z =? 1 then SET else if z =? 2 then DEL else Unnamed (byte_of_Z z).

Definition EncodeValue (v : MetadataValue) (buf : list byte) : list byte :=
  match v with
  | MString s => AppendString s (buf ++ [byte_of_Z 0])
  | MInt64 z => AppendLE 8 z (buf ++ [byte_of_Z 1])
  | MDouble b => AppendLE 8 b (buf ++ [byte_of_Z 2])
  | MBool b => buf ++ [byte_of_Z 3; byte_of_Z (Z.b2z b)]
  end.

Section codec.
Context {order : IterOrder}.

Definition EncodeTypedMetadata (meta : Metadata) (buf : list byte) : list byte :=
  fold_left (λ buf p, EncodeValue p.2 (AppendString p.1 buf)) (iter_order meta)
    (AppendLE 4 (Z.of_nat (size meta)) (AppendLE 4 kTypedMetadataMagic buf)).

Definition EncodeCommand (cmd : Command) : list byte :=
  match c_type cmd with
  | kEvent =>
      AppendLE 8 (default 0 (c_timestamp cmd))
        (AppendLE 4 (c_score cmd)
          (AppendString (c_id cmd) (AppendString (c_ctx cmd) [event_type_byte (c_event_type cmd)])))
  | kVecset =>
      let buf := fold_left (λ buf v, AppendLE 4 v buf) (c_vector cmd)
        (AppendLE 4 (Z.of_nat (length (c_vector cmd))) (AppendString (c_id cmd) [])) in
      match c_metadata cmd with Some meta => EncodeTypedMetadata meta buf | None => buf end
  | kVecdel => AppendString (c_id cmd) []
  | kMetaset =>
      let buf := AppendString (c_id cmd) [] in
      match c_metadata cmd with
      | Some meta => EncodeTypedMetadata meta buf
      | None => AppendString (c_filter_expr cmd) buf
      end
  | _ => []
  end.

Definition WalOpForCommand (cmd : Command) : WalOpType :=
  match c_type cmd with
  | kEvent => match c_event_type cmd with DEL => kEventDel | _ => kEventAdd end
  | kVecset => kVecSet
  | kVecdel => kVecDel
  | kMetaset => kMetaSet
  | _ => kVecSet
  end.

(** ** Decoding *)

Definition Reader : Type := list byte.

Definition ReadLE (n : nat) (r : Reader) : option (Z * Reader) :=
  if (length r <? n)%nat then None else Some (le_value (take n r), drop n r).

Definition ReadString (r : Reader) : option (string * Reader) :=
  '(len, r) ← ReadLE 4 r;
  if Z.of_nat (length r) <? len then None
  else Some (string_of_bytes (take (Z.to_nat len) r), drop (Z.to_nat len) r).

Definition TruncatedError {A} (what : string) : Expected A :=
  throw kStorageCorrupted ("WAL payload truncated while decoding " +:+ what).

(** [if (!reader.Read...) return TruncatedError(what);] *)
Definition read_or {A} (o : option A) (what : string) : Expected A :=
  match o with Some a => Ok a | None => TruncatedError what end.

(** The value of one metadata entry, by its tag. *)
Definition DecodeValue (tag : Z) (r : Reader) : Expected (MetadataValue * Reader) :=
  if tag =? 0 then
    let? p := read_or (ReadString r) "METASET string value" in Ok (MString p.1, p.2)
  else if tag =? 1 then
    let? p := read_or (ReadLE 8 r) "METASET integer value" in Ok (MInt64 (i64 p.1), p.2)
  else if tag =? 2 then
    let? p := read_or (ReadLE 8 r) "METASET double value" in Ok (MDouble p.1, p.2)
  else if tag =? 3 then
    let? p := read_or (ReadLE 1 r) "METASET boolean value" in
    if 1 <? p.1 then TruncatedError "METASET boolean value" else Ok (MBool (p.1 =? 1), p.2)
  else throw kStorageCorrupted "METASET metadata value tag is invalid".

(** [metadata.emplace]: an existing key keeps its value. *)
Definition emplace (k : string) (v : MetadataValue) (meta : Metadata) : Metadata :=
  match meta !! k with Some _ => meta | None => <[k := v]> meta end.

Fixpoint DecodeEntries (count : nat) (r : Reader) (meta : Metadata) : Expected (Metadata * Reader) :=
  match count with
  | O => Ok (meta, r)
  | S count' =>
      let? k := read_or (ReadString r) "METASET metadata entry" in
      let? t := read_or (ReadLE 1 k.2) "METASET metadata entry" in
      let? v := DecodeValue t.1 t.2 in
      DecodeEntries count' v.2 (emplace k.1 v.1 meta)
  end.

Definition DecodeTypedMetadata (r : Reader) : Expected (Metadata * Reader) :=
  let? c := read_or (ReadLE 4 r) "METASET metadata count" in
  if Z.of_nat (length c.2) <? c.1
  then throw kStorageCorrupted "METASET metadata entry count exceeds payload"
  else DecodeEntries (Z.to_nat c.1) c.2 ∅.

Fixpoint ReadFloats (n : nat) (r : Reader) : Expected (list Z * Reader) :=
  match n with
  | O => Ok ([], r)
  | S n' =>
      let? v := read_or (ReadLE 4 r) "VECSET vector element" in
      let? rest := ReadFloats n' v.2 in
      Ok (v.1 :: rest.1, rest.2)
  end.

Definition DecodeEvent (r : Reader) : Expected Command :=
  let? ty := read_or (ReadLE 1 r) "EVENT event_type" in
  let? ctx := read_or (ReadString ty.2) "EVENT ctx" in
  let? id := read_or (ReadString ctx.2) "EVENT id" in
  let? sc := read_or (ReadLE 4 id.2) "EVENT score" in
  let? ts := read_or (ReadLE 8 sc.2) "EVENT timestamp" in
  Ok (event_command ctx.1 id.1 (i32 sc.1) (event_type_of ty.1) (Some ts.1)).

Definition DecodeVecset (r : Reader) : Expected Command :=
  let? id := read_or (ReadString r) "VECSET id" in
  let? dim := read_or (ReadLE 4 id.2) "VECSET dim" in
  if (2 ^ 31 - 1 <? dim.1) || (Z.of_nat (length dim.2) / 4 <? dim.1)
  then throw kStorageCorrupted "VECSET dimension exceeds payload bounds"
  else
    let? v := ReadFloats (Z.to_nat dim.1) dim.2 in
    if bool_decide (v.2 = []) then Ok (vecset_command id.1 dim.1 v.1 None)
    else
      match ReadLE 4 v.2 with
      | Some (magic, rest) =>
          if magic =? kTypedMetadataMagic then
            let? meta := DecodeTypedMetadata rest in
            Ok (vecset_command id.1 dim.1 v.1 (Some meta.1))
          else throw kStorageCorrupted "VECSET metadata extension is invalid"
      | None => throw kStorageCorrupted "VECSET metadata extension is invalid"
      end.

Definition DecodeVecdel (r : Reader) : Expected Command :=
  let? id := read_or (ReadString r) "VECDEL id" in Ok (vecdel_command id.1).

Definition DecodeMetaset (r : Reader) : Expected Command :=
  let? id := read_or (ReadString r) "METASET id" in
  let as_text :=
    let? e := read_or (ReadString id.2) "METASET filter_expr" in Ok (metaset_command id.1 e.1 None) in
  match ReadLE 4 id.2 with
  | Some (magic, rest) =>
      if magic =? kTypedMetadataMagic then
        let? meta := DecodeTypedMetadata rest in Ok (metaset_command id.1 "" (Some meta.1))
      else as_text
  | None => as_text
  end.

Definition DecodeWalRecord (record : WalRecord) : Expected Command :=
  match Wal.op record with
  | kEventAdd | kEventDel => DecodeEvent (payload record)
  | kVecSet => DecodeVecset (payload record)
  | kVecDel => DecodeVecdel (payload record)
  | kMetaSet => DecodeMetaset (payload record)
  | _ => throw kStorageInvalidFormat "Unsupported WAL op type for command decode"
  end.

(** ** Round trips of the parts *)

Definition string_ok (s : string) : Prop := Z.of_nat (String.length s) < 2 ^ 32.

Definition str_bytes (s : string) : list byte :=
  le_bytes 4 (Z.of_nat (String.length s)) ++ bytes_of_string s.

Lemma AppendString_bytes s buf : AppendString s buf = buf ++ str_bytes s.
Proof. unfold AppendString, AppendLE, str_bytes. by rewrite (assoc_L (++)). Qed.

Lemma ReadLE_app n v rest : ReadLE n (le_bytes n v ++ rest) = Some (wrap (8 * Z.of_nat n) v, rest).
Proof.
  unfold ReadLE. rewrite length_app, length_le_bytes.
  destruct (Nat.ltb_spec (n + length rest) n); [lia|].
  rewrite take_app_length', drop_app_length' by (by rewrite length_le_bytes).
  by rewrite le_value_bytes.
Qed.

Lemma ReadLE_u8 b rest : ReadLE 1 (b :: rest) = Some (Z_of_byte b, rest).
Proof. unfold ReadLE. cbn. by rewrite Z.add_0_r. Qed.

Lemma ReadString_app s rest : string_ok s → ReadString (str_bytes s ++ rest) = Some (s, rest).
Proof.
  intros Hs. unfold ReadString, str_bytes. rewrite <- (assoc_L (++)), ReadLE_app. cbn [mbind option_bind].
  rewrite wrap_small by (red in Hs; split; [lia|exact Hs]).
  rewrite length_app, length_bytes_of_string.
  destruct (Z.ltb_spec (Z.of_nat (String.length s + length rest)) (Z.of_nat (String.length s))); [lia|].
  rewrite Nat2Z.id, take_app_length', drop_app_length' by (by rewrite length_bytes_of_string).
  by rewrite string_of_bytes_of_string.
Qed.

Definition value_ok (v : MetadataValue) : Prop :=
  match v with
  | MString s => string_ok s
  | MInt64 z => in_s 64 z
  | MDouble b => in_u 64 b
  | MBool _ => True
  end.

Definition value_bytes (v : MetadataValue) : list byte :=
  match v with
  | MString s => byte_of_Z 0 :: str_bytes s
  | MInt64 z => byte_of_Z 1 :: le_bytes 8 z
  | MDouble b => byte_of_Z 2 :: le_bytes 8 b
  | MBool b => [byte_of_Z 3; byte_of_Z (Z.b2z b)]
  end.

Lemma EncodeValue_bytes v buf : EncodeValue v buf = buf ++ value_bytes v.
Proof.
  destruct v; cbn [EncodeValue value_bytes]; rewrite ?AppendString_bytes; unfold AppendLE;
    by rewrite <- ?(assoc_L (++)).
Qed.

Lemma i64_wrap z : in_s 64 z → i64 (wrap 64 z) = z.
Proof. intros. by apply sint_wrap. Qed.

Lemma value_roundtrip v rest :
  value_ok v →
  (let? t := read_or (ReadLE 1 (value_bytes v ++ rest)) "METASET metadata entry" in
   DecodeValue t.1 t.2) = Ok (v, rest).
Proof.
  destruct v as [s|z|b|b]; cbn [value_bytes app]; rewrite ReadLE_u8; cbn [read_or expected_bind fst snd];
    intros Hv; unfold DecodeValue; rewrite Z_of_byte_of_Z; cbn [Z.eqb].
  - change (0 mod 256 =? 0) with true. cbv iota. by rewrite ReadString_app.
  - change (1 mod 256 =? 0) with false. change (1 mod 256 =? 1) with true. cbv iota.
    rewrite ReadLE_app. cbn [read_or expected_bind fst snd]. by rewrite i64_wrap.
  - change (2 mod 256 =? 0) with false. change (2 mod 256 =? 1) with false.
    change (2 mod 256 =? 2) with true. cbv iota.
    rewrite ReadLE_app. cbn [read_or expected_bind fst snd]. by rewrite wrap_small.
  - by destruct b.
Qed.

Definition entry_bytes (p : string * MetadataValue) : list byte := str_bytes p.1 ++ value_bytes p.2.

Lemma fold_entries l buf :
  fold_left (λ buf p, EncodeValue p.2 (AppendString p.1 buf)) l buf = buf ++ concat (entry_bytes <$> l).
Proof.
  revert buf. induction l as [|p l IH]; intros buf; [by rewrite app_nil_r|]. cbn [fold_left].
  rewrite IH, EncodeValue_bytes, AppendString_bytes. rewrite fmap_cons. cbn [concat].
  unfold entry_bytes at 2. by rewrite <- !(assoc_L (++)).
Qed.

Definition entry_ok (p : string * MetadataValue) : Prop := string_ok p.1 ∧ value_ok p.2.

Lemma DecodeEntries_app l rest : ∀ meta0,
  Forall entry_ok l → NoDup l.*1 → (∀ k, k ∈ l.*1 → meta0 !! k = None) →
  DecodeEntries (length l) (concat (entry_bytes <$> l) ++ rest) meta0 = Ok (list_to_map l ∪ meta0, rest).
Proof.
  induction l as [|[k v] l IH]; intros meta0 HF Hnd Hfresh.
  - cbn. by rewrite (left_id_L ∅ (∪)).
  - apply Forall_cons in HF as [[Hk Hv] HF]. cbn [fst snd] in *.
    rewrite fmap_cons in *. cbn [length concat DecodeEntries fst] in *. apply NoDup_cons in Hnd as [Hnk Hnd].
    unfold entry_bytes at 1. cbn [fst snd]. rewrite <- !(assoc_L (++)).
    rewrite ReadString_app by done. cbn [read_or expected_bind fst snd].
    pose proof (value_roundtrip v (concat (entry_bytes <$> l) ++ rest) Hv) as Hval.
    destruct (read_or _ _) as [t|e]; cbn [expected_bind] in *; [|done].
    rewrite Hval. cbn [expected_bind fst snd].
    unfold emplace. rewrite Hfresh by (left).
    rewrite IH; [|done|done|].
    + f_equal. f_equal. rewrite list_to_map_cons, <- insert_union_l, <- insert_union_r; [done|].
      by apply not_elem_of_list_to_map_1.
    + intros k' Hk'. rewrite lookup_insert_ne by (intros ->; done). apply Hfresh. by right.
Qed.

Definition metadata_ok (meta : Metadata) : Prop :=
  Z.of_nat (size meta) < 2 ^ 32 ∧ map_Forall (λ k v, entry_ok (k, v)) meta.

Definition metadata_body (meta : Metadata) : list byte :=
  le_bytes 4 (Z.of_nat (size meta)) ++ concat (entry_bytes <$> iter_order meta).

Lemma EncodeTypedMetadata_bytes meta buf :
  EncodeTypedMetadata meta buf = buf ++ le_bytes 4 kTypedMetadataMagic ++ metadata_body meta.
Proof.
  unfold EncodeTypedMetadata, AppendLE, metadata_body. rewrite fold_entries.
  by rewrite <- !(assoc_L (++)).
Qed.

Lemma length_entry p : (1 ≤ length (entry_bytes p))%nat.
Proof. unfold entry_bytes, str_bytes. rewrite !length_app, length_le_bytes. lia. Qed.

Lemma metadata_roundtrip meta rest :
  metadata_ok meta → DecodeTypedMetadata (metadata_body meta ++ rest) = Ok (meta, rest).
Proof.
  intros [Hsz HF]. unfold DecodeTypedMetadata, metadata_body.
  rewrite <- (assoc_L (++)), ReadLE_app. cbn [read_or expected_bind fst snd].
  rewrite wrap_small by (split; [lia|exact Hsz]).
  rewrite <- (length_iter_order meta), Nat2Z.id.
  assert (Hlen : (length (iter_order meta) ≤ length (concat (entry_bytes <$> iter_order meta)))%nat).
  { generalize (iter_order meta) as l. induction l as [|p l IH]; [done|].
    rewrite fmap_cons. cbn [concat length]. rewrite length_app. pose proof (length_entry p). lia. }
  rewrite length_app.
  destruct (Z.ltb_spec (Z.of_nat (length (concat (entry_bytes <$> iter_order meta)) + length rest))
    (Z.of_nat (length (iter_order meta)))); [lia|].
  rewrite DecodeEntries_app.
  - rewrite (right_id_L ∅ (∪)). do 2 f_equal.
    rewrite (list_to_map_proper _ (map_to_list meta)); [apply list_to_map_to_list| |apply iter_order_perm].
    apply NoDup_fst_iter_order.
  - apply Forall_forall. intros [k v] Hkv%elem_of_iter_order. by apply HF.
  - apply NoDup_fst_iter_order.
  - done.
Qed.

Lemma ReadFloats_app v rest :
  Forall (in_u 32) v → ReadFloats (length v) (concat (le_bytes 4 <$> v) ++ rest) = Ok (v, rest).
Proof.
  induction 1 as [|x v Hx _ IH]; [done|]. rewrite fmap_cons. cbn [length ReadFloats concat].
  rewrite <- (assoc_L (++)), ReadLE_app. cbn [read_or expected_bind fst snd].
  rewrite IH. cbn [expected_bind fst snd]. by rewrite wrap_small.
Qed.

Lemma fold_floats v buf : fold_left (λ buf x, AppendLE 4 x buf) v buf = buf ++ concat (le_bytes 4 <$> v).
Proof.
  revert buf. induction v as [|x v IH]; intros buf; [by rewrite app_nil_r|]. cbn [fold_left].
  rewrite IH, fmap_cons. cbn [concat]. unfold AppendLE. by rewrite <- (assoc_L (++)).
Qed.

Lemma length_floats v : length (concat (le_bytes 4 <$> v)) = (4 * length v)%nat.
Proof.
  induction v as [|x v IH]; [done|]. rewrite fmap_cons. cbn [concat length].
  rewrite length_app, length_le_bytes, IH. lia.
Qed.

(** ** What a payload carries *)

(** The commands a record can carry: the lengths and numbers fit their fields,
    and a textual METASET has not the length that reads as the magic number. *)
Definition encodable (cmd : Command) : Prop :=
  match c_type cmd with
  | kEvent =>
      event_type_of (Z_of_byte (event_type_byte (c_event_type cmd))) = c_event_type cmd ∧
      string_ok (c_ctx cmd) ∧ string_ok (c_id cmd) ∧ in_s 32 (c_score cmd) ∧
      in_u 64 (default 0 (c_timestamp cmd))
  | kVecset =>
      string_ok (c_id cmd) ∧ Z.of_nat (length (c_vector cmd)) < 2 ^ 31 ∧ Forall (in_u 32) (c_vector cmd) ∧
      from_option metadata_ok True (c_metadata cmd)
  | kVecdel => string_ok (c_id cmd)
  | kMetaset =>
      string_ok (c_id cmd) ∧
      match c_metadata cmd with
      | Some meta => metadata_ok meta
      | None =>
          string_ok (c_filter_expr cmd) ∧
          Z.of_nat (String.length (c_filter_expr cmd)) ≠ kTypedMetadataMagic
      end
  | _ => False
  end.

(** The command that comes back: the fields the payload carries, the others at
    their defaults. *)
Definition carried (cmd : Command) : Command :=
  match c_type cmd with
  | kEvent =>
      event_command (c_ctx cmd) (c_id cmd) (c_score cmd) (c_event_type cmd)
        (Some (default 0 (c_timestamp cmd)))
  | kVecset =>
      vecset_command (c_id cmd) (Z.of_nat (length (c_vector cmd))) (c_vector cmd) (c_metadata cmd)
  | kVecdel => vecdel_command (c_id cmd)
  | _ => metaset_command (c_id cmd)
           (match c_metadata cmd with Some _ => "" | None => c_filter_expr cmd end) (c_metadata cmd)
  end.

Definition command_bytes (cmd : Command) : list byte :=
  match c_type cmd with
  | kEvent =>
      event_type_byte (c_event_type cmd) :: str_bytes (c_ctx cmd) ++ str_bytes (c_id cmd) ++
      le_bytes 4 (c_score cmd) ++ le_bytes 8 (default 0 (c_timestamp cmd))
  | kVecset =>
      str_bytes (c_id cmd) ++ le_bytes 4 (Z.of_nat (length (c_vector cmd))) ++
      concat (le_bytes 4 <$> c_vector cmd) ++
      from_option (λ meta, le_bytes 4 kTypedMetadataMagic ++ metadata_body meta) [] (c_metadata cmd)
  | kVecdel => str_bytes (c_id cmd)
  | kMetaset =>
      str_bytes (c_id cmd) ++
      match c_metadata cmd with
      | Some meta => le_bytes 4 kTypedMetadataMagic ++ metadata_body meta
      | None => str_bytes (c_filter_expr cmd)
      end
  | _ => []
  end.

Lemma EncodeCommand_bytes cmd : EncodeCommand cmd = command_bytes cmd.
Proof.
  unfold EncodeCommand, command_bytes. destruct (c_type cmd); try done.
  - unfold AppendLE. rewrite !AppendString_bytes, <- !(assoc_L (++)). done.
  - rewrite fold_floats, AppendString_bytes. unfold AppendLE.
    destruct (c_metadata cmd) as [meta|]; cbn [from_option]; rewrite ?EncodeTypedMetadata_bytes;
      rewrite <- !(assoc_L (++)), ?app_nil_r; reflexivity.
  - destruct (c_metadata cmd) as [meta|]; rewrite ?EncodeTypedMetadata_bytes, !AppendString_bytes;
      rewrite <- ?(assoc_L (++)); reflexivity.
Qed.

Lemma DecodeEvent_bytes cmd :
  c_type cmd = kEvent → encodable cmd → DecodeEvent (command_bytes cmd) = Ok (carried cmd).
Proof.
  unfold encodable, carried, command_bytes. intros ->. intros (Hty & Hctx & Hid & Hsc & Hts).
  unfold DecodeEvent. rewrite ReadLE_u8. cbn [read_or expected_bind fst snd].
  rewrite ReadString_app by done. cbn [read_or expected_bind fst snd].
  rewrite ReadString_app by done. cbn [read_or expected_bind fst snd].
  rewrite ReadLE_app. cbn [read_or expected_bind fst snd].
  rewrite <- (app_nil_r (le_bytes 8 _)), ReadLE_app. cbn [read_or expected_bind fst snd].
  rewrite Hty. change (8 * Z.of_nat 4) with 32. change (8 * Z.of_nat 8) with 64.
  unfold i32. by rewrite sint_wrap, (wrap_small 64).
Qed.

Lemma DecodeVecset_bytes cmd :
  c_type cmd = kVecset → encodable cmd → DecodeVecset (command_bytes cmd) = Ok (carried cmd).
Proof.
  unfold encodable, carried, command_bytes. intros ->. intros (Hid & Hdim & Hv & Hmeta).
  unfold DecodeVecset. rewrite ReadString_app by done. cbn [read_or expected_bind fst snd].
  rewrite ReadLE_app. cbn [read_or expected_bind fst snd].
  change (8 * Z.of_nat 4) with 32. rewrite wrap_small by (split; lia).
  destruct (Z.ltb_spec (2 ^ 31 - 1) (Z.of_nat (length (c_vector cmd)))); [lia|].
  rewrite !length_app, length_floats.
  match goal with |- context [(?q <? ?d)%Z] => destruct (Z.ltb_spec q d) as [Hlt|_] end.
  { apply Z.lt_nge in Hlt. destruct Hlt. apply Z.div_le_lower_bound; lia. }
  cbn [orb]. rewrite Nat2Z.id, ReadFloats_app by done. cbn [expected_bind fst snd].
  destruct (c_metadata cmd) as [meta|]; cbn [from_option] in *; [|done].
  rewrite bool_decide_eq_false_2; [|destruct (le_bytes 4 kTypedMetadataMagic) eqn:E; done].
  rewrite ReadLE_app. change (wrap (8 * Z.of_nat 4) kTypedMetadataMagic =? kTypedMetadataMagic) with true.
  cbv iota. rewrite <- (app_nil_r (metadata_body meta)), metadata_roundtrip by done. done.
Qed.

Lemma DecodeMetaset_bytes cmd :
  c_type cmd = kMetaset → encodable cmd → DecodeMetaset (command_bytes cmd) = Ok (carried cmd).
Proof.
  unfold encodable, carried, command_bytes. intros ->. intros (Hid & Hmeta).
  unfold DecodeMetaset. rewrite ReadString_app by done. cbn [read_or expected_bind fst snd].
  destruct (c_metadata cmd) as [meta|].
  - rewrite ReadLE_app. change (wrap (8 * Z.of_nat 4) kTypedMetadataMagic =? kTypedMetadataMagic) with true.
    cbv iota. rewrite <- (app_nil_r (metadata_body meta)), metadata_roundtrip by done. done.
  - destruct Hmeta as [Hs Hne].
    assert (Htext : ReadString (str_bytes (c_filter_expr cmd)) = Some (c_filter_expr cmd, [])).
    { rewrite <- (app_nil_r (str_bytes _)). by apply ReadString_app. }
    rewrite Htext. unfold str_bytes. rewrite ReadLE_app. change (8 * Z.of_nat 4) with 32.
    rewrite wrap_small by (split; [lia|exact Hs]).
    by rewrite (proj2 (Z.eqb_neq _ _) Hne).
Qed.

(** Decoding undoes encoding. *)
Lemma DecodeWalRecord_encoded seq time cmd :
  encodable cmd →
  DecodeWalRecord (MkRecord seq time (WalOpForCommand cmd) (EncodeCommand cmd)) = Ok (carried cmd).
Proof.
  intros Henc. pose proof Henc as Henc'. unfold encodable in Henc'. unfold DecodeWalRecord, WalOpForCommand.
  cbn [Wal.op payload]. rewrite EncodeCommand_bytes. destruct (c_type cmd) eqn:Ety; try done.
  - destruct (c_event_type cmd); by apply DecodeEvent_bytes.
  - by apply DecodeVecset_bytes.
  - unfold command_bytes, carried, DecodeVecdel. rewrite Ety.
    by rewrite <- (app_nil_r (str_bytes _)), ReadString_app.
  - by apply DecodeMetaset_bytes.
Qed.

(** ** Truncated payloads *)

Definition corrupted {A} (r : Expected A) : Prop := ∃ m, r = throw kStorageCorrupted m.

Definition strict_prefix (p b : list byte) : Prop := ∃ t, t ≠ [] ∧ b = p ++ t.

Lemma strict_prefix_app p a b :
  strict_prefix p (a ++ b) → strict_prefix p a ∨ ∃ p', p = a ++ p' ∧ strict_prefix p' b.
Proof.
  intros (t & Ht & E). apply app_eq_inv in E as [(c & -> & ->)|(c & -> & ->)].
  - destruct c as [|x c].
    + right. exists []. split; [by rewrite !app_nil_r|]. by exists b.
    + left. by exists (x :: c).
  - right. exists c. split; [done|]. by exists t.
Qed.

Lemma strict_prefix_cons p x b :
  strict_prefix p (x :: b) → p = [] ∨ ∃ p', p = x :: p' ∧ strict_prefix p' b.
Proof.
  intros (t & Ht & E). destruct p as [|y p]; [by left|]. right. simplify_eq/=. exists p. split; [done|]. by exists t.
Qed.

Lemma strict_prefix_length p b : strict_prefix p b → (length p < length b)%nat.
Proof. intros ([|x t] & Ht & ->); [done|]. rewrite length_app. cbn. lia. Qed.

Lemma strict_prefix_nil p : ¬ strict_prefix p [].
Proof. intros H%strict_prefix_length. cbn in H. lia. Qed.

Lemma ReadLE_prefix n v p : strict_prefix p (le_bytes n v) → ReadLE n p = None.
Proof.
  intros H%strict_prefix_length. rewrite length_le_bytes in H. unfold ReadLE.
  by destruct (Nat.ltb_spec (length p) n); [|lia].
Qed.

Lemma ReadString_prefix s p : strict_prefix p (str_bytes s) → string_ok s → ReadString p = None.
Proof.
  intros [Hp|(p' & -> & Hp)]%strict_prefix_app Hs; unfold ReadString; [by erewrite ReadLE_prefix|].
  rewrite ReadLE_app. cbn [mbind option_bind]. change (8 * Z.of_nat 4) with 32.
  rewrite wrap_small by (split; [lia|exact Hs]).
  apply strict_prefix_length in Hp. rewrite length_bytes_of_string in Hp.
  by destruct (Z.ltb_spec (Z.of_nat (length p')) (Z.of_nat (String.length s))); [|lia].
Qed.

(** Reads a field off a prefix: either the field is cut, and the read fails, or
    it is whole and the rest is cut. *)
Ltac cut_field H :=
  first
  [ apply strict_prefix_app in H as [H|(?p & -> & H)]
  | apply strict_prefix_cons in H as [->|(?p & -> & H)] ].
Ltac cut_fails := cbn [read_or expected_bind fst snd]; by eexists.

Lemma value_prefix v p :
  value_ok v → strict_prefix p (value_bytes v) →
  corrupted (let? t := read_or (ReadLE 1 p) "METASET metadata entry" in DecodeValue t.1 t.2).
Proof.
  intros Hv H. destruct v as [s|z|b|b]; cbn [value_bytes] in H; cut_field H; try by eexists.
  all: rewrite ReadLE_u8; cbn [read_or expected_bind fst snd];
    rewrite Z_of_byte_of_Z; unfold DecodeValue; cbn -[ReadLE ReadString].
  - erewrite ReadString_prefix by done. cut_fails.
  - erewrite ReadLE_prefix by done. cut_fails.
  - erewrite ReadLE_prefix by done. cut_fails.
  - cut_field H; [cut_fails|]. by apply strict_prefix_nil in H.
Qed.

Lemma DecodeEntries_prefix l p : ∀ meta0,
  Forall entry_ok l → strict_prefix p (concat (entry_bytes <$> l)) →
  corrupted (DecodeEntries (length l) p meta0).
Proof.
  revert p. induction l as [|[k v] l IH]; intros p meta0 HF H; [by apply strict_prefix_nil in H|].
  apply Forall_cons in HF as [[Hk Hv] HF]. rewrite fmap_cons in H. cbn [concat fst snd length DecodeEntries] in *.
  unfold entry_bytes at 1 in H. cbn [fst snd] in H. rewrite <- (assoc_L (++)) in H. cut_field H.
  { erewrite ReadString_prefix by done. cut_fails. }
  rewrite ReadString_app by done. cbn [read_or expected_bind fst snd]. cut_field H.
  - pose proof (value_prefix v _ Hv H) as [m Hm].
    destruct (read_or _ _) as [t|e]; cbn [expected_bind fst snd] in *; [rewrite Hm|simplify_eq]; by eexists.
  - pose proof (value_roundtrip v p Hv) as Hval.
    destruct (read_or _ _) as [t|e]; cbn [expected_bind] in *; [|done].
    rewrite Hval. cbn [expected_bind fst snd]. by apply IH.
Qed.

Lemma metadata_prefix meta p :
  metadata_ok meta → strict_prefix p (metadata_body meta) → corrupted (DecodeTypedMetadata p).
Proof.
  intros [Hsz HF] H. unfold DecodeTypedMetadata. cut_field H; [erewrite ReadLE_prefix by done; cut_fails|].
  rewrite ReadLE_app. cbn [read_or expected_bind fst snd]. change (8 * Z.of_nat 4) with 32.
  rewrite wrap_small by (split; [lia|exact Hsz]).
  destruct (_ <? _); [by eexists|]. rewrite <- (length_iter_order meta), Nat2Z.id.
  apply DecodeEntries_prefix; [|done]. apply Forall_forall. intros [k v] Hkv%elem_of_iter_order. by apply HF.
Qed.

Lemma DecodeEvent_prefix cmd p :
  c_type cmd = kEvent → encodable cmd → strict_prefix p (command_bytes cmd) → corrupted (DecodeEvent p).
Proof.
  unfold encodable, command_bytes. intros ->. intros (_ & Hctx & Hid & _ & _) H. unfold DecodeEvent.
  cut_field H; [cut_fails|]. rewrite ReadLE_u8. cbn [read_or expected_bind fst snd].
  cut_field H; [erewrite ReadString_prefix by done; cut_fails|].
  rewrite ReadString_app by done. cbn [read_or expected_bind fst snd].
  cut_field H; [erewrite ReadString_prefix by done; cut_fails|].
  rewrite ReadString_app by done. cbn [read_or expected_bind fst snd].
  cut_field H; [erewrite ReadLE_prefix by done; cut_fails|].
  rewrite ReadLE_app. cbn [read_or expected_bind fst snd].
  erewrite ReadLE_prefix by done. cut_fails.
Qed.

Lemma DecodeVecset_prefix cmd p :
  c_type cmd = kVecset → encodable cmd → strict_prefix p (command_bytes cmd) →
  corrupted (DecodeVecset p) ∨ DecodeVecset p = Ok (vecset_command (c_id cmd)
    (Z.of_nat (length (c_vector cmd))) (c_vector cmd) None) ∧ is_Some (c_metadata cmd).
Proof.
  unfold encodable, command_bytes. intros ->. intros (Hid & Hdim & Hv & Hmeta) H. unfold DecodeVecset.
  cut_field H; [left; erewrite ReadString_prefix by done; cut_fails|].
  rewrite ReadString_app by done. cbn [read_or expected_bind fst snd].
  cut_field H; [left; erewrite ReadLE_prefix by done; cut_fails|].
  rewrite ReadLE_app. cbn [read_or expected_bind fst snd]. change (8 * Z.of_nat 4) with 32.
  rewrite wrap_small by (split; lia). destruct (_ || _) eqn:Hbound; [left; by eexists|].
  apply orb_false_iff in Hbound as [_ Hbound%Z.ltb_ge]. rewrite Nat2Z.id.
  cut_field H.
  { exfalso. apply strict_prefix_length in H. rewrite length_floats in H.
    apply (Z.mul_le_mono_nonneg_l _ _ 4) in Hbound; [|lia]. match type of Hbound with context [?n / 4] => pose proof (Z.mul_div_le n 4) end. lia. }
  rewrite ReadFloats_app by done. cbn [expected_bind fst snd].
  destruct (c_metadata cmd) as [meta|]; cbn [from_option] in *; [|by apply strict_prefix_nil in H].
  case_bool_decide as Hnil; [right; by split; [|eexists]|]. left.
  cut_field H; [erewrite ReadLE_prefix by done; by eexists|].
  rewrite ReadLE_app. change (wrap (8 * Z.of_nat 4) kTypedMetadataMagic =? kTypedMetadataMagic) with true.
  cbv iota. apply metadata_prefix in H as [m ->]; [|done]. by eexists.
Qed.

Lemma DecodeMetaset_prefix cmd p :
  c_type cmd = kMetaset → encodable cmd → strict_prefix p (command_bytes cmd) → corrupted (DecodeMetaset p).
Proof.
  unfold encodable, command_bytes. intros ->. intros (Hid & Hmeta) H. unfold DecodeMetaset.
  cut_field H; [erewrite ReadString_prefix by done; cut_fails|].
  rewrite ReadString_app by done. cbn [read_or expected_bind fst snd].
  destruct (c_metadata cmd) as [meta|].
  - cut_field H.
    + unfold ReadString. erewrite !ReadLE_prefix by done. cut_fails.
    + rewrite ReadLE_app. change (wrap (8 * Z.of_nat 4) kTypedMetadataMagic =? kTypedMetadataMagic) with true.
      cbv iota. apply metadata_prefix in H as [m ->]; [|done]. by eexists.
  - destruct Hmeta as [Hs Hne]. pose proof H as Hcut.
    erewrite (ReadString_prefix _ _ Hcut Hs).
    cut_field H; [erewrite ReadLE_prefix by done; cut_fails|].
    rewrite ReadLE_app. change (8 * Z.of_nat 4) with 32. rewrite wrap_small by (split; [lia|exact Hs]).
    rewrite (proj2 (Z.eqb_neq _ _) Hne). cut_fails.
Qed.

(** ** The codec's contract *)


(** C22: decoding the record the dispatcher logs for a command gives the command
    back, event scores, float bits and typed metadata included; decoding reads
    the payload alone, so sequence and time of the record do not matter. *)
Theorem wal_codec_roundtrip seq time cmd :
  encodable cmd →
  DecodeWalRecord (MkRecord seq time (WalOpForCommand cmd) (EncodeCommand cmd)) = Ok (carried cmd).
Proof. apply DecodeWalRecord_encoded. Qed.

(** A payload cut anywhere is reported as corrupted, never decoded to a
    different command; the one exception is a VECSET cut exactly between its
    vector and its metadata, which reads as the same VECSET without metadata. *)
Lemma wal_codec_truncated seq time cmd p :
  encodable cmd → strict_prefix p (EncodeCommand cmd) →
  corrupted (DecodeWalRecord (MkRecord seq time (WalOpForCommand cmd) p)) ∨
  c_type cmd = kVecset ∧ is_Some (c_metadata cmd) ∧
  DecodeWalRecord (MkRecord seq time (WalOpForCommand cmd) p) =
    Ok (vecset_command (c_id cmd) (Z.of_nat (length (c_vector cmd))) (c_vector cmd) None).
Proof.
  intros Henc. pose proof Henc as Henc'. unfold encodable in Henc'. unfold DecodeWalRecord, WalOpForCommand.
  cbn [Wal.op payload]. rewrite EncodeCommand_bytes. intros Hp. destruct (c_type cmd) eqn:Ety; try done.
  - left. destruct (c_event_type cmd); by eapply DecodeEvent_prefix.
  - destruct (DecodeVecset_prefix cmd p) as [?|[? ?]]; [done..|by left|by right].
  - left. unfold command_bytes in Hp. rewrite Ety in Hp. unfold DecodeVecdel.
    erewrite ReadString_prefix by done. cut_fails.
  - left. by eapply DecodeMetaset_prefix.
Qed.
End codec.

(** ** Witnesses *)

Definition example_event : Command := event_command "user1" "item7" (-3) SET (Some 1700000000).
Definition example_vecset : Command :=
  vecset_command "item7" 2 [0x3F800000; 0xBF000000] (Some {[ "on" := MBool true ]}).

Lemma example_event_encodable : encodable example_event.
Proof. unfold encodable. cbn. unfold string_ok, in_s, in_u. cbn. split_and!; (reflexivity || lia). Defined.

Lemma example_vecset_encodable : encodable example_vecset.
Proof.
  unfold encodable. cbn [c_type example_vecset c_id c_vector c_metadata vecset_command from_option].
  split_and!; [reflexivity|reflexivity| |].
  - repeat apply Forall_cons_2; [| |apply Forall_nil_2]; unfold in_u; lia.
  - split; [reflexivity|]. apply map_Forall_singleton. by split.
Defined.

Lemma wal_codec_roundtrip_witness :
  let order := tree_order in
  DecodeWalRecord (MkRecord 9 5 (WalOpForCommand example_vecset) (EncodeCommand example_vecset)) =
    Ok example_vecset.
Proof. exact (@wal_codec_roundtrip tree_order 9 5 example_vecset example_vecset_encodable). Defined.

Lemma wal_codec_truncated_witness :
  let order := tree_order in
  corrupted (DecodeWalRecord (MkRecord 9 5 (WalOpForCommand example_event)
    (take 20 (EncodeCommand example_event)))).
Proof.
  destruct (@wal_codec_truncated tree_order 9 5 example_event (take 20 (@EncodeCommand tree_order example_event))
    example_event_encodable) as [H|[H _]]; [|exact H|discriminate H].
  exists (drop 20 (@EncodeCommand tree_order example_event)).
  split; [discriminate|symmetry; apply take_drop].
Defined.
