(* ===== verification/Distance.v ===== *)
(** * Distances (src/vectors/distance.h, distance_scalar.h, distance_simd.h)

    A vector is the list of its components' bits.  The dispatch table
    [DistanceFunctions] is a class: the code picks one implementation per
    process; the scalar one is the instance given here, the AVX2 and NEON ones
    sum in another order and are other instances. *)

From S2P Require Import Prelude Floats.
#[local] Open Scope Z_scope.

Class DistanceFunctions : Type := MkDistanceFunctions {
  dot_product : list Z → list Z → Z;
  l2_norm : list Z → Z;
  l2_distance : list Z → list Z → Z
}.

(** ** The scalar implementation *)

Definition DotProductScalar (a b : list Z) : Z :=
  fold_left (λ sum p, f32_add sum (f32_mul p.1 p.2)) (zip a b) f32_zero.

Definition L2NormScalar (v : list Z) : Z :=
  f32_sqrt (fold_left (λ sum_sq x, f32_add sum_sq (f32_mul x x)) v f32_zero).

Definition L2DistanceScalar (a b : list Z) : Z :=
  f32_sqrt (fold_left
    (λ sum_sq p, let diff := f32_sub p.1 p.2 in f32_add sum_sq (f32_mul diff diff)) (zip a b) f32_zero).

Definition Scalar : DistanceFunctions := MkDistanceFunctions DotProductScalar L2NormScalar L2DistanceScalar.

(** [1e-7F] *)
Definition kNormEpsilon : Z := 0x33D6BF95.

Section distances.
Context {impl : DistanceFunctions}.

Definition CosineDistanceRaw (a b : list Z) : Z :=
  let dot := dot_product a b in
  let norm_a := l2_norm a in
  let norm_b := l2_norm b in
  if f32_ltb norm_a kNormEpsilon || f32_ltb norm_b kNormEpsilon then f32_zero
  else f32_div dot (f32_mul norm_a norm_b).

Definition DotProductRaw (a b : list Z) : Z := dot_product a b.

Definition L2SimilarityRaw (a b : list Z) : Z :=
  f32_div f32_one (f32_add f32_one (l2_distance a b)).

Definition GetDistanceFunc (metric : string) : list Z → list Z → Z :=
  if bool_decide (metric = "dot") then DotProductRaw
  else if bool_decide (metric = "l2") then L2SimilarityRaw
  else CosineDistanceRaw.

(** Vectors of different lengths, or empty. *)
Definition unusable (lhs rhs : list Z) : bool :=
  negb (length lhs =? length rhs)%nat || (length lhs =? 0)%nat.

Definition DotProduct (lhs rhs : list Z) : Z :=
  if unusable lhs rhs then f32_zero else dot_product lhs rhs.

Definition L2Norm (vec : list Z) : Z :=
  if (length vec =? 0)%nat then f32_zero else l2_norm vec.

Definition CosineSimilarity (lhs rhs : list Z) : Z :=
  if unusable lhs rhs then f32_zero
  else
    let dot := dot_product lhs rhs in
    let norm_lhs := l2_norm lhs in
    let norm_rhs := l2_norm rhs in
    if f32_ltb norm_lhs kNormEpsilon || f32_ltb norm_rhs kNormEpsilon then f32_zero
    else f32_div dot (f32_mul norm_lhs norm_rhs).

Definition CosineSimilarityPreNorm (lhs rhs : list Z) (norm_lhs norm_rhs : Z) : Z :=
  if f32_ltb norm_lhs kNormEpsilon || f32_ltb norm_rhs kNormEpsilon then f32_zero
  else f32_div (dot_product lhs rhs) (f32_mul norm_lhs norm_rhs).

Definition L2Distance (lhs rhs : list Z) : Z :=
  if unusable lhs rhs then f32_zero else l2_distance lhs rhs.

(** [Normalize] edits its argument in place: [None] is its [false], which
    leaves the argument alone. *)
Definition Normalize (vec : list Z) : option (list Z) :=
  let norm := L2Norm vec in
  if f32_ltb norm kNormEpsilon then None else Some ((λ val, f32_div val norm) <$> vec).

Definition NormalizedCopy (vec : list Z) : list Z := default [] (Normalize vec).

Lemma length_Normalize vec vec' : Normalize vec = Some vec' → length vec' = length vec.
Proof. unfold Normalize. intros H. case_match; simplify_eq. apply length_fmap. Qed.
End distances.

(** ** Symmetry *)

Lemma DotProductScalar_comm a b : DotProductScalar a b = DotProductScalar b a.
Proof.
  unfold DotProductScalar. generalize f32_zero as acc. revert b.
  induction a as [|x a IH]; intros [|y b] acc; cbn; try done. by rewrite f32_mul_comm, IH.
Qed.

(** What a client of the dispatch table may rely on. *)
Class SymmetricDot (impl : DistanceFunctions) : Prop :=
  dot_product_comm a b : dot_product a b = dot_product b a.

#[export] Instance Scalar_symmetric : SymmetricDot Scalar.
Proof. exact DotProductScalar_comm. Qed.

(** For any implementation with a symmetric dot product the cosine and dot
    metrics are symmetric, cached norms give the same cosine, and a vector of
    near-zero norm has similarity zero with every vector. *)
Lemma cosine_laws (impl : DistanceFunctions) (Hdot : SymmetricDot impl) a b :
  CosineSimilarity a b = CosineSimilarity b a ∧
  DotProduct a b = DotProduct b a ∧
  (length a = length b → a ≠ [] →
    CosineSimilarityPreNorm a b (l2_norm a) (l2_norm b) = CosineSimilarity a b ∧
    GetDistanceFunc "cosine" a b = CosineSimilarity a b) ∧
  (f32_ltb (l2_norm a) kNormEpsilon = true → CosineSimilarity a b = f32_zero ∧ CosineSimilarity b a = f32_zero).
Proof.
  assert (Hu : unusable a b = unusable b a).
  { unfold unusable. destruct (Nat.eqb_spec (length a) (length b)) as [->|]; [by rewrite Nat.eqb_refl|].
    by destruct (Nat.eqb_spec (length b) (length a)). }
  split_and!.
  - unfold CosineSimilarity. by rewrite Hu, orb_comm, dot_product_comm, f32_mul_comm.
  - unfold DotProduct. by rewrite Hu, dot_product_comm.
  - intros Hl Hne. unfold CosineSimilarity, unusable. rewrite Hl, Nat.eqb_refl.
    destruct b; [by destruct a|]. done.
  - intros Hz. unfold CosineSimilarity. rewrite Hz, orb_true_r. by split; case_match.
Qed.

Lemma cosine_laws_witness :
  @CosineSimilarity Scalar [f32_of_Z 3; f32_of_Z 4] [f32_of_Z 4; f32_of_Z 3] =
  @CosineSimilarity Scalar [f32_of_Z 4; f32_of_Z 3] [f32_of_Z 3; f32_of_Z 4].
Proof. exact (proj1 (cosine_laws Scalar Scalar_symmetric _ _)). Defined.
