(* ===== verification/VectorStore.v ===== *)
(** * [vectors::VectorStore] (src/vectors/vector_store.h, vector_store.cpp)

    One contiguous matrix of rows with parallel arrays, a map from ids to rows,
    and tombstones for deleted rows, which are reused last-in first-out and
    squeezed out when they exceed a quarter of the rows.  Counters and indices
    are [nat]: they count objects in memory.  [SetVector] is written as its two
    critical phases, validation and the update under the lock, so that the
    theorems also cover a concurrent writer between them. *)

From S2P Require Import Prelude Floats Distance.
#[local] Open Scope Z_scope.

Definition kMaxVectorDimension : nat := 4096.

Record Vector : Type := MkVector { v_data : list Z; v_normalized : bool }.

Record VectorStore : Type := MkVectorStore {
  dimension_ : nat;
  generation_ : Z;
  matrix_ : list Z;
  norms_ : list Z;
  normalized_ : list bool;
  id_to_idx_ : gmap string nat;
  idx_to_id_ : list string;
  deleted_ : list bool;
  free_slots_ : list nat;        (* the back is the head *)
  active_count_ : nat;
  tombstone_count_ : nat
}.

Definition new : VectorStore := MkVectorStore 0 0 [] [] [] ∅ [] [] [] 0 0.

Definition bump (s : VectorStore) : VectorStore :=
  MkVectorStore (dimension_ s) (u64 (generation_ s + 1)) (matrix_ s) (norms_ s) (normalized_ s)
    (id_to_idx_ s) (idx_to_id_ s) (deleted_ s) (free_slots_ s) (active_count_ s) (tombstone_count_ s).

(** [std::copy(data.begin(), data.end(), m.begin() + off)] *)
Definition copy_at (off : nat) (data m : list Z) : list Z :=
  take off m ++ data ++ drop (off + length data) m.

(** The row [matrix_.data() + idx * dim]. *)
Definition row (dim : nat) (m : list Z) (idx : nat) : list Z := take dim (drop (idx * dim) m).

Section store.
Context {impl : DistanceFunctions}.

Definition ValidateVector (s : VectorStore) (vector_id : string) (vec : list Z) : Expected unit :=
  if bool_decide (vector_id = "") then throw kInvalidArgument "ID cannot be empty"
  else if bool_decide (vec = []) then throw kInvalidArgument "Vector cannot be empty"
  else if (kMaxVectorDimension <? length vec)%nat then
    throw kVectorDimensionMismatch ("Vector dimension exceeds maximum of " +:+ pretty kMaxVectorDimension)
  else if negb (forallb is_finite32 vec) then throw kInvalidArgument "Vector components must be finite"
  else if negb (is_finite32 (l2_norm vec)) then throw kInvalidArgument "Vector norm must be finite"
  else if (0 <? dimension_ s)%nat && negb (length vec =? dimension_ s)%nat then
    throw kVectorDimensionMismatch ("Vector dimension mismatch: expected " +:+ pretty (dimension_ s) +:+
      ", got " +:+ pretty (length vec))
  else Ok tt.

(** [SetVector] up to the lock: the components to store. *)
Definition PrepareVector (s : VectorStore) (vector_id : string) (vec : list Z) (normalize : bool)
    : Expected (list Z) :=
  let? _ := ValidateVector s vector_id vec in
  if normalize then
    match Normalize vec with
    | Some data => Ok data
    | None => throw kInvalidArgument "Cannot normalize zero vector"
    end
  else Ok vec.

(** The branches of [SetVector] under the lock. *)
Definition overwrite (idx dim : nat) (data : list Z) (normalize : bool) (s : VectorStore) : VectorStore :=
  MkVectorStore dim (generation_ s) (copy_at (idx * dim) data (matrix_ s)) (<[idx := l2_norm data]> (norms_ s))
    (<[idx := normalize]> (normalized_ s)) (id_to_idx_ s) (idx_to_id_ s) (deleted_ s) (free_slots_ s)
    (active_count_ s) (tombstone_count_ s).

Definition reuse_slot (idx : nat) (rest : list nat) (dim : nat) (vector_id : string) (data : list Z)
    (normalize : bool) (s : VectorStore) : VectorStore :=
  MkVectorStore dim (generation_ s) (copy_at (idx * dim) data (matrix_ s)) (<[idx := l2_norm data]> (norms_ s))
    (<[idx := normalize]> (normalized_ s)) (<[vector_id := idx]> (id_to_idx_ s))
    (<[idx := vector_id]> (idx_to_id_ s)) (<[idx := false]> (deleted_ s)) rest
    (S (active_count_ s)) (pred (tombstone_count_ s)).

Definition append_slot (dim : nat) (vector_id : string) (data : list Z) (normalize : bool)
    (s : VectorStore) : VectorStore :=
  let idx := length (idx_to_id_ s) in
  MkVectorStore dim (generation_ s) (copy_at (idx * dim) data (matrix_ s ++ replicate dim f32_zero))
    (norms_ s ++ [l2_norm data]) (normalized_ s ++ [normalize]) (<[vector_id := idx]> (id_to_idx_ s))
    (idx_to_id_ s ++ [vector_id]) (deleted_ s ++ [false]) (free_slots_ s)
    (S (active_count_ s)) (tombstone_count_ s).

Definition StoreVector (vector_id : string) (data : list Z) (normalize : bool) (s : VectorStore)
    : Expected unit * VectorStore :=
  let dim := if (dimension_ s =? 0)%nat then length data else dimension_ s in
  if negb (length data =? dim)%nat then
    (throw kVectorDimensionMismatch ("Vector dimension mismatch: expected " +:+ pretty dim +:+ ", got " +:+
      pretty (length data)), s)
  else
    (Ok tt, bump
      match id_to_idx_ s !! vector_id with
      | Some idx => overwrite idx dim data normalize s
      | None =>
          match free_slots_ s with
          | idx :: rest => reuse_slot idx rest dim vector_id data normalize s
          | [] => append_slot dim vector_id data normalize s
          end
      end).

Definition SetVector (vector_id : string) (vec : list Z) (normalize : bool) (s : VectorStore)
    : Expected unit * VectorStore :=
  match PrepareVector s vector_id vec normalize with
  | Unexpected e => (Unexpected e, s)
  | Ok data => StoreVector vector_id data normalize s
  end.

Definition GetVector (vector_id : string) (s : VectorStore) : option Vector :=
  idx ← id_to_idx_ s !! vector_id;
  if default false (deleted_ s !! idx) then None
  else Some (MkVector (row (dimension_ s) (matrix_ s) idx) (default false (normalized_ s !! idx))).

(** ** Defragmentation *)

Definition clear_rows (s : VectorStore) : VectorStore :=
  MkVectorStore (dimension_ s) (generation_ s) [] [] [] ∅ [] [] [] 0 0.

(** The arrays [DefragmentLocked] fills, and its [new_idx]. *)
Record Compact : Type := MkCompact {
  new_matrix : list Z;
  new_norms : list Z;
  new_normalized : list bool;
  new_id_to_idx : gmap string nat;
  new_idx_to_id : list string;
  new_idx : nat
}.

Definition copy_row (s : VectorStore) (c : Compact) (old_idx : nat) : Compact :=
  if default false (deleted_ s !! old_idx) then c
  else
    let id := default "" (idx_to_id_ s !! old_idx) in
    MkCompact (copy_at (new_idx c * dimension_ s) (row (dimension_ s) (matrix_ s) old_idx) (new_matrix c))
      (<[new_idx c := default 0 (norms_ s !! old_idx)]> (new_norms c))
      (<[new_idx c := default false (normalized_ s !! old_idx)]> (new_normalized c))
      (<[id := new_idx c]> (new_id_to_idx c)) (new_idx_to_id c ++ [id]) (S (new_idx c)).

Definition DefragmentLocked (s : VectorStore) : VectorStore :=
  if (dimension_ s =? 0)%nat || (active_count_ s =? 0)%nat then clear_rows s
  else
    let new_n := active_count_ s in
    let c := fold_left (copy_row s) (seq 0 (length (idx_to_id_ s)))
      (MkCompact (replicate (new_n * dimension_ s) f32_zero) (replicate new_n f32_zero)
        (replicate new_n false) ∅ [] 0) in
    MkVectorStore (dimension_ s) (generation_ s) (new_matrix c) (new_norms c) (new_normalized c)
      (new_id_to_idx c) (new_idx_to_id c) (replicate new_n false) [] (active_count_ s) 0.

Definition Defragment (s : VectorStore) : VectorStore := bump (DefragmentLocked s).

(** ** Deletion and the rest *)

Definition mark_deleted (vector_id : string) (idx : nat) (s : VectorStore) : VectorStore :=
  MkVectorStore (dimension_ s) (generation_ s) (matrix_ s) (norms_ s) (normalized_ s)
    (delete vector_id (id_to_idx_ s)) (idx_to_id_ s) (<[idx := true]> (deleted_ s))
    (idx :: free_slots_ s) (pred (active_count_ s)) (S (tombstone_count_ s)).

(** [DeleteVector]'s automatic defragmentation. *)
Definition auto_defragment (s : VectorStore) : VectorStore :=
  let total_slots := length (idx_to_id_ s) in
  if (0 <? total_slots)%nat && (total_slots <? tombstone_count_ s * 4)%nat
  then DefragmentLocked s else s.

Definition DeleteVector (vector_id : string) (s : VectorStore) : bool * VectorStore :=
  match id_to_idx_ s !! vector_id with
  | None => (false, s)
  | Some idx => (true, bump (auto_defragment (mark_deleted vector_id idx s)))
  end.

Definition HasVector (vector_id : string) (s : VectorStore) : bool :=
  bool_decide (is_Some (id_to_idx_ s !! vector_id)).

Definition GetAllIds {order : IterOrder} (s : VectorStore) : list string := (iter_order (id_to_idx_ s)).*1.

Definition GetVectorCount (s : VectorStore) : nat := active_count_ s.
Definition GetDimension (s : VectorStore) : nat := dimension_ s.

Definition Clear (s : VectorStore) : VectorStore :=
  MkVectorStore 0 (u64 (generation_ s + 1)) [] [] [] ∅ [] [] [] 0 0.

(** Both stores take the other's contents; each keeps and bumps its own generation. *)
Definition with_contents (s o : VectorStore) : VectorStore :=
  MkVectorStore (dimension_ o) (u64 (generation_ s + 1)) (matrix_ o) (norms_ o) (normalized_ o)
    (id_to_idx_ o) (idx_to_id_ o) (deleted_ o) (free_slots_ o) (active_count_ o) (tombstone_count_ o).
Definition SwapState (a b : VectorStore) : VectorStore * VectorStore := (with_contents a b, with_contents b a).

Definition GetCompactCount (s : VectorStore) : nat := length (idx_to_id_ s).
Definition GetMatrixRow (idx : nat) (s : VectorStore) : list Z := row (dimension_ s) (matrix_ s) idx.
Definition GetMatrixCount (s : VectorStore) : nat :=
  if (0 <? dimension_ s)%nat then (length (matrix_ s) / dimension_ s)%nat else 0%nat.
Definition GetNorm (idx : nat) (s : VectorStore) : option Z := norms_ s !! idx.
Definition GetIdByIndex (idx : nat) (s : VectorStore) : option string := idx_to_id_ s !! idx.
Definition GetCompactIndex (id : string) (s : VectorStore) : option nat := id_to_idx_ s !! id.
Definition IsDeleted (idx : nat) (s : VectorStore) : bool :=
  (idx <? length (deleted_ s))%nat && default false (deleted_ s !! idx).
End store.

(** ** Rows of the matrix *)

Lemma length_copy_at off data m : (off + length data ≤ length m)%nat → length (copy_at off data m) = length m.
Proof. intros. unfold copy_at. rewrite !length_app, length_take, length_drop. lia. Qed.

Lemma row_end i n dim : (i < n)%nat → (i * dim + dim ≤ n * dim)%nat.
Proof. intros. replace (i * dim + dim)%nat with (S i * dim)%nat by lia. apply Nat.mul_le_mono_r. lia. Qed.

Lemma length_row dim m i : (i * dim + dim ≤ length m)%nat → length (row dim m i) = dim.
Proof. intros. unfold row. rewrite length_take, length_drop. lia. Qed.

Lemma row_app dim m m' i : (i * dim + dim ≤ length m)%nat → row dim (m ++ m') i = row dim m i.
Proof.
  intros. unfold row. rewrite drop_app_le by lia. rewrite take_app_le; [done|]. rewrite length_drop. lia.
Qed.

Lemma row_copy_same dim m i data :
  length data = dim → (i * dim ≤ length m)%nat → row dim (copy_at (i * dim) data m) i = data.
Proof.
  intros Hd Hm. unfold row, copy_at. rewrite drop_app_length' by (rewrite length_take; lia).
  by rewrite take_app_length'.
Qed.

Lemma row_copy_other dim m i j data :
  length data = dim → (i * dim ≤ length m)%nat → i ≠ j → row dim (copy_at (i * dim) data m) j = row dim m j.
Proof.
  intros Hd Hm Hij. unfold row, copy_at. destruct (decide (i < j)%nat) as [Hlt|Hge].
  - pose proof (row_end i j dim Hlt) as Hend. rewrite (assoc_L (++)), drop_app_ge.
    + rewrite drop_drop, length_app, length_take. do 2 f_equal. lia.
    + rewrite length_app, length_take. lia.
  - pose proof (row_end j i dim ltac:(lia)) as Hend. rewrite drop_app_le by (rewrite length_take; lia).
    rewrite take_app_le by (rewrite length_drop, length_take; lia).
    apply list_eq. intros k. destruct (decide (k < dim)%nat); [|by rewrite !lookup_take_ge by lia].
    rewrite !lookup_take_lt, !lookup_drop by lia. by rewrite lookup_take_lt by lia.
Qed.

Lemma row_concat dim rows i r :
  Forall (λ r, length r = dim) rows → rows !! i = Some r → row dim (concat rows) i = r.
Proof.
  intros HF. revert i. induction HF as [|x rows Hx _ IH]; intros [|i] Hi; simplify_eq/=.
  - unfold row. cbn [concat Nat.mul]. by rewrite drop_0, take_app_length.
  - rewrite <- (IH i Hi). unfold row. cbn [concat Nat.mul]. by rewrite <- drop_drop, drop_app_length'.
Qed.

Lemma length_concat_rows dim (rows : list (list Z)) :
  Forall (λ r, length r = dim) rows → length (concat rows) = (length rows * dim)%nat.
Proof. induction 1 as [|x rows Hx _ IH]; [done|]. cbn. rewrite length_app, IH. lia. Qed.

(** Writing position [length pre] of an array whose tail is still blank. *)
Lemma fill_next {A} (pre : list A) (x d : A) n :
  <[length pre := x]> (pre ++ replicate (S n) d) = (pre ++ [x]) ++ replicate n d.
Proof. rewrite <- (Nat.add_0_r (length pre)), insert_app_r. cbn. by rewrite <- (assoc_L (++)). Qed.

Lemma fill_next_row dim rows r n (d : Z) :
  Forall (λ r, length r = dim) rows → length r = dim →
  copy_at (length rows * dim) r (concat rows ++ replicate (S n * dim) d) =
  concat (rows ++ [r]) ++ replicate (n * dim) d.
Proof.
  intros HF Hr. unfold copy_at. rewrite <- (length_concat_rows dim) by done.
  rewrite take_app_length, <- drop_drop, drop_app_length, drop_replicate, concat_app. cbn [concat].
  rewrite app_nil_r, <- (assoc_L (++)). do 3 f_equal. lia.
Qed.

(** ** The representation invariant and the abstraction *)

Section refinement.
Context {impl : DistanceFunctions}.

Record vs_ok (s : VectorStore) : Prop := MkVsOk {
  ok_matrix : length (matrix_ s) = (length (idx_to_id_ s) * dimension_ s)%nat;
  ok_normalized : length (normalized_ s) = length (idx_to_id_ s);
  ok_deleted : length (deleted_ s) = length (idx_to_id_ s);
  ok_dim : idx_to_id_ s ≠ [] → dimension_ s ≠ 0%nat;
  ok_index id i : id_to_idx_ s !! id = Some i ↔ idx_to_id_ s !! i = Some id ∧ deleted_ s !! i = Some false;
  ok_free_nodup : NoDup (free_slots_ s);
  ok_free i : i ∈ free_slots_ s ↔ deleted_ s !! i = Some true;
  ok_tombstones : tombstone_count_ s = length (free_slots_ s);
  ok_active : active_count_ s = size (id_to_idx_ s);
  ok_total : (active_count_ s + tombstone_count_ s = length (idx_to_id_ s))%nat;
  ok_norms : norms_ s = l2_norm <$> (row (dimension_ s) (matrix_ s) <$> seq 0 (length (idx_to_id_ s)))
}.

(** The id-to-vector map a store represents. *)
Definition vector_at (s : VectorStore) (i : nat) : Vector :=
  MkVector (row (dimension_ s) (matrix_ s) i) (default false (normalized_ s !! i)).
Definition vs_abs (s : VectorStore) : gmap string Vector := vector_at s <$> id_to_idx_ s.

Lemma norms_lookup (s : VectorStore) i :
  vs_ok s → (i < length (idx_to_id_ s))%nat → norms_ s !! i = Some (l2_norm (row (dimension_ s) (matrix_ s) i)).
Proof. intros Hok Hi. by rewrite (ok_norms s Hok), !list_lookup_fmap, lookup_seq_lt. Qed.

Lemma norms_ext n (f g : nat → list Z) :
  (∀ i, (i < n)%nat → f i = g i) → l2_norm <$> (f <$> seq 0 n) = l2_norm <$> (g <$> seq 0 n).
Proof.
  intros H. f_equal. apply list_fmap_ext. intros k x [-> Hx]%lookup_seq. by apply H.
Qed.

Lemma GetVector_abs (s : VectorStore) id : vs_ok s → GetVector id s = vs_abs s !! id.
Proof.
  intros Hok. unfold GetVector, vs_abs. rewrite lookup_fmap.
  destruct (id_to_idx_ s !! id) as [i|] eqn:Hi; [|done]. cbn.
  apply ok_index in Hi as [_ ->]; done.
Qed.

Lemma index_bound (s : VectorStore) id i : vs_ok s → id_to_idx_ s !! id = Some i → (i < length (idx_to_id_ s))%nat.
Proof. intros Hok [H _]%ok_index; [|done]. by apply lookup_lt_Some in H. Qed.

Lemma free_bound (s : VectorStore) i : vs_ok s → i ∈ free_slots_ s → (i < length (idx_to_id_ s))%nat.
Proof.
  intros Hok H%ok_free; [|done]. rewrite <- (ok_deleted s Hok). by apply lookup_lt_Some in H.
Qed.

Lemma index_inj (s : VectorStore) id id' i :
  vs_ok s → id_to_idx_ s !! id = Some i → id_to_idx_ s !! id' = Some i → id = id'.
Proof. intros Hok [H _]%ok_index [H' _]%ok_index; [|done..]. congruence. Qed.

Lemma bump_ok (s : VectorStore) : vs_ok s → vs_ok (bump s).
Proof. by intros []; constructor. Qed.

(** ** Storing a vector *)

Lemma norms_insert (s : VectorStore) idx data :
  vs_ok s → length data = dimension_ s → (idx < length (idx_to_id_ s))%nat →
  <[idx := l2_norm data]> (norms_ s) =
  l2_norm <$> (row (dimension_ s) (copy_at (idx * dimension_ s) data (matrix_ s)) <$>
    seq 0 (length (idx_to_id_ s))).
Proof.
  intros Hok Hd Hidx. pose proof (row_end _ _ (dimension_ s) Hidx) as Hend. rewrite <- (ok_matrix s Hok) in Hend.
  rewrite (ok_norms s Hok). apply list_eq. intros j. rewrite !list_lookup_fmap.
  destruct (decide (j < length (idx_to_id_ s))%nat) as [Hj|Hj].
  - destruct (decide (j = idx)) as [->|Hne].
    + rewrite list_lookup_insert_eq by (rewrite !length_fmap, length_seq; lia).
      rewrite lookup_seq_lt by done. cbn. by rewrite row_copy_same by lia.
    + rewrite list_lookup_insert_ne, !list_lookup_fmap, lookup_seq_lt by done. cbn.
      by rewrite row_copy_other by (done || lia).
  - rewrite lookup_seq_ge by lia. apply lookup_ge_None. rewrite length_insert, !length_fmap, length_seq. lia.
Qed.

Lemma vector_at_write (s s' : VectorStore) idx data nz j :
  vs_ok s → length data = dimension_ s → (idx < length (idx_to_id_ s))%nat →
  dimension_ s' = dimension_ s → matrix_ s' = copy_at (idx * dimension_ s) data (matrix_ s) →
  normalized_ s' = <[idx := nz]> (normalized_ s) →
  vector_at s' j = if decide (j = idx) then MkVector data nz else vector_at s j.
Proof.
  intros Hok Hd Hidx Hdim Hm Hn. unfold vector_at. rewrite Hdim, Hm, Hn.
  pose proof (row_end _ _ (dimension_ s) Hidx) as Hend. rewrite <- (ok_matrix s Hok) in Hend.
  destruct (decide (j = idx)) as [->|Hne].
  - rewrite row_copy_same by lia. by rewrite list_lookup_insert_eq by (rewrite (ok_normalized s Hok); done).
  - rewrite row_copy_other by (done || lia). by rewrite list_lookup_insert_ne.
Qed.

Lemma overwrite_ok (s : VectorStore) id idx data nz :
  vs_ok s → length data = dimension_ s → id_to_idx_ s !! id = Some idx →
  let s' := overwrite idx (dimension_ s) data nz s in
  vs_ok s' ∧ vs_abs s' = <[id := MkVector data nz]> (vs_abs s).
Proof.
  intros Hok Hd Hid s'. pose proof (index_bound _ _ _ Hok Hid) as Hidx. split.
  - pose proof (row_end _ _ (dimension_ s) Hidx) as Hend. rewrite <- (ok_matrix s Hok) in Hend.
    pose proof (norms_insert s idx data Hok Hd Hidx). destruct Hok; constructor; cbn; try done.
    + by rewrite length_copy_at by lia.
    + by rewrite length_insert.
  - apply map_eq. intros k. unfold vs_abs. rewrite lookup_fmap. cbn [id_to_idx_ s' overwrite].
    destruct (decide (k = id)) as [->|Hk].
    + rewrite lookup_insert_eq, Hid. cbn. f_equal.
      rewrite (vector_at_write s s' idx data nz) by done. by rewrite decide_True.
    + rewrite lookup_insert_ne, lookup_fmap by done. destruct (id_to_idx_ s !! k) as [i|] eqn:Hi; [|done].
      cbn. f_equal. rewrite (vector_at_write s s' idx data nz) by done.
      rewrite decide_False; [done|]. intros ->. by eapply Hk, index_inj.
Qed.

Lemma reuse_ok (s : VectorStore) id idx rest data nz :
  vs_ok s → length data = dimension_ s → id_to_idx_ s !! id = None → free_slots_ s = idx :: rest →
  let s' := reuse_slot idx rest (dimension_ s) id data nz s in
  vs_ok s' ∧ vs_abs s' = <[id := MkVector data nz]> (vs_abs s).
Proof.
  intros Hok Hd Hid Hfree s'.
  assert (Hin : idx ∈ free_slots_ s) by (rewrite Hfree; left).
  pose proof (free_bound _ _ Hok Hin) as Hidx. apply (ok_free s Hok) in Hin as Hdel.
  assert (Hother : ∀ k i, id_to_idx_ s !! k = Some i → i ≠ idx).
  { intros k i [_ Hf]%(ok_index s Hok) ->. congruence. }
  pose proof (row_end _ _ (dimension_ s) Hidx) as Hend. rewrite <- (ok_matrix s Hok) in Hend.
  pose proof (norms_insert s idx data Hok Hd Hidx) as Hn. split.
  - pose proof (ok_free_nodup s Hok) as Hnd. rewrite Hfree in Hnd. apply NoDup_cons in Hnd as [Hnot Hnd].
    pose proof (ok_tombstones s Hok) as Ht. rewrite Hfree in Ht. cbn in Ht.
    pose proof (ok_total s Hok) as Htot. constructor; cbn.
    + rewrite length_copy_at, length_insert by lia. apply Hok.
    + rewrite !length_insert. apply Hok.
    + rewrite !length_insert. apply Hok.
    + intros _. apply (ok_dim s Hok). intros E. rewrite E in Hidx. cbn in Hidx. lia.
    + intros k i. destruct (decide (k = id)) as [->|Hk].
      * rewrite lookup_insert_eq. destruct (decide (i = idx)) as [->|Hi].
        -- rewrite !list_lookup_insert_eq by (rewrite ?(ok_deleted s Hok); done). done.
        -- rewrite !list_lookup_insert_ne by done. rewrite <- (ok_index s Hok). split; congruence.
      * rewrite lookup_insert_ne by done. destruct (decide (i = idx)) as [->|Hi].
        -- rewrite list_lookup_insert_eq by done. split; [by intros ?%Hother|intros [[=] _]; congruence].
        -- rewrite !list_lookup_insert_ne by done. apply (ok_index s Hok).
    + done.
    + intros i. destruct (decide (i = idx)) as [->|Hi].
      * rewrite list_lookup_insert_eq by (rewrite (ok_deleted s Hok); done). split; [done|congruence].
      * rewrite list_lookup_insert_ne, <- (ok_free s Hok), Hfree by done. set_solver.
    + by rewrite Ht.
    + rewrite map_size_insert_None by done. by rewrite (ok_active s Hok).
    + rewrite length_insert. lia.
    + by rewrite length_insert.
  - apply map_eq. intros k. unfold vs_abs. rewrite lookup_fmap. cbn [id_to_idx_ s' reuse_slot].
    destruct (decide (k = id)) as [->|Hk].
    + rewrite !lookup_insert_eq. cbn. f_equal.
      rewrite (vector_at_write s s' idx data nz) by done. by rewrite decide_True.
    + rewrite !lookup_insert_ne, lookup_fmap by done. destruct (id_to_idx_ s !! k) as [i|] eqn:Hi; [|done].
      cbn. f_equal. rewrite (vector_at_write s s' idx data nz) by done.
      rewrite decide_False; [done|]. by eapply Hother.
Qed.

Lemma append_matrix (s : VectorStore) data :
  vs_ok s → length data = dimension_ s →
  copy_at (length (idx_to_id_ s) * dimension_ s) data (matrix_ s ++ replicate (dimension_ s) f32_zero) =
  matrix_ s ++ data.
Proof.
  intros Hok Hd. unfold copy_at. rewrite <- (ok_matrix s Hok), take_app_length, <- drop_drop, drop_app_length.
  rewrite drop_ge by (rewrite length_replicate; lia). by rewrite app_nil_r.
Qed.

Lemma row_last (s : VectorStore) data :
  vs_ok s → length data = dimension_ s →
  row (dimension_ s) (matrix_ s ++ data) (length (idx_to_id_ s)) = data.
Proof.
  intros Hok Hd. unfold row. rewrite <- (ok_matrix s Hok), drop_app_length.
  by rewrite take_ge by lia.
Qed.

Lemma append_ok (s : VectorStore) id data nz :
  vs_ok s → length data = dimension_ s → dimension_ s ≠ 0%nat →
  id_to_idx_ s !! id = None → free_slots_ s = [] →
  let s' := append_slot (dimension_ s) id data nz s in
  vs_ok s' ∧ vs_abs s' = <[id := MkVector data nz]> (vs_abs s).
Proof.
  intros Hok Hd Hdim Hid Hfree s'.
  assert (Hm : matrix_ s' = matrix_ s ++ data) by (by apply append_matrix).
  assert (Hold : ∀ i, (i < length (idx_to_id_ s))%nat →
    row (dimension_ s) (matrix_ s') i = row (dimension_ s) (matrix_ s) i).
  { intros i Hi. rewrite Hm. apply row_app. rewrite (ok_matrix s Hok). by apply row_end. }
  pose proof (ok_total s Hok) as Htot. split.
  - constructor.
    + rewrite Hm. cbn. rewrite !length_app, (ok_matrix s Hok). cbn. lia.
    + cbn. rewrite !length_app, (ok_normalized s Hok). done.
    + cbn. rewrite !length_app, (ok_deleted s Hok). done.
    + done.
    + intros k i. cbn. destruct (decide (k = id)) as [->|Hk].
      * rewrite lookup_insert_eq. destruct (decide (i = length (idx_to_id_ s))) as [->|Hi].
        -- rewrite list_lookup_middle by done. rewrite <- (ok_deleted s Hok), list_lookup_middle; done.
        -- split; [congruence|]. intros [H1 H2]. exfalso.
           apply lookup_snoc_Some in H1 as [[_ H1]|[-> _]]; [|done].
           apply lookup_snoc_Some in H2 as [[_ H2]|[H2 _]]; [|by rewrite (ok_deleted s Hok) in H2].
           pose proof (proj2 (ok_index s Hok id i) (conj H1 H2)). congruence.
      * rewrite lookup_insert_ne, (ok_index s Hok) by done. rewrite !lookup_snoc_Some, (ok_deleted s Hok).
        split; [intros [H1 H2]; pose proof (lookup_lt_Some _ _ _ H1); auto|].
        intros [[[? ?]|[-> ->]] [[? ?]|[? ?]]]; done || lia.
    + cbn. rewrite Hfree. apply NoDup_nil_2.
    + intros i. cbn. rewrite Hfree, lookup_snoc_Some.
      split; [by intros ?%elem_of_nil|]. intros [[_ H]|[_ H]]; [|done].
      apply (ok_free s Hok) in H. by rewrite Hfree in H.
    + apply (ok_tombstones s Hok).
    + cbn. rewrite map_size_insert_None by done. by rewrite (ok_active s Hok).
    + cbn. rewrite length_app. cbn. lia.
    + change (idx_to_id_ s') with (idx_to_id_ s ++ [id]). change (norms_ s') with (norms_ s ++ [l2_norm data]).
      rewrite length_app, Nat.add_1_r, seq_S, !fmap_app, (ok_norms s Hok). cbn [fmap list_fmap Nat.add].
      f_equal; [apply norms_ext; intros i Hi; symmetry; by apply Hold|].
      change (dimension_ s') with (dimension_ s). rewrite Hm. by rewrite row_last.
  - apply map_eq. intros k. unfold vs_abs. rewrite lookup_fmap. cbn [id_to_idx_ s' append_slot].
    destruct (decide (k = id)) as [->|Hk].
    + rewrite !lookup_insert_eq. cbn [fmap option_fmap option_map]. unfold vector_at. rewrite Hm.
      change (dimension_ s') with (dimension_ s). rewrite row_last by done.
      cbn. rewrite <- (ok_normalized s Hok). by rewrite list_lookup_middle.
    + rewrite !lookup_insert_ne, lookup_fmap by done. destruct (id_to_idx_ s !! k) as [i|] eqn:Hi; [|done].
      pose proof (index_bound _ _ _ Hok Hi) as Hlt.
      cbn [fmap option_fmap option_map]. unfold vector_at. change (dimension_ s') with (dimension_ s).
      rewrite Hold by done. cbn. rewrite lookup_app_l; [done|]. by rewrite (ok_normalized s Hok).
Qed.

(** An empty store may take any dimension. *)
Definition with_dimension (dim : nat) (s : VectorStore) : VectorStore :=
  MkVectorStore dim (generation_ s) (matrix_ s) (norms_ s) (normalized_ s) (id_to_idx_ s) (idx_to_id_ s)
    (deleted_ s) (free_slots_ s) (active_count_ s) (tombstone_count_ s).

Lemma no_rows (s : VectorStore) : vs_ok s → dimension_ s = 0%nat → idx_to_id_ s = [].
Proof. intros Hok H. destruct (idx_to_id_ s) eqn:E; [done|]. destruct (ok_dim s Hok); [by rewrite E|done]. Qed.

Lemma with_dimension_ok (s : VectorStore) dim :
  vs_ok s → dimension_ s = 0%nat →
  vs_ok (with_dimension dim s) ∧ vs_abs (with_dimension dim s) = vs_abs s ∧
  id_to_idx_ s = ∅ ∧ free_slots_ s = [].
Proof.
  intros Hok H0. pose proof (no_rows s Hok H0) as Hn.
  pose proof (ok_total s Hok) as Htot. rewrite Hn in Htot. cbn in Htot.
  assert (Hempty : id_to_idx_ s = ∅) by (apply map_size_empty_iff; pose proof (ok_active s Hok); lia).
  split_and!; [|by unfold vs_abs; cbn; rewrite Hempty, !fmap_empty|done|].
  - pose proof (ok_matrix s Hok) as Hm. pose proof (ok_norms s Hok) as Hnorm.
    destruct Hok; constructor; cbn; try done; [|].
    + rewrite Hm, Hn. done.
    + rewrite Hnorm, Hn. done.
  - apply length_zero_iff_nil. pose proof (ok_tombstones s Hok). lia.
Qed.

Lemma StoreVector_ok (s s' : VectorStore) id data nz :
  vs_ok s → data ≠ [] → StoreVector id data nz s = (Ok tt, s') →
  vs_ok s' ∧ vs_abs s' = <[id := MkVector data nz]> (vs_abs s) ∧ dimension_ s' = length data.
Proof.
  intros Hok Hne. unfold StoreVector. destruct (Nat.eqb_spec (dimension_ s) 0) as [H0|Hdim].
  - rewrite Nat.eqb_refl. cbn [negb]. intros [= <-].
    destruct (with_dimension_ok s (length data) Hok H0) as (Hok' & Habs & Hidx & Hfree).
    rewrite Hidx, Hfree, lookup_empty.
    change (append_slot (length data) id data nz s) with
      (append_slot (dimension_ (with_dimension (length data) s)) id data nz (with_dimension (length data) s)).
    destruct (append_ok (with_dimension (length data) s) id data nz Hok') as [Hres Hres'];
      [done|by destruct data|by cbn; rewrite Hidx|done|].
    split_and!; [by apply bump_ok| |done]. rewrite <- Habs, <- Hres'. done.
  - destruct (Nat.eqb_spec (length data) (dimension_ s)) as [Hd|]; [|done]. cbn [negb]. intros [= <-].
    destruct (id_to_idx_ s !! id) as [idx|] eqn:Hid; [|destruct (free_slots_ s) as [|idx rest] eqn:Hfree].
    + destruct (overwrite_ok s id idx data nz) as [Hres Hres']; [done..|].
      split_and!; [by apply bump_ok|exact Hres'|done].
    + destruct (append_ok s id data nz) as [Hres Hres']; [done..|].
      split_and!; [by apply bump_ok|exact Hres'|done].
    + destruct (reuse_ok s id idx rest data nz) as [Hres Hres']; [done..|].
      split_and!; [by apply bump_ok|exact Hres'|done].
Qed.

(** ** Deleting *)

Lemma mark_deleted_ok (s : VectorStore) id idx :
  vs_ok s → id_to_idx_ s !! id = Some idx →
  vs_ok (mark_deleted id idx s) ∧ vs_abs (mark_deleted id idx s) = delete id (vs_abs s).
Proof.
  intros Hok Hid. pose proof (index_bound _ _ _ Hok Hid) as Hidx.
  pose proof (proj1 (ok_index s Hok id idx) Hid) as [Hname Hdel].
  split; [|unfold vs_abs; cbn [id_to_idx_ mark_deleted]; by rewrite fmap_delete].
  pose proof (ok_total s Hok) as Htot. pose proof (ok_active s Hok) as Hact.
  assert (Hsize : size (delete id (id_to_idx_ s)) = pred (size (id_to_idx_ s)))
    by (apply map_size_delete_Some; by eexists).
  assert (Hpos : size (id_to_idx_ s) ≠ 0%nat) by (rewrite map_size_non_empty_iff; intros E; by rewrite E in Hid).
  constructor; cbn; try apply Hok.
  - by rewrite length_insert, (ok_deleted s Hok).
  - intros k i. rewrite lookup_delete_Some, (ok_index s Hok). split.
    + intros (Hk & Hki & Hf). split; [done|]. rewrite list_lookup_insert_ne; [done|].
      intros <-. congruence.
    + intros [Hki Hf]. destruct (decide (i = idx)) as [->|Hne].
      * rewrite list_lookup_insert_eq in Hf by (by rewrite (ok_deleted s Hok)). done.
      * rewrite list_lookup_insert_ne in Hf by done. split; [|done]. intros <-.
        pose proof (proj2 (ok_index s Hok id i) (conj Hki Hf)). congruence.
  - apply NoDup_cons. split; [|apply Hok]. intros Hin%(ok_free s Hok). congruence.
  - intros i. rewrite elem_of_cons, (ok_free s Hok). destruct (decide (i = idx)) as [->|Hne].
    + rewrite list_lookup_insert_eq by (by rewrite (ok_deleted s Hok)). split; auto.
    + rewrite list_lookup_insert_ne by done. naive_solver.
  - by rewrite (ok_tombstones s Hok).
  - by rewrite Hsize, Hact.
  - lia.
Qed.

(** ** Defragmentation *)

Definition live (s : VectorStore) : list nat :=
  filter (λ i, deleted_ s !! i = Some false) (seq 0 (length (idx_to_id_ s))).

Lemma elem_of_live (s : VectorStore) i : vs_ok s → i ∈ live s ↔ deleted_ s !! i = Some false.
Proof.
  intros Hok. unfold live. rewrite list_elem_of_filter, elem_of_seq. split; [by intros []|].
  intros H. split; [done|]. apply lookup_lt_Some in H. rewrite (ok_deleted s Hok) in H. lia.
Qed.

Lemma length_live (s : VectorStore) : vs_ok s → length (live s) = active_count_ s.
Proof.
  intros Hok.
  assert (Hp : live s ++ free_slots_ s ≡ₚ seq 0 (length (idx_to_id_ s))).
  { apply NoDup_Permutation; [|apply NoDup_seq|].
    - apply NoDup_app. split_and!; [apply NoDup_filter, NoDup_seq| |apply Hok].
      intros i H1%elem_of_live H2%(ok_free s Hok); [congruence|done].
    - intros i. rewrite elem_of_app, elem_of_live, (ok_free s Hok), elem_of_seq by done. split.
      + rewrite <- (ok_deleted s Hok). intros [H|H]; apply lookup_lt_Some in H; lia.
      + intros [_ Hi]. rewrite <- (ok_deleted s Hok) in Hi.
        apply lookup_lt_is_Some in Hi as [[] ->]; auto. }
  apply Permutation_length in Hp. rewrite length_app, length_seq in Hp.
  pose proof (ok_total s Hok). pose proof (ok_tombstones s Hok). lia.
Qed.

Lemma fold_copy_row (s : VectorStore) n c : vs_ok s → n = length (idx_to_id_ s) →
  fold_left (copy_row s) (seq 0 n) c = fold_left (copy_row s) (live s) c.
Proof.
  intros Hok ->. unfold live. pose proof (ok_deleted s Hok) as Hlen.
  assert (HF : Forall (λ i, (i < length (deleted_ s))%nat) (seq 0 (length (idx_to_id_ s)))).
  { apply Forall_forall. intros i Hi%elem_of_seq. lia. }
  revert c HF. generalize (seq 0 (length (idx_to_id_ s))) as l.
  induction l as [|i l IH]; intros c HF; [done|]. apply Forall_cons in HF as [Hi HF].
  apply lookup_lt_is_Some in Hi as [b Hb]. rewrite filter_cons. cbn [fold_left].
  unfold copy_row at 2. rewrite Hb. destruct b; cbn [default].
  - rewrite decide_False by done. by apply IH.
  - rewrite decide_True by done. cbn [fold_left]. rewrite IH by done. f_equal. unfold copy_row. by rewrite Hb.
Qed.

Definition name (s : VectorStore) (i : nat) : string := default "" (idx_to_id_ s !! i).
Definition old_norm (s : VectorStore) (i : nat) : Z := default 0 (norms_ s !! i).
Definition old_normalized (s : VectorStore) (i : nat) : bool := default false (normalized_ s !! i).
Definition old_row (s : VectorStore) (i : nat) : list Z := row (dimension_ s) (matrix_ s) i.

(** The arrays after the rows [l] were copied. *)
Record filled (s : VectorStore) (N : nat) (l : list nat) (c : Compact) : Prop := MkFilled {
  f_matrix : new_matrix c = concat (old_row s <$> l) ++ replicate ((N - length l) * dimension_ s) f32_zero;
  f_norms : new_norms c = (old_norm s <$> l) ++ replicate (N - length l) f32_zero;
  f_normalized : new_normalized c = (old_normalized s <$> l) ++ replicate (N - length l) false;
  f_names : new_idx_to_id c = name s <$> l;
  f_index id i : new_id_to_idx c !! id = Some i ↔ (name s <$> l) !! i = Some id;
  f_size : size (new_id_to_idx c) = length l;
  f_idx : new_idx c = length l
}.

Lemma live_rows (s : VectorStore) l :
  vs_ok s → l ⊆ live s → Forall (λ r, length r = dimension_ s) (old_row s <$> l).
Proof.
  intros Hok Hl. apply Forall_fmap, Forall_forall. intros i Hi%Hl%elem_of_live; [|done]. cbn.
  apply lookup_lt_Some in Hi. rewrite (ok_deleted s Hok) in Hi.
  apply length_row. rewrite (ok_matrix s Hok). by apply row_end.
Qed.

Lemma filled_step (s : VectorStore) N l i c :
  vs_ok s → l ++ [i] ⊆ live s → (S (length l) ≤ N)%nat → name s i ∉ name s <$> l →
  filled s N l c → filled s N (l ++ [i]) (copy_row s c i).
Proof.
  intros Hok Hl HN Hfresh [Hm Hn Hz Hnames Hindex Hsize Hidx].
  assert (Hi : deleted_ s !! i = Some false) by (apply elem_of_live; [done|]; apply Hl; set_solver).
  pose proof (live_rows s _ Hok Hl) as Hrows. rewrite fmap_app, Forall_app in Hrows. destruct Hrows as [Hrows Hrow].
  apply Forall_inv in Hrow.
  assert (Hnone : new_id_to_idx c !! name s i = None).
  { destruct (new_id_to_idx c !! name s i) as [k|] eqn:Hk; [|done]. apply Hindex in Hk.
    by apply list_elem_of_lookup_2 in Hk. }
  destruct (N - length l)%nat as [|n] eqn:EN; [lia|].
  unfold copy_row. rewrite Hi. cbn [default]. fold (name s i) (old_row s i) (old_norm s i) (old_normalized s i).
  constructor; cbn; rewrite ?length_app, ?fmap_app, ?Hidx; cbn [fmap list_fmap length].
  - rewrite Hm. replace (N - (length l + 1))%nat with n by lia.
    rewrite <- (length_fmap (old_row s) l). by apply fill_next_row.
  - rewrite Hn. replace (N - (length l + 1))%nat with n by lia.
    rewrite <- (length_fmap (old_norm s) l). apply fill_next.
  - rewrite Hz. replace (N - (length l + 1))%nat with n by lia.
    rewrite <- (length_fmap (old_normalized s) l). apply fill_next.
  - by rewrite Hnames.
  - intros id k. rewrite lookup_snoc_Some, <- Hindex, length_fmap. destruct (decide (id = name s i)) as [->|Hne].
    + rewrite lookup_insert_eq, Hnone. naive_solver.
    + rewrite lookup_insert_ne by done. split; [|naive_solver]. intros Hk. left. split; [|done].
      apply Hindex, lookup_lt_Some in Hk. by rewrite length_fmap in Hk.
  - rewrite map_size_insert_None by done. lia.
  - lia.
Qed.

Lemma live_names (s : VectorStore) i :
  vs_ok s → i ∈ live s → id_to_idx_ s !! name s i = Some i.
Proof.
  intros Hok Hi%elem_of_live; [|done]. apply (ok_index s Hok). split; [|done].
  pose proof (lookup_lt_Some _ _ _ Hi) as Hlt. rewrite (ok_deleted s Hok) in Hlt.
  apply lookup_lt_is_Some in Hlt as [id Hid]. unfold name. by rewrite Hid.
Qed.

Lemma live_names_NoDup (s : VectorStore) : vs_ok s → NoDup (name s <$> live s).
Proof.
  intros Hok. apply NoDup_fmap_2_strong; [|apply NoDup_filter, NoDup_seq].
  intros i j Hi%live_names Hj%live_names E; [|done..]. rewrite E in Hi. congruence.
Qed.

Lemma filled_fold (s : VectorStore) todo : ∀ l c,
  vs_ok s → l ++ todo = live s → filled s (length (live s)) l c →
  filled s (length (live s)) (live s) (fold_left (copy_row s) todo c).
Proof.
  induction todo as [|i todo IH]; intros l c Hok El Hf; cbn [fold_left].
  - rewrite app_nil_r in El. by subst l.
  - pose proof (live_names_NoDup s Hok) as Hnd. rewrite <- El, fmap_app, fmap_cons in Hnd.
    apply (IH (l ++ [i])); [done|by rewrite <- (assoc_L (++))|]. apply filled_step; [done|..|done].
    + rewrite <- El. intros x. rewrite !elem_of_app, elem_of_cons. set_solver.
    + rewrite <- El, length_app. cbn. lia.
    + apply NoDup_app in Hnd as (_ & Hnd & _). intros Hin. apply (Hnd _ Hin). left.
Qed.

Lemma clear_rows_ok (s : VectorStore) : vs_ok (clear_rows s).
Proof. constructor; cbn; try done; [set_solver|apply NoDup_nil_2|set_solver]. Qed.

(** What the loop ends with: the live rows, in order. *)
Definition compacted (s : VectorStore) (c : Compact) : VectorStore :=
  MkVectorStore (dimension_ s) (generation_ s) (new_matrix c) (new_norms c) (new_normalized c)
    (new_id_to_idx c) (new_idx_to_id c) (replicate (length (live s)) false) [] (length (live s)) 0.

Lemma compacted_row (s : VectorStore) c k i :
  vs_ok s → filled s (length (live s)) (live s) c → live s !! k = Some i →
  row (dimension_ s) (new_matrix c) k = old_row s i.
Proof.
  intros Hok Hf Hk. rewrite (f_matrix _ _ _ _ Hf), Nat.sub_diag. cbn [replicate Nat.mul].
  rewrite app_nil_r. apply row_concat; [by apply live_rows|]. by rewrite list_lookup_fmap, Hk.
Qed.

Lemma compacted_ok (s : VectorStore) c :
  vs_ok s → dimension_ s ≠ 0%nat → filled s (length (live s)) (live s) c → vs_ok (compacted s c).
Proof.
  intros Hok Hdim Hf. pose proof (compacted_row s c) as Hrow. destruct (Hf) as [Hm Hn Hz Hnames Hindex Hsize Hidx].
  rewrite Nat.sub_diag in Hm, Hn, Hz. cbn [replicate Nat.mul] in Hm, Hn, Hz. rewrite app_nil_r in Hm, Hn, Hz.
  constructor; cbn.
  - rewrite Hm, Hnames, (length_concat_rows (dimension_ s)) by (by apply live_rows). by rewrite !length_fmap.
  - by rewrite Hz, Hnames, !length_fmap.
  - by rewrite Hnames, length_replicate, length_fmap.
  - done.
  - intros id k. rewrite Hindex, Hnames. split; [|by intros []]. intros Hk. split; [done|].
    apply lookup_replicate. apply lookup_lt_Some in Hk. by rewrite length_fmap in Hk.
  - apply NoDup_nil_2.
  - intros k. rewrite lookup_replicate. split; [by intros ?%elem_of_nil|by intros []].
  - done.
  - done.
  - rewrite Hnames, length_fmap. lia.
  - rewrite Hn, Hnames, length_fmap. apply list_eq. intros k. rewrite !list_lookup_fmap.
    destruct (live s !! k) as [i|] eqn:Hk.
    + rewrite lookup_seq_lt by (by eapply lookup_lt_Some). cbn. rewrite (Hrow k i Hok Hf Hk).
      unfold old_norm. rewrite norms_lookup; [done..|].
      apply list_elem_of_lookup_2, (elem_of_live s i Hok), lookup_lt_Some in Hk.
      by rewrite (ok_deleted s Hok) in Hk.
    + rewrite lookup_seq_ge; [done|]. by apply lookup_ge_None.
Qed.

Lemma compacted_abs (s : VectorStore) c :
  vs_ok s → filled s (length (live s)) (live s) c → vs_abs (compacted s c) = vs_abs s.
Proof.
  intros Hok Hf. pose proof (compacted_row s c) as Hrow. destruct (Hf) as [Hm Hn Hz Hnames Hindex Hsize Hidx].
  apply map_eq. intros id. unfold vs_abs. rewrite !lookup_fmap. cbn [id_to_idx_ compacted].
  destruct (new_id_to_idx c !! id) as [k|] eqn:Hk.
  - apply Hindex in Hk. rewrite list_lookup_fmap in Hk. destruct (live s !! k) as [i|] eqn:Hi; simplify_eq/=.
    rewrite (live_names s i Hok) by (by eapply list_elem_of_lookup_2). cbn. f_equal. unfold vector_at.
    cbn [dimension_ matrix_ normalized_ compacted]. rewrite (Hrow k i) by done. f_equal.
    rewrite Hz, Nat.sub_diag. cbn [replicate]. by rewrite app_nil_r, list_lookup_fmap, Hi.
  - destruct (id_to_idx_ s !! id) as [i|] eqn:Hi; [|done]. exfalso.
    pose proof (proj1 (ok_index s Hok id i) Hi) as [Hname Hdel].
    apply (elem_of_live s i Hok), list_elem_of_lookup_1 in Hdel as [k Hki].
    assert (Hsome : new_id_to_idx c !! id = Some k).
    { apply Hindex. rewrite list_lookup_fmap, Hki. cbn. unfold name. by rewrite Hname. }
    congruence.
Qed.

Lemma DefragmentLocked_ok (s : VectorStore) :
  vs_ok s → vs_ok (DefragmentLocked s) ∧ vs_abs (DefragmentLocked s) = vs_abs s.
Proof.
  intros Hok. unfold DefragmentLocked.
  destruct ((dimension_ s =? 0)%nat || (active_count_ s =? 0)%nat) eqn:Hempty.
  { split; [apply clear_rows_ok|].
    assert (id_to_idx_ s = ∅) as Hnone.
    { apply map_size_empty_iff. rewrite <- (ok_active s Hok). apply orb_true_iff in Hempty as [H|H].
      - apply Nat.eqb_eq in H. pose proof (no_rows s Hok H) as Hn. pose proof (ok_total s Hok) as Ht.
        rewrite Hn in Ht. cbn in Ht. lia.
      - by apply Nat.eqb_eq. }
    unfold vs_abs. cbn. by rewrite Hnone, !fmap_empty. }
  apply orb_false_iff in Hempty as [Hdim _]. apply Nat.eqb_neq in Hdim.
  set (c0 := MkCompact _ _ _ _ _ _). rewrite (fold_copy_row s _ c0 Hok eq_refl).
  assert (Hf : filled s (length (live s)) (live s) (fold_left (copy_row s) (live s) c0)).
  { apply (filled_fold s (live s) []); [done..|]. unfold c0. rewrite <- (length_live s Hok).
    constructor; cbn; rewrite ?Nat.sub_0_r; try done. }
  rewrite <- (length_live s Hok). split; [by apply compacted_ok|by apply compacted_abs].
Qed.

Lemma auto_defragment_ok (s : VectorStore) :
  vs_ok s → vs_ok (auto_defragment s) ∧ vs_abs (auto_defragment s) = vs_abs s ∧
  (tombstone_count_ (auto_defragment s) * 4 ≤ length (idx_to_id_ (auto_defragment s)))%nat ∧
  dimension_ (auto_defragment s) = dimension_ s.
Proof.
  intros Hok. unfold auto_defragment. destruct (DefragmentLocked_ok s Hok) as [Hok2 Habs2].
  pose proof (ok_total s Hok).
  destruct (Nat.ltb_spec 0 (length (idx_to_id_ s))); cbn [andb];
    [destruct (Nat.ltb_spec (length (idx_to_id_ s)) (tombstone_count_ s * 4))|]; split_and!; try done; try lia.
  - unfold DefragmentLocked. case_match; cbn; lia.
  - unfold DefragmentLocked. by case_match.
Qed.

Lemma DeleteVector_ok (s s' : VectorStore) id b :
  vs_ok s → DeleteVector id s = (b, s') →
  vs_ok s' ∧ vs_abs s' = delete id (vs_abs s) ∧ b = HasVector id s ∧
  (b = true → (tombstone_count_ s' * 4 ≤ length (idx_to_id_ s'))%nat) ∧ dimension_ s' = dimension_ s.
Proof.
  intros Hok. unfold DeleteVector, HasVector. destruct (id_to_idx_ s !! id) as [idx|] eqn:Hid.
  - intros E. injection E as <- <-. destruct (mark_deleted_ok s id idx Hok Hid) as [Hok1 Habs1].
    destruct (auto_defragment_ok _ Hok1) as (Hok2 & Habs2 & Hfrag & Hdim).
    split_and!; [by apply bump_ok|by rewrite <- Habs1, <- Habs2|done|by intros _|exact Hdim].
  - intros [= <- <-]. split_and!; try done. rewrite delete_id; [done|]. unfold vs_abs. by rewrite lookup_fmap, Hid.
Qed.

Lemma StoreVector_fragmentation (s s' : VectorStore) id data nz r :
  (tombstone_count_ s * 4 ≤ length (idx_to_id_ s))%nat → StoreVector id data nz s = (r, s') →
  (tombstone_count_ s' * 4 ≤ length (idx_to_id_ s'))%nat.
Proof.
  intros Hfrag. unfold StoreVector. case_match; case_match; intros [= <- <-]; try done;
    repeat case_match; cbn; rewrite ?length_insert, ?length_app; cbn; lia.
Qed.

Lemma PrepareVector_length (s : VectorStore) id vec nz data :
  PrepareVector s id vec nz = Ok data → data ≠ [] ∧ (length data ≤ kMaxVectorDimension)%nat ∧ id ≠ "".
Proof.
  unfold PrepareVector, ValidateVector.
  case_bool_decide; [done|]. case_bool_decide as Hne; [done|].
  destruct (Nat.ltb_spec kMaxVectorDimension (length vec)) as [|Hle]; [done|].
  repeat case_match; cbn [expected_bind]; try done; intros [= <-]; try (by auto);
    match goal with H : Normalize _ = Some _ |- _ => apply length_Normalize in H as Hl end;
    (split_and!; [intros ->; by destruct vec|lia|done]).
Qed.

(** ** Histories: the update of [SetVector] may have been validated against any
    earlier store, so other writers may run in between. *)

Inductive vs_reachable : VectorStore → Prop :=
| vs_new : vs_reachable new
| vs_set s0 id vec nz data s r s' :
    vs_reachable s → PrepareVector s0 id vec nz = Ok data → StoreVector id data nz s = (r, s') →
    vs_reachable s'
| vs_delete s id : vs_reachable s → vs_reachable (DeleteVector id s).2
| vs_defragment s : vs_reachable s → vs_reachable (Defragment s)
| vs_clear s : vs_reachable s → vs_reachable (Clear s)
| vs_swap s o : vs_reachable s → vs_reachable o → vs_reachable (SwapState s o).1.

(** A store's counters and dimension stay in bounds. *)
Definition vs_bounded (s : VectorStore) : Prop :=
  (tombstone_count_ s * 4 ≤ length (idx_to_id_ s))%nat ∧ (dimension_ s ≤ kMaxVectorDimension)%nat.

Lemma StoreVector_cases (s s' : VectorStore) id data nz r :
  StoreVector id data nz s = (r, s') → r = Ok tt ∨ s' = s.
Proof. unfold StoreVector. case_match; case_match; intros [= <- <-]; auto. Qed.

Lemma with_contents_ok (s o : VectorStore) : vs_ok o → vs_ok (with_contents s o).
Proof. by intros []; constructor. Qed.

(** Every store reached by any interleaving of operations, with [SetVector]
    validated against a store that other writers may have changed since, is
    well-formed: ids and live rows correspond one to one, the free list holds
    exactly the tombstones, the counters are right, every row has the store's
    dimension and its cached norm; tombstones are at most a quarter of the rows
    and the dimension is at most 4096. *)
Lemma vector_store_invariant (s : VectorStore) : vs_reachable s → vs_ok s ∧ vs_bounded s.
Proof.
  unfold vs_bounded.
  induction 1 as [|s0 id vec nz data s r s' _ [IH [IHf IHd]] Hp Hs|s id _ [IH [IHf IHd]]|s _ [IH [IHf IHd]]
    |s _ _|s o _ _ _ [IH IHb]].
  - split; [|cbn; lia]. constructor; cbn; try done; [set_solver|apply NoDup_nil_2|set_solver].
  - apply PrepareVector_length in Hp as (Hne & Hlen & _).
    pose proof (StoreVector_fragmentation _ _ _ _ _ _ IHf Hs) as Hfrag.
    destruct (StoreVector_cases _ _ _ _ _ _ Hs) as [->| ->]; [|done].
    destruct (StoreVector_ok _ _ _ _ _ IH Hne Hs) as (Hok & _ & Hdim). split_and!; [done..|lia].
  - destruct (DeleteVector id s) as [b s'] eqn:E.
    destruct (DeleteVector_ok _ _ _ _ IH E) as (Hok & _ & _ & Hfrag & Hdim). cbn. split_and!; [done| |lia].
    destruct b; [by apply Hfrag|]. revert E. unfold DeleteVector. case_match; by intros [= <-].
  - destruct (DefragmentLocked_ok s IH) as [Hok _]. split; [by apply bump_ok|].
    unfold Defragment, DefragmentLocked. case_match; cbn; lia.
  - split; [|cbn; lia]. constructor; cbn; try done; [set_solver|apply NoDup_nil_2|set_solver].
  - split; [by apply with_contents_ok|done].
Qed.

(** C10: the store implements a map from ids to vectors: [SetVector] either fails
    and changes nothing or binds the id to the given components, divided by
    their norm when normalising; [DeleteVector] removes the id; defragmentation
    changes no vector; [GetVector], [HasVector], [GetVectorCount] and
    [GetAllIds] read the map. *)
Theorem vector_store_refines {order : IterOrder} (s : VectorStore) :
  vs_ok s →
  (∀ id vec nz, match SetVector id vec nz s with
    | (Ok _, s') => ∃ data, (if nz then Normalize vec = Some data else data = vec) ∧
        vs_ok s' ∧ vs_abs s' = <[id := MkVector data nz]> (vs_abs s) ∧ GetDimension s' = length vec
    | (Unexpected _, s') => s' = s
    end) ∧
  (∀ id, let '(b, s') := DeleteVector id s in
    vs_ok s' ∧ vs_abs s' = delete id (vs_abs s) ∧ b = bool_decide (is_Some (vs_abs s !! id))) ∧
  vs_ok (Defragment s) ∧ vs_abs (Defragment s) = vs_abs s ∧
  vs_ok (Clear s) ∧ vs_abs (Clear s) = ∅ ∧
  (∀ id, GetVector id s = vs_abs s !! id) ∧
  (∀ id, HasVector id s = bool_decide (is_Some (vs_abs s !! id))) ∧
  GetVectorCount s = size (vs_abs s) ∧ GetAllIds s ≡ₚ (map_to_list (vs_abs s)).*1.
Proof.
  intros Hok.
  assert (Hhas : ∀ id, HasVector id s = bool_decide (is_Some (vs_abs s !! id))).
  { intros id. unfold HasVector, vs_abs. rewrite lookup_fmap. apply bool_decide_ext. by rewrite fmap_is_Some. }
  split_and!; [| | | | | |by intros; apply GetVector_abs|done| |].
  - intros id vec nz. unfold SetVector. destruct (PrepareVector s id vec nz) as [data|e] eqn:Hp; [|done].
    destruct (StoreVector id data nz s) as [[[]|e] s'] eqn:Hs.
    + pose proof Hp as Hp'. apply PrepareVector_length in Hp' as (Hne & _ & _).
      destruct (StoreVector_ok _ _ _ _ _ Hok Hne Hs) as (Hok' & Habs & Hdim).
      revert Hp. unfold PrepareVector. destruct (ValidateVector s id vec); [cbn|done].
      destruct nz; [destruct (Normalize vec) as [d|] eqn:Hn|]; intros [= ->]; exists data; split_and!; try done.
      unfold GetDimension. rewrite Hdim. by eapply length_Normalize.
    + by destruct (StoreVector_cases _ _ _ _ _ _ Hs).
  - intros id. destruct (DeleteVector id s) as [b s'] eqn:E.
    destruct (DeleteVector_ok _ _ _ _ Hok E) as (? & ? & -> & _). auto.
  - apply bump_ok, DefragmentLocked_ok, Hok.
  - by apply DefragmentLocked_ok.
  - constructor; cbn; try done; [set_solver|apply NoDup_nil_2|set_solver].
  - done.
  - unfold GetVectorCount, vs_abs. by rewrite map_size_fmap, (ok_active s Hok).
  - unfold GetAllIds, vs_abs. rewrite map_to_list_fmap, iter_order_perm.
    rewrite <- list_fmap_compose. by apply Permutation_refl'.
Qed.

(** What [SetVector] requires of its arguments. *)
Definition acceptable (s : VectorStore) (id : string) (vec : list Z) (nz : bool) : Prop :=
  id ≠ "" ∧ vec ≠ [] ∧ (length vec ≤ kMaxVectorDimension)%nat ∧
  Forall is_finite32 vec ∧ is_finite32 (l2_norm vec) = true ∧
  (dimension_ s = 0%nat ∨ length vec = dimension_ s) ∧
  (nz = true → f32_ltb (l2_norm vec) kNormEpsilon = false).

Lemma guard_Ok {A} (b : bool) (c : ErrorCode) m (r : Expected A) a :
  (if b then throw c m else r) = Ok a ↔ b = false ∧ r = Ok a.
Proof. destruct b; naive_solver. Qed.

Lemma ValidateVector_Ok (s : VectorStore) id vec : ValidateVector s id vec = Ok tt ↔ acceptable s id vec false.
Proof.
  unfold ValidateVector, acceptable. rewrite !guard_Ok, !bool_decide_eq_false, Nat.ltb_ge, !negb_false_iff.
  rewrite <- Is_true_true, forallb_True, andb_false_iff, Nat.ltb_ge, negb_false_iff, Nat.eqb_eq.
  split; intros (? & ? & ? & ? & ? & Hd & ?); split_and!; try done; destruct Hd; auto; left; lia.
Qed.

Lemma PrepareVector_Ok (s : VectorStore) id vec nz :
  (∃ data, PrepareVector s id vec nz = Ok data) ↔ acceptable s id vec nz.
Proof.
  assert (Hacc : acceptable s id vec nz ↔ acceptable s id vec false ∧
    (nz = true → f32_ltb (l2_norm vec) kNormEpsilon = false)) by (unfold acceptable; naive_solver).
  rewrite Hacc, <- ValidateVector_Ok. unfold PrepareVector.
  destruct (ValidateVector s id vec) as [[]|e] eqn:Hv; cbn [expected_bind]; [|naive_solver].
  apply ValidateVector_Ok in Hv as (_ & Hne & _). unfold Normalize, L2Norm.
  destruct vec as [|x vec]; [done|]. cbn [length Nat.eqb].
  destruct nz; [destruct (f32_ltb _ _)|]; naive_solver.
Qed.

(** A prepared vector is stored. *)
Lemma PrepareVector_stored (s : VectorStore) id vec nz data :
  PrepareVector s id vec nz = Ok data →
  StoreVector id data nz s = (Ok tt, (StoreVector id data nz s).2) ∧
  generation_ (StoreVector id data nz s).2 = u64 (generation_ s + 1).
Proof.
  intros Hp. assert (Hd : dimension_ s = 0%nat ∨ length data = dimension_ s).
  { assert (Hacc : acceptable s id vec nz) by (apply PrepareVector_Ok; by eexists).
    destruct Hacc as (_ & _ & _ & _ & _ & Hd & _). revert Hp. unfold PrepareVector.
    destruct (ValidateVector s id vec); [cbn|done].
    destruct nz; [destruct (Normalize vec) as [d|] eqn:Hn|]; intros [= <-]; [|done].
    apply length_Normalize in Hn. by rewrite Hn. }
  unfold StoreVector. destruct (Nat.eqb_spec (dimension_ s) 0) as [H0|H0]; [rewrite Nat.eqb_refl|
    destruct Hd as [?|Hd]; [done|]; rewrite (proj2 (Nat.eqb_eq _ _) Hd)]; cbn [negb fst snd];
    (split; [done|]); by repeat case_match.
Qed.

(** [SetVector] without normalisation, after a validation under the same lock. *)
Lemma SetVector_validated (s : VectorStore) id vec :
  ValidateVector s id vec = Ok tt → SetVector id vec false s = (Ok tt, (SetVector id vec false s).2).
Proof.
  intros Hv. assert (Hp : PrepareVector s id vec false = Ok vec) by (unfold PrepareVector; by rewrite Hv).
  unfold SetVector. rewrite Hp. apply (PrepareVector_stored _ _ _ _ _ Hp).
Qed.

(** [SetVector] succeeds exactly on a non-empty id with one to 4096 finite
    components whose norm is finite, of the store's dimension once it has one,
    and with a norm of at least 1e-7 when normalising; a success moves the
    generation by one (modulo 2^64), a failure changes nothing. *)
Lemma set_vector_accepts (s : VectorStore) id vec nz :
  ((SetVector id vec nz s).1 = Ok tt ↔ acceptable s id vec nz) ∧
  generation_ (SetVector id vec nz s).2 =
    (if bool_decide ((SetVector id vec nz s).1 = Ok tt) then u64 (generation_ s + 1) else generation_ s).
Proof.
  rewrite <- PrepareVector_Ok. unfold SetVector.
  destruct (PrepareVector s id vec nz) as [data|e] eqn:Hp; cbn [fst snd].
  - destruct (PrepareVector_stored _ _ _ _ _ Hp) as [Es Hg]. rewrite Hg, Es. cbn [fst]. split; [naive_solver|]. by rewrite bool_decide_eq_true_2.
  - split; [naive_solver|]. by rewrite bool_decide_eq_false_2.
Qed.
End refinement.

(** ** Witnesses *)

#[local] Existing Instance Scalar.

Definition example_store : VectorStore :=
  (SetVector "b" [f32_of_Z 0; f32_of_Z 2] true (SetVector "a" [f32_of_Z 3; f32_of_Z 4] false new).2).2.

Lemma example_reachable : vs_reachable example_store.
Proof.
  apply (vs_set new "b" [f32_of_Z 0; f32_of_Z 2] true [f32_of_Z 0; f32_of_Z 1]
    (SetVector "a" [f32_of_Z 3; f32_of_Z 4] false new).2 (Ok tt)); [|vm_compute; reflexivity..].
  apply (vs_set new "a" [f32_of_Z 3; f32_of_Z 4] false [f32_of_Z 3; f32_of_Z 4] new (Ok tt));
    [constructor|vm_compute; reflexivity..].
Defined.

Lemma vector_store_invariant_witness : vs_ok (DeleteVector "a" example_store).2.
Proof. exact (proj1 (vector_store_invariant _ (vs_delete _ "a" example_reachable))). Defined.

Lemma new_ok : vs_ok new.
Proof. constructor; cbn; try done; [set_solver|apply NoDup_nil_2|set_solver]. Defined.

Lemma vector_store_refines_witness :
  vs_abs (DeleteVector "a" new).2 = delete "a" (vs_abs new) ∧ @GetAllIds tree_order new = [].
Proof.
  pose proof (@vector_store_refines Scalar tree_order new new_ok) as (_ & H & _).
  specialize (H "a"). split; [exact (proj1 (proj2 H))|reflexivity].
Defined.
