(* ===== verification/WalCheckpoint.v ===== *)
(** * The snapshot checkpoint sidecar (src/storage/wal_checkpoint.cpp)

    [<snapshot>.walseq] binds a WAL sequence number to one snapshot file by the
    snapshot's size and CRC; it is replaced by a temporary file and a rename.
    The file system and its failures are those of [Wal]; its keys are canonical
    paths.  Path resolution and the name [mkstemp] picks are parameters. *)

From S2P Require Import Prelude StringLib Wal WalRecovery.
#[local] Open Scope Z_scope.

(** ** Parameters *)

(** zlib's streaming [crc32(crc, buf, len)]. *)
Class ZlibStream {zlib : Zlib} : Type := {
  crc32_update : Z → list byte → Z;
  crc32_empty : crc32 [] = 0;
  crc32_append : ∀ a b, crc32_update (crc32 a) b = crc32 (a ++ b)
}.

Definition kWalCheckpointSuffix : string := ".walseq".
Definition SidecarPath (snapshot_path : string) : string := snapshot_path +:+ kWalCheckpointSuffix.

(** A path names the file of its canonical path: the directory resolved, the
    file name kept.  [ResolvePrivateStoragePath] (utils/path_utils.h) returns
    it when the directory exists and belongs to the service alone. *)
Class StoragePaths : Type := {
  canonical : string → string;
  ResolvePrivateStoragePath : string → Expected string;
  resolve_canonical : ∀ p q, ResolvePrivateStoragePath p = Ok q → q = canonical p;
  canonical_suffix : ∀ p suffix, canonical (p +:+ suffix) = canonical p +:+ suffix
}.

(** [mkstemp]: a name of the template with its six [X]s replaced, of no
    existing file; [None] when it fails. *)
Class Mkstemp : Type := {
  mkstemp : string → gmap string (list byte) → option string;
  mkstemp_fresh : ∀ p files t, mkstemp p files = Some t → files !! t = None;
  mkstemp_name : ∀ p files t, mkstemp p files = Some t → ∃ xs, t = p +:+ xs ∧ String.length xs = 6%nat
}.

(** ** Constants *)

Definition kCheckpointMagic : Z := 0x5043574E.
Definition kCheckpointVersion : Z := 1.
Definition kCheckpointSize : Z := 32.
Definition kFrameCrcOffset : nat := 28.
Definition kMaxBoundSnapshotSize : Z := 3 * 1024 * 1024 * 1024.
Definition kChunk : Z := 64 * 1024.

Record SnapshotBinding : Type := MkBinding { b_size : Z; b_crc32 : Z }.

#[export] Instance SnapshotBinding_eq_dec : EqDecision SnapshotBinding.
Proof. solve_decision. Defined.

Section checkpoint.
Context {zlib : Zlib} {stream : ZlibStream} {paths : StoragePaths} {temp : Mkstemp}.

(** [open(path, O_RDONLY | O_NOFOLLOW)]: the contents behind the descriptor. *)
Definition open_read (p : string) : SE State (option (list byte)) :=
  let! ok := sys in
  let! s := se_get in
  se_ret (if ok then w_files (world s) !! canonical p else None).

(** The loop over 64 KiB chunks.  Each round reads at least one byte, so
    [fuel] above the size is enough. *)
Fixpoint binding_loop (fuel : nat) (faults : list outcome) (remaining : Z) (rest : list byte) (crc : Z)
    : option Z * list outcome :=
  if remaining <=? 0 then (Some crc, faults)
  else
    match fuel with
    | O => (None, faults)
    | S fuel' =>
        let chunk := Z.min remaining kChunk in
        match ReadAll faults (Z.to_nat chunk) rest with
        | (None, fs) => (None, fs)
        | (Some (buffer, rest'), fs) =>
            binding_loop fuel' fs (remaining - chunk) rest' (crc32_update crc buffer)
        end
    end.

Definition ReadSnapshotBinding (snapshot_path : string) : SE State SnapshotBinding :=
  let! fd := open_read snapshot_path in
  match fd with
  | None => se_throw kWalReadError "Failed to open checkpoint snapshot"
  | Some bytes =>
      let! stat := sys in
      let st_size := Z.of_nat (length bytes) in
      if negb stat || (kMaxBoundSnapshotSize <? st_size)
      then se_throw kStorageCorrupted "Checkpoint snapshot is not a bounded regular file"
      else
        let! crc := with_faults (λ fs, binding_loop (length bytes) fs st_size bytes (crc32 [])) in
        match crc with
        | None => se_throw kWalReadError "Failed to read checkpoint snapshot"
        | Some crc =>
            let! closed := sys in
            if negb closed then se_throw kWalReadError "Failed to close checkpoint snapshot"
            else se_ret (MkBinding st_size crc)
        end
  end.

(** ** Writing *)

Definition frame_fields (sequence : Z) (binding : SnapshotBinding) : list byte :=
  le_bytes 4 kCheckpointMagic ++ le_bytes 4 kCheckpointVersion ++ le_bytes 8 sequence ++
  le_bytes 8 (b_size binding) ++ le_bytes 4 (b_crc32 binding).

Definition frame (sequence : Z) (binding : SnapshotBinding) : list byte :=
  let fields := frame_fields sequence binding in fields ++ le_bytes 4 (crc32 fields).

(** [close(fd); unlink(tmp); return ...] *)
Definition give_up_on (tmp m : string) : SE State unit :=
  let! _ := unlink tmp in se_throw kStorageWriteError m.

Definition rename (from to : string) : SE State bool :=
  let! ok := sys in
  if ok then
    let! s := se_get in
    se_put (λ s', set_contents to (contents from s) (remove_file from s')) ;! se_ret true
  else se_ret false.

Definition FsyncParentDirectory : SE State bool :=
  let! opened := sys in
  if opened then sys else se_ret false.

(** From the opened temporary file to the durable sidecar. *)
Definition publish (tmp final : string) (bytes : list byte) : SE State unit :=
  let! moded := sys in
  if negb moded then give_up_on tmp "Failed to set WAL checkpoint permissions"
  else
    let! written := WriteAll tmp bytes in
    if negb written then give_up_on tmp "Failed to write WAL checkpoint"
    else
      let! synced := sys in
      if negb synced then give_up_on tmp "Failed to fsync WAL checkpoint"
      else
        let! closed := sys in
        if negb closed then give_up_on tmp "Failed to close WAL checkpoint"
        else
          let! renamed := rename tmp final in
          if negb renamed then give_up_on tmp "Failed to rename WAL checkpoint into place"
          else
            let! dir_synced := FsyncParentDirectory in
            if negb dir_synced then se_throw kStorageWriteError "Failed to fsync WAL checkpoint directory"
            else se_ret tt.

Definition WriteWalCheckpoint (snapshot_path : string) (sequence : Z) : SE State unit :=
  if sequence =? u64_max then se_throw kStorageWriteError "Cannot checkpoint exhausted WAL sequence space"
  else
    let! binding := ReadSnapshotBinding snapshot_path in
    let! final := se_lift (ResolvePrivateStoragePath (SidecarPath snapshot_path)) in
    let! s := se_get in
    let! ok := sys in
    match (if ok then mkstemp (final +:+ ".tmp.") (w_files (world s)) else None) with
    | None => se_throw kStorageWriteError "Failed to create WAL checkpoint temp file"
    | Some tmp => se_put (set_contents tmp []) ;! publish tmp final (frame sequence binding)
    end.

(** ** Reading *)

Definition u32_at (off : nat) (bytes : list byte) : Z := le_value (take 4 (drop off bytes)).
Definition u64_at (off : nat) (bytes : list byte) : Z := le_value (take 8 (drop off bytes)).

(** The checks on the 32 bytes read. *)
Definition parse_frame (binding : SnapshotBinding) (bytes : list byte) : Expected Z :=
  if negb (u32_at 0 bytes =? kCheckpointMagic) || negb (u32_at 4 bytes =? kCheckpointVersion)
  then throw kStorageCorrupted "Invalid WAL checkpoint magic or version"
  else if negb (u32_at kFrameCrcOffset bytes =? crc32 (take kFrameCrcOffset bytes))
  then throw kStorageCorrupted "WAL checkpoint CRC32 mismatch"
  else
    let sequence := u64_at 8 bytes in
    if sequence =? u64_max then throw kStorageCorrupted "WAL checkpoint sequence is exhausted"
    else if negb (u64_at 16 bytes =? b_size binding) || negb (u32_at 24 bytes =? b_crc32 binding)
    then throw kStorageCorrupted "WAL checkpoint does not match snapshot"
    else Ok sequence.

Definition ReadWalCheckpoint (snapshot_path : string) : SE State Z :=
  let! binding := ReadSnapshotBinding snapshot_path in
  let! fd := open_read (SidecarPath snapshot_path) in
  match fd with
  | None => se_throw kWalReadError "Failed to open WAL checkpoint"
  | Some file =>
      let! stat := sys in
      if negb stat || negb (Z.of_nat (length file) =? kCheckpointSize)
      then se_throw kStorageCorrupted "Invalid WAL checkpoint file type or size"
      else
        let! ok := with_faults (λ fs, ReadAll fs (Z.to_nat kCheckpointSize) file) in
        let! closed := sys in
        match ok with
        | Some (bytes, _) =>
            if closed then se_lift (parse_frame binding bytes)
            else se_throw kWalReadError "Failed to read WAL checkpoint frame"
        | None => se_throw kWalReadError "Failed to read WAL checkpoint frame"
        end
  end.

(** ** Reading files under faults *)

Lemma ReadAll_inv faults : ∀ n rest bs rest' fs,
  ReadAll faults n rest = (Some (bs, rest'), fs) →
  bs = take n rest ∧ rest' = drop n rest ∧ (n ≤ length rest)%nat.
Proof.
  induction faults as [|o faults IH]; intros n rest bs rest' fs.
  - destruct n; cbn [ReadAll]; [intros [= <- <- <-]; split_and!; done || lia|].
    destruct (Nat.leb_spec (S n) (length rest)); intros [= <- <- <-]. done.
  - destruct n as [|n]; [cbn; intros [= <- <- <-]; split_and!; done || lia|].
    destruct o as [| |m|]; cbn [ReadAll].
    + destruct (Nat.leb_spec (S n) (length rest)); intros [= <- <- <-]. done.
    + done.
    + set (k := (m `min` S n `min` length rest)%nat). case_bool_decide as Hk; [done|].
      destruct (ReadAll faults (S n - k) (drop k rest)) as [[[bs1 rest1]|] fs1] eqn:E; [|done].
      apply IH in E as (-> & -> & Hl). intros [= <- <- <-]. rewrite length_drop in Hl.
      rewrite drop_drop. split_and!; [|f_equal; lia|lia].
      replace (S n) with (k + (S n - k))%nat at 2 by lia. by rewrite take_take_drop || rewrite <- take_add_drop.
    + apply IH.
Qed.

Lemma ReadAll_quiet n rest : (n ≤ length rest)%nat → ReadAll [] n rest = (Some (take n rest, drop n rest), []).
Proof.
  intros Hn. rewrite <- (take_drop n rest) at 1. apply ReadAll_nil. by rewrite length_take_le.
Qed.

Lemma binding_loop_inv fuel : ∀ faults rest pre c fs,
  binding_loop fuel faults (Z.of_nat (length rest)) rest (crc32 pre) = (Some c, fs) → c = crc32 (pre ++ rest).
Proof.
  induction fuel as [|fuel IH]; intros faults rest pre c fs; cbn [binding_loop];
    destruct (Z.leb_spec (Z.of_nat (length rest)) 0).
  - destruct rest; [|cbn in *; lia]. rewrite app_nil_r. by intros [= <- _].
  - done.
  - destruct rest; [|cbn in *; lia]. rewrite app_nil_r. by intros [= <- _].
  - destruct (ReadAll _ _ _) as [[[buffer rest']|] fs'] eqn:E; [|done].
    apply ReadAll_inv in E as (-> & -> & Hl). rewrite crc32_append.
    replace (_ - _) with (Z.of_nat (length (drop (Z.to_nat (Z.min (Z.of_nat (length rest)) kChunk)) rest)))
      by (rewrite length_drop; unfold kChunk in *; lia).
    intros ->%IH. by rewrite <- (assoc_L (++)), take_drop.
Qed.

Lemma binding_loop_quiet fuel : ∀ rest pre,
  (length rest ≤ fuel)%nat →
  binding_loop fuel [] (Z.of_nat (length rest)) rest (crc32 pre) = (Some (crc32 (pre ++ rest)), []).
Proof.
  induction fuel as [|fuel IH]; intros rest pre Hf; cbn [binding_loop];
    destruct (Z.leb_spec (Z.of_nat (length rest)) 0); try lia;
    try (destruct rest; [by rewrite app_nil_r|cbn in *; lia]).
  rewrite ReadAll_quiet by lia. rewrite crc32_append.
  set (k := Z.to_nat (Z.min (Z.of_nat (length rest)) kChunk)).
  replace (_ - _) with (Z.of_nat (length (drop k rest))) by (rewrite length_drop; unfold k, kChunk; lia).
  rewrite IH by (rewrite length_drop; unfold k, kChunk; lia). by rewrite <- (assoc_L (++)), take_drop.
Qed.

Lemma with_faults_inv {A} (f : list outcome → A * list outcome) s r s' :
  with_faults f s = (r, s') → ∃ a fs, f (w_faults (world s)) = (a, fs) ∧ r = Ok a ∧ wal s' = wal s ∧ disk s' = disk s.
Proof. unfold with_faults. destruct (f _) as [a fs]. intros [= <- <-]. eauto 10. Qed.

(** ** The frame *)

Definition binding_ok (b : SnapshotBinding) : Prop := in_u 64 (b_size b) ∧ in_u 32 (b_crc32 b).

Lemma length_frame_fields q b : length (frame_fields q b) = 28%nat.
Proof. unfold frame_fields. by rewrite !length_app, !length_le_bytes. Qed.

Lemma length_frame q b : length (frame q b) = 32%nat.
Proof. unfold frame. by rewrite length_app, length_frame_fields, length_le_bytes. Qed.

Lemma parse_frame_frame q b :
  in_u 64 q → q ≠ u64_max → binding_ok b → parse_frame b (frame q b) = Ok q.
Proof.
  intros Hq Hmax [Hs Hc].
  assert (E0 : u32_at 0 (frame q b) = kCheckpointMagic) by (by vm_compute).
  assert (E1 : u32_at 4 (frame q b) = kCheckpointVersion) by (by vm_compute).
  assert (E2 : u64_at 8 (frame q b) = q).
  { change (u64_at 8 (frame q b)) with (le_value (le_bytes 8 q)). by apply le_value_bytes_small. }
  assert (E3 : u64_at 16 (frame q b) = b_size b).
  { change (u64_at 16 (frame q b)) with (le_value (le_bytes 8 (b_size b))). by apply le_value_bytes_small. }
  assert (E4 : u32_at 24 (frame q b) = b_crc32 b).
  { change (u32_at 24 (frame q b)) with (le_value (le_bytes 4 (b_crc32 b))). by apply le_value_bytes_small. }
  assert (E5 : u32_at kFrameCrcOffset (frame q b) = crc32 (take kFrameCrcOffset (frame q b))).
  { change (u32_at kFrameCrcOffset (frame q b)) with (le_value (le_bytes 4 (crc32 (frame_fields q b)))).
    change (take kFrameCrcOffset (frame q b)) with (frame_fields q b).
    apply le_value_bytes_small, crc32_range. }
  unfold parse_frame. rewrite E0, E1, E2, E3, E4, E5, !Z.eqb_refl. cbn [negb orb].
  by rewrite (proj2 (Z.eqb_neq _ _) Hmax).
Qed.

Lemma frame_slices bytes :
  length bytes = 32%nat →
  bytes = (le_bytes 4 (u32_at 0 bytes) ++ le_bytes 4 (u32_at 4 bytes) ++ le_bytes 8 (u64_at 8 bytes) ++
    le_bytes 8 (u64_at 16 bytes) ++ le_bytes 4 (u32_at 24 bytes)) ++ le_bytes 4 (u32_at 28 bytes) ∧
  take 28 bytes = le_bytes 4 (u32_at 0 bytes) ++ le_bytes 4 (u32_at 4 bytes) ++ le_bytes 8 (u64_at 8 bytes) ++
    le_bytes 8 (u64_at 16 bytes) ++ le_bytes 4 (u32_at 24 bytes).
Proof.
  intros Hl. unfold u32_at, u64_at.
  assert (Hs : ∀ off n, (off + n ≤ 32)%nat → le_bytes n (le_value (take n (drop off bytes))) = take n (drop off bytes)).
  { intros off n Hn. rewrite <- (le_bytes_value (take n (drop off bytes))) at 2. f_equal.
    rewrite length_take, length_drop. lia. }
  rewrite !Hs by lia.
  do 32 (destruct bytes as [|? bytes]; [done|]). destruct bytes; done.
Qed.

Lemma parse_frame_Ok b bytes q :
  length bytes = 32%nat → parse_frame b bytes = Ok q → bytes = frame q b ∧ in_u 64 q ∧ q ≠ u64_max.
Proof.
  intros Hl. unfold parse_frame. destruct (frame_slices bytes Hl) as [Hb Ht].
  destruct (Z.eqb_spec (u32_at 0 bytes) kCheckpointMagic) as [E0|]; [|done].
  destruct (Z.eqb_spec (u32_at 4 bytes) kCheckpointVersion) as [E1|]; [|done]. cbn [negb orb].
  destruct (Z.eqb_spec (u32_at kFrameCrcOffset bytes) (crc32 (take kFrameCrcOffset bytes))) as [E5|]; [|done].
  destruct (Z.eqb_spec (u64_at 8 bytes) u64_max) as [|Hmax]; [done|]. cbn [negb].
  destruct (Z.eqb_spec (u64_at 16 bytes) (b_size b)) as [E3|]; [|done].
  destruct (Z.eqb_spec (u32_at 24 bytes) (b_crc32 b)) as [E4|]; [|done]. cbn [negb orb].
  intros [= <-]. unfold kFrameCrcOffset in E5. split_and!; [|..|done].
  - rewrite Hb at 1. unfold frame, frame_fields. rewrite E0, E1, E3, E4 in Ht. rewrite E0, E1, E3, E4, E5, Ht. done.
  - unfold u64_at. pose proof (le_value_range (take 8 (drop 8 bytes))) as Hr.
    rewrite length_take, length_drop, Hl in Hr. exact Hr.
Qed.

(** ** What the calls do, whatever fails *)

Lemma open_read_inv p s r s' :
  open_read p s = (r, s') →
  ∃ o, r = Ok o ∧ wal s' = wal s ∧ disk s' = disk s ∧ (o = None ∨ o = disk s !! canonical p).
Proof.
  unfold open_read. intros H. repeat inv_step. eexists. split_and!; [done..|].
  match goal with |- context [if ?b then _ else _] => destruct b; [right|by left] end.
  change (w_files (world ?x)) with (disk x). congruence.
Qed.

Lemma open_read_quiet p s : quiet s → open_read p s = (Ok (disk s !! canonical p), s).
Proof. intros Hq. unfold open_read. by erewrite bind_ok by (by apply sys_quiet). Qed.

(** [inv_step], with the calls of this file. *)
Ltac file_step :=
  match goal with
  | H : with_faults _ _ = (Unexpected _, _) |- _ => exfalso; by apply with_faults_inv in H as (? & ? & _ & [=] & _)
  | H : open_read _ _ = (Unexpected _, _) |- _ => exfalso; by apply open_read_inv in H as (? & [=] & _)
  | H : open_read _ _ = (Ok ?v, _) |- _ =>
      let Hw := fresh "Hw" in let Hd := fresh "Hd" in let Ho := fresh "Ho" in
      apply open_read_inv in H as (? & [= <-] & Hw & Hd & Ho)
  | H : with_faults _ _ = (Ok ?v, _) |- _ =>
      let Hw := fresh "Hw" in let Hd := fresh "Hd" in let Hf := fresh "Hf" in
      apply with_faults_inv in H as (? & ? & Hf & [= <-] & Hw & Hd)
  | _ => inv_step
  end.

(** The binding of a file's contents. *)
Definition binding_of (bytes : list byte) : SnapshotBinding :=
  MkBinding (Z.of_nat (length bytes)) (crc32 bytes).

Definition bounded (bytes : list byte) : Prop := Z.of_nat (length bytes) ≤ kMaxBoundSnapshotSize.

Lemma binding_of_ok bytes : bounded bytes → binding_ok (binding_of bytes).
Proof.
  unfold bounded, kMaxBoundSnapshotSize. intros Hb. split; [|apply crc32_range]. unfold in_u. cbn. lia.
Qed.

Lemma ReadSnapshotBinding_inv p s r s' :
  ReadSnapshotBinding p s = (r, s') →
  wal s' = wal s ∧ disk s' = disk s ∧
  ∀ b, r = Ok b → ∃ bytes, disk s !! canonical p = Some bytes ∧ bounded bytes ∧ b = binding_of bytes.
Proof.
  unfold ReadSnapshotBinding. intros H. repeat file_step. destruct v as [bytes|]; [|inv_step; by split_and!].
  destruct Ho as [[=]|Ho]. repeat file_step. destruct (negb _ || _) eqn:Hbound; [inv_step; split_and!; congruence|].
  apply orb_false_iff in Hbound as [_ Hbound%Z.ltb_ge]. repeat file_step.
  destruct v0 as [crc|]; [|inv_step; split_and!; congruence]. apply (binding_loop_inv _ _ _ []) in Hf.
  repeat file_step. destruct (negb _); inv_step; (split_and!; [congruence..|]); [done|].
  intros b [= <-]. exists bytes. split_and!; [done|done|]. by rewrite Hf.
Qed.

Lemma ReadSnapshotBinding_quiet p s bytes :
  quiet s → disk s !! canonical p = Some bytes → bounded bytes →
  ReadSnapshotBinding p s = (Ok (binding_of bytes), s).
Proof.
  intros Hq Hp Hb. unfold ReadSnapshotBinding. erewrite bind_ok by (by apply open_read_quiet). rewrite Hp.
  erewrite bind_ok by (by apply sys_quiet). cbn [negb orb].
  unfold bounded in Hb. destruct (Z.ltb_spec kMaxBoundSnapshotSize (Z.of_nat (length bytes))); [lia|].
  erewrite bind_ok by (apply with_faults_quiet; [done|by apply (binding_loop_quiet _ _ [])]).
  cbv iota beta. by erewrite bind_ok by (by apply sys_quiet).
Qed.

(** ** Publishing *)

Lemma give_up_on_inv tmp m s r s' :
  give_up_on tmp m s = (r, s') →
  (∃ e, r = Unexpected e) ∧ wal s' = wal s ∧ ∀ k, k ≠ tmp → disk s' !! k = disk s !! k.
Proof.
  unfold give_up_on. intros H. repeat inv_step. split_and!; [by eexists|done|]. intros k Hk. rewrite Hd.
  case_match; [|done]. by rewrite lookup_delete_ne.
Qed.

Lemma rename_inv from to s r s' :
  rename from to s = (r, s') →
  ∃ b, r = Ok b ∧ wal s' = wal s ∧
    disk s' = if b then <[to := contents from s]> (delete from (disk s)) else disk s.
Proof.
  unfold rename. intros H. repeat inv_step.
  destruct v; repeat inv_step; eexists; (split_and!; [done|done|]); unfold disk, contents in *; cbn; by rewrite ?Hd.
Qed.

Lemma FsyncParentDirectory_inv s r s' :
  FsyncParentDirectory s = (r, s') → ∃ b, r = Ok b ∧ wal s' = wal s ∧ disk s' = disk s.
Proof.
  unfold FsyncParentDirectory. intros H. repeat inv_step. destruct v.
  - apply sys_inv in H as (b & -> & ? & ? & _). exists b. split_and!; [done|congruence..].
  - repeat inv_step. exists false. by split_and!.
Qed.

(** The outcome of publishing: every other file keeps its contents, and the
    final path has its old contents or exactly the new ones. *)
Definition published (tmp final : string) (bytes : list byte) (r : Expected unit) (s s' : State) : Prop :=
  wal s' = wal s ∧ (∀ k, k ≠ tmp → k ≠ final → disk s' !! k = disk s !! k) ∧
  (disk s' !! final = disk s !! final ∨ disk s' !! final = Some bytes) ∧
  (r = Ok tt → disk s' !! final = Some bytes ∧ disk s' !! tmp = None).

Lemma publish_gave_up tmp final bytes m s s1 r s' :
  tmp ≠ final → wal s1 = wal s → (∀ k, k ≠ tmp → disk s1 !! k = disk s !! k) →
  give_up_on tmp m s1 = (r, s') → published tmp final bytes r s s'.
Proof.
  intros Hne Hw Hd H. apply give_up_on_inv in H as ([e ->] & Hw' & Hd').
  split_and!; [congruence|..|done]; [intros k Hk _|left]; rewrite Hd', Hd; done.
Qed.

Lemma renamed_published tmp final bytes s d s4 r s' :
  tmp ≠ final → (∀ k, k ≠ tmp → d !! k = disk s !! k) → wal s4 = wal s →
  disk s4 = <[final := bytes]> (delete tmp d) →
  (let! dir_synced := FsyncParentDirectory in
   if negb dir_synced then se_throw kStorageWriteError "Failed to fsync WAL checkpoint directory"
   else se_ret tt) s4 = (r, s') →
  published tmp final bytes r s s'.
Proof.
  intros Hne Hd Hw Hd4 H. apply bind_inv in H as [(b & s5 & E & H)|(e & E & _)];
    [|by apply FsyncParentDirectory_inv in E as (? & [=] & _)].
  apply FsyncParentDirectory_inv in E as (? & [= <-] & Hw5 & Hd5).
  assert (Hs' : wal s' = wal s ∧ disk s' = <[final := bytes]> (delete tmp d))
    by (destruct b; cbn [negb] in H; inv_step; split; congruence).
  destruct Hs' as [Hw' Hds']. unfold published. rewrite Hds'. split_and!; [done| |right; apply lookup_insert_eq|].
  - intros k Hk Hf. by rewrite lookup_insert_ne, lookup_delete_ne, Hd.
  - intros _. by rewrite lookup_insert_eq, lookup_insert_ne, lookup_delete_eq.
Qed.

Lemma publish_inv tmp final bytes s r s' :
  tmp ≠ final → disk s !! tmp = Some [] →
  publish tmp final bytes s = (r, s') → published tmp final bytes r s s'.
Proof.
  intros Hne Htmp. unfold publish. intros H.
  assert (Hgive : ∀ m s1, wal s1 = wal s → (∀ k, k ≠ tmp → disk s1 !! k = disk s !! k) →
    give_up_on tmp m s1 = (r, s') → published tmp final bytes r s s').
  { intros m s1 Hw Hd Hg. by eapply publish_gave_up. }
  repeat inv_step. destruct v; cbn [negb] in H; [|eapply Hgive; [..|exact H]; congruence].
  repeat inv_step.
  assert (Hother : ∀ k, k ≠ tmp → disk s1 !! k = disk s !! k).
  { intros k Hk. rewrite Hd0, lookup_insert_ne, Hd by done. done. }
  destruct v; cbn [negb] in H; [|eapply Hgive; [..|exact H]; [congruence|done]]. rewrite (Hfull eq_refl) in Hd0.
  repeat inv_step. destruct v; cbn [negb] in H; [|eapply Hgive; [..|exact H]; [congruence|by rewrite Hd1]].
  repeat inv_step. destruct v; cbn [negb] in H; [|eapply Hgive; [..|exact H]; [congruence|by rewrite Hd2, Hd1]].
  assert (Htmp3 : contents tmp s3 = bytes).
  { unfold contents. change (w_files (world s3)) with (disk s3). rewrite Hd2, Hd1, Hd0, lookup_insert_eq. cbn.
    unfold contents. change (w_files (world s0)) with (disk s0). by rewrite Hd, Htmp. }
  assert (Hother3 : ∀ k, k ≠ tmp → disk s3 !! k = disk s !! k) by (intros; rewrite Hd2, Hd1; auto).
  apply bind_inv in H as [(renamed & s4 & E & H)|(e & E & _)]; [|by apply rename_inv in E as (? & [=] & _)].
  apply rename_inv in E as (? & [= <-] & Hw3 & Hd3).
  destruct renamed; cbn [negb] in H; [|eapply Hgive; [..|exact H]; [congruence|by rewrite Hd3]].
  rewrite Htmp3 in Hd3. refine (renamed_published _ _ _ _ _ _ _ _ Hne Hother3 _ Hd3 H). congruence.
Qed.

Lemma WriteWalCheckpoint_inv p q s r s' :
  WriteWalCheckpoint p q s = (r, s') →
  (∃ e, r = Unexpected e) ∧ wal s' = wal s ∧ disk s' = disk s ∨
  ∃ tmp bytes s1, disk s !! canonical p = Some bytes ∧ bounded bytes ∧ q ≠ u64_max ∧
    disk s !! tmp = None ∧ tmp ≠ SidecarPath (canonical p) ∧
    wal s1 = wal s ∧ disk s1 = <[tmp := []]> (disk s) ∧
    published tmp (SidecarPath (canonical p)) (frame q (binding_of bytes)) r s1 s'.
Proof.
  unfold WriteWalCheckpoint. destruct (Z.eqb_spec q u64_max) as [|Hmax]; [intros [= <- <-]; left; eauto|].
  intros H. apply bind_inv in H as [(b & s1 & E & H)|(e & E & ->)].
  2: { apply ReadSnapshotBinding_inv in E as (? & ? & _). left. eauto. }
  apply ReadSnapshotBinding_inv in E as (Hw & Hd & Hb). destruct (Hb b eq_refl) as (bytes & Hp & Hbound & ->).
  destruct (ResolvePrivateStoragePath (SidecarPath p)) as [final|e] eqn:Hres.
  2: { injection H as <- <-. left. eauto. }
  apply resolve_canonical in Hres as ->. unfold SidecarPath at 1 in H. rewrite canonical_suffix in H.
  fold (SidecarPath (canonical p)) in H. cbn [se_lift se_bind] in H. repeat inv_step.
  destruct (if v0 then _ else _) as [tmp|] eqn:Htmp; [|inv_step; left; split_and!; [by eexists|congruence..]].
  destruct v0; [|done]. pose proof (mkstemp_fresh _ _ _ Htmp) as Hfresh.
  apply mkstemp_name in Htmp as (xs & Hname & Hxs). repeat inv_step. right.
  change (w_files (world s1)) with (disk s1) in Hfresh.
  assert (Hne : tmp ≠ SidecarPath (canonical p)).
  { rewrite Hname, str_app_assoc. by apply longer_string. }
  exists tmp, bytes, (set_contents tmp [] s2). split_and!; try done; [congruence|cbn; congruence| |].
  - unfold disk, set_contents in *. cbn. congruence.
  - eapply publish_inv; [done| |exact H]. unfold disk, set_contents. cbn. by rewrite lookup_insert_eq.
Qed.

(** ** The contract *)

Implicit Types (p : string) (q : Z) (s : State) (bytes : list byte).

(** The sidecar of [p] binds sequence [q] to the present snapshot. *)
Definition bound_to (p : string) (q : Z) (s : State) : Prop :=
  ∃ bytes, disk s !! canonical p = Some bytes ∧ bounded bytes ∧ in_u 64 q ∧ q ≠ u64_max ∧
    disk s !! SidecarPath (canonical p) = Some (frame q (binding_of bytes)).


(** Recovery accepts exactly the sidecar written for the snapshot that is
    there: a sequence is returned only when the sidecar is the frame of that
    sequence bound to the snapshot's present size and checksum, so a replaced
    snapshot or an altered frame is refused; and such a sidecar is accepted when
    no call fails. *)
Lemma checkpoint_accepts p q s :
  (∀ s', ReadWalCheckpoint p s = (Ok q, s') → bound_to p q s) ∧
  (bound_to p q s → quiet s → ReadWalCheckpoint p s = (Ok q, s)).
Proof.
  split.
  - intros s' H. unfold ReadWalCheckpoint in H.
    apply bind_inv in H as [(b & s1 & E & H)|(e & E & [=])].
    apply ReadSnapshotBinding_inv in E as (_ & Hd & Hb). destruct (Hb b eq_refl) as (bytes & Hp & Hbound & ->).
    repeat file_step. destruct v as [file|]; [|done]. destruct Ho as [[=]|Ho].
    unfold SidecarPath in Ho. rewrite canonical_suffix in Ho. fold (SidecarPath (canonical p)) in Ho.
    repeat file_step. destruct (negb _ || _) eqn:Hsize; [done|].
    apply orb_false_iff in Hsize as [_ Hsize%negb_false_iff%Z.eqb_eq].
    repeat file_step. destruct v0 as [[frame_bytes rest]|]; [|done]. destruct v1; [|done].
    apply ReadAll_inv in Hf as (-> & _ & _).
    assert (Hlen : length file = 32%nat) by (unfold kCheckpointSize in Hsize; lia).
    rewrite take_ge in H by (unfold kCheckpointSize; lia). injection H as H _.
    apply parse_frame_Ok in H as (Hframe & Hrange & Hmax); [|done]. exists bytes.
    split_and!; try done. rewrite <- Hframe. congruence.
  - intros (bytes & Hp & Hb & Hq & Hmax & Hside) Hquiet. unfold ReadWalCheckpoint.
    erewrite bind_ok by (by apply ReadSnapshotBinding_quiet).
    erewrite bind_ok by (by apply open_read_quiet).
    unfold SidecarPath at 1. rewrite canonical_suffix. fold (SidecarPath (canonical p)). rewrite Hside. cbv iota beta.
    erewrite bind_ok by (by apply sys_quiet). rewrite length_frame. cbn [negb orb Z.eqb].
    change (Z.of_nat 32 =? kCheckpointSize) with true. cbn [negb].
    erewrite bind_ok by (apply with_faults_quiet; [done|]; apply ReadAll_quiet; by rewrite length_frame).
    erewrite bind_ok by (by apply sys_quiet). cbv iota beta.
    rewrite take_ge by (by rewrite length_frame). unfold se_lift.
    by rewrite parse_frame_frame by (done || by apply binding_of_ok).
Qed.
End checkpoint.

(** ** A concrete system *)

Definition crc_step (c : Z) (b : byte) : Z := crc_bits 8 (Z.lxor c (Z_of_byte b)).
Definition crc_stream (crc : Z) (bs : list byte) : Z :=
  u32 (Z.lxor (fold_left crc_step bs (Z.lxor crc u32_max)) u32_max).

Lemma in_u_bits w z : 0 ≤ w → in_u w z ↔ 0 ≤ z ∧ ∀ i, w ≤ i → Z.testbit z i = false.
Proof.
  intros Hw. unfold in_u. split.
  - intros [H0 H1]. split; [done|]. intros i Hi. rewrite <- (Z.mod_small z (2 ^ w)) by lia.
    by apply Z.mod_pow2_bits_high.
  - intros [H0 Hb]. assert (E : z = z mod 2 ^ w).
    { apply Z.bits_inj'. intros i Hi. destruct (Z_lt_le_dec i w).
      - by rewrite Z.mod_pow2_bits_low.
      - by rewrite Z.mod_pow2_bits_high, Hb. }
    rewrite E. apply Z.mod_pos_bound. lia.
Qed.

Lemma in_u_lxor w a b : 0 ≤ w → in_u w a → in_u w b → in_u w (Z.lxor a b).
Proof.
  intros Hw. rewrite !in_u_bits by done. intros [Ha Hab] [Hb Hbb]. split; [by apply Z.lxor_nonneg|].
  intros i Hi. by rewrite Z.lxor_spec, Hab, Hbb.
Qed.

Lemma crc_bits_range n c : in_u 32 c → in_u 32 (crc_bits n c).
Proof.
  revert c. induction n as [|n IH]; intros c Hc; [done|]. cbn [crc_bits]. apply IH.
  assert (Hs : in_u 32 (Z.shiftr c 1)).
  { rewrite Z.shiftr_div_pow2 by lia. unfold in_u in *. change (2 ^ 1) with 2.
    split; [apply Z.div_pos|apply Z.div_lt_upper_bound]; lia. }
  case_match; [|done]. by apply in_u_lxor.
Qed.

Lemma crc_fold_range bs c : in_u 32 c → in_u 32 (fold_left crc_step bs c).
Proof.
  revert c. induction bs as [|b bs IH]; intros c Hc; [done|]. cbn [fold_left]. apply IH.
  apply crc_bits_range, in_u_lxor; [done..|]. pose proof (Z_of_byte_range b). unfold in_u. lia.
Qed.

Lemma crc_lxor_cancel c : in_u 32 c → Z.lxor (u32 (Z.lxor c u32_max)) u32_max = c.
Proof.
  intros Hc. unfold u32. rewrite wrap_small by (by apply in_u_lxor).
  by rewrite Z.lxor_assoc, Z.lxor_nilpotent, Z.lxor_0_r.
Qed.

Lemma crc_append_ieee a b : crc_stream (crc_ieee a) b = crc_ieee (a ++ b).
Proof.
  unfold crc_stream, crc_ieee. fold crc_step. rewrite fold_left_app, crc_lxor_cancel; [done|].
  by apply crc_fold_range.
Qed.

Definition zlib_stream : @ZlibStream zlib_ieee :=
  @Build_ZlibStream zlib_ieee crc_stream eq_refl crc_append_ieee.

(** Paths without symbolic links, and a [mkstemp] that tries one name. *)
Definition plain_paths : StoragePaths :=
  Build_StoragePaths (λ p, p) Ok (λ p q E, match E in (_ = r) return match r with Ok q' => q' = p | _ => True end
    with eq_refl => eq_refl end) (λ p suffix, eq_refl).

Definition try_name (p : string) (files : gmap string (list byte)) : option string :=
  let t := p +:+ "AAAAAA" in if bool_decide (files !! t = None) then Some t else None.

Lemma try_name_fresh p files t : try_name p files = Some t → files !! t = None.
Proof. unfold try_name. case_bool_decide; [|done]. by intros [= <-]. Qed.

Lemma try_name_name p files t : try_name p files = Some t → ∃ xs, t = p +:+ xs ∧ String.length xs = 6%nat.
Proof. unfold try_name. case_bool_decide; [|done]. intros [= <-]. by exists "AAAAAA". Qed.

Definition one_name : Mkstemp := Build_Mkstemp try_name try_name_fresh try_name_name.

#[local] Existing Instance zlib_ieee.
#[local] Existing Instance zlib_stream.
#[local] Existing Instance plain_paths.
#[local] Existing Instance one_name.

Definition snapshot_state : State :=
  MkState new_wal (MkWorld {[ "dump.dmp" := bytes_of_string "snapshot" ]} []).

Definition checkpointed : Expected unit * State := WriteWalCheckpoint "dump.dmp" 41 snapshot_state.

Example checkpoint_run :
  checkpointed.1 = Ok tt ∧ (ReadWalCheckpoint "dump.dmp" checkpointed.2).1 = Ok 41.
Proof. vm_compute. auto. Qed.


Lemma checkpoint_accepts_witness : ReadWalCheckpoint "dump.dmp" checkpointed.2 = (Ok 41, checkpointed.2).
Proof.
  apply (proj2 (checkpoint_accepts "dump.dmp" 41 checkpointed.2)); [|vm_compute; reflexivity].
  exists (bytes_of_string "snapshot"). split; [vm_compute; reflexivity|]. split; [unfold bounded; vm_compute; discriminate|].
  split; [split; lia|]. split; [vm_compute; discriminate|vm_compute; reflexivity].
Defined.
