(* ===== verification/SimilarityResult.v ===== *)
(** * [similarity::SimilarityResult] (src/similarity/similarity_result.h) *)

From S2P Require Import Prelude StringLib Floats.
#[local] Open Scope Z_scope.

Record SimilarityResult : Type := MkResult { item_id : string; score : Z }.

#[export] Instance SimilarityResult_eq_dec : EqDecision SimilarityResult.
Proof. solve_decision. Defined.

(** [operator<]: by descending score ([!=] on floats), then ascending id. *)
Definition result_before (a b : SimilarityResult) : bool :=
  if negb (f32_eqb (score a) (score b)) then f32_ltb (score b) (score a)
  else string_ltb (item_id a) (item_id b).

(** Without NaNs the order is a strict total order on score and id. *)
Lemma result_before_spec a b :
  not_nan (score a) → not_nan (score b) →
  result_before a b = true ↔
    rank_lt (rank (f32 (score b))) (rank (f32 (score a))) ∨
    (rank (f32 (score a)) = rank (f32 (score b)) ∧ string_ltb (item_id a) (item_id b) = true).
Proof.
  intros Ha Hb. unfold result_before. pose proof (f32_eqb_rank _ _ Ha Hb) as He. pose proof (f32_ltb_rank _ _ Hb Ha) as Hl.
  destruct (f32_eqb (score a) (score b)); cbn [negb].
  - destruct He as [He _]. specialize (He eq_refl). rewrite He. unfold rank_lt. split; [auto|]. intros [?|[_ ?]]; [lia|done].
  - rewrite Hl. split; [auto|]. intros [?|[E _]]; [done|]. apply He in E. done.
Qed.

Lemma result_before_asym a b :
  not_nan (score a) → not_nan (score b) → result_before a b = true → result_before b a = false.
Proof.
  intros Ha Hb. rewrite <- not_true_iff_false, !result_before_spec by done. unfold rank_lt.
  intros [?|[E Hs]] [?|[E' Hs']]; [lia|rewrite E' in *; lia|rewrite E in *; lia|].
  pose proof (string_ltb_trans _ _ _ Hs Hs') as F. by rewrite string_ltb_irrefl in F.
Qed.

Lemma result_before_trans_neg a b c :
  not_nan (score a) → not_nan (score b) → not_nan (score c) →
  result_before b a = false → result_before c b = false → result_before c a = false.
Proof.
  intros Ha Hb Hc. rewrite <- !not_true_iff_false, !result_before_spec by done. intros H1 H2 H3.
  generalize dependent (rank (f32 (score a))). generalize dependent (rank (f32 (score b))). generalize dependent (rank (f32 (score c))).
  intros [[c1 c2] c3] [[b1 b2] b3] H2 [[a1 a2] a3] H1 H3. unfold rank_lt in *. cbn in *.
  destruct H3 as [H3|[[= -> -> ->] H3]]; [lia|].
  destruct (string_ltb_trichotomy (item_id b) (item_id c)) as [Hs|[Hs|Hs]].
  - destruct (decide (b1 = a1 ∧ b2 = a2 ∧ b3 = a3)) as [(-> & -> & ->)|?]; [|lia].
    apply H1. right. split; [done|]. by eapply string_ltb_trans.
  - rewrite <- Hs in H3. destruct (decide (b1 = a1 ∧ b2 = a2 ∧ b3 = a3)) as [(-> & -> & ->)|?]; [|lia]. apply H1. by right.
  - destruct (decide (b1 = a1 ∧ b2 = a2 ∧ b3 = a3)) as [(-> & -> & ->)|?]; [|lia]. apply H2. by right.
Qed.

Lemma result_before_total a b :
  not_nan (score a) → not_nan (score b) → result_before a b = false → result_before b a = false → item_id a = item_id b.
Proof.
  intros Ha Hb. rewrite <- !not_true_iff_false, !result_before_spec by done. intros H1 H2.
  generalize dependent (rank (f32 (score a))). generalize dependent (rank (f32 (score b))).
  intros [[b1 b2] b3] [[a1 a2] a3] H1 H2. unfold rank_lt in *. cbn in *.
  destruct (decide (b1 = a1 ∧ b2 = a2 ∧ b3 = a3)) as [(-> & -> & ->)|?]; [|lia].
  destruct (string_ltb_trichotomy (item_id a) (item_id b)) as [?|[?|?]]; [|done|]; exfalso; [apply H1|apply H2]; by right.
Qed.

(** Sorted results: by descending score. *)
Lemma std_sort_results l :
  Forall (λ r, not_nan (score r)) l → StronglySorted (comp_le result_before) (std_sort result_before l).
Proof.
  apply std_sort_sorted; [intros a b; apply result_before_asym|].
  intros a b c Ha Hb Hc. by apply result_before_trans_neg.
Qed.

Lemma not_before_score a b :
  not_nan (score a) → not_nan (score b) → result_before b a = false → f32_ltb (score a) (score b) = false.
Proof.
  intros Ha Hb. rewrite <- !not_true_iff_false, result_before_spec, f32_ltb_rank by done. tauto.
Qed.
