(* ===== verification/ResultCompressor.v ===== *)
(** * [cache::ResultCompressor] (src/cache/result_compressor.cpp)

    Search results as fixed 260-byte records, optionally LZ4-compressed.  LZ4
    is a parameter: decompressing a compressed buffer gives it back. *)

From S2P Require Import Prelude Floats SimilarityResult.
#[local] Open Scope Z_scope.

Class Lz4 : Type := {
  LZ4_compress_default : list byte → option (list byte);
  LZ4_decompress_safe : list byte → nat → option (list byte);
  lz4_nonempty : ∀ bs c, LZ4_compress_default bs = Some c → c ≠ [];
  lz4_int : ∀ bs c, LZ4_compress_default bs = Some c → Z.of_nat (length c) ≤ 2 ^ 31 - 1;
  lz4_decompress_compress : ∀ bs c,
    LZ4_compress_default bs = Some c → LZ4_decompress_safe c (length bs) = Some bs
}.

Definition kIdSize : nat := 256.
(** [sizeof(SerializedSimilarityResult)] *)
Definition kRecordSize : nat := 260.
Definition INT_MAX : Z := 2 ^ 31 - 1.

(** The id zero-padded to its buffer, then the score. *)
Definition serialize_one (r : SimilarityResult) : list byte :=
  bytes_of_string (item_id r) ++ replicate (kIdSize - String.length (item_id r)) Byte.x00 ++ le_bytes 4 (score r).

Definition id_unfit (r : SimilarityResult) : bool :=
  (kIdSize <=? String.length (item_id r))%nat || bool_decide (Byte.x00 ∈ bytes_of_string (item_id r)).

Definition SerializeSimilarityResults (results : list SimilarityResult) : Expected (list byte) :=
  if bool_decide (results = []) then Ok []
  else if INT_MAX / Z.of_nat kRecordSize <? Z.of_nat (length results)
  then throw kCacheCompressionFailed "Serialized cache result size exceeds limit"
  else if existsb id_unfit results
  then throw kCacheCompressionFailed "item_id is too long or contains an embedded NUL byte"
  else Ok (concat (serialize_one <$> results)).

(** The bytes before the first NUL, if there is one. *)
Fixpoint until_nul (bs : list byte) : option (list byte) :=
  match bs with
  | [] => None
  | b :: bs' => if bool_decide (b = Byte.x00) then Some [] else cons b <$> until_nul bs'
  end.

Fixpoint read_records (count : nat) (bs : list byte) : Expected (list SimilarityResult) :=
  match count with
  | O => Ok []
  | S count' =>
      match until_nul (take kIdSize bs) with
      | None => throw kCacheDecompressionFailed "Cached result ID is not terminated"
      | Some id =>
          let? rest := read_records count' (drop kRecordSize bs) in
          Ok (MkResult (string_of_bytes id) (le_value (take 4 (drop kIdSize bs))) :: rest)
      end
  end.

Definition DeserializeSimilarityResults (serialized : list byte) : Expected (list SimilarityResult) :=
  if bool_decide (serialized = []) then Ok []
  else if negb (Z.of_nat (length serialized) mod Z.of_nat kRecordSize =? 0) || (INT_MAX <? Z.of_nat (length serialized))
  then throw kCacheDecompressionFailed "Invalid serialized cache result size"
  else read_records (length serialized / kRecordSize) serialized.

Section lz4.
Context {lz4 : Lz4}.

Definition CompressSimilarityResults (results : list SimilarityResult) : Expected (list byte) :=
  let? serialized := SerializeSimilarityResults results in
  if bool_decide (serialized = []) then Ok []
  else match LZ4_compress_default serialized with
       | Some compressed => Ok compressed
       | None => throw kCacheCompressionFailed "LZ4 compression failed"
       end.

Definition DecompressSimilarityResults (compressed : list byte) (original_size : Z)
    : Expected (list SimilarityResult) :=
  if bool_decide (compressed = []) || (original_size =? 0) then Ok []
  else if negb (original_size mod Z.of_nat kRecordSize =? 0) || (INT_MAX <? original_size) ||
          (INT_MAX <? Z.of_nat (length compressed))
  then throw kCacheDecompressionFailed "Invalid compressed cache result size"
  else match LZ4_decompress_safe compressed (Z.to_nat original_size) with
       | None => throw kCacheDecompressionFailed "LZ4 decompression failed"
       | Some serialized =>
           if negb (Z.of_nat (length serialized) =? original_size)
           then throw kCacheDecompressionFailed "LZ4 decompression size mismatch"
           else DeserializeSimilarityResults serialized
       end.

(** ** Round trips *)

Lemma id_fit r :
  id_unfit r = false → (String.length (item_id r) < kIdSize)%nat ∧ Byte.x00 ∉ bytes_of_string (item_id r).
Proof.
  unfold id_unfit. intros [H1%Nat.leb_gt H2%bool_decide_eq_false]%orb_false_iff. done.
Qed.

Lemma length_serialize_one r : id_unfit r = false → length (serialize_one r) = kRecordSize.
Proof.
  intros [Hl _]%id_fit. unfold serialize_one.
  rewrite !length_app, length_bytes_of_string, length_replicate, length_le_bytes. unfold kIdSize, kRecordSize in *. lia.
Qed.

Lemma until_nul_app bs n rest :
  Byte.x00 ∉ bs → until_nul (bs ++ replicate (S n) Byte.x00 ++ rest) = Some bs.
Proof.
  induction bs as [|b bs IH]; intros Hb; [done|]. apply not_elem_of_cons in Hb as [Hb Hbs]. cbn [app until_nul].
  rewrite bool_decide_eq_false_2 by done. by rewrite IH.
Qed.

Lemma read_record r rest :
  id_unfit r = false → in_u 32 (score r) →
  until_nul (take kIdSize (serialize_one r ++ rest)) = Some (bytes_of_string (item_id r)) ∧
  le_value (take 4 (drop kIdSize (serialize_one r ++ rest))) = score r ∧
  drop kRecordSize (serialize_one r ++ rest) = rest.
Proof.
  intros Hr Hs. pose proof (length_serialize_one r Hr) as Hlen. apply id_fit in Hr as [Hl Hnul].
  unfold serialize_one in *. set (pad := replicate _ _) in *. set (id := bytes_of_string (item_id r)) in *.
  assert (Hid : length (id ++ pad) = kIdSize).
  { unfold id, pad. rewrite length_app, length_bytes_of_string, length_replicate. lia. }
  assert (Esplit : (id ++ pad ++ le_bytes 4 (score r)) ++ rest = (id ++ pad) ++ le_bytes 4 (score r) ++ rest)
    by (by rewrite <- !(assoc_L (++))).
  split_and!.
  - rewrite Esplit, take_app_length' by done.
    unfold pad. destruct (kIdSize - String.length (item_id r))%nat as [|n] eqn:E; [lia|].
    rewrite <- (app_nil_r (replicate _ _)). by apply until_nul_app.
  - rewrite Esplit, drop_app_length', take_app_length' by (done || apply length_le_bytes).
    by apply le_value_bytes_small.
  - by apply drop_app_length'.
Qed.

Definition results_ok (results : list SimilarityResult) : Prop := Forall (λ r, in_u 32 (score r)) results.

Lemma read_records_serialize results rest :
  results_ok results → Forall (λ r, id_unfit r = false) results →
  read_records (length results) (concat (serialize_one <$> results) ++ rest) = Ok results.
Proof.
  intros Hs Hu. revert rest. induction results as [|r results IH]; intros rest; [done|].
  apply Forall_cons in Hs as [Hs Hs']. apply Forall_cons in Hu as [Hu Hu'].
  rewrite fmap_cons. cbn [concat length read_records]. rewrite <- (assoc_L (++)).
  destruct (read_record r (concat (serialize_one <$> results) ++ rest) Hu Hs) as (-> & -> & ->).
  rewrite IH by done. cbn [expected_bind]. rewrite string_of_bytes_of_string. by destruct r.
Qed.

Lemma length_serialized results :
  Forall (λ r, id_unfit r = false) results →
  length (concat (serialize_one <$> results)) = (length results * kRecordSize)%nat.
Proof.
  induction 1 as [|r results Hr _ IH]; [done|]. rewrite fmap_cons. cbn [concat length].
  rewrite length_app, length_serialize_one, IH by done. lia.
Qed.

Lemma Serialize_inv results bs :
  SerializeSimilarityResults results = Ok bs →
  bs = concat (serialize_one <$> results) ∧ Forall (λ r, id_unfit r = false) results ∧
  Z.of_nat (length bs) ≤ INT_MAX.
Proof.
  unfold SerializeSimilarityResults. case_bool_decide as Hnil; [intros [= <-]; subst; by split_and!|].
  destruct (Z.ltb_spec (INT_MAX / Z.of_nat kRecordSize) (Z.of_nat (length results))) as [|Hle]; [done|].
  destruct (existsb id_unfit results) eqn:Hex; [done|]. intros [= <-].
  assert (HF : Forall (λ r, id_unfit r = false) results).
  { apply Forall_forall. intros r Hr. apply not_true_iff_false. intros Hu.
    apply not_true_iff_false in Hex. apply Hex, existsb_exists. exists r. by rewrite <- list_elem_of_In. }
  split_and!; [done|done|]. rewrite length_serialized by done.
  apply (Z.mul_le_mono_nonneg_r _ _ (Z.of_nat kRecordSize)) in Hle; [|unfold kRecordSize; lia].
  pose proof (Z.mul_div_le INT_MAX (Z.of_nat kRecordSize)). unfold kRecordSize in *. lia.
Qed.

Lemma Deserialize_Serialize results bs :
  results_ok results → SerializeSimilarityResults results = Ok bs → DeserializeSimilarityResults bs = Ok results.
Proof.
  intros Hok H. apply Serialize_inv in H as (-> & HF & Hmax). unfold DeserializeSimilarityResults.
  pose proof (length_serialized results HF) as Hlen. case_bool_decide as Hnil.
  - rewrite Hnil in Hlen. destruct results; [done|cbn in Hlen; unfold kRecordSize in *; lia].
  - rewrite Hlen in *. rewrite Nat2Z.inj_mul, Z.mod_mul by (unfold kRecordSize; lia).
    rewrite <- Nat2Z.inj_mul. destruct (Z.ltb_spec INT_MAX (Z.of_nat (length results * kRecordSize))); [lia|].
    cbn [Z.eqb negb orb]. rewrite Nat.div_mul by done.
    rewrite <- (app_nil_r (concat _)). by apply read_records_serialize.
Qed.

Lemma Decompress_Compress results c :
  results_ok results → CompressSimilarityResults results = Ok c →
  DecompressSimilarityResults c (Z.of_nat (length results * kRecordSize)) = Ok results.
Proof.
  intros Hok. unfold CompressSimilarityResults. destruct (SerializeSimilarityResults results) as [bs|] eqn:Hs; [cbn|done].
  pose proof (Serialize_inv _ _ Hs) as (Hbs & HF & Hmax).
  pose proof (length_serialized results HF) as Hlen. rewrite <- Hbs in Hlen. case_bool_decide as Hnil.
  - intros [= <-]. rewrite Hnil in Hlen. by destruct results; [|cbn in Hlen; unfold kRecordSize in *; lia].
  - destruct (LZ4_compress_default bs) as [c'|] eqn:Hc; intros [= <-]. unfold DecompressSimilarityResults.
    rewrite bool_decide_eq_false_2 by (by eapply lz4_nonempty). cbn [orb]. rewrite <- Hlen.
    pose proof (lz4_int _ _ Hc). unfold INT_MAX in *.
    destruct (Z.eqb_spec (Z.of_nat (length bs)) 0); [by destruct bs|].
    rewrite Hlen, Nat2Z.inj_mul, Z.mod_mul by (unfold kRecordSize; lia).
    rewrite <- Nat2Z.inj_mul, <- Hlen. cbn [Z.eqb negb orb].
    destruct (Z.ltb_spec (2 ^ 31 - 1) (Z.of_nat (length bs))); [lia|].
    destruct (Z.ltb_spec (2 ^ 31 - 1) (Z.of_nat (length c'))); [lia|]. cbn [orb].
    rewrite Nat2Z.id, (lz4_decompress_compress _ _ Hc), Z.eqb_refl. by apply Deserialize_Serialize.
Qed.

(** Results that serialise come back unchanged, compressed or not, with any
    correct LZ4; results with an id of 256 bytes or more or with a NUL byte are
    refused instead of truncated. *)
Lemma compressor_roundtrip results :
  results_ok results →
  (∀ bs, SerializeSimilarityResults results = Ok bs → DeserializeSimilarityResults bs = Ok results) ∧
  (∀ c, CompressSimilarityResults results = Ok c →
    DecompressSimilarityResults c (Z.of_nat (length results * kRecordSize)) = Ok results) ∧
  (∀ r, r ∈ results → (256 ≤ String.length (item_id r))%nat ∨ Byte.x00 ∈ bytes_of_string (item_id r) →
    (∃ m, SerializeSimilarityResults results = throw kCacheCompressionFailed m) ∧
    (∃ m, CompressSimilarityResults results = throw kCacheCompressionFailed m)).
Proof.
  intros Hok. split_and!; [by intros; apply Deserialize_Serialize|by intros; apply Decompress_Compress|].
  intros r Hr Hbad.
  assert (Hthrow : ∃ m, SerializeSimilarityResults results = throw kCacheCompressionFailed m).
  { unfold SerializeSimilarityResults. case_bool_decide; [subst; by apply elem_of_nil in Hr|].
    case_match; [by eexists|]. destruct (existsb id_unfit results) eqn:Hex; [by eexists|].
    apply not_true_iff_false in Hex. destruct Hex. apply existsb_exists. exists r.
    rewrite <- list_elem_of_In. split; [done|]. unfold id_unfit, kIdSize.
    destruct Hbad as [Hl|Hn]; [by rewrite (proj2 (Nat.leb_le _ _) Hl)|].
    by rewrite bool_decide_eq_true_2, orb_true_r. }
  split; [done|]. destruct Hthrow as [m Hm]. exists m. unfold CompressSimilarityResults. by rewrite Hm.
Qed.
End lz4.

(** An LZ4 that stores its input. *)
Program Definition stored : Lz4 :=
  {| LZ4_compress_default bs :=
       if bool_decide (bs = []) || (2 ^ 31 - 1 <? Z.of_nat (length bs)) then None else Some bs;
     LZ4_decompress_safe c n := Some c |}.
Next Obligation. intros bs c. cbn. case_bool_decide; [done|]. case_match; intros [= <-]; done. Qed.
Next Obligation. intros bs c. cbn. case_bool_decide; [done|]. case_match eqn:E; [done|]. intros [= <-]. cbn in E. lia. Qed.
Next Obligation. intros bs c. cbn. case_match; by intros [= <-]. Qed.

Definition example_results : list SimilarityResult :=
  [MkResult "item1" (f32_of_Z 1); MkResult "item22" 0x3F000000].

Lemma compressor_roundtrip_witness :
  @DecompressSimilarityResults stored (default [] match @CompressSimilarityResults stored example_results with
    | Ok c => Some c | Unexpected _ => None end) 520 = Ok example_results.
Proof.
  apply (proj1 (proj2 (@compressor_roundtrip stored example_results
    ltac:(repeat constructor; vm_compute; congruence)))). vm_compute. reflexivity.
Defined.
