(* ===== verification/Md5.v ===== *)
(** * [cache::MD5], [CacheKeyGenerator] (src/cache/md5.cpp, cache_key.cpp)

    The incremental MD5 of the cache keys: 32-bit words as [Z] with wrap-around,
    a 64-byte buffer and a two-word bit count.  The reference it is compared
    with pads the whole message and absorbs it block by block. *)

From S2P Require Import Prelude.
#[local] Open Scope Z_scope.

(** ** The compression function *)

Definition S11 : Z := 7.
Definition S12 : Z := 12.
Definition S13 : Z := 17.
Definition S14 : Z := 22.
Definition S21 : Z := 5.
Definition S22 : Z := 9.
Definition S23 : Z := 14.
Definition S24 : Z := 20.
Definition S31 : Z := 4.
Definition S32 : Z := 11.
Definition S33 : Z := 16.
Definition S34 : Z := 23.
Definition S41 : Z := 6.
Definition S42 : Z := 10.
Definition S43 : Z := 15.
Definition S44 : Z := 21.

Definition not32 (x : Z) : Z := Z.lxor x u32_max.

Definition F (x y z : Z) : Z := Z.lor (Z.land x y) (Z.land (not32 x) z).
Definition G (x y z : Z) : Z := Z.lor (Z.land x z) (Z.land y (not32 z)).
Definition H (x y z : Z) : Z := Z.lxor (Z.lxor x y) z.
Definition I (x y z : Z) : Z := Z.lxor y (Z.lor x (not32 z)).

Definition RotateLeft (x n : Z) : Z := Z.lor (u32 (Z.shiftl x n)) (Z.shiftr x (32 - n)).

Definition Round : Type := Z → Z → Z → Z.
Definition Words : Type := Z * Z * Z * Z.

(** [FF], [GG], [HH] and [II]: the new value of [a]. *)
Definition step (f : Round) (a b c d x s ac : Z) : Z :=
  u32 (RotateLeft (u32 (a + u32 (u32 (f b c d + x) + ac))) s + b).

Definition round1 : list (Round * nat * Z * Z) :=
 [(F, 0%nat, S11, 0xd76aa478); (F, 1%nat, S12, 0xe8c7b756); (F, 2%nat, S13, 0x242070db); (F, 3%nat, S14, 0xc1bdceee);
  (F, 4%nat, S11, 0xf57c0faf); (F, 5%nat, S12, 0x4787c62a); (F, 6%nat, S13, 0xa8304613); (F, 7%nat, S14, 0xfd469501);
  (F, 8%nat, S11, 0x698098d8); (F, 9%nat, S12, 0x8b44f7af); (F, 10%nat, S13, 0xffff5bb1); (F, 11%nat, S14, 0x895cd7be);
  (F, 12%nat, S11, 0x6b901122); (F, 13%nat, S12, 0xfd987193); (F, 14%nat, S13, 0xa679438e); (F, 15%nat, S14, 0x49b40821)].

Definition round2 : list (Round * nat * Z * Z) :=
 [(G, 1%nat, S21, 0xf61e2562); (G, 6%nat, S22, 0xc040b340); (G, 11%nat, S23, 0x265e5a51); (G, 0%nat, S24, 0xe9b6c7aa);
  (G, 5%nat, S21, 0xd62f105d); (G, 10%nat, S22, 0x2441453); (G, 15%nat, S23, 0xd8a1e681); (G, 4%nat, S24, 0xe7d3fbc8);
  (G, 9%nat, S21, 0x21e1cde6); (G, 14%nat, S22, 0xc33707d6); (G, 3%nat, S23, 0xf4d50d87); (G, 8%nat, S24, 0x455a14ed);
  (G, 13%nat, S21, 0xa9e3e905); (G, 2%nat, S22, 0xfcefa3f8); (G, 7%nat, S23, 0x676f02d9); (G, 12%nat, S24, 0x8d2a4c8a)].

Definition round3 : list (Round * nat * Z * Z) :=
 [(H, 5%nat, S31, 0xfffa3942); (H, 8%nat, S32, 0x8771f681); (H, 11%nat, S33, 0x6d9d6122); (H, 14%nat, S34, 0xfde5380c);
  (H, 1%nat, S31, 0xa4beea44); (H, 4%nat, S32, 0x4bdecfa9); (H, 7%nat, S33, 0xf6bb4b60); (H, 10%nat, S34, 0xbebfbc70);
  (H, 13%nat, S31, 0x289b7ec6); (H, 0%nat, S32, 0xeaa127fa); (H, 3%nat, S33, 0xd4ef3085); (H, 6%nat, S34, 0x4881d05);
  (H, 9%nat, S31, 0xd9d4d039); (H, 12%nat, S32, 0xe6db99e5); (H, 15%nat, S33, 0x1fa27cf8); (H, 2%nat, S34, 0xc4ac5665)].

Definition round4 : list (Round * nat * Z * Z) :=
 [(I, 0%nat, S41, 0xf4292244); (I, 7%nat, S42, 0x432aff97); (I, 14%nat, S43, 0xab9423a7); (I, 5%nat, S44, 0xfc93a039);
  (I, 12%nat, S41, 0x655b59c3); (I, 3%nat, S42, 0x8f0ccc92); (I, 10%nat, S43, 0xffeff47d); (I, 1%nat, S44, 0x85845dd1);
  (I, 8%nat, S41, 0x6fa87e4f); (I, 15%nat, S42, 0xfe2ce6e0); (I, 6%nat, S43, 0xa3014314); (I, 13%nat, S44, 0x4e0811a1);
  (I, 4%nat, S41, 0xf7537e82); (I, 11%nat, S42, 0xbd3af235); (I, 2%nat, S43, 0x2ad7d2bb); (I, 9%nat, S44, 0xeb86d391)].

(** Each line of the code updates the next of [a], [d], [c], [b]: the registers
    rotate, and are back in place after each round of sixteen. *)
Definition apply_step (x : list Z) (w : Words) (r : Round * nat * Z * Z) : Words :=
  let '(a, b, c, d) := w in
  let '(f, i, s, ac) := r in
  (d, step f a b c d (nth i x 0) s ac, b, c).

(** The sixteen little-endian words of a block. *)
Fixpoint words (n : nat) (block : list byte) : list Z :=
  match n with
  | O => []
  | S n' => le_value (take 4 block) :: words n' (drop 4 block)
  end.

Definition Transform (block : list byte) (w : Words) : Words :=
  let '(a, b, c, d) := w in
  let '(a', b', c', d') :=
    fold_left (apply_step (words 16 block)) (round1 ++ round2 ++ round3 ++ round4) w in
  (u32 (a + a'), u32 (b + b'), u32 (c + c'), u32 (d + d')).

(** ** The incremental hasher *)

Record MD5 : Type := MkMD5 {
  state_ : Words;
  count0 : Z;
  count1 : Z;
  buffer_ : list byte
}.

Definition init_words : Words := (0x67452301, 0xefcdab89, 0x98badcfe, 0x10325476).

(** The constructor leaves [buffer_] uninitialised. *)
Definition new_MD5 (junk : list byte) : MD5 := MkMD5 init_words 0 0 junk.

(** [memcpy(&buf[off], data, ...)] *)
Definition put (off : nat) (data buf : list byte) : list byte :=
  take off buf ++ data ++ drop (off + length data) buf.

(** The loop over whole blocks: [i + 63 < len].  [fuel] above [length data] is
    enough.  What is left goes to the front of the buffer. *)
Fixpoint absorb_blocks (fuel : nat) (data : list byte) (w : Words) : Words * list byte :=
  match fuel with
  | O => (w, data)
  | S fuel' =>
      if (64 <=? length data)%nat then absorb_blocks fuel' (drop 64 data) (Transform (take 64 data) w)
      else (w, data)
  end.

Definition Update (data : list byte) (m : MD5) : MD5 :=
  let len := Z.of_nat (length data) in
  let index := Z.to_nat (Z.land (Z.shiftr (count0 m) 3) 0x3F) in
  let bits := u32 (Z.shiftl len 3) in
  let c0 := u32 (count0 m + bits) in
  let c1 := if c0 <? bits then u32 (count1 m + 1) else count1 m in
  let c1 := u32 (c1 + u32 (Z.shiftr len 29)) in
  let part_len := (64 - index)%nat in
  if (part_len <=? length data)%nat then
    let block := put index (take part_len data) (buffer_ m) in
    let '(w, rest) := absorb_blocks (length data) (drop part_len data) (Transform block (state_ m)) in
    MkMD5 w c0 c1 (put 0 rest block)
  else MkMD5 (state_ m) c0 c1 (put index data (buffer_ m)).

Definition padding : list byte := byte_of_Z 0x80 :: replicate 63 Byte.x00.

Definition digest_bytes (w : Words) : list byte :=
  let '(a, b, c, d) := w in le_bytes 4 a ++ le_bytes 4 b ++ le_bytes 4 c ++ le_bytes 4 d.

Definition Finalize (m : MD5) : list byte :=
  let bits := le_bytes 4 (count0 m) ++ le_bytes 4 (count1 m) in
  let index := Z.to_nat (Z.land (Z.shiftr (count0 m) 3) 0x3f) in
  let pad_len := if (index <? 56)%nat then (56 - index)%nat else (120 - index)%nat in
  digest_bytes (state_ (Update bits (Update (take pad_len padding) m))).

Definition Hash (junk : list byte) (input : string) : list byte :=
  Finalize (Update (bytes_of_string input) (new_MD5 junk)).

(** ** Cache keys *)

Record CacheKey : Type := MkCacheKey { hash_high : Z; hash_low : Z }.

#[export] Instance CacheKey_eq_dec : EqDecision CacheKey.
Proof. solve_decision. Defined.

#[export] Instance CacheKey_countable : Countable CacheKey.
Proof.
  apply (inj_countable' (λ k, (hash_high k, hash_low k)) (λ p, MkCacheKey p.1 p.2)). by intros [].
Defined.

Definition be_value (bs : list byte) : Z := fold_left (λ h b, u64 (Z.lor (u64 (Z.shiftl h 8)) (Z_of_byte b))) bs 0.

Definition Generate (junk : list byte) (normalized_query : string) : CacheKey :=
  let digest := Hash junk normalized_query in
  MkCacheKey (be_value (take 8 digest)) (be_value (drop 8 digest)).

(** ** The reference: RFC 1321 *)

Definition zeros (len : nat) : nat := ((55 + 64 - len mod 64) mod 64)%nat.

Definition pad (msg : list byte) : list byte :=
  msg ++ byte_of_Z 0x80 :: replicate (zeros (length msg)) Byte.x00 ++
  le_bytes 8 (8 * Z.of_nat (length msg)).

Definition md5_reference (msg : list byte) : list byte :=
  digest_bytes (fst (absorb_blocks (length (pad msg)) (pad msg) init_words)).

Definition hex_digit (d : Z) : Ascii.ascii :=
  Ascii.ascii_of_N (Z.to_N (if d <? 10 then 48 + d else 87 + d)).
Fixpoint hex (bs : list byte) : string :=
  match bs with
  | [] => ""
  | b :: bs' => String (hex_digit (Z_of_byte b / 16)) (String (hex_digit (Z_of_byte b mod 16)) (hex bs'))
  end.

Example rfc1321_suite :
  hex (Hash (replicate 64 Byte.x00) "") = "d41d8cd98f00b204e9800998ecf8427e" ∧
  hex (Hash (replicate 64 Byte.xff) "message digest") = "f96b697d7cb7938d525a2f31aaf161d0" ∧
  hex (md5_reference (bytes_of_string
    "12345678901234567890123456789012345678901234567890123456789012345678901234567890")) =
    "57edf4a22be3c955ac49da2e2107b67a".
Proof. vm_compute. auto. Qed.

(** ** Absorbing whole blocks *)

Fixpoint absorb (n : nat) (bs : list byte) (w : Words) : Words :=
  match n with
  | O => w
  | S n' => absorb n' (drop 64 bs) (Transform (take 64 bs) w)
  end.

#[local] Opaque Transform.

Lemma absorb_blocks_absorb fuel : ∀ bs w,
  (length bs < 64 * S fuel)%nat →
  absorb_blocks fuel bs w = (absorb (length bs / 64) bs w, drop (64 * (length bs / 64)) bs).
Proof.
  induction fuel as [|fuel IH]; intros bs w Hf; cbn [absorb_blocks].
  - rewrite Nat.div_small by lia. by rewrite Nat.mul_0_r, drop_0.
  - destruct (Nat.leb_spec 64 (length bs)) as [Hle|Hlt].
    + rewrite IH by (rewrite length_drop; lia). rewrite length_drop.
      assert (E : (length bs / 64 = S ((length bs - 64) / 64))%nat).
      { replace (length bs) with (length bs - 64 + 1 * 64)%nat at 1 by lia. rewrite Nat.div_add by lia. lia. }
      rewrite E. cbn [absorb]. rewrite drop_drop. do 2 f_equal. lia.
    + rewrite Nat.div_small by lia. by rewrite Nat.mul_0_r, drop_0.
Qed.

Lemma absorb_app n m : ∀ a b w,
  length a = (64 * n)%nat → absorb (n + m) (a ++ b) w = absorb m b (absorb n a w).
Proof.
  induction n as [|n IH]; intros a b w Ha; cbn [absorb Nat.add].
  - destruct a; [done|cbn in Ha; lia].
  - rewrite drop_app_le, take_app_le by lia. apply IH. rewrite length_drop. lia.
Qed.

Lemma absorb_take n : ∀ bs w, (64 * n ≤ length bs)%nat → absorb n bs w = absorb n (take (64 * n) bs) w.
Proof.
  intros bs w Hn. rewrite <- (take_drop (64 * n) bs) at 1. rewrite <- (Nat.add_0_r n) at 1.
  rewrite absorb_app by (rewrite length_take; lia). done.
Qed.

Lemma le_value_app a b : le_value (a ++ b) = le_value a + 2 ^ (8 * Z.of_nat (length a)) * le_value b.
Proof.
  induction a as [|x a IH]; cbn [app le_value length].
  - change (8 * Z.of_nat 0) with 0. lia.
  - rewrite IH, Nat2Z.inj_succ. replace (8 * Z.succ (Z.of_nat (length a))) with (8 + 8 * Z.of_nat (length a)) by lia.
    rewrite Z.pow_add_r by lia. change (2 ^ 8) with 256. lia.
Qed.

Lemma le_bytes_split v :
  le_bytes 4 (u32 v) ++ le_bytes 4 (u32 (v / 2 ^ 32)) = le_bytes 8 v.
Proof.
  apply le_value_inj; [by rewrite length_app, !length_le_bytes|].
  rewrite le_value_app, !le_value_bytes, length_le_bytes. unfold u32, wrap.
  change (8 * Z.of_nat 4) with 32. change (8 * Z.of_nat 8) with (32 + 32).
  rewrite !Z.mod_mod by lia. rewrite Z.pow_add_r, Z.rem_mul_r by lia. lia.
Qed.

(** ** The hasher represents the message it was fed *)

Record md5_rep (m : MD5) (msg : list byte) : Prop := MkRep {
  rep_state : state_ m = absorb (length msg / 64) msg init_words;
  rep_count0 : count0 m = u32 (8 * Z.of_nat (length msg));
  rep_count1 : count1 m = u32 (8 * Z.of_nat (length msg) / 2 ^ 32);
  rep_length : length (buffer_ m) = 64%nat;
  rep_buffer : take (length msg mod 64) (buffer_ m) = drop (64 * (length msg / 64)) msg
}.

Lemma new_MD5_rep junk : length junk = 64%nat → md5_rep (new_MD5 junk) [].
Proof. by constructor. Qed.

Lemma index_rep m msg :
  md5_rep m msg → Z.to_nat (Z.land (Z.shiftr (count0 m) 3) 0x3F) = (length msg mod 64)%nat.
Proof.
  intros Hr. rewrite (rep_count0 _ _ Hr). change 0x3F with (Z.ones 6).
  rewrite Z.land_ones, Z.shiftr_div_pow2 by lia. unfold u32, wrap.
  replace (2 ^ 32) with (2 ^ 3 * 2 ^ 29) by reflexivity.
  change (8 * Z.of_nat (length msg)) with (2 ^ 3 * Z.of_nat (length msg)).
  rewrite Z.mul_mod_distr_l, Z.mul_comm, Z.div_mul by lia.
  replace (2 ^ 29) with (2 ^ 6 * 2 ^ 23) by reflexivity. rewrite Z.rem_mul_r by lia.
  rewrite Z.add_mod, (Z.mul_comm (2 ^ 6)), Z.mod_mul, Z.add_0_r, !Z.mod_mod by lia.
  change (2 ^ 6) with (Z.of_nat 64). rewrite <- Nat2Z.inj_mod. apply Nat2Z.id.
Qed.

(** The two-word bit count is addition modulo 2^64. *)
Lemma bit_count l d :
  0 ≤ l → 0 ≤ d →
  let bits := u32 (Z.shiftl d 3) in
  let c0 := u32 (u32 (8 * l) + bits) in
  c0 = u32 (8 * (l + d)) ∧
  u32 ((if c0 <? bits then u32 (u32 (8 * l / 2 ^ 32) + 1) else u32 (8 * l / 2 ^ 32)) + u32 (Z.shiftr d 29)) =
  u32 (8 * (l + d) / 2 ^ 32).
Proof.
  intros Hl Hd. cbv zeta. rewrite Z.shiftl_mul_pow2, Z.shiftr_div_pow2 by lia.
  replace (d / 2 ^ 29) with (8 * d / 2 ^ 32) by (change (2 ^ 32) with (8 * 2 ^ 29); by rewrite Z.div_mul_cancel_l by lia).
  change (2 ^ 3) with 8. rewrite (Z.mul_comm d 8). unfold u32, wrap.
  replace (8 * (l + d)) with (8 * l + 8 * d) by lia. generalize (8 * l) as a, (8 * d) as b. intros a b.
  split; [by rewrite <- Z.add_mod by lia|]. rewrite <- Z.add_mod by lia.
  set (W := 2 ^ 32). assert (HW : 0 < W) by reflexivity.
  assert (E : (a + b) / W = a / W + b / W + (a mod W + b mod W) / W).
  { rewrite (Z.div_mod a W) at 1 by lia. rewrite (Z.div_mod b W) at 1 by lia.
    replace (W * (a / W) + a mod W + (W * (b / W) + b mod W)) with
      ((a mod W + b mod W) + (a / W + b / W) * W) by lia. rewrite Z.div_add by lia. lia. }
  assert (Em : (a + b) mod W = (a mod W + b mod W) mod W) by (by rewrite Z.add_mod by lia).
  rewrite E, Em. clear E Em.
  pose proof (Z.mod_pos_bound a W HW). pose proof (Z.mod_pos_bound b W HW).
  set (x := a mod W) in *. set (y := b mod W) in *.
  assert (Hcarry : (x + y) / W = if (x + y) mod W <? y then 1 else 0).
  { destruct (Z_lt_le_dec (x + y) W).
    - rewrite Z.div_small, Z.mod_small by lia. destruct (Z.ltb_spec (x + y) y); lia.
    - rewrite <- (Z.div_unique (x + y) W 1 (x + y - W)), <- (Z.mod_unique (x + y) W 1 (x + y - W)) by lia.
      destruct (Z.ltb_spec (x + y - W) y); lia. }
  rewrite Hcarry. destruct (_ <? _); rewrite Z.add_mod_idemp_r by lia.
  - rewrite <- (Z.add_mod_idemp_l (_ mod _)), Z.mod_mod, !Z.add_mod_idemp_l by lia.
    rewrite <- Z.add_assoc, Z.add_mod_idemp_l by lia. f_equal. lia.
  - rewrite Z.add_mod_idemp_l by lia. f_equal. lia.
Qed.

Lemma put_take off data buf :
  (off + length data ≤ length buf)%nat → take (off + length data) (put off data buf) = take off buf ++ data.
Proof.
  intros Hl. unfold put. rewrite (assoc_L (++)). apply take_app_length'.
  rewrite length_app, length_take. lia.
Qed.

Lemma put_take_all off data buf :
  (off + length data = length buf)%nat → take off buf ++ data = put off data buf.
Proof. intros Hl. unfold put. rewrite Hl, drop_all. by rewrite app_nil_r. Qed.

Lemma length_put off data buf : (off + length data ≤ length buf)%nat → length (put off data buf) = length buf.
Proof. intros. unfold put. rewrite !length_app, length_take, length_drop. lia. Qed.

Lemma Update_rep m msg data : md5_rep m msg → md5_rep (Update data m) (msg ++ data).
Proof.
  intros Hr. unfold Update. rewrite (index_rep m msg Hr). destruct Hr as [Hw Hc0 Hc1 Hlen Hbuf].
  pose proof (Nat.div_mod_eq (length msg) 64) as Hdm. pose proof (Nat.mod_upper_bound (length msg) 64 ltac:(lia)) as Hub.
  set (q := (length msg / 64)%nat) in *. set (i := (length msg mod 64)%nat) in *.
  destruct (bit_count (Z.of_nat (length msg)) (Z.of_nat (length data)) ltac:(lia) ltac:(lia)) as [E0 E1].
  rewrite Hc0, Hc1, E1, E0, <- Nat2Z.inj_add, <- length_app.
  set (pre := take (64 * q) msg). set (tl := drop (64 * q) msg) in *.
  assert (Hmsg : msg = pre ++ tl) by (symmetry; apply take_drop).
  assert (Hpre : length pre = (64 * q)%nat) by (unfold pre; rewrite length_take; lia).
  assert (Htl : length tl = i) by (unfold tl; rewrite length_drop; lia).
  destruct (Nat.leb_spec (64 - i) (length data)) as [Hfull|Hpart].
  - set (block := put i (take (64 - i) data) (buffer_ m)). set (rest := drop (64 - i) data).
    assert (Hblock : block = tl ++ take (64 - i) data).
    { unfold block. rewrite <- put_take_all, Hbuf; [done|].
      rewrite length_take, Hlen. lia. }
    assert (Hblen : length block = 64%nat).
    { unfold block. rewrite length_put, Hlen; [done|]. rewrite length_take, Hlen. lia. }
    assert (Hall : msg ++ data = (pre ++ block) ++ rest).
    { rewrite Hblock. rewrite Hmsg at 1. rewrite <- !(assoc_L (++)). unfold rest. by rewrite take_drop. }
    assert (Hrest : length (msg ++ data) = (64 * S q + length rest)%nat).
    { rewrite Hall, !length_app, Hpre, Hblen. lia. }
    assert (Hdiv : (length (msg ++ data) / 64 = S q + length rest / 64)%nat).
    { rewrite Hrest, Nat.add_comm, Nat.mul_comm, Nat.div_add by lia. lia. }
    assert (Hmod : (length (msg ++ data) mod 64 = length rest mod 64)%nat).
    { rewrite Hrest, Nat.add_comm, Nat.mul_comm, Nat.Div0.mod_add. done. }
    rewrite absorb_blocks_absorb by (unfold rest; rewrite length_drop; lia).
    constructor; cbn [state_ count0 count1 buffer_]; [|done|done| |].
    + rewrite Hdiv, Hall, absorb_app by (rewrite length_app; lia).
      replace (S q) with (q + 1)%nat by lia. rewrite absorb_app by done. cbn [absorb]. rewrite take_ge by lia.
      by rewrite Hw, (absorb_take q msg) by lia.
    + rewrite length_put; [done|]. rewrite length_drop, Hblen.
      pose proof (Nat.div_mod_eq (length rest) 64). pose proof (Nat.mod_upper_bound (length rest) 64). lia.
    + set (rest' := drop (64 * (length rest / 64)) rest).
      assert (Hr' : length rest' = (length rest mod 64)%nat).
      { unfold rest'. rewrite length_drop. pose proof (Nat.div_mod_eq (length rest) 64). lia. }
      pose proof (Nat.mod_upper_bound (length rest) 64 ltac:(lia)).
      rewrite Hmod, <- Hr', <- (Nat.add_0_l (length rest')), put_take, take_0, app_nil_l, Hdiv, Hall by lia.
      replace (64 * (S q + length rest / 64))%nat with (64 * S q + 64 * (length rest / 64))%nat by lia.
      rewrite <- drop_drop, drop_app_length' by (rewrite length_app; lia). done.
  - assert (Hsum : length (msg ++ data) = (i + length data + 64 * q)%nat) by (rewrite length_app; lia).
    assert (Hdiv : (length (msg ++ data) / 64 = q)%nat).
    { rewrite Hsum, (Nat.mul_comm 64), Nat.div_add, Nat.div_small by lia. done. }
    assert (Hmod : (length (msg ++ data) mod 64 = i + length data)%nat).
    { rewrite Hsum, (Nat.mul_comm 64), Nat.Div0.mod_add, Nat.mod_small by lia. done. }
    constructor; cbn [state_ count0 count1 buffer_]; [|done|done| |].
    + rewrite Hdiv, Hw, (absorb_take q msg), (absorb_take q (msg ++ data)) by (rewrite ?length_app; lia).
      by rewrite take_app_le by lia.
    + rewrite length_put, Hlen; [done|]. rewrite Hlen. lia.
    + rewrite Hmod, Hdiv, put_take, Hbuf by (rewrite Hlen; lia). unfold tl. rewrite drop_app_le by lia. done.
Qed.

(** ** Padding *)

Lemma padding_take p : (p < 64)%nat → take (S p) padding = byte_of_Z 0x80 :: replicate p Byte.x00.
Proof. intros Hp. unfold padding. cbn [take]. f_equal. rewrite take_replicate. f_equal. lia. Qed.

Lemma pad_length n :
  let i := (n mod 64)%nat in
  (if (i <? 56)%nat then (56 - i)%nat else (120 - i)%nat) = S (zeros n).
Proof.
  cbv zeta. unfold zeros. pose proof (Nat.mod_upper_bound n 64 ltac:(lia)).
  destruct (Nat.ltb_spec (n mod 64) 56).
  - replace (55 + 64 - n mod 64)%nat with (55 - n mod 64 + 1 * 64)%nat by lia.
    rewrite Nat.Div0.mod_add, (Nat.mod_small (55 - n mod 64)) by lia. lia.
  - rewrite (Nat.mod_small (55 + 64 - n mod 64)) by lia. lia.
Qed.

Lemma Finalize_rep m msg : md5_rep m msg → Finalize m = md5_reference msg.
Proof.
  intros Hr. unfold Finalize. rewrite (index_rep m msg Hr), pad_length.
  rewrite padding_take by (unfold zeros; apply Nat.mod_upper_bound; lia).
  rewrite (rep_count0 _ _ Hr), (rep_count1 _ _ Hr), le_bytes_split.
  apply (Update_rep _ _ (byte_of_Z 0x80 :: replicate (zeros (length msg)) Byte.x00)) in Hr.
  apply (Update_rep _ _ (le_bytes 8 (8 * Z.of_nat (length msg)))) in Hr.
  rewrite (rep_state _ _ Hr), <- (assoc_L (++)). unfold md5_reference.
  change (msg ++ _ ++ le_bytes 8 _) with (pad msg). by rewrite absorb_blocks_absorb by lia.
Qed.


