(* ===== verification/CacheKeys.v ===== *)
(** * Cache keys of queries (src/cache/cache_key_generator.cpp)

    A query is identified by the MD5 of a textual key.  The theorems are about
    the text: MD5 collisions are not considered. *)

From Stdlib Require Import Strings.Ascii.
From S2P Require Import Prelude StringLib Floats Md5.
#[local] Open Scope Z_scope.

Record SimCacheKeyParams : Type := MkSimKey {
  k_id : string;
  k_top_k : Z;
  k_mode : string;
  k_adaptive : option bool;
  k_cooccurrence_generation : N;
  k_vector_generation : N;
  k_filter_expr : string;
  k_metadata_generation : N;
  k_dataset_generation : N
}.

Record SimvCacheKeyParams : Type := MkSimvKey {
  v_vector : list Z;
  v_top_k : Z;
  v_vector_generation : N;
  v_filter_expr : string;
  v_metadata_generation : N;
  v_dataset_generation : N
}.

Definition AdaptiveCachePart (adaptive : option bool) : string :=
  match adaptive with None => "default" | Some true => "on" | Some false => "off" end.

Definition filter_part (filter_expr : string) : string :=
  if bool_decide (filter_expr = "") then "" else ":f" +:+ filter_expr.

(** What [GenerateSimCacheKey] writes to its stream. *)
Definition sim_key_text (p : SimCacheKeyParams) : string :=
  "SIM:" +:+ k_id p +:+ ":" +:+ pretty (k_top_k p) +:+ ":" +:+ k_mode p +:+ ":a" +:+
  AdaptiveCachePart (k_adaptive p) +:+ ":g" +:+ pretty (k_cooccurrence_generation p) +:+ ":v" +:+
  pretty (k_vector_generation p) +:+ ":m" +:+ pretty (k_metadata_generation p) +:+ ":d" +:+
  pretty (k_dataset_generation p) +:+ filter_part (k_filter_expr p).

Definition GenerateSimCacheKey (junk : list byte) (p : SimCacheKeyParams) : CacheKey :=
  Generate junk (sim_key_text p).

(** The [float]s as bytes in memory. *)
Definition HashVector (junk : list byte) (vector : list Z) : string :=
  if bool_decide (vector = []) then "00000000000000000000000000000000"
  else if (2 ^ 64 - 1) / 4 <? Z.of_nat (length vector) then "00000000000000000000000000000000"
  else hex (Finalize (Update (concat (le_bytes 4 <$> vector)) (new_MD5 junk))).

Definition simv_key_text (junk : list byte) (p : SimvCacheKeyParams) : string :=
  "SIMV:" +:+ HashVector junk (v_vector p) +:+ ":" +:+ pretty (v_top_k p) +:+ ":v" +:+
  pretty (v_vector_generation p) +:+ ":m" +:+ pretty (v_metadata_generation p) +:+ ":d" +:+
  pretty (v_dataset_generation p) +:+ filter_part (v_filter_expr p).

Definition GenerateSimvCacheKey (junk : list byte) (p : SimvCacheKeyParams) : CacheKey :=
  Generate junk (simv_key_text junk p).

(** ** Distinct queries, distinct texts *)

Lemma filter_part_separator f : at_separator ":"%char (filter_part f).
Proof. unfold filter_part. by case_bool_decide. Qed.

Lemma filter_part_inj f f' : filter_part f = filter_part f' → f = f'.
Proof.
  unfold filter_part. repeat case_bool_decide; try done; [by subst|]. intros E. by apply str_app_inj in E.
Qed.

Lemma adaptive_inj a a' : AdaptiveCachePart a = AdaptiveCachePart a' → a = a'.
Proof. by destruct a as [[]|], a' as [[]|]. Qed.

Lemma adaptive_free a : str_free ":"%char (AdaptiveCachePart a).
Proof. by destruct a as [[]|]. Qed.

Lemma pretty_N_colon (n : N) : str_free ":"%char (pretty n).
Proof. by apply pretty_N_free. Qed.
Lemma pretty_Z_colon (z : Z) : str_free ":"%char (pretty z).
Proof. by apply pretty_Z_free. Qed.

Create HintDb cache_keys.
#[local] Hint Resolve filter_part_separator adaptive_free pretty_N_colon pretty_Z_colon : cache_keys.
#[local] Hint Extern 1 (at_separator _ (_ +:+ _)) => reflexivity : cache_keys.

(** Peel one field off both sides of an equation of texts. *)
Ltac peel E H :=
  first [apply str_app_inj in E|idtac];
  apply str_field_inj with (c := ":"%char) in E as [H E]; [|by auto with cache_keys..].

(** Two SIM queries whose ids and modes contain no colon never share a key
    text; every field of the key separates, the presence of a filter
    included. *)
Lemma sim_key_injective p p' :
  str_free ":"%char (k_id p) → str_free ":"%char (k_id p') →
  str_free ":"%char (k_mode p) → str_free ":"%char (k_mode p') →
  sim_key_text p = sim_key_text p' → p = p'.
Proof.
  intros Hid Hid' Hmode Hmode' E. unfold sim_key_text in E.
  peel E H1. peel E H2. peel E H3. peel E H4. peel E H5. peel E H6. peel E H7. peel E H8.
  apply (inj pretty) in H2, H5, H6, H7, H8. apply adaptive_inj in H4. apply filter_part_inj in E.
  destruct p, p'. cbn in *. congruence.
Qed.

Definition query_a : SimCacheKeyParams :=
  MkSimKey "a" 10 "fusion" None 0 0 "x:10:fusion:adefault:g0:v0:m0:d0" 0 0.
Definition query_b : SimCacheKeyParams :=
  MkSimKey "a:10:fusion:adefault:g0:v0:m0:d0:fx" 10 "fusion" None 0 0 "" 0 0.

Definition query_c : SimCacheKeyParams := MkSimKey ("a" +:+ "b") (5 + 5) "events" (Some true) 3 4 "x=1" 5 6.
Definition query_d : SimCacheKeyParams := MkSimKey "ab" 10 "events" (Some true) 3 4 ("x" +:+ "=1") 5 6.

Lemma sim_key_injective_witness :
  sim_key_text query_c = "SIM:ab:10:events:aon:g3:v4:m5:d6:fx=1" ∧ query_c = query_d.
Proof. split; [reflexivity|]. apply (sim_key_injective query_c query_d); reflexivity. Defined.

(** Ids may contain colons, and then the texts of different queries can
    coincide: a filtered query for one item and an unfiltered query for another
    have the same cache key. *)
Lemma sim_key_collision :
  query_a ≠ query_b ∧ ∀ junk, GenerateSimCacheKey junk query_a = GenerateSimCacheKey junk query_b.
Proof. split; [done|]. intros junk. unfold GenerateSimCacheKey. f_equal. Qed.
