(* ===== verification/SimilarityCache.v ===== *)
(** * [cache::SimilarityCache] (src/cache/similarity_cache.cpp, .h)

    The result cache of similarity queries: an LRU list with a reverse index
    from item ids to the keys whose results mention them.

    [LookupWithTtl] is split where the code releases its shared lock and takes
    the exclusive one: [lookup_read] and [lookup_write], between which other
    operations may run.  Clock readings are arguments, in nanoseconds.  The
    memory estimate depends on bucket counts and capacities of the standard
    containers; the state carries what the containers will report.  The
    latency accumulators, which nothing reads but the statistics, are left
    out. *)

From S2P Require Import Prelude Floats Lru SimilarityResult ResultCompressor Md5.
#[local] Open Scope Z_scope.

Inductive SearchType : Type := kItemSearch | kVectorSearch | kFilteredSearch.

#[export] Instance SearchType_eq_dec : EqDecision SearchType.
Proof. solve_decision. Defined.

Record CachePolicy : Type := MkPolicy { enabled : bool; policy_ttl_seconds : Z }.

(** The counters of [CacheStatistics]. *)
Inductive Counter : Type :=
| total_queries | cache_hits | cache_misses | cache_misses_invalidated | cache_misses_not_found
| current_entries | current_memory_bytes | evictions | ttl_expirations | decompression_failures
| per_type_queries (t : SearchType) | per_type_hits (t : SearchType).

#[export] Instance Counter_eq_dec : EqDecision Counter.
Proof. solve_decision. Defined.

Definition CacheStatistics : Type := Counter → Z.
Definition store_counter (k : Counter) (v : Z) (s : CacheStatistics) : CacheStatistics :=
  λ k', if decide (k' = k) then u64 v else s k'.
Definition add_counter (k : Counter) (d : Z) (s : CacheStatistics) : CacheStatistics :=
  store_counter k (s k + d) s.

Record CachedEntry : Type := MkCached {
  compressed_data : list byte;
  compressed : bool;
  original_size : Z;
  query_cost_ms : Z;
  created_at : Z;
  expires_at : Z;
  invalidated : bool;
  referenced_item_ids : list string
}.

(** Sizes of the ABI. *)
Class Layout : Type := {
  sizeof_CachedEntry : Z;
  sizeof_entry_pair : Z;
  sizeof_string : Z;
  sizeof_key_set : Z
}.

Definition sizeof_CacheKey : Z := 16.
Definition sizeof_pointer : Z := 8.
Definition kSerializedResultSize : Z := 256 + 4.
Definition kMaxTrackedItemsPerEntry : nat := 50.
(** [steady_clock::time_point::max()] *)
Definition time_max : Z := 2 ^ 63 - 1.
Definition nanoseconds : Z := 10 ^ 9.

Record Settings : Type := MkSettings {
  max_memory_bytes : Z;
  compression_enabled : bool;
  eviction_batch_size : nat;
  min_query_cost_ms : Z;
  ttl_seconds : Z;
  cache_enabled : bool;
  policies : SearchType → CachePolicy
}.

(** [slack n] is what the containers report over their sizes (bucket arrays,
    spare capacity) at the [n]-th coming estimate. *)
Record SimilarityCache : Type := MkCache {
  settings : Settings;
  entries : lru CacheKey CachedEntry;
  item_to_cache_keys : gmap string (gset CacheKey);
  total_memory_bytes : Z;
  stats : CacheStatistics;
  slack : nat → Z
}.

Definition with_stats (f : CacheStatistics → CacheStatistics) (c : SimilarityCache) : SimilarityCache :=
  MkCache (settings c) (entries c) (item_to_cache_keys c) (total_memory_bytes c) (f (stats c)) (slack c).
Definition with_entries (t : lru CacheKey CachedEntry) (c : SimilarityCache) : SimilarityCache :=
  MkCache (settings c) t (item_to_cache_keys c) (total_memory_bytes c) (stats c) (slack c).
Definition with_index (r : gmap string (gset CacheKey)) (c : SimilarityCache) : SimilarityCache :=
  MkCache (settings c) (entries c) r (total_memory_bytes c) (stats c) (slack c).
Definition with_settings (s : Settings) (c : SimilarityCache) : SimilarityCache :=
  MkCache s (entries c) (item_to_cache_keys c) (total_memory_bytes c) (stats c) (slack c).

Definition default_policies (t : SearchType) : CachePolicy :=
  match t with
  | kItemSearch => MkPolicy true 0
  | kVectorSearch => MkPolicy false 0
  | kFilteredSearch => MkPolicy true 60
  end.

Definition new_cache (max_memory : Z) (min_cost : Z) (ttl : Z) (compression : bool) (batch : nat)
    (slack : nat → Z) : SimilarityCache :=
  MkCache (MkSettings max_memory compression (Nat.max 1 batch) min_cost ttl true default_policies)
    lru_empty ∅ 0 (λ _, 0) slack.

Definition lookup_entry (key : CacheKey) (c : SimilarityCache) : option CachedEntry :=
  lru_map (entries c) !! key.

(** ** Memory accounting *)

Section memory.
Context `{Layout}.

Definition sum_Z (l : list Z) : Z := foldr Z.add 0 l.

Definition entry_bytes (e : CachedEntry) : Z :=
  sizeof_CacheKey + sizeof_entry_pair + 2 * sizeof_pointer + Z.of_nat (length (compressed_data e)) +
  Z.of_nat (length (referenced_item_ids e)) * sizeof_string +
  sum_Z ((λ i, Z.of_nat (String.length i) + 1) <$> referenced_item_ids e).

Definition index_bytes (p : string * gset CacheKey) : Z :=
  sizeof_string + sizeof_key_set + 2 * sizeof_pointer + Z.of_nat (String.length p.1) + 1 +
  Z.of_nat (size p.2) * (sizeof_CacheKey + 2 * sizeof_pointer).

Definition EstimateMemoryLocked (c : SimilarityCache) : Z :=
  if bool_decide (lru_map (entries c) = ∅) && bool_decide (item_to_cache_keys c = ∅) then 0
  else u64 (slack c 0 + Z.of_nat (length (lru_list (entries c))) * (sizeof_CacheKey + 2 * sizeof_pointer) +
            sum_Z ((λ p, entry_bytes p.2) <$> map_to_list (lru_map (entries c))) +
            sum_Z (index_bytes <$> map_to_list (item_to_cache_keys c))).

Definition RefreshMemoryLocked (c : SimilarityCache) : SimilarityCache :=
  let bytes := EstimateMemoryLocked c in
  MkCache (settings c) (entries c) (item_to_cache_keys c) bytes
    (store_counter current_memory_bytes bytes (stats c)) (λ n, slack c (S n)).

(** ** Removal *)

(** Drop [key] from the set of [ref_id]; an emptied set goes. *)
Definition unlink (key : CacheKey) (r : gmap string (gset CacheKey)) (ref_id : string)
    : gmap string (gset CacheKey) :=
  match r !! ref_id with
  | None => r
  | Some keys =>
    let keys' := keys ∖ {[key]} in
    if bool_decide (keys' = ∅) then delete ref_id r else <[ref_id := keys']> r
  end.

Definition EraseLocked (key : CacheKey) (c : SimilarityCache) : SimilarityCache * bool :=
  match lookup_entry key c with
  | None => (c, false)
  | Some e =>
    let c := with_index (fold_left (unlink key) (referenced_item_ids e) (item_to_cache_keys c)) c in
    let c := with_entries (lru_remove key (entries c)) c in
    let c := with_stats (add_counter current_entries (-1)) c in
    (RefreshMemoryLocked c, true)
  end.

Definition Erase (key : CacheKey) (c : SimilarityCache) : SimilarityCache * bool := EraseLocked key c.

Definition over_budget (required_bytes : Z) (c : SimilarityCache) : bool :=
  max_memory_bytes (settings c) <? u64 (total_memory_bytes c + required_bytes).

(** [None]: the fuel ran out. *)
Fixpoint evict_loop (fuel : nat) (required_bytes : Z) (evicted_in_batch : nat) (c : SimilarityCache)
    : option SimilarityCache :=
  if (over_budget required_bytes c || (evicted_in_batch <? eviction_batch_size (settings c))%nat)
     && bool_decide (lru_list (entries c) ≠ [])
  then
    match fuel, last (lru_list (entries c)) with
    | S fuel, Some lru_key =>
      match lookup_entry lru_key c with
      | None =>
        evict_loop fuel required_bytes evicted_in_batch
          (with_entries (MkLru (take (length (lru_list (entries c)) - 1) (lru_list (entries c)))
                               (lru_map (entries c))) c)
      | Some _ =>
        let c := (EraseLocked lru_key c).1 in
        let c := with_stats (add_counter evictions 1) c in
        evict_loop fuel required_bytes (S evicted_in_batch) c
      end
    | _, _ => None
    end
  else Some c.

(** Every round shortens the list. *)
Definition EvictForSpace (required_bytes : Z) (c : SimilarityCache) : option (SimilarityCache * bool) :=
  if negb (over_budget required_bytes c) then Some (c, true)
  else
    c' ← evict_loop (length (lru_list (entries c))) required_bytes 0 c;
    Some (c', negb (over_budget required_bytes c')).

Definition Clear (c : SimilarityCache) : SimilarityCache :=
  MkCache (settings c) lru_empty ∅ 0
    (store_counter current_memory_bytes 0 (store_counter current_entries 0 (stats c))) (slack c).

Definition erase_all (keys : list CacheKey) (c : SimilarityCache) : SimilarityCache :=
  fold_left (λ c key, (EraseLocked key c).1) keys c.

Context `{IterOrder}.

Definition ClearIf (predicate : CacheKey → bool) (c : SimilarityCache) : SimilarityCache :=
  erase_all (filter (λ k, predicate k = true) (iter_order (lru_map (entries c))).*1) c.

(** The two expiry tests: the absolute expiry of the entry, and the age
    against a TTL given by the caller.  [duration_cast] truncates. *)
Definition expired (ttl now : Z) (e : CachedEntry) : bool :=
  (expires_at e <=? now) || ((0 <? ttl) && (ttl <=? Z.quot (now - created_at e) nanoseconds)).

Definition PurgeExpired (now : Z) (c : SimilarityCache) : SimilarityCache * nat :=
  let gone := (filter (λ p, (expired (ttl_seconds (settings c)) now p.2 || invalidated p.2) = true)
                 (iter_order (lru_map (entries c)))).*1 in
  (with_stats (add_counter ttl_expirations (Z.of_nat (length gone))) (erase_all gone c), length gone).

(** The keys of a set in the order the code meets them. *)
Definition set_order (keys : gset CacheKey) : list CacheKey := (iter_order (gset_to_gmap tt keys)).*1.

Definition erase_counting (keys : list CacheKey) (c : SimilarityCache) : SimilarityCache * nat :=
  fold_left (λ p key, let '(c, erased) := EraseLocked key p.1 in (c, if erased then S p.2 else p.2))
    keys (c, 0%nat).

Definition InvalidateByItemId (item_id : string) (c : SimilarityCache) : SimilarityCache * nat :=
  match item_to_cache_keys c !! item_id with
  | None => (c, 0%nat)
  | Some keys => erase_counting (set_order keys) (with_index (delete item_id (item_to_cache_keys c)) c)
  end.
End memory.

(** ** Registration, insertion, lookup *)

(** The tracked ids of an entry and the index, extended by [item_ids] until
    the cap. *)
Fixpoint register_ids (key : CacheKey) (item_ids : list string) (refs : list string)
    (r : gmap string (gset CacheKey)) : list string * gmap string (gset CacheKey) :=
  match item_ids with
  | [] => (refs, r)
  | item_id :: rest =>
    if (kMaxTrackedItemsPerEntry <=? length refs)%nat then (refs, r)
    else if bool_decide (item_id ∈ refs) then register_ids key rest refs r
    else register_ids key rest (refs ++ [item_id]) (<[item_id := {[key]} ∪ default ∅ (r !! item_id)]> r)
  end.

Definition with_refs (refs : list string) (e : CachedEntry) : CachedEntry :=
  MkCached (compressed_data e) (compressed e) (original_size e) (query_cost_ms e) (created_at e)
    (expires_at e) (invalidated e) refs.

Definition RegisterResultItemsLocked (key : CacheKey) (e : CachedEntry) (item_ids : list string)
    (c : SimilarityCache) : SimilarityCache :=
  let '(refs, r) := register_ids key item_ids (referenced_item_ids e) (item_to_cache_keys c) in
  with_index r (with_entries (lru_set key (with_refs refs e) (entries c)) c).

Definition MarkInvalidated (key : CacheKey) (c : SimilarityCache) : SimilarityCache * bool :=
  match lookup_entry key c with
  | None => (c, false)
  | Some e =>
    (with_entries (lru_set key (MkCached (compressed_data e) (compressed e) (original_size e)
       (query_cost_ms e) (created_at e) (expires_at e) true (referenced_item_ids e)) (entries c)) c, true)
  end.

Definition Touch (key : CacheKey) (c : SimilarityCache) : SimilarityCache :=
  match lookup_entry key c with
  | None => c
  | Some _ => with_entries (lru_touch key (entries c)) c
  end.

(** What a lookup decided under the shared lock. *)
Inductive ReadOutcome : Type :=
| Miss
| Stale (seen : Z)
| Hit (seen : Z) (results : list SimilarityResult).

Definition outcome_results (o : ReadOutcome) : option (list SimilarityResult) :=
  match o with Hit _ rs => Some rs | _ => None end.

(** Is the entry the one a lookup saw under the shared lock? *)
Definition same_entry (key : CacheKey) (seen : Z) (c : SimilarityCache) : bool :=
  match lookup_entry key c with Some e => created_at e =? seen | None => false end.

Definition ComputeExpiry (effective_ttl_seconds now : Z) : Z :=
  if effective_ttl_seconds <=? 0 then time_max else now + effective_ttl_seconds * nanoseconds.

(** The clock readings and the capacity of the serialised buffer that an
    insertion meets. *)
Record InsertEnv : Type := MkEnv { env_created : Z; env_expiry : Z; env_capacity : Z }.

Section cache.
Context `{Lz4} `{Layout} `{IterOrder}.

Definition decode (e : CachedEntry) : Expected (list SimilarityResult) :=
  if compressed e then DecompressSimilarityResults (compressed_data e) (original_size e)
  else DeserializeSimilarityResults (compressed_data e).

Definition RegisterResultItems (key : CacheKey) (item_ids : list string) (c : SimilarityCache)
    : option SimilarityCache :=
  match lookup_entry key c with
  | None => Some c
  | Some e => fst <$> EvictForSpace 0 (RefreshMemoryLocked (RegisterResultItemsLocked key e item_ids c))
  end.

(** The first half of [LookupWithTtl], under the shared lock. *)
Definition lookup_read (key : CacheKey) (effective_ttl_seconds now : Z) (c : SimilarityCache)
    : SimilarityCache * ReadOutcome :=
  let c := with_stats (add_counter total_queries 1) c in
  let miss why c := with_stats (λ s, add_counter why 1 (add_counter cache_misses 1 s)) c in
  match lookup_entry key c with
  | None => (miss cache_misses_not_found c, Miss)
  | Some e =>
    if invalidated e then (miss cache_misses_invalidated c, Miss)
    else if expired effective_ttl_seconds now e then
      (with_stats (add_counter ttl_expirations 1) (miss cache_misses_not_found c), Stale (created_at e))
    else
      match decode e with
      | Unexpected _ =>
        (with_stats (add_counter decompression_failures 1) (miss cache_misses_not_found c), Stale (created_at e))
      | Ok results => (with_stats (add_counter cache_hits 1) c, Hit (created_at e) results)
      end
  end.

(** The second half, under the exclusive lock. *)
Definition lookup_write (key : CacheKey) (o : ReadOutcome) (c : SimilarityCache) : SimilarityCache :=
  match o with
  | Miss => c
  | Stale seen => if same_entry key seen c then (EraseLocked key c).1 else c
  | Hit seen _ => if same_entry key seen c then Touch key c else c
  end.

Definition LookupWithTtl (key : CacheKey) (effective_ttl_seconds now : Z) (c : SimilarityCache)
    : SimilarityCache * option (list SimilarityResult) :=
  if negb (cache_enabled (settings c)) then (c, None)
  else
    let '(c, o) := lookup_read key effective_ttl_seconds now c in
    (lookup_write key o c, outcome_results o).

Definition Lookup (key : CacheKey) (now : Z) (c : SimilarityCache)
    : SimilarityCache * option (list SimilarityResult) :=
  LookupWithTtl key (ttl_seconds (settings c)) now c.

(** [None]: the policy disables the type. *)
Definition policy_ttl (t : SearchType) (c : SimilarityCache) : option Z :=
  let p := policies (settings c) t in
  if enabled p then Some (if 0 <? policy_ttl_seconds p then policy_ttl_seconds p else ttl_seconds (settings c))
  else None.

Definition LookupType (key : CacheKey) (t : SearchType) (now : Z) (c : SimilarityCache)
    : SimilarityCache * option (list SimilarityResult) :=
  match policy_ttl t c with
  | None => (c, None)
  | Some ttl =>
    let '(c, result) := LookupWithTtl key ttl now (with_stats (add_counter (per_type_queries t) 1) c) in
    (match result with Some _ => with_stats (add_counter (per_type_hits t) 1) c | None => c end, result)
  end.

(** The entry is admitted: the tail of [InsertWithTtl], after the first
    eviction. *)
Definition admit_entry (key : CacheKey) (e : CachedEntry) (item_ids : option (list string)) (c : SimilarityCache)
    : option (SimilarityCache * bool) :=
  let c := with_stats (add_counter current_entries 1) (with_entries (lru_push_front key e (entries c)) c) in
  let c := match item_ids with None => c | Some ids => RegisterResultItemsLocked key e ids c end in
  c' ← fst <$> EvictForSpace 0 (RefreshMemoryLocked c);
  Some (c', bool_decide (is_Some (lookup_entry key c'))).

Definition InsertWithTtl (key : CacheKey) (results : list SimilarityResult) (cost effective_ttl_seconds : Z)
    (item_ids : option (list string)) (env : InsertEnv) (c : SimilarityCache)
    : option (SimilarityCache * bool) :=
  if negb (cache_enabled (settings c)) then Some (c, false)
  else if f64_ltb cost (min_query_cost_ms (settings c)) then Some (c, false)
  else
    match (if compression_enabled (settings c) then CompressSimilarityResults results
           else SerializeSimilarityResults results) with
    | Unexpected _ => Some (c, false)
    | Ok data =>
      if (u64_max / kSerializedResultSize <? Z.of_nat (length results)) then Some (c, false)
      else
        let original := u64 (Z.of_nat (length results) * kSerializedResultSize) in
        let entry_memory := u64 (sizeof_CachedEntry + env_capacity env + sizeof_CacheKey) in
        if max_memory_bytes (settings c) <? entry_memory then Some (c, false)
        else if bool_decide (is_Some (lookup_entry key c)) then Some (c, false)
        else
          '(c, room) ← (if over_budget entry_memory c then EvictForSpace entry_memory c else Some (c, true));
          if negb room then Some (c, false)
          else
            admit_entry key (MkCached data (compression_enabled (settings c)) original cost (env_created env)
                         (ComputeExpiry effective_ttl_seconds (env_expiry env)) false []) item_ids c
    end.

Definition Insert (key : CacheKey) (results : list SimilarityResult) (cost : Z) (env : InsertEnv)
    (c : SimilarityCache) : option (SimilarityCache * bool) :=
  InsertWithTtl key results cost (ttl_seconds (settings c)) None env c.

Definition InsertType (key : CacheKey) (results : list SimilarityResult) (cost : Z) (t : SearchType)
    (env : InsertEnv) (c : SimilarityCache) : option (SimilarityCache * bool) :=
  match policy_ttl t c with
  | None => Some (c, false)
  | Some ttl => InsertWithTtl key results cost ttl None env c
  end.

Definition InsertAndRegister (key : CacheKey) (results : list SimilarityResult) (item_ids : list string)
    (cost : Z) (t : SearchType) (env : InsertEnv) (c : SimilarityCache) : option (SimilarityCache * bool) :=
  match policy_ttl t c with
  | None => Some (c, false)
  | Some ttl => InsertWithTtl key results cost ttl (Some item_ids) env c
  end.
End cache.

(** Runtime settings. *)
Definition SetTtl (ttl : Z) (c : SimilarityCache) : SimilarityCache :=
  let s := settings c in
  with_settings (MkSettings (max_memory_bytes s) (compression_enabled s) (eviction_batch_size s)
    (min_query_cost_ms s) ttl (cache_enabled s) (policies s)) c.
Definition SetMinQueryCost (cost : Z) (c : SimilarityCache) : SimilarityCache :=
  let s := settings c in
  with_settings (MkSettings (max_memory_bytes s) (compression_enabled s) (eviction_batch_size s)
    cost (ttl_seconds s) (cache_enabled s) (policies s)) c.
Definition SetEnabled (on : bool) (c : SimilarityCache) : SimilarityCache :=
  let s := settings c in
  with_settings (MkSettings (max_memory_bytes s) (compression_enabled s) (eviction_batch_size s)
    (min_query_cost_ms s) (ttl_seconds s) on (policies s)) c.
Definition SetSearchTypePolicy (t : SearchType) (p : CachePolicy) (c : SimilarityCache) : SimilarityCache :=
  let s := settings c in
  with_settings (MkSettings (max_memory_bytes s) (compression_enabled s) (eviction_batch_size s)
    (min_query_cost_ms s) (ttl_seconds s) (cache_enabled s)
    (λ t', if decide (t' = t) then p else policies s t')) c.
Definition GetSearchTypePolicy (t : SearchType) (c : SimilarityCache) : CachePolicy := policies (settings c) t.

(** ** [SimilarityCacheController]

    The runtime switches; [published] is whether the shared pointer that the
    request handlers load holds the cache or null. *)

Record Controller : Type := MkController {
  cache : SimilarityCache;
  has_publication : bool;
  published : bool;
  controller_enabled : bool
}.

Definition new_controller (max_memory min_cost ttl : Z) (compression : bool) (batch : nat) (on publication : bool)
    (slack : nat → Z) : Controller :=
  MkController (SetEnabled on (new_cache max_memory min_cost ttl compression batch slack))
    publication (publication && on) on.

Definition with_cache (f : SimilarityCache → SimilarityCache) (k : Controller) : Controller :=
  MkController (f (cache k)) (has_publication k) (published k) (controller_enabled k).

Definition ControllerSetEnabled (on : bool) (k : Controller) : Controller :=
  MkController (SetEnabled on (cache k)) (has_publication k)
    (if has_publication k then on else published k) on.

Definition ControllerSetMinQueryCost (cost : Z) : SE Controller unit := λ k,
  if negb (is_finite64 cost) || f64_ltb cost 0 then
    (throw kInvalidArgument "cache.min_query_cost_ms must be finite and >= 0", k)
  else (Ok tt, with_cache (SetMinQueryCost cost) k).

Definition ControllerSetTtl (ttl : Z) : SE Controller unit := λ k,
  if ttl <? 0 then (throw kInvalidArgument "cache.ttl_seconds must be >= 0", k)
  else (Ok tt, with_cache (SetTtl ttl) k).

Definition ControllerClear (k : Controller) : Controller := with_cache Clear k.

(** The published pointer and the flag of the cache follow the switch, and the
    settings stay in range. *)
Definition controller_ok (k : Controller) : Prop :=
  cache_enabled (settings (cache k)) = controller_enabled k ∧
  published k = has_publication k && controller_enabled k ∧
  f64_ltb (min_query_cost_ms (settings (cache k))) 0 = false.

Lemma controller_steps_ok k :
  controller_ok k →
  (∀ on, controller_ok (ControllerSetEnabled on k)) ∧
  (∀ cost, controller_ok (ControllerSetMinQueryCost cost k).2) ∧
  (∀ ttl, controller_ok (ControllerSetTtl ttl k).2) ∧ controller_ok (ControllerClear k).
Proof.
  intros (He & Hp & Hc). split_and!; [| | |done].
  - intros on. split_and!; [done| |done]. cbn. rewrite Hp. by destruct (has_publication k).
  - intros cost. unfold ControllerSetMinQueryCost. destruct (negb _ || _) eqn:E; [done|].
    apply orb_false_iff in E as [_ E]. split_and!; done.
  - intros ttl. unfold ControllerSetTtl. by case_match.
Qed.

(** ** Counters *)

Lemma store_counter_same k v s : store_counter k v s k = u64 v.
Proof. unfold store_counter. by rewrite decide_True. Qed.
Lemma store_counter_other k k' v s : k ≠ k' → store_counter k v s k' = s k'.
Proof. intros. unfold store_counter. by rewrite decide_False. Qed.
Lemma add_counter_same k d s : add_counter k d s k = u64 (s k + d).
Proof. apply store_counter_same. Qed.
Lemma add_counter_other k k' d s : k ≠ k' → add_counter k d s k' = s k'.
Proof. apply store_counter_other. Qed.
Create Rewrite HintDb counters.
Create HintDb counters.
#[local] Hint Rewrite store_counter_same add_counter_same : counters.
#[local] Hint Rewrite store_counter_other add_counter_other using done : counters.

(** Every query is a hit or a miss, every miss has its reason. *)
Definition balanced (s : CacheStatistics) : Prop :=
  s total_queries = u64 (s cache_hits + s cache_misses) ∧
  s cache_misses = u64 (s cache_misses_invalidated + s cache_misses_not_found).

Definition query_counter (k : Counter) : bool :=
  match k with
  | total_queries | cache_hits | cache_misses | cache_misses_invalidated | cache_misses_not_found => true
  | _ => false
  end.

Lemma balanced_store k v s : query_counter k = false → balanced s → balanced (store_counter k v s).
Proof. intros Hk. unfold balanced. rewrite !store_counter_other by (by intros ->). done. Qed.
Lemma balanced_add k d s : query_counter k = false → balanced s → balanced (add_counter k d s).
Proof. apply balanced_store. Qed.
#[local] Hint Resolve balanced_store balanced_add : counters.
#[local] Hint Extern 0 (query_counter _ = _) => reflexivity : counters.

(** ** The reverse index *)

Definition keys_of (r : gmap string (gset CacheKey)) (id : string) : gset CacheKey := default ∅ (r !! id).
Definition no_empty_set (r : gmap string (gset CacheKey)) : Prop := ∀ id keys, r !! id = Some keys → keys ≠ ∅.

Lemma keys_of_insert r i ks id :
  keys_of (<[i := ks]> r) id = if decide (id = i) then ks else keys_of r id.
Proof. unfold keys_of. rewrite lookup_insert. by repeat case_decide; subst. Qed.

Lemma unlink_keys key r i id :
  keys_of (unlink key r i) id = if decide (id = i) then keys_of r id ∖ {[key]} else keys_of r id.
Proof.
  unfold unlink. destruct (r !! i) as [ks|] eqn:Hi; [case_bool_decide|].
  - unfold keys_of. rewrite lookup_delete. repeat case_decide; subst; try done. by rewrite Hi.
  - rewrite keys_of_insert. case_decide; [|done]. subst. unfold keys_of. by rewrite Hi.
  - case_decide; [|done]. subst. unfold keys_of. rewrite Hi. set_solver.
Qed.

Lemma unlink_None key r i id : r !! id = None → unlink key r i !! id = None.
Proof.
  intros Hn. unfold unlink. case_match; [|done]. case_bool_decide; [rewrite lookup_delete|rewrite lookup_insert]; case_decide; naive_solver.
Qed.

Lemma unlink_no_empty key r i : no_empty_set r → no_empty_set (unlink key r i).
Proof.
  intros Hr id ks. unfold unlink. case_match; [|apply Hr]. case_bool_decide.
  - intros [_ ?]%lookup_delete_Some. eauto.
  - intros [[<- <-]|[_ ?]]%lookup_insert_Some; eauto.
Qed.

Lemma unlink_all key l : ∀ r,
  (∀ id, keys_of (fold_left (unlink key) l r) id = if decide (id ∈ l) then keys_of r id ∖ {[key]} else keys_of r id) ∧
  (∀ id, r !! id = None → fold_left (unlink key) l r !! id = None) ∧
  (no_empty_set r → no_empty_set (fold_left (unlink key) l r)).
Proof.
  induction l as [|i l IH]; intros r; cbn [fold_left].
  - split_and!; [|done|done]. intros id. rewrite decide_False; [done|]. by intros ?%elem_of_nil.
  - destruct (IH (unlink key r i)) as (Hk & Hn & He). split_and!; eauto using unlink_None, unlink_no_empty.
    intros id. rewrite Hk, unlink_keys.
    destruct (decide (id = i)), (decide (id ∈ l)), (decide (id ∈ i :: l)); set_solver.
Qed.

Lemma register_ids_spec key ids : ∀ refs r,
  NoDup refs → (length refs ≤ kMaxTrackedItemsPerEntry)%nat →
  let '(refs', r') := register_ids key ids refs r in
  NoDup refs' ∧ (length refs' ≤ kMaxTrackedItemsPerEntry)%nat ∧
  (∀ id, keys_of r' id = if decide (id ∈ refs' ∧ id ∉ refs) then {[key]} ∪ keys_of r id else keys_of r id) ∧
  refs ⊆ refs' ∧ (∀ id, id ∈ refs' → id ∈ refs ∨ id ∈ ids) ∧
  (no_empty_set r → no_empty_set r') ∧
  (∀ id, id ∈ ids → id ∈ refs' ∨ length refs' = kMaxTrackedItemsPerEntry).
Proof.
  induction ids as [|i ids IH]; intros refs r Hnd Hlen; cbn [register_ids].
  - split_and!; auto; try set_solver. intros id. by rewrite decide_False by tauto.
  - destruct (Nat.leb_spec kMaxTrackedItemsPerEntry (length refs)) as [Hfull|Hroom]; [|case_bool_decide as Hin].
    + split_and!; auto; try set_solver; [intros id; by rewrite decide_False by tauto|]. intros. right. lia.
    + specialize (IH refs r Hnd Hlen). destruct (register_ids key ids refs r) as [refs' r'].
      destruct IH as (? & ? & ? & Hsub & ? & ? & Hall). split_and!; auto; [set_solver|].
      intros id [->|?]%elem_of_cons; [left; by apply Hsub|auto].
    + specialize (IH (refs ++ [i]) (<[i := {[key]} ∪ default ∅ (r !! i)]> r)).
      destruct (register_ids key ids _ _) as [refs' r'].
      destruct IH as (? & ? & Hk & Hsub & Hfrom & He & Hall).
      { apply NoDup_app. split_and!; [done| |by apply NoDup_singleton]. set_solver. }
      { rewrite length_app. cbn. lia. }
      split_and!; auto; [|set_solver|set_solver| |].
      * intros id. rewrite Hk, keys_of_insert. change (default ∅ (r !! i)) with (keys_of r i).
        assert (i ∈ refs') by set_solver.
        destruct (decide (id = i)) as [->|]; [rewrite decide_False by set_solver; by rewrite decide_True by tauto|].
        destruct (decide (id ∈ refs' ∧ id ∉ refs ++ [i])), (decide (id ∈ refs' ∧ id ∉ refs)); set_solver.
      * intros Hr. apply He. intros id ks [[<- <-]|[_ ?]]%lookup_insert_Some; [set_solver|eauto].
      * intros id [->|?]%elem_of_cons; [left; set_solver|auto].
Qed.

(** ** The invariant *)

(** [tracks c key id]: the entry of [key] is registered under [id]. *)
Definition tracks (c : SimilarityCache) (key : CacheKey) (id : string) : Prop :=
  ∃ e, lookup_entry key c = Some e ∧ id ∈ referenced_item_ids e.

Definition size_of (c : SimilarityCache) : Z := Z.of_nat (length (lru_list (entries c))).

(** [holes]: ids whose index set has been taken out while their entries are
    being erased; empty between operations. *)
Record cache_inv (holes : gset string) (c : SimilarityCache) : Prop := MkInv {
  inv_lru : lru_ok (entries c);
  inv_index : ∀ id key, id ∉ holes → key ∈ keys_of (item_to_cache_keys c) id ↔ tracks c key id;
  inv_holes : ∀ id, id ∈ holes → item_to_cache_keys c !! id = None;
  inv_no_empty : no_empty_set (item_to_cache_keys c);
  inv_refs : ∀ key e, lookup_entry key c = Some e →
    NoDup (referenced_item_ids e) ∧ (length (referenced_item_ids e) ≤ kMaxTrackedItemsPerEntry)%nat;
  inv_count : stats c current_entries = u64 (size_of c);
  inv_memory : in_u 64 (total_memory_bytes c) ∧ stats c current_memory_bytes = total_memory_bytes c;
  inv_drained : lru_list (entries c) = [] → total_memory_bytes c = 0;
  inv_queries : balanced (stats c);
  inv_settings : in_u 64 (max_memory_bytes (settings c)) ∧ (1 ≤ eviction_batch_size (settings c))%nat
}.

Definition cache_ok : SimilarityCache → Prop := cache_inv ∅.

Lemma u64_in z : in_u 64 (u64 z).
Proof. by apply wrap_in_u. Qed.
Lemma u64_add_l a b : u64 (u64 a + b) = u64 (a + b).
Proof. apply Zplus_mod_idemp_l. Qed.
#[local] Hint Resolve u64_in : nvecd.

Section lemmas.
Context `{Layout}.

Lemma EstimateMemoryLocked_in c : in_u 64 (EstimateMemoryLocked c).
Proof. unfold EstimateMemoryLocked. case_match; [by vm_compute|apply u64_in]. Qed.

Lemma lookup_drained c key : lru_ok (entries c) → lru_list (entries c) = [] → lookup_entry key c = None.
Proof.
  intros [_ Hk] Hnil. destruct (lookup_entry key c) eqn:E; [|done].
  assert (key ∈ lru_list (entries c)) as Hin by (apply Hk; eauto). rewrite Hnil in Hin. by apply elem_of_nil in Hin.
Qed.

(** Refreshing re-establishes the memory fields from the others. *)
Lemma refresh_inv holes c :
  lru_ok (entries c) →
  (∀ id key, id ∉ holes → key ∈ keys_of (item_to_cache_keys c) id ↔ tracks c key id) →
  (∀ id, id ∈ holes → item_to_cache_keys c !! id = None) →
  no_empty_set (item_to_cache_keys c) →
  (∀ key e, lookup_entry key c = Some e →
    NoDup (referenced_item_ids e) ∧ (length (referenced_item_ids e) ≤ kMaxTrackedItemsPerEntry)%nat) →
  stats c current_entries = u64 (size_of c) → balanced (stats c) →
  in_u 64 (max_memory_bytes (settings c)) ∧ (1 ≤ eviction_batch_size (settings c))%nat →
  cache_inv holes (RefreshMemoryLocked c).
Proof.
  intros Hlru Hidx Hholes He Hrefs Hcount Hbal Hset. split; try done; [| ].
  - cbn. split; [apply EstimateMemoryLocked_in|]. rewrite store_counter_same.
    apply wrap_small, EstimateMemoryLocked_in.
  - cbn. intros Hnil. unfold EstimateMemoryLocked.
    pose proof (λ key, lookup_drained c key Hlru Hnil) as Hnone. unfold lookup_entry in Hnone.
    rewrite (proj2 (bool_decide_eq_true _)) by (by apply map_empty).
    rewrite (proj2 (bool_decide_eq_true _)); [done|]. apply map_empty. intros id.
    destruct (decide (id ∈ holes)) as [|Hid]; [by apply Hholes|].
    destruct (item_to_cache_keys c !! id) as [ks|] eqn:Hks; [|done].
    assert (ks = ∅); [|by destruct (He _ _ Hks)]. apply set_eq. intros key.
    specialize (Hidx id key Hid). unfold keys_of in Hidx. rewrite Hks in Hidx. cbn in Hidx. rewrite Hidx.
    unfold tracks, lookup_entry. setoid_rewrite Hnone. set_solver.
Qed.

Lemma lru_remove_absent (t : lru CacheKey CachedEntry) key : lru_ok t → lru_map t !! key = None → lru_remove key t = t.
Proof.
  intros [_ Hk] Hn. destruct t as [l m]. unfold lru_remove. cbn in *. f_equal.
  - apply filter_id. intros x Hx ->. apply Hk in Hx. rewrite Hn in Hx. by destruct Hx.
  - by apply delete_id.
Qed.

(** What erasing does to the entries, the settings and the flag. *)
Lemma EraseLocked_entries key c :
  lru_ok (entries c) →
  entries (EraseLocked key c).1 = lru_remove key (entries c) ∧
  settings (EraseLocked key c).1 = settings c ∧
  (EraseLocked key c).2 = bool_decide (is_Some (lookup_entry key c)).
Proof.
  intros Hok. unfold EraseLocked. destruct (lookup_entry key c) eqn:E; cbn.
  - done.
  - by rewrite lru_remove_absent.
Qed.

Lemma lookup_lru_remove key key' (t : lru CacheKey CachedEntry) :
  lru_map (lru_remove key t) !! key' = if decide (key' = key) then None else lru_map t !! key'.
Proof. cbn. rewrite lookup_delete. repeat case_decide; congruence. Qed.

Lemma length_lru_remove key (t : lru CacheKey CachedEntry) :
  lru_ok t → is_Some (lru_map t !! key) → length (lru_list t) = S (length (lru_list (lru_remove key t))).
Proof.
  intros Hok Hs. rewrite <- !lru_ok_size by auto with nvecd. cbn. symmetry. by apply size_delete_Some.
Qed.

Lemma EraseLocked_inv holes key c : cache_inv holes c → cache_inv holes (EraseLocked key c).1.
Proof.
  intros []. unfold EraseLocked. destruct (lookup_entry key c) as [e|] eqn:E; [|done]. cbn [fst].
  pose proof (unlink_all key (referenced_item_ids e) (item_to_cache_keys c)) as (Hk & Hn & He).
  apply refresh_inv; cbn; auto with nvecd counters.
  - intros id key' Hid. rewrite Hk. unfold tracks, lookup_entry. cbn [entries with_entries with_stats with_index].
    setoid_rewrite lookup_lru_remove. specialize (inv_index0 id key' Hid). unfold tracks in inv_index0.
    destruct (decide (key' = key)) as [->|Hne].
    + split; [|naive_solver]. intros Hin. exfalso. case_decide as Hid'; [set_solver|].
      apply inv_index0 in Hin as (e' & He' & Hin). rewrite E in He'. by simplify_eq.
    + transitivity (key' ∈ keys_of (item_to_cache_keys c) id); [case_decide; set_solver|done].
  - unfold lookup_entry. intros key' e'. cbn [entries with_entries with_stats with_index].
    rewrite lookup_lru_remove. case_decide; [done|]. apply inv_refs0.
  - rewrite add_counter_same, inv_count0, u64_add_l. unfold size_of. cbn [entries with_entries with_stats].
    rewrite (length_lru_remove key (entries c)) by (eauto with nvecd). f_equal. cbn. lia.
Qed.

(** ** Eviction *)

Lemma over_budget_0 c : cache_ok c → lru_list (entries c) = [] → over_budget 0 c = false.
Proof.
  intros [] Hnil. unfold over_budget. rewrite (inv_drained0 Hnil). cbn.
  destruct inv_settings0 as [[? _] _]. by apply Z.ltb_ge.
Qed.

(** The oldest entries have been dropped, the [n] most recent ones are as
    they were. *)
Definition keeps_recent (n : nat) (c c' : SimilarityCache) : Prop :=
  settings c' = settings c ∧
  lru_list (entries c') = take n (lru_list (entries c)) ∧
  ∀ key, lookup_entry key c' = if decide (key ∈ take n (lru_list (entries c))) then lookup_entry key c else None.

Lemma keeps_all c : cache_ok c → keeps_recent (length (lru_list (entries c))) c c.
Proof.
  intros [[_ Hk]]. split_and!; [done|by rewrite take_ge|]. intros key. rewrite take_ge by done.
  case_decide as Hin; [done|]. destruct (lookup_entry key c) eqn:E; [|done]. destruct Hin. apply Hk. eauto.
Qed.

Lemma evict_loop_spec required fuel : ∀ batched c,
  cache_ok c → (length (lru_list (entries c)) ≤ fuel)%nat →
  ∃ c' n, evict_loop fuel required batched c = Some c' ∧ cache_ok c' ∧ keeps_recent n c c' ∧
    (n ≤ length (lru_list (entries c)))%nat ∧
    (lru_list (entries c') = [] ∨
     over_budget required c' = false ∧
     (eviction_batch_size (settings c) ≤ batched + (length (lru_list (entries c)) - n))%nat).
Proof.
  induction fuel as [|fuel IH]; intros batched c Hok Hf.
  - assert (Hnil : lru_list (entries c) = []) by (by apply nil_length_inv; lia).
    exists c, 0%nat. cbn [evict_loop]. rewrite bool_decide_eq_false_2, andb_false_r by (by intros []).
    pose proof (keeps_all c Hok) as Hkeep. rewrite Hnil in Hkeep. split_and!; auto. lia.
  - cbn [evict_loop]. destruct ((_ || _) && _) eqn:Hgo.
    + apply andb_true_iff in Hgo as [_ Hne%bool_decide_eq_true].
      destruct (last (lru_list (entries c))) as [k|] eqn:Hl; [|by apply last_None in Hl].
      pose proof Hok as []. pose proof inv_lru0 as [Hnd Hk].
      pose proof (last_snoc_take _ _ Hl) as Hsplit. set (l := lru_list (entries c)) in *.
      assert (is_Some (lookup_entry k c)) as [e He].
      { apply Hk. fold l. rewrite Hsplit. set_solver. }
      rewrite He.
      pose proof (EraseLocked_entries k c inv_lru0) as (Hent & Hset & _).
      pose proof (EraseLocked_inv ∅ k c Hok) as Hok1. set (c1 := (EraseLocked k c).1) in *.
      assert (Hok2 : cache_ok (with_stats (add_counter evictions 1) c1)).
      { destruct Hok1. split; cbn; auto with counters; by rewrite add_counter_other. }
      assert (Hl1 : lru_list (entries c1) = take (length l - 1) l).
      { rewrite Hent, <- (lru_pop_back_remove _ k) by done. unfold lru_pop_back. fold l. by rewrite Hl. }
      assert (0 < length l)%nat by (destruct l; [done|cbn; lia]).
      destruct (IH (S batched) _ Hok2) as (c' & n & Hrun & Hok' & (Hset' & Hlist & Hlook) & Hn & Hend).
      { cbn. rewrite Hl1, length_take. lia. }
      cbn in Hn, Hend, Hlist, Hlook, Hset'. rewrite Hl1 in *. rewrite length_take in *. rewrite take_take in *.
      exists c', (n `min` (length l - 1))%nat. rewrite Hset in *. split_and!; auto; [|lia|].
      * split_and!; [done..|]. intros key. rewrite Hlook. fold l. case_decide as Hin; [|done].
        unfold lookup_entry. cbn. rewrite Hent, lookup_lru_remove. rewrite decide_False; [done|].
        intros ->. rewrite Hsplit in Hnd. apply NoDup_app in Hnd as (_ & Hd & _). apply (Hd k); [|set_solver].
        rewrite <- take_take in Hin. apply elem_of_take in Hin as (j & Hj & _). by eapply list_elem_of_lookup_2.
      * destruct Hend as [|[? ?]]; [by left|right]. split; [done|]. lia.
    + exists c, (length (lru_list (entries c))). split_and!; auto using keeps_all.
      apply andb_false_iff in Hgo as [[Hb Hs]%orb_false_iff|Hnil].
      * right. split; [done|]. apply Nat.ltb_ge in Hs. lia.
      * left. apply bool_decide_eq_false in Hnil. by apply dec_stable.
Qed.

Lemma EvictForSpace_spec required c :
  cache_ok c → ∃ c' n room, EvictForSpace required c = Some (c', room) ∧ cache_ok c' ∧ keeps_recent n c c' ∧
    (n ≤ length (lru_list (entries c)))%nat ∧ room = negb (over_budget required c') ∧
    (over_budget required c = false → c' = c) ∧
    (over_budget required c = true → lru_list (entries c') = [] ∨
      room = true ∧ (eviction_batch_size (settings c) ≤ length (lru_list (entries c)) - n)%nat).
Proof.
  intros Hok. unfold EvictForSpace. destruct (over_budget required c) eqn:Hb; cbn [negb].
  - destruct (evict_loop_spec required _ 0 c Hok (Nat.le_refl _)) as (c' & n & -> & Hok' & Hkeep & Hn & Hend).
    exists c', n, (negb (over_budget required c')). cbn. split_and!; auto; [done|]. intros _.
    destruct Hend as [|[-> ?]]; [by left|right]. auto.
  - exists c, (length (lru_list (entries c))), true. rewrite Hb. split_and!; auto using keeps_all; done.
Qed.

(** ** The other operations keep the invariant *)

Lemma with_stats_inv holes f c :
  f (stats c) current_entries = stats c current_entries →
  f (stats c) current_memory_bytes = stats c current_memory_bytes → balanced (f (stats c)) →
  cache_inv holes c → cache_inv holes (with_stats f c).
Proof. intros Hn Hm Hb []. split; cbn; rewrite ?Hn, ?Hm; auto. Qed.

(** Any change of the entries that keeps their keys and registered ids. *)
Lemma with_entries_inv holes t c :
  lru_ok t → length (lru_list t) = length (lru_list (entries c)) →
  (∀ key, referenced_item_ids <$> lru_map t !! key = referenced_item_ids <$> lookup_entry key c) →
  cache_inv holes c → cache_inv holes (with_entries t c).
Proof.
  intros Ht Hlen Hrefs [].
  assert (Hf : ∀ key e, lru_map t !! key = Some e →
    ∃ e', lookup_entry key c = Some e' ∧ referenced_item_ids e' = referenced_item_ids e).
  { intros key e He. specialize (Hrefs key). rewrite He in Hrefs. symmetry in Hrefs.
    apply fmap_Some in Hrefs as (e' & ? & ?). eauto. }
  assert (Hb : ∀ key e', lookup_entry key c = Some e' →
    ∃ e, lru_map t !! key = Some e ∧ referenced_item_ids e' = referenced_item_ids e).
  { intros key e He. specialize (Hrefs key). rewrite He in Hrefs. apply fmap_Some in Hrefs as (e' & ? & ?). eauto. }
  split; cbn; auto.
  - intros id key Hid. rewrite inv_index0 by done. unfold tracks, lookup_entry. cbn. split; intros (e & He & Hin).
    + apply Hb in He as (e' & ? & Heq). rewrite Heq in Hin. eauto.
    + apply Hf in He as (e' & ? & Heq). rewrite <- Heq in Hin. eauto.
  - unfold lookup_entry. cbn. intros key e (e' & ? & <-)%Hf. eauto.
  - unfold size_of. cbn. by rewrite Hlen.
  - intros Hnil. apply inv_drained0. apply nil_length_inv. by rewrite <- Hlen, Hnil.
Qed.

Lemma length_move_to_front key (l : list CacheKey) : NoDup l → key ∈ l → length (move_to_front key l) = length l.
Proof.
  intros Hnd Hin. apply Permutation_length. apply NoDup_Permutation; [by apply NoDup_move_to_front|done|].
  intros x. rewrite elem_of_move_to_front. set_solver.
Qed.

Lemma Touch_inv holes key c : cache_inv holes c → cache_inv holes (Touch key c).
Proof.
  intros Hc. unfold Touch. destruct (lookup_entry key c) eqn:E; [|done]. pose proof (inv_lru _ _ Hc) as Hlru.
  apply with_entries_inv; auto; [apply lru_ok_touch; eauto|].
  cbn. destruct Hlru as [? Hk]. apply length_move_to_front; [done|]. apply Hk. eauto.
Qed.

Lemma replace_entry_inv holes key e e' c :
  lookup_entry key c = Some e → referenced_item_ids e' = referenced_item_ids e →
  cache_inv holes c → cache_inv holes (with_entries (lru_set key e' (entries c)) c).
Proof.
  intros He Hrefs Hc. apply with_entries_inv; auto; [apply lru_ok_set; [apply Hc|eauto]|].
  intros k. cbn. rewrite lookup_insert. case_decide; [|done]. subst. rewrite He. cbn. by rewrite Hrefs.
Qed.

Lemma MarkInvalidated_inv holes key c : cache_inv holes c → cache_inv holes (MarkInvalidated key c).1.
Proof.
  intros Hc. unfold MarkInvalidated. destruct (lookup_entry key c) eqn:E; [|done]. by eapply replace_entry_inv.
Qed.

Lemma RegisterResultItemsLocked_inv key e ids c :
  lookup_entry key c = Some e → cache_ok c → cache_ok (RegisterResultItemsLocked key e ids c).
Proof.
  intros He []. unfold RegisterResultItemsLocked.
  destruct (inv_refs0 key e He) as [Hnd Hlen].
  pose proof (register_ids_spec key ids (referenced_item_ids e) (item_to_cache_keys c) Hnd Hlen) as Hspec.
  destruct (register_ids _ _ _ _) as [refs r]. destruct Hspec as (Hnd' & Hlen' & Hk & Hsub & Hfrom & Hne & _).
  assert (Hlook : ∀ k, lookup_entry k (with_index r (with_entries (lru_set key (with_refs refs e) (entries c)) c)) =
    if decide (k = key) then Some (with_refs refs e) else lookup_entry k c).
  { intros k. unfold lookup_entry. cbn. rewrite lookup_insert. repeat case_decide; congruence. }
  clear Hfrom. split; cbn; auto.
  - apply lru_ok_set; eauto.
  - intros id k _. rewrite Hk. unfold tracks. setoid_rewrite Hlook.
    specialize (inv_index0 id k ltac:(set_solver)). unfold tracks in inv_index0. case_decide as Hid; case_decide; subst.
    + split; [intros _; exists (with_refs refs e); cbn; tauto|]. intros _. apply elem_of_union_l. by apply elem_of_singleton.
    + rewrite <- inv_index0. set_solver.
    + rewrite inv_index0, He. split; [intros (? & [= <-] & Hin)|intros (? & [= <-] & Hin)]; eexists; (split; [done|]).
      * by apply Hsub.
      * cbn in Hin. apply dec_stable. tauto.
    + done.
  - intros id Hid. by apply not_elem_of_empty in Hid.
  - intros k e' Hk'. specialize (Hlook k). unfold lookup_entry in Hlook, Hk'. cbn in Hlook, Hk'. rewrite Hlook in Hk'.
    case_decide; [by simplify_eq|]. by apply (inv_refs0 k).
Qed.

Lemma push_front_inv key e c :
  lookup_entry key c = None → referenced_item_ids e = [] → cache_ok c →
  cache_ok (with_stats (add_counter current_entries 1) (with_entries (lru_push_front key e (entries c)) c)).
Proof.
  intros Hn Hrefs [].
  assert (Hlook : ∀ k, lookup_entry k (with_entries (lru_push_front key e (entries c)) c) =
    if decide (k = key) then Some e else lookup_entry k c).
  { intros k. unfold lookup_entry. cbn. rewrite lookup_insert. repeat case_decide; congruence. }
  split; cbn; auto.
  - by apply lru_ok_push_front.
  - intros id k Hid. rewrite (inv_index0 id k Hid). unfold tracks. setoid_rewrite Hlook. case_decide; [|done].
    subst. rewrite Hn. split; [by intros (? & ? & _)|]. intros (? & [= <-] & Hin). rewrite Hrefs in Hin. set_solver.
  - intros k e'. unfold lookup_entry in *. cbn. rewrite lookup_insert. case_decide; [intros [= <-]|apply inv_refs0].
    rewrite Hrefs. split; [constructor|cbn; unfold kMaxTrackedItemsPerEntry; lia].
  - rewrite add_counter_same, inv_count0, u64_add_l. unfold size_of. cbn. f_equal. lia.
  - done.
Qed.

Lemma refresh_ok c : cache_ok c → cache_ok (RefreshMemoryLocked c).
Proof. intros []. by apply refresh_inv. Qed.

(** Erasing the keys of a list, counted or not. *)
Lemma erase_counting_fst keys : ∀ c n,
  (fold_left (λ p key, let '(c, erased) := EraseLocked key p.1 in (c, if erased : bool then S p.2 else p.2))
     keys (c, n)).1 = erase_all keys c.
Proof.
  unfold erase_all. induction keys as [|k keys IH]; intros c n; [done|]. cbn.
  destruct (EraseLocked k c) as [c' []]; cbn; apply IH.
Qed.

Lemma erase_all_inv holes keys : ∀ c, cache_inv holes c → cache_inv holes (erase_all keys c).
Proof.
  induction keys as [|k keys IH]; intros c Hc; [done|]. cbn. by apply IH, EraseLocked_inv.
Qed.

Definition lru_without (keys : list CacheKey) (t : lru CacheKey CachedEntry) : lru CacheKey CachedEntry :=
  MkLru (filter (.∉ keys) (lru_list t)) (filter (λ p, p.1 ∉ keys) (lru_map t)).

Lemma lru_without_nil t : lru_without [] t = t.
Proof.
  destruct t as [l m]. unfold lru_without. cbn. f_equal.
  - apply filter_id. intros x _ Hx. by apply elem_of_nil in Hx.
  - apply map_filter_id. intros x y _ Hx. by apply elem_of_nil in Hx.
Qed.

Lemma erase_all_entries keys : ∀ c, lru_ok (entries c) →
  entries (erase_all keys c) = lru_without keys (entries c) ∧ settings (erase_all keys c) = settings c.
Proof.
  induction keys as [|k keys IH]; intros c Hok.
  - by rewrite lru_without_nil.
  - destruct (EraseLocked_entries k c Hok) as (Hent & Hset & _).
    destruct (IH (EraseLocked k c).1) as [Hent' Hset']; [rewrite Hent; by apply lru_ok_remove|].
    cbn. unfold erase_all in *. rewrite Hent', Hset', Hent, Hset. split; [|done]. unfold lru_without, lru_remove. cbn. f_equal.
    + rewrite list_filter_filter. apply list_filter_iff. set_solver.
    + apply map_eq. intros x. apply option_eq. intros v. rewrite !map_lookup_filter_Some, lookup_delete_Some. cbn. set_solver.
Qed.

Lemma lookup_lru_without keys t key :
  lru_map (lru_without keys t) !! key = if decide (key ∈ keys) then None else lru_map t !! key.
Proof.
  cbn. case_decide as Hin.
  - apply map_lookup_filter_None. right. cbn. tauto.
  - destruct (lru_map t !! key) eqn:E; [by apply map_lookup_filter_Some|apply map_lookup_filter_None; by left].
Qed.

(** The index hole closes once no entry refers to the item. *)
Lemma close_hole id c :
  cache_inv {[id]} c → (∀ key, ¬ tracks c key id) → cache_ok c.
Proof.
  intros [] Hno. split; auto.
  - intros id' key _. destruct (decide (id' = id)) as [->|]; [|apply inv_index0; set_solver].
    unfold keys_of. rewrite inv_holes0 by set_solver. split; [set_solver|]. by intros ?%Hno.
  - set_solver.
Qed.

Lemma open_hole id c :
  cache_ok c → cache_inv {[id]} (with_index (delete id (item_to_cache_keys c)) c).
Proof.
  intros []. split; cbn; auto.
  - intros id' key Hid. unfold keys_of. rewrite lookup_delete_ne by set_solver. apply inv_index0. set_solver.
  - intros id' ->%elem_of_singleton. apply lookup_delete_eq.
  - intros id' ks [_ ?]%lookup_delete_Some. eauto.
Qed.

Context `{IterOrder}.

Lemma elem_of_set_order (keys : gset CacheKey) key : key ∈ set_order keys ↔ key ∈ keys.
Proof.
  unfold set_order. rewrite list_elem_of_fmap. split.
  - intros ([k []] & -> & Hin%elem_of_iter_order). by apply lookup_gset_to_gmap_Some in Hin as [? _].
  - intros Hin. exists (key, tt). split; [done|]. apply elem_of_iter_order. by apply lookup_gset_to_gmap_Some.
Qed.

Lemma NoDup_set_order (keys : gset CacheKey) : NoDup (set_order keys).
Proof. apply NoDup_fst_iter_order. Qed.

Lemma length_set_order (keys : gset CacheKey) : length (set_order keys) = size keys.
Proof.
  unfold set_order. rewrite length_fmap, length_iter_order, <- size_dom. by rewrite dom_gset_to_gmap.
Qed.

(** Distinct present keys are all counted. *)
Lemma erase_counting_count keys : ∀ c n,
  lru_ok (entries c) → NoDup keys → (∀ key, key ∈ keys → is_Some (lookup_entry key c)) →
  (fold_left (λ p key, let '(c, erased) := EraseLocked key p.1 in (c, if erased : bool then S p.2 else p.2))
     keys (c, n)).2 = (n + length keys)%nat.
Proof.
  induction keys as [|k keys IH]; intros c n Hok Hnd Hin; [cbn; lia|].
  apply NoDup_cons in Hnd as [Hk Hnd]. pose proof (EraseLocked_entries k c Hok) as (Hent & _ & Hflag).
  rewrite bool_decide_eq_true_2 in Hflag by (apply Hin; set_solver).
  cbn [fold_left length fst snd]. destruct (EraseLocked k c) as [c' b]. cbn in *. subst b.
  rewrite IH; [lia| | |].
  - rewrite Hent. by apply lru_ok_remove.
  - done.
  - intros key Hkey. unfold lookup_entry. rewrite Hent, lookup_lru_remove. rewrite decide_False by set_solver.
    apply Hin. set_solver.
Qed.

Lemma InvalidateByItemId_spec id c :
  cache_ok c →
  let '(c', n) := InvalidateByItemId id c in
  cache_ok c' ∧ settings c' = settings c ∧
  ∃ keys, (∀ key, key ∈ keys ↔ tracks c key id) ∧ n = length keys ∧ NoDup keys ∧
    entries c' = lru_without keys (entries c).
Proof.
  intros Hok. pose proof Hok as []. specialize (inv_index0 id). unfold keys_of in inv_index0.
  unfold InvalidateByItemId. destruct (item_to_cache_keys c !! id) as [ks|] eqn:Hks; cbn in inv_index0.
  - unfold erase_counting. set (c1 := with_index _ c).
    assert (Hin : ∀ key, key ∈ set_order ks ↔ tracks c key id)
      by (intros key; rewrite elem_of_set_order; apply inv_index0; set_solver).
    pose proof (erase_counting_fst (set_order ks) c1 0) as Hfst.
    pose proof (erase_counting_count (set_order ks) c1 0 inv_lru0 (NoDup_set_order ks)) as Hcount.
    destruct (fold_left _ _ _) as [c' n]. cbn in Hfst, Hcount. subst c'.
    destruct (erase_all_entries (set_order ks) c1 inv_lru0) as [Hent Hset].
    split_and!; [|by rewrite Hset|].
    + apply (close_hole id); [by apply erase_all_inv, open_hole|]. intros key (e & He & Hid).
      unfold lookup_entry in He. rewrite Hent, lookup_lru_without in He. case_decide as Hn; [done|].
      apply Hn, Hin. by exists e.
    + exists (set_order ks). split_and!; auto using NoDup_set_order.
      apply Hcount. intros key Hkey%Hin. destruct Hkey as (e & He & _). by exists e.
  - split_and!; auto. exists []. split_and!; [|done|constructor|].
    + intros key. rewrite <- inv_index0 by set_solver. set_solver.
    + by rewrite lru_without_nil.
Qed.

(** ** Insertion *)

(** Every entry is as it was or gone. *)
Definition forgets (c c' : SimilarityCache) : Prop :=
  ∀ key, lookup_entry key c' = lookup_entry key c ∨ lookup_entry key c' = None.

Lemma keeps_recent_forgets n c c' : keeps_recent n c c' → forgets c c'.
Proof. intros (_ & _ & Hl) key. rewrite Hl. case_decide; auto. Qed.

Lemma forgets_refl c : forgets c c.
Proof. intros key. by left. Qed.

Lemma EvictForSpace_0 c :
  cache_ok c → ∃ c' n, EvictForSpace 0 c = Some (c', true) ∧ cache_ok c' ∧ keeps_recent n c c' ∧
    total_memory_bytes c' ≤ max_memory_bytes (settings c').
Proof.
  intros Hok. destruct (EvictForSpace_spec 0 c Hok) as (c' & n & room & Hrun & Hok' & Hkeep & _ & Hroom & Hsame & Hover).
  assert (Hb : over_budget 0 c' = false).
  { destruct (over_budget 0 c) eqn:Hb; [|by rewrite Hsame].
    destruct (Hover eq_refl) as [Hnil|[-> _]]; [by apply over_budget_0|]. by destruct (over_budget 0 c'). }
  rewrite Hb in Hroom. exists c', n. subst room. split_and!; auto; try apply Hkeep.
  unfold over_budget in Hb. rewrite Z.add_0_r in Hb. pose proof (inv_memory _ _ Hok') as [Hin _].
  unfold u64 in Hb. rewrite wrap_small in Hb by done. by apply Z.ltb_ge.
Qed.

Definition registered (item_ids : option (list string)) (refs : list string) : Prop :=
  match item_ids with
  | None => refs = []
  | Some ids => (∀ id, id ∈ refs → id ∈ ids) ∧ ∀ id, id ∈ ids → id ∈ refs ∨ length refs = kMaxTrackedItemsPerEntry
  end.

Lemma with_refs_nil e : referenced_item_ids e = [] → with_refs [] e = e.
Proof. destruct e. cbn. by intros ->. Qed.

(** The entry with its registered ids. *)
Lemma registered_entry key e ids c :
  referenced_item_ids e = [] →
  ∃ refs, registered (Some ids) refs ∧ settings (RegisterResultItemsLocked key e ids c) = settings c ∧
    ∀ k, lookup_entry k (RegisterResultItemsLocked key e ids c) =
      if decide (k = key) then Some (with_refs refs e) else lookup_entry k c.
Proof.
  intros Hrefs. unfold RegisterResultItemsLocked. rewrite Hrefs.
  pose proof (register_ids_spec key ids [] (item_to_cache_keys c)) as Hspec.
  destruct (register_ids _ _ _ _) as [refs r]. destruct Hspec as (_ & _ & _ & _ & Hfrom & _ & Hall);
    [constructor|cbn; lia|].
  exists refs. split; [split; [|done]|split; [done|]].
  - intros id Hid. destruct (Hfrom id Hid) as [Hn|]; [by apply elem_of_nil in Hn|done].
  - intros k. unfold lookup_entry. cbn. rewrite lookup_insert. repeat case_decide; congruence.
Qed.

Lemma admit_entry_spec key e item_ids c :
  lookup_entry key c = None → referenced_item_ids e = [] → cache_ok c →
  ∃ c' b, admit_entry key e item_ids c = Some (c', b) ∧ cache_ok c' ∧ settings c' = settings c ∧
    total_memory_bytes c' ≤ max_memory_bytes (settings c') ∧
    (∀ k, k ≠ key → lookup_entry k c' = lookup_entry k c ∨ lookup_entry k c' = None) ∧
    if b then ∃ refs, registered item_ids refs ∧ lookup_entry key c' = Some (with_refs refs e)
    else lookup_entry key c' = None.
Proof.
  intros Hn Hrefs Hok. unfold admit_entry.
  pose proof (push_front_inv key e c Hn Hrefs Hok) as Hok1. set (c1 := with_stats _ _) in *.
  assert (Hl1 : ∀ k, lookup_entry k c1 = if decide (k = key) then Some e else lookup_entry k c).
  { intros k. unfold lookup_entry. cbn. rewrite lookup_insert. repeat case_decide; congruence. }
  assert (∃ c2 refs, match item_ids with None => c1 | Some ids => RegisterResultItemsLocked key e ids c1 end = c2 ∧
    cache_ok c2 ∧ settings c2 = settings c ∧ registered item_ids refs ∧
    ∀ k, lookup_entry k c2 = if decide (k = key) then Some (with_refs refs e) else lookup_entry k c)
    as (c2 & refs & -> & Hok2 & Hset2 & Hreg & Hl2).
  { destruct item_ids as [ids|].
    - destruct (registered_entry key e ids c1 Hrefs) as (refs & Hreg & Hset & Hl). eexists _, refs. split_and!; auto.
      + apply RegisterResultItemsLocked_inv; [|done]. rewrite Hl1. by rewrite decide_True.
      + intros k. rewrite Hl, Hl1. by case_decide.
    - exists c1, []. rewrite (with_refs_nil e Hrefs). split_and!; auto. done. }
  destruct (EvictForSpace_0 (RefreshMemoryLocked c2)) as (c3 & n & -> & Hok3 & Hkeep & Hmem); [by apply refresh_ok|].
  cbn. exists c3, (bool_decide (is_Some (lookup_entry key c3))).
  pose proof (keeps_recent_forgets _ _ _ Hkeep) as Hf. split_and!; auto.
  - destruct Hkeep as [-> _]. done.
  - intros k Hk. destruct (Hf k) as [Hk'|]; [|by right]. left. rewrite Hk'. change (lookup_entry k c2 = lookup_entry k c).
    by rewrite Hl2, decide_False.
  - destruct (Hf key) as [Hk'|Hk']; rewrite Hk'; [|done]. change (lookup_entry key (RefreshMemoryLocked c2)) with (lookup_entry key c2).
    rewrite Hl2, decide_True by done. cbn. eauto.
Qed.

Context `{Lz4}.

Lemma decode_inserted results data compression cost created expiry refs :
  results_ok results →
  (if compression : bool then CompressSimilarityResults results else SerializeSimilarityResults results) = Ok data →
  (u64_max / kSerializedResultSize <? Z.of_nat (length results)) = false →
  decode (MkCached data compression (u64 (Z.of_nat (length results) * kSerializedResultSize)) cost created expiry
            false refs) = Ok results.
Proof.
  intros Hok Hdata Hsize. unfold decode. cbn. destruct compression; [|by apply Deserialize_Serialize].
  assert (u64 (Z.of_nat (length results) * kSerializedResultSize) = Z.of_nat (length results * kRecordSize)) as ->;
    [|by apply Decompress_Compress].
  unfold u64, kSerializedResultSize, kRecordSize in *. rewrite wrap_small; [lia|].
  apply Z.ltb_ge in Hsize. unfold in_u, u64_max in *. split; [lia|].
  pose proof (Z.mul_div_le (2 ^ 64 - 1) (256 + 4)). lia.
Qed.

(** The entry an insertion puts in. *)
Definition fresh_entry (c : SimilarityCache) (results : list SimilarityResult) (cost ttl : Z) (env : InsertEnv)
    (item_ids : option (list string)) (e : CachedEntry) : Prop :=
  created_at e = env_created env ∧ expires_at e = ComputeExpiry ttl (env_expiry env) ∧
  invalidated e = false ∧ query_cost_ms e = cost ∧ registered item_ids (referenced_item_ids e) ∧
  (results_ok results → decode e = Ok results).

Lemma InsertWithTtl_spec key results cost ttl item_ids env c :
  cache_ok c →
  ∃ c' b, InsertWithTtl key results cost ttl item_ids env c = Some (c', b) ∧ cache_ok c' ∧
    settings c' = settings c ∧
    (∀ k, k ≠ key → lookup_entry k c' = lookup_entry k c ∨ lookup_entry k c' = None) ∧
    if b then lookup_entry key c = None ∧ total_memory_bytes c' ≤ max_memory_bytes (settings c') ∧
              ∃ e, lookup_entry key c' = Some e ∧ fresh_entry c results cost ttl env item_ids e
    else forgets c c'.
Proof.
  intros Hok. unfold InsertWithTtl.
  assert (Hrefuse : ∃ c' b, Some (c, false) = Some (c', b) ∧ cache_ok c' ∧ settings c' = settings c ∧
    (∀ k, k ≠ key → lookup_entry k c' = lookup_entry k c ∨ lookup_entry k c' = None) ∧
    if b then lookup_entry key c = None ∧ total_memory_bytes c' ≤ max_memory_bytes (settings c') ∧
              ∃ e, lookup_entry key c' = Some e ∧ fresh_entry c results cost ttl env item_ids e
    else forgets c c').
  { exists c, false. split_and!; auto using forgets_refl. }
  destruct (negb _); [done|]. destruct (f64_ltb _ _); [done|].
  destruct (if compression_enabled (settings c) then _ else _) as [data|] eqn:Hdata; [|done].
  destruct (u64_max / _ <? _) eqn:Hsize; [done|]. cbv zeta. set (need := u64 _). destruct (_ <? need); [done|].
  case_bool_decide as Hpresent; [done|]. clear Hrefuse.
  assert (Hn : lookup_entry key c = None) by (by apply eq_None_not_Some).
  assert (∃ c1 room, (if over_budget need c then EvictForSpace need c else Some (c, true)) = Some (c1, room) ∧
    cache_ok c1 ∧ settings c1 = settings c ∧ forgets c c1) as (c1 & room & -> & Hok1 & Hset1 & Hf1).
  { destruct (over_budget need c).
    - destruct (EvictForSpace_spec need c Hok) as (c1 & n & room & -> & Hok1 & Hkeep & _).
      exists c1, room. split_and!; [done|done|apply Hkeep|by eapply keeps_recent_forgets].
    - exists c, true. split_and!; auto using forgets_refl. }
  cbn. destruct room; cbn.
  - set (e := MkCached _ _ _ _ _ _ _ _).
    destruct (admit_entry_spec key e item_ids c1) as (c2 & b & -> & Hok2 & Hset2 & Hmem & Hothers & Hkey); [|done|done|].
    { destruct (Hf1 key) as [->|]; done. }
    exists c2, b. split_and!; auto; [by rewrite Hset2| |].
    + intros k Hk. destruct (Hothers k Hk) as [->|]; [apply Hf1|by right].
    + destruct b.
      * destruct Hkey as (refs & Hreg & Hkey). split_and!; auto. exists (with_refs refs e). split; [done|].
        split_and!; auto. intros Hres. unfold e, with_refs. cbn. rewrite Hset1. by apply decode_inserted.
      * intros k. destruct (decide (k = key)) as [->|Hk]; [by right|].
        destruct (Hothers k Hk) as [->|]; [apply Hf1|by right].
  - exists c1, false. split_and!; auto.
Qed.

Lemma RegisterResultItems_spec key item_ids c :
  cache_ok c → ∃ c', RegisterResultItems key item_ids c = Some c' ∧ cache_ok c' ∧ settings c' = settings c ∧
    (∀ k, k ≠ key → lookup_entry k c' = lookup_entry k c ∨ lookup_entry k c' = None) ∧
    (lookup_entry key c' = None ∨ ∃ e refs, lookup_entry key c = Some e ∧ lookup_entry key c' = Some (with_refs refs e)).
Proof.
  intros Hok. unfold RegisterResultItems. destruct (lookup_entry key c) as [e|] eqn:He.
  - pose proof (RegisterResultItemsLocked_inv key e item_ids c He Hok) as Hok1.
    assert (∃ refs, settings (RegisterResultItemsLocked key e item_ids c) = settings c ∧
      ∀ k, lookup_entry k (RegisterResultItemsLocked key e item_ids c) =
        if decide (k = key) then Some (with_refs refs e) else lookup_entry k c) as (refs & Hset & Hl).
    { unfold RegisterResultItemsLocked. destruct (register_ids _ _ _ _) as [refs r]. exists refs. split; [done|].
      intros k. unfold lookup_entry. cbn. rewrite lookup_insert. repeat case_decide; congruence. }
    set (c1 := RegisterResultItemsLocked _ _ _ _) in *.
    destruct (EvictForSpace_0 (RefreshMemoryLocked c1)) as (c2 & n & -> & Hok2 & Hkeep & _); [by apply refresh_ok|].
    exists c2. pose proof (keeps_recent_forgets _ _ _ Hkeep) as Hf.
    split_and!; auto; [by destruct Hkeep as [-> _]| |].
    + intros k Hk. destruct (Hf k) as [->|]; [|by right]. left. change (lookup_entry k c1 = lookup_entry k c).
      by rewrite Hl, decide_False.
    + destruct (Hf key) as [->|]; [|by left]. right. exists e, refs. split; [done|].
      change (lookup_entry key c1 = Some (with_refs refs e)). by rewrite Hl, decide_True.
  - exists c. split_and!; auto.
Qed.

(** ** Lookups *)

(** Equations between sums of wrapped counters. *)
Ltac u64_sum := unfold u64, wrap; rewrite ?Zplus_mod_idemp_l, ?Zplus_mod_idemp_r; f_equal; lia.

Lemma read_inv key ttl now c : cache_ok c → cache_ok (lookup_read key ttl now c).1.
Proof.
  intros Hok. pose proof (inv_queries _ _ Hok) as [Hq Hm].
  assert (Hstep : ∀ f, f (add_counter total_queries 1 (stats c)) current_entries = stats c current_entries →
    f (add_counter total_queries 1 (stats c)) current_memory_bytes = stats c current_memory_bytes →
    balanced (f (add_counter total_queries 1 (stats c))) →
    cache_ok (with_stats f (with_stats (add_counter total_queries 1) c))).
  { intros f ? ? ?. change (cache_ok (with_stats (λ s, f (add_counter total_queries 1 s)) c)). by apply with_stats_inv. }
  assert (Hmiss : ∀ why, why = cache_misses_invalidated ∨ why = cache_misses_not_found →
    cache_ok (with_stats (λ s, add_counter why 1 (add_counter cache_misses 1 s))
                (with_stats (add_counter total_queries 1) c))).
  { intros why [-> | ->]; apply Hstep; autorewrite with counters; [done|done| |done|done|];
      (split; autorewrite with counters; [rewrite Hq|rewrite Hm]; by u64_sum). }
  assert (Hstale : ∀ k why, query_counter k = false → k ≠ current_entries → k ≠ current_memory_bytes →
    why = cache_misses_invalidated ∨ why = cache_misses_not_found →
    cache_ok (with_stats (add_counter k 1) (with_stats (λ s, add_counter why 1 (add_counter cache_misses 1 s))
                (with_stats (add_counter total_queries 1) c)))).
  { intros k why Hk Hne Hne' Hwhy. apply with_stats_inv; [by rewrite add_counter_other|by rewrite add_counter_other| |by apply Hmiss].
    apply balanced_add; [done|]. by apply (inv_queries ∅), Hmiss. }
  unfold lookup_read. change (lookup_entry key (with_stats _ c)) with (lookup_entry key c).
  destruct (lookup_entry key c) as [e|]; [|apply Hmiss; auto].
  destruct (invalidated e); [apply Hmiss; auto|]. destruct (expired _ _ _); [apply Hstale; auto; done|].
  destruct (decode e); [|apply Hstale; auto; done].
  apply Hstep; autorewrite with counters; [done|done|].
  split; autorewrite with counters; [rewrite Hq; by u64_sum|done].
Qed.

Lemma write_inv key o c : cache_ok c → cache_ok (lookup_write key o c).
Proof.
  intros Hok. destruct o; cbn; [done|case_match; [by apply EraseLocked_inv|done]|case_match; [by apply Touch_inv|done]].
Qed.

(** ** Executions

    The steps of all threads, each under its lock; [pending] are the lookups
    between their two halves. *)
Inductive cache_run : SimilarityCache → list (CacheKey * ReadOutcome) → Prop :=
| run_new max_memory min_cost ttl compression batch slack :
    in_u 64 max_memory → cache_run (new_cache max_memory min_cost ttl compression batch slack) []
| run_read key ttl now c pending :
    cache_run c pending →
    cache_run (lookup_read key ttl now c).1 ((key, (lookup_read key ttl now c).2) :: pending)
| run_write key o c before after :
    cache_run c (before ++ (key, o) :: after) → cache_run (lookup_write key o c) (before ++ after)
| run_count_query t c pending :
    cache_run c pending → cache_run (with_stats (add_counter (per_type_queries t) 1) c) pending
| run_count_hit t c pending :
    cache_run c pending → cache_run (with_stats (add_counter (per_type_hits t) 1) c) pending
| run_insert key results cost ttl item_ids env c c' admitted pending :
    cache_run c pending → InsertWithTtl key results cost ttl item_ids env c = Some (c', admitted) →
    cache_run c' pending
| run_register key item_ids c c' pending :
    cache_run c pending → RegisterResultItems key item_ids c = Some c' → cache_run c' pending
| run_invalidate item_id c pending :
    cache_run c pending → cache_run (InvalidateByItemId item_id c).1 pending
| run_mark key c pending : cache_run c pending → cache_run (MarkInvalidated key c).1 pending
| run_erase key c pending : cache_run c pending → cache_run (Erase key c).1 pending
| run_clear c pending : cache_run c pending → cache_run (Clear c) pending
| run_clear_if predicate c pending : cache_run c pending → cache_run (ClearIf predicate c) pending
| run_purge now c pending : cache_run c pending → cache_run (PurgeExpired now c).1 pending
| run_set_ttl ttl c pending : cache_run c pending → cache_run (SetTtl ttl c) pending
| run_set_cost cost c pending : cache_run c pending → cache_run (SetMinQueryCost cost c) pending
| run_set_enabled on c pending : cache_run c pending → cache_run (SetEnabled on c) pending
| run_set_policy t p c pending : cache_run c pending → cache_run (SetSearchTypePolicy t p c) pending.

Lemma new_cache_ok max_memory min_cost ttl compression batch slack :
  in_u 64 max_memory → cache_ok (new_cache max_memory min_cost ttl compression batch slack).
Proof.
  intros Hmax. split; cbn; auto using lru_ok_empty; try done.
  - intros id key _. unfold keys_of, tracks, lookup_entry. cbn. rewrite lookup_empty. cbn. setoid_rewrite lookup_empty. set_solver.
  - split; [done|lia].
Qed.

Lemma Clear_ok c : cache_ok c → cache_ok (Clear c).
Proof.
  intros []. split; cbn; auto using lru_ok_empty; try done.
  - intros id key _. unfold keys_of, tracks, lookup_entry. cbn. rewrite lookup_empty. cbn. setoid_rewrite lookup_empty. set_solver.
Qed.

Lemma cache_run_ok c pending : cache_run c pending → cache_ok c.
Proof.
  induction 1.
  - by apply new_cache_ok.
  - by apply read_inv.
  - by apply write_inv.
  - apply with_stats_inv; [by rewrite add_counter_other..| |done]. apply balanced_add; [done|by apply (inv_queries ∅)].
  - apply with_stats_inv; [by rewrite add_counter_other..| |done]. apply balanced_add; [done|by apply (inv_queries ∅)].
  - destruct (InsertWithTtl_spec key results cost ttl item_ids env c) as (? & ? & ? & ? & _); [done|congruence].
  - destruct (RegisterResultItems_spec key item_ids c) as (? & ? & ? & _); [done|congruence].
  - pose proof (InvalidateByItemId_spec item_id c IHcache_run) as Hs. destruct (InvalidateByItemId _ _). apply Hs.
  - by apply MarkInvalidated_inv.
  - by apply EraseLocked_inv.
  - by apply Clear_ok.
  - by apply erase_all_inv.
  - unfold PurgeExpired. cbn. apply with_stats_inv; [by rewrite add_counter_other..| |by apply erase_all_inv].
    apply balanced_add; [done|]. by eapply (inv_queries ∅), erase_all_inv.
  - by destruct IHcache_run; split.
  - by destruct IHcache_run; split.
  - by destruct IHcache_run; split.
  - by destruct IHcache_run; split.
Qed.

(** ** The cache as a lossy map *)

(** What each present entry would answer. *)
Definition answer_of (e : CachedEntry) : option (list SimilarityResult) :=
  match decode e with Ok results => Some results | Unexpected _ => None end.
Definition answers (c : SimilarityCache) : gmap CacheKey (list SimilarityResult) := omap answer_of (lru_map (entries c)).

Lemma lookup_answers c key : answers c !! key = lookup_entry key c ≫= answer_of.
Proof. apply lookup_omap. Qed.

(** The specification: a map that may forget bindings at any step. *)
Inductive CacheEvent : Type :=
| EvAnswer (key : CacheKey) (results : list SimilarityResult)
| EvInsert (key : CacheKey) (results : list SimilarityResult)
| EvForget.

Inductive lossy_step (m : gmap CacheKey (list SimilarityResult)) : CacheEvent → gmap CacheKey (list SimilarityResult) → Prop :=
| lossy_answer key results : m !! key = Some results → lossy_step m (EvAnswer key results) m
| lossy_insert key results m' :
    m !! key = None → m' !! key = Some results → m' ⊆ <[key := results]> m → lossy_step m (EvInsert key results) m'
| lossy_forget m' : m' ⊆ m → lossy_step m EvForget m'.

Lemma forgets_answers c c' : forgets c c' → answers c' ⊆ answers c.
Proof.
  intros Hf. apply map_subseteq_spec. intros key rs. rewrite !lookup_answers. by destruct (Hf key) as [-> | ->].
Qed.

Lemma entries_forgets keys c c' : entries c' = lru_without keys (entries c) → forgets c c'.
Proof.
  intros He key. unfold lookup_entry. rewrite He, lookup_lru_without. case_decide; auto.
Qed.

Lemma erase_all_forgets keys c : lru_ok (entries c) → forgets c (erase_all keys c).
Proof. intros Hok. apply (entries_forgets keys). by apply erase_all_entries. Qed.

Lemma EraseLocked_forgets key c : lru_ok (entries c) → forgets c (EraseLocked key c).1.
Proof. intros Hok. by apply (erase_all_forgets [key]). Qed.

(** The read half changes only counters, and answers what is bound. *)
Lemma lookup_read_answers key ttl now c :
  answers (lookup_read key ttl now c).1 = answers c ∧
  ∀ results, outcome_results (lookup_read key ttl now c).2 = Some results → answers c !! key = Some results.
Proof.
  rewrite lookup_answers. unfold lookup_read. change (lookup_entry key (with_stats _ c)) with (lookup_entry key c).
  destruct (lookup_entry key c) as [e|]; [|done]. destruct (invalidated e); [done|]. destruct (expired ttl now e); [done|].
  cbn. unfold answer_of. by destruct (decode e).
Qed.

Lemma lookup_write_forgets key o c : lru_ok (entries c) → forgets c (lookup_write key o c).
Proof.
  intros Hok. destruct o; cbn; [apply forgets_refl| |]; (case_match; [|apply forgets_refl]).
  - by apply EraseLocked_forgets.
  - unfold Touch. case_match; [intros k; by left|apply forgets_refl].
Qed.

(** In every execution, with lookups split at their lock upgrade and any
    operations in between, list and map agree, the reverse index holds exactly
    the ids registered in present entries (at most 50 each, no empty set), the
    entry and memory counters are those of the contents, and the query counters
    balance. *)
Lemma similarity_cache_invariant c pending : cache_run c pending → cache_ok c.
Proof. apply cache_run_ok. Qed.

(** C13: the cache refines a lossy map from keys to results: a lookup answers
    only what is bound, an insertion that reports success binds its results to
    an unbound key, and every other step only forgets. *)
Theorem similarity_cache_refines c pending :
  cache_run c pending →
  (∀ key ttl now, let '(c', o) := lookup_read key ttl now c in
    answers c' = answers c ∧
    ∀ results, outcome_results o = Some results → lossy_step (answers c) (EvAnswer key results) (answers c')) ∧
  (∀ key results cost ttl item_ids env, results_ok results →
    ∃ c' admitted, InsertWithTtl key results cost ttl item_ids env c = Some (c', admitted) ∧
      lossy_step (answers c) (if admitted then EvInsert key results else EvForget) (answers c')) ∧
  (∀ key o, lossy_step (answers c) EvForget (answers (lookup_write key o c))) ∧
  (∀ key item_ids c', RegisterResultItems key item_ids c = Some c' → lossy_step (answers c) EvForget (answers c')) ∧
  (∀ key, lossy_step (answers c) EvForget (answers (MarkInvalidated key c).1)) ∧
  (∀ key, lossy_step (answers c) EvForget (answers (Erase key c).1) ∧ answers (Erase key c).1 !! key = None) ∧
  (∀ item_id, lossy_step (answers c) EvForget (answers (InvalidateByItemId item_id c).1)) ∧
  (∀ predicate, lossy_step (answers c) EvForget (answers (ClearIf predicate c))) ∧
  (∀ now, lossy_step (answers c) EvForget (answers (PurgeExpired now c).1)) ∧
  answers (Clear c) = ∅.
Proof.
  intros Hrun. pose proof (cache_run_ok _ _ Hrun) as Hok. pose proof (inv_lru _ _ Hok) as Hlru.
  split_and!.
  - intros key ttl now. pose proof (lookup_read_answers key ttl now c) as [Hsame Hans]. destruct (lookup_read key ttl now c) as [c' o].
    cbn in Hsame, Hans. rewrite Hsame. split; [done|]. intros results Hr. by apply lossy_answer, Hans.
  - intros key results cost ttl item_ids env Hres. destruct (InsertWithTtl_spec key results cost ttl item_ids env c Hok) as (c' & b & Hi & _ & _ & Hothers & Hb).
    exists c', b. split; [done|]. destruct b; [|by apply lossy_forget, forgets_answers].
    destruct Hb as (Hn & _ & e & He & Hfresh). destruct Hfresh as (_ & _ & _ & _ & _ & Hd).
    assert (Hans : answers c' !! key = Some results).
    { rewrite lookup_answers, He. cbn. unfold answer_of. by rewrite Hd. }
    apply lossy_insert; [by rewrite lookup_answers, Hn|done|].
    apply map_subseteq_spec. intros k rs Hk. destruct (decide (k = key)) as [->|Hne].
    + rewrite Hk in Hans. simplify_eq. apply lookup_insert_eq.
    + rewrite lookup_insert_ne by done. rewrite lookup_answers in Hk |- *. by destruct (Hothers k Hne) as [<-|Hnk]; [|rewrite Hnk in Hk].
  - intros key o. by apply lossy_forget, forgets_answers, lookup_write_forgets.
  - intros key item_ids c' Hreg. destruct (RegisterResultItems_spec key item_ids c Hok) as (c'' & Hr & _ & _ & Hothers & Hkey).
    rewrite Hreg in Hr. simplify_eq. apply lossy_forget, map_subseteq_spec. intros k rs. rewrite !lookup_answers.
    destruct (decide (k = key)) as [->|Hne]; [|by destruct (Hothers k Hne) as [-> | ->]].
    by destruct Hkey as [-> |(e & refs & -> & ->)].
  - intros key. apply lossy_forget, map_subseteq_spec. intros k rs. rewrite !lookup_answers. unfold MarkInvalidated.
    destruct (lookup_entry key c) eqn:He; [|done]. unfold lookup_entry in *. cbn. rewrite lookup_insert.
    case_decide; [|done]. subst. by rewrite He.
  - intros key. split; [by apply lossy_forget, forgets_answers, EraseLocked_forgets|].
    rewrite lookup_answers. unfold lookup_entry. unfold Erase. destruct (EraseLocked_entries key c Hlru) as (-> & _).
    by rewrite lookup_lru_remove, decide_True.
  - intros item_id. pose proof (InvalidateByItemId_spec item_id c Hok) as Hs. destruct (InvalidateByItemId _ _) as [c' n].
    destruct Hs as (_ & _ & keys & _ & _ & _ & Hent). by eapply lossy_forget, forgets_answers, (entries_forgets keys).
  - intros predicate. by apply lossy_forget, forgets_answers, erase_all_forgets.
  - intros now. by apply lossy_forget, forgets_answers, erase_all_forgets.
  - done.
Qed.

Lemma expired_false ttl now e :
  now < expires_at e → ttl ≤ 0 ∨ Z.quot (now - created_at e) nanoseconds < ttl → expired ttl now e = false.
Proof. intros. unfold expired. lia. Qed.

Lemma expired_true ttl now e : expires_at e ≤ now → expired ttl now e = true.
Proof. intros. unfold expired. lia. Qed.

(** An admitted entry is found again: until its TTL passes, a lookup returns
    exactly the results that were inserted and makes the key the most recent;
    from its expiry on a lookup misses and removes it. *)
Lemma insert_then_lookup c pending key results cost ttl item_ids env c' :
  cache_run c pending → results_ok results →
  InsertWithTtl key results cost ttl item_ids env c = Some (c', true) →
  (∀ now ttl', now < ComputeExpiry ttl (env_expiry env) →
    ttl' ≤ 0 ∨ Z.quot (now - env_created env) nanoseconds < ttl' →
    let '(c'', r) := LookupWithTtl key ttl' now c' in
    r = Some results ∧ head (lru_list (entries c'')) = Some key) ∧
  (∀ now ttl', ComputeExpiry ttl (env_expiry env) ≤ now →
    let '(c'', r) := LookupWithTtl key ttl' now c' in r = None ∧ lookup_entry key c'' = None).
Proof.
  intros Hrun Hres Hins.
  assert (Hon : cache_enabled (settings c) = true)
    by (unfold InsertWithTtl in Hins; destruct (cache_enabled (settings c)); [done|by simplify_eq]).
  destruct (InsertWithTtl_spec key results cost ttl item_ids env c (cache_run_ok _ _ Hrun))
    as (c1 & b & Hi & Hok & Hset & _ & Hb).
  rewrite Hins in Hi. simplify_eq. destruct Hb as (_ & _ & e & He & Hcr & Hex & Hinv & _ & _ & Hd).
  specialize (Hd Hres). rewrite <- Hex, <- Hcr. rewrite <- Hset in Hon.
  unfold LookupWithTtl, lookup_read. split; intros now ttl' Hnow; [intros Hage|];
    rewrite Hon; cbn [negb]; change (lookup_entry key (with_stats _ c1)) with (lookup_entry key c1); rewrite He, Hinv.
  - rewrite expired_false, Hd by done. cbn [lookup_write outcome_results]. split; [done|].
    unfold same_entry. change (lookup_entry key (with_stats _ _)) with (lookup_entry key c1). rewrite He, Z.eqb_refl.
    unfold Touch. change (lookup_entry key (with_stats _ _)) with (lookup_entry key c1). by rewrite He.
  - rewrite expired_true by done. cbn [lookup_write outcome_results]. split; [done|].
    unfold same_entry. change (lookup_entry key (with_stats _ _)) with (lookup_entry key c1). rewrite He, Z.eqb_refl.
    match goal with |- lookup_entry key (EraseLocked key ?x).1 = None =>
      destruct (EraseLocked_entries key x (inv_lru _ _ Hok)) as (Hent & _) end.
    unfold lookup_entry. by rewrite Hent, lookup_lru_remove, decide_True.
Qed.

Lemma length_lru_without keys t :
  NoDup keys → lru_ok t → (∀ key, key ∈ keys → key ∈ lru_list t) →
  (length (lru_list (lru_without keys t)) + length keys = length (lru_list t))%nat.
Proof.
  intros Hnd [Hl _] Hin. cbn. rewrite <- length_app. apply Permutation_length, NoDup_Permutation; [|done|].
  - apply NoDup_app. split_and!; [by apply NoDup_filter| |done]. intros x [? _]%list_elem_of_filter. done.
  - intros x. rewrite elem_of_app, list_elem_of_filter. destruct (decide (x ∈ keys)); naive_solver.
Qed.

(** Invalidating an item removes exactly the entries registered under it,
    returns their number and leaves every other entry and the recency order
    alone; results that were inserted with the item among at most 50 ids cannot
    be looked up afterwards. *)
Lemma invalidate_by_item_exact c pending item_id :
  cache_run c pending →
  let '(c', n) := InvalidateByItemId item_id c in
  (∀ key, tracks c key item_id → lookup_entry key c' = None) ∧
  (∀ key, ¬ tracks c key item_id → lookup_entry key c' = lookup_entry key c) ∧
  lru_list (entries c') `sublist_of` lru_list (entries c) ∧
  size_of c' + Z.of_nat n = size_of c ∧
  (∀ key, ¬ tracks c' key item_id) ∧
  (∀ key e ids, lookup_entry key c = Some e → registered (Some ids) (referenced_item_ids e) →
    item_id ∈ ids → (length ids ≤ kMaxTrackedItemsPerEntry)%nat → lookup_entry key c' = None).
Proof.
  intros Hrun. pose proof (cache_run_ok _ _ Hrun) as Hok.
  pose proof (InvalidateByItemId_spec item_id c Hok) as Hs. destruct (InvalidateByItemId item_id c) as [c' n].
  destruct Hs as (_ & _ & keys & Hkeys & -> & Hnd & Hent).
  assert (Hl : ∀ key, lookup_entry key c' = if decide (key ∈ keys) then None else lookup_entry key c).
  { intros key. unfold lookup_entry. by rewrite Hent, lookup_lru_without. }
  assert (Hgone : ∀ key, tracks c key item_id → lookup_entry key c' = None).
  { intros key Ht%Hkeys. by rewrite Hl, decide_True. }
  pose proof (inv_lru _ _ Hok) as Hlru. split_and!; auto.
  - intros key Ht. by rewrite Hl, decide_False by (by rewrite Hkeys).
  - rewrite Hent. apply sublist_filter.
  - unfold size_of. rewrite Hent, <- (length_lru_without keys (entries c)); [lia|done|done|].
    intros key (e & He & _)%Hkeys. by eapply lru_ok_lookup.
  - intros key (e & He & Hid). rewrite Hl in He. case_decide as Hn; [done|]. apply Hn, Hkeys. by exists e.
  - intros key e ids He [Hsub Hall] Hin Hlen. apply Hgone. exists e. split; [done|].
    destruct (Hall item_id Hin) as [|Hfull]; [done|].
    destruct (inv_refs _ _ Hok key e He) as [Hr _].
    apply list_elem_of_In. apply (NoDup_length_incl (l := referenced_item_ids e) (l' := ids)).
    + by apply NoDup_ListNoDup.
    + rewrite Hfull. done.
    + intros x. rewrite <- !list_elem_of_In. apply Hsub.
    + by apply list_elem_of_In.
Qed.

(** Eviction terminates: the length of the LRU list is enough fuel.  It
    drops least recent entries first, at least a batch unless the cache is
    drained, and fails only when it is; insertions and registrations therefore
    always return, and leave the memory estimate within the limit. *)
Lemma evict_for_space_terminates c pending :
  cache_run c pending →
  (∀ required, ∃ c' n room, EvictForSpace required c = Some (c', room) ∧ keeps_recent n c c' ∧
    room = negb (over_budget required c') ∧
    (n < length (lru_list (entries c)) → lru_list (entries c') = [] ∨
      eviction_batch_size (settings c) ≤ length (lru_list (entries c)) - n)%nat ∧
    (room = false → lru_list (entries c') = [])) ∧
  (∀ key results cost ttl item_ids env, ∃ c' admitted,
    InsertWithTtl key results cost ttl item_ids env c = Some (c', admitted) ∧
    (admitted = true → total_memory_bytes c' ≤ max_memory_bytes (settings c'))) ∧
  (∀ key item_ids, is_Some (RegisterResultItems key item_ids c)).
Proof.
  intros Hrun. pose proof (cache_run_ok _ _ Hrun) as Hok. split_and!.
  - intros required.
    destruct (EvictForSpace_spec required c Hok) as (c' & n & room & Hr & Hok' & Hkeep & Hn & Hroom & Hsame & Hover).
    exists c', n, room. split_and!; auto.
    + intros Hlt. destruct (over_budget required c) eqn:Hb; [destruct (Hover eq_refl) as [|[_ ?]]; auto|].
      rewrite Hsame in Hkeep by done. destruct Hkeep as (_ & Hl & _). apply (f_equal length) in Hl.
      rewrite length_take in Hl. lia.
    + intros Hf. rewrite Hroom in Hf. apply negb_false_iff in Hf. destruct (over_budget required c) eqn:Hb.
      * destruct (Hover eq_refl) as [|[? _]]; [done|]. by rewrite Hroom, Hf in *.
      * rewrite Hsame in Hf by done. congruence.
  - intros. destruct (InsertWithTtl_spec key results cost ttl item_ids env c Hok) as (c' & b & -> & _ & _ & _ & Hb).
    exists c', b. split; [done|]. intros ->. apply Hb.
  - intros. destruct (RegisterResultItems_spec key item_ids c Hok) as (c' & -> & _). by eexists.
Qed.
End lemmas.

(** ** Concrete runs *)

Module Examples.
#[local] Instance lp64 : Layout :=
  {| sizeof_CachedEntry := 112; sizeof_entry_pair := 120; sizeof_string := 32; sizeof_key_set := 56 |}.
#[local] Existing Instance stored.
#[local] Existing Instance tree_order.

Definition key1 : CacheKey := MkCacheKey 1 1.
Definition results1 : list SimilarityResult := [MkResult "b" 0x3F800000].
Definition ids1 : list string := ["a"; "b"].

Definition start (max_memory : Z) : SimilarityCache := new_cache max_memory 0 0 true 10 (λ _, 64).

(** One insertion; an entry of [results1] registered under ["a"] and ["b"]. *)
Definition insert_nth (n : Z) (c : SimilarityCache) : SimilarityCache * bool :=
  default (c, false) (InsertWithTtl (MkCacheKey n n) results1 0 60 (Some ids1) (MkEnv 5 6 260) c).

Definition filled (max_memory : Z) : SimilarityCache := (insert_nth 1 (start max_memory)).1.

Lemma filled_run : cache_run (filled 100000) [].
Proof.
  apply (run_insert key1 results1 0 60 (Some ids1) (MkEnv 5 6 260) (start 100000) _ true).
  - apply run_new. vm_compute. split; congruence.
  - vm_compute. reflexivity.
Qed.

(** A batch larger than the contents evicts the new entry with the others: an
    insertion into a cache with room for two entries out of three reports
    failure and leaves the cache empty. *)
Example batch_evicts_newcomer :
  (insert_nth 1 (start 1900)).2 = true ∧
  (insert_nth 2 (filled 1900)).2 = true ∧
  (insert_nth 3 (insert_nth 2 (filled 1900)).1).2 = false ∧
  lru_list (entries (insert_nth 3 (insert_nth 2 (filled 1900)).1).1) = [].
Proof. vm_compute. done. Qed.

Lemma similarity_cache_invariant_witness :
  cache_ok (filled 100000) ∧ tracks (filled 100000) key1 "b".
Proof.
  split; [exact (similarity_cache_invariant (filled 100000) [] filled_run)|].
  eexists. split; [vm_compute; reflexivity|]. vm_compute. right. left.
Defined.

Lemma similarity_cache_refines_witness :
  answers (filled 100000) !! key1 = Some results1 ∧
  answers (Erase key1 (filled 100000)).1 !! key1 = None.
Proof.
  split; [vm_compute; reflexivity|].
  exact (proj2 (proj1 (proj2 (proj2 (proj2 (proj2 (proj2
    (similarity_cache_refines (filled 100000) [] filled_run)))))) key1)).
Defined.

Lemma insert_then_lookup_witness :
  (LookupWithTtl key1 0 7 (filled 100000)).2 = Some results1 ∧
  (LookupWithTtl key1 0 (6 + 60 * 10 ^ 9) (filled 100000)).2 = None.
Proof.
  assert (Hrun : cache_run (start 100000) []) by (apply run_new; vm_compute; split; congruence).
  assert (Hins : InsertWithTtl key1 results1 0 60 (Some ids1) (MkEnv 5 6 260) (start 100000) =
    Some (filled 100000, true)) by (vm_compute; reflexivity).
  assert (Hres : results_ok results1) by (repeat constructor; vm_compute; congruence).
  destruct (insert_then_lookup (start 100000) [] key1 results1 0 60 (Some ids1) (MkEnv 5 6 260) (filled 100000)
    Hrun Hres Hins) as [Hhit Hmiss].
  split.
  - specialize (Hhit 7 0). destruct (LookupWithTtl key1 0 7 (filled 100000)). apply Hhit; [vm_compute; reflexivity|left; lia].
  - specialize (Hmiss (6 + 60 * 10 ^ 9) 0). destruct (LookupWithTtl key1 0 _ (filled 100000)). apply Hmiss. vm_compute. congruence.
Defined.

Lemma invalidate_by_item_exact_witness :
  (InvalidateByItemId "b" (filled 100000)).2 = 1%nat ∧
  ∀ key, ¬ tracks (InvalidateByItemId "b" (filled 100000)).1 key "b".
Proof.
  split; [vm_compute; reflexivity|].
  pose proof (invalidate_by_item_exact (filled 100000) [] "b" filled_run) as H.
  destruct (InvalidateByItemId "b" (filled 100000)). apply H.
Defined.

Lemma evict_for_space_terminates_witness :
  is_Some (EvictForSpace 100000 (filled 100000)).
Proof.
  destruct (proj1 (evict_for_space_terminates (filled 100000) [] filled_run) 100000) as (c & n & room & H & _).
  rewrite H. eexists. reflexivity.
Defined.
End Examples.
