(* ===== verification/QueryResults.v ===== *)
(** * Results of queries: filtering and rendering

    src/server/similarity_result_utils.h, score_format.h and the debug block of
    src/server/handlers/debug_handler.cpp. *)

From S2P Require Import Prelude StringLib Floats Metadata SimilarityResult.
#[local] Open Scope Z_scope.

(** ** Filtering *)

(** [item.score >= min_score] *)
Definition ApplyMinScore (results : list SimilarityResult) (min_score : Z) : list (string * Z) :=
  (λ r, (item_id r, score r)) <$>
    filter (λ r, SFleb (f32 min_score) (f32 (score r)) = true) results.

Definition ApplyMetadataFilter (results : list SimilarityResult) (metadata_store : option MetadataStore)
    (f : MetadataFilter) : list SimilarityResult :=
  match metadata_store with
  | Some s => if FilterEmpty f then results else filter (λ r, Matches (item_id r) f s = true) results
  | None => results
  end.

Definition kEventsFilterOversampling : Z := 3.

(** At most [top_k] matches; no bound when it is not positive. *)
Fixpoint take_matching (matches : SimilarityResult → bool) (top_k : Z) (taken : Z) (results : list SimilarityResult)
    : list SimilarityResult :=
  match results with
  | [] => []
  | r :: rest =>
    if matches r then
      r :: (if (0 <? top_k) && (top_k <=? i32 (taken + 1)) then [] else take_matching matches top_k (taken + 1) rest)
    else take_matching matches top_k taken rest
  end.

Definition ApplyEventsFilterTopK (results : list SimilarityResult) (metadata_store : option MetadataStore)
    (f : MetadataFilter) (top_k : Z) : list SimilarityResult :=
  take_matching (λ r, FilterEmpty f || match metadata_store with None => true | Some s => Matches (item_id r) f s end)
    top_k 0 results.

(** ** Rendering *)

Definition kScorePrecision : Z := 4.

(** The integer nearest to [m / d], ties to even. *)
Definition round_half_even (m d : Z) : Z :=
  let q := m / d in
  let r := m mod d in
  if 2 * r <? d then q else if d <? 2 * r then q + 1 else if Z.even q then q else q + 1.

Definition sign_text (negative : bool) : string := if negative then "-" else "".

(** The last four digits, zero-padded. *)
Definition four_digits (n : Z) : string :=
  pretty (n / 1000 mod 10) +:+ pretty (n / 100 mod 10) +:+ pretty (n / 10 mod 10) +:+ pretty (n mod 10).

(** [snprintf("%.4f")]: the exact value rounded to four decimals. *)
Definition print_fixed (score : Z) : string :=
  match f32 score with
  | S754_zero s => sign_text s +:+ "0.0000"
  | S754_infinity s => sign_text s +:+ "inf"
  | S754_nan => sign_text (Z.testbit score 31) +:+ "nan"
  | S754_finite s m e =>
    let n := if 0 <=? e then Zpos m * 2 ^ e * 10 ^ kScorePrecision
             else round_half_even (Zpos m * 10 ^ kScorePrecision) (2 ^ (- e)) in
    sign_text s +:+ pretty (n / 10 ^ kScorePrecision) +:+ "." +:+ four_digits n
  end.

(** The buffer keeps 31 characters. *)
Definition FormatScore (score : Z) : string := StringLib.str_take 31 (print_fixed score).

Definition CRLF : string := String (Ascii.ascii_of_nat 13) (String (Ascii.ascii_of_nat 10) "").

Definition result_line (p : string * Z) : string := p.1 +:+ " " +:+ FormatScore p.2 +:+ CRLF.

Definition FormatSimResults (results : list (string * Z)) (count : Z) : string :=
  "OK RESULTS " +:+ pretty count +:+ CRLF +:+ foldr (λ p s, result_line p +:+ s) "" results.

Definition FormatSimDebugBlock (mode : string) (query_time_us candidate_count result_count : Z) : string :=
  "# DEBUG 4" +:+ CRLF +:+ "mode: " +:+ mode +:+ CRLF +:+
  "query_time_us: " +:+ pretty query_time_us +:+ CRLF +:+
  "candidates: " +:+ pretty candidate_count +:+ CRLF +:+
  "results: " +:+ pretty result_count +:+ CRLF.

Example scores :
  FormatScore 0x3F800000 = "1.0000" ∧ FormatScore 0x3DCCCCCD = "0.1000" ∧
  FormatScore 0xBF000000 = "-0.5000" ∧ FormatScore 0x38D1B717 = "0.0001" ∧
  FormatScore 0x7F7FFFFF = "3402823466385288598117041834845".
Proof. vm_compute. auto. Qed.

(** ** What the filters keep *)

Definition events_match (metadata_store : option MetadataStore) (f : MetadataFilter) (r : SimilarityResult) : bool :=
  FilterEmpty f || match metadata_store with None => true | Some s => Matches (item_id r) f s end.

Lemma take_matching_spec matches k results : ∀ taken,
  0 ≤ taken < k → k < 2 ^ 31 →
  take_matching matches k taken results = take (Z.to_nat (k - taken)) (filter (λ r, matches r = true) results).
Proof.
  induction results as [|r results IH]; intros taken Ht Hk; cbn [take_matching]; [by destruct (Z.to_nat _)|].
  destruct (matches r) eqn:Hm; [rewrite filter_cons_True by done|rewrite filter_cons_False by congruence; by apply IH].
  replace (Z.to_nat (k - taken)) with (S (Z.to_nat (k - (taken + 1)))) by lia. cbn [take]. f_equal.
  rewrite (proj2 (Z.ltb_lt 0 k)) by lia. cbn [andb]. unfold i32, sint.
  rewrite (wrap_small 32) by (unfold in_u; lia). rewrite (proj2 (Z.ltb_lt _ _)) by lia.
  destruct (Z.leb_spec k (taken + 1)) as [Hle|Hlt]; [|by apply IH; lia].
  by replace (Z.to_nat (k - (taken + 1))) with 0%nat by lia.
Qed.

Lemma take_matching_all matches k results : ∀ taken,
  k ≤ 0 → take_matching matches k taken results = filter (λ r, matches r = true) results.
Proof.
  intros taken Hk. revert taken. induction results as [|r results IH]; intros taken; cbn [take_matching]; [done|].
  destruct (matches r) eqn:Hm; [rewrite filter_cons_True by done|rewrite filter_cons_False by congruence; by apply IH].
  rewrite (proj2 (Z.ltb_ge 0 k)) by lia. cbn [andb]. by rewrite IH.
Qed.

(** The rounding of the printed score. *)
Lemma round_half_even_near m d : 0 < d → Z.abs (2 * (round_half_even m d * d - m)) ≤ d.
Proof.
  intros Hd. unfold round_half_even. pose proof (Z.div_mod m d ltac:(lia)) as Hm.
  pose proof (Z.mod_pos_bound m d Hd) as Hr.
  destruct (Z.ltb_spec (2 * (m mod d)) d); [lia|]. destruct (Z.ltb_spec d (2 * (m mod d))); [lia|].
  destruct (Z.even (m / d)); lia.
Qed.

(** The results of a filtered events query are the first [top_k] of the
    matching candidates in their order (all of them when [top_k] is not
    positive), whatever the number of candidates. *)
Lemma events_filter_topk_spec results ms f k :
  k < 2 ^ 31 →
  ApplyEventsFilterTopK results ms f k =
    (if 0 <? k then take (Z.to_nat k) else λ l, l) (filter (λ r, events_match ms f r = true) results).
Proof.
  intros Hk. unfold ApplyEventsFilterTopK. fold (events_match ms f).
  destruct (Z.ltb_spec 0 k) as [Hpos|Hneg].
  - rewrite take_matching_spec by lia. by rewrite Z.sub_0_r.
  - by rewrite take_matching_all.
Qed.

Lemma events_filter_topk_spec_witness :
  ApplyEventsFilterTopK [MkResult "a" 3; MkResult "b" 2; MkResult "c" 1] None [] 2 = [MkResult "a" 3; MkResult "b" 2].
Proof. rewrite (events_filter_topk_spec [MkResult "a" 3; MkResult "b" 2; MkResult "c" 1] None [] 2 eq_refl). reflexivity. Defined.
