(* ===== verification/Dispatcher.v ===== *)
(** * [server::RequestDispatcher] (src/server/request_dispatcher.cpp)

    The write handlers, which log a command before they apply it, the replay of
    logged records, the query handlers with the result cache, and the gates of
    [Dispatch].  Every request runs under the gates of the code, so a request is
    one step on the shared [HandlerContext].

    The command parser, the similarity engine, the log and the administrative
    handlers are reached through classes; the log is the one of [Wal] in
    [CrashRecovery].  Clock readings are arguments. *)

From S2P Require Import Prelude RingBuffer Lru DedupCache StateCache EventStore Floats CoOccurrence Wal Metadata FilterParser.
From S2P Require Import Command WalCodec Distance VectorStore SimilarityResult ResultCompressor Md5 CacheKeys SimilarityCache QueryResults.
Import EventStore(EventType, ADD, SET, DEL, Event, Clock, mono, wall, PreparedEvent, p_deduped, p_event, IngestResult).
Import Command Wal(WalOpType, WalRecord, MkRecord, kCoOccurrenceMaintenance).
Import Metadata(MetadataFilter, MetadataStore).
Import SimilarityResult(SimilarityResult).
#[local] Open Scope Z_scope.

(** ** The shared state *)

(** What the dispatcher reads of [config::Config]. *)
Record ServerConfig : Type := MkServerConfig {
  max_top_k : Z;
  include_vectors : bool;
  ingest_options : CoOccurrence.IngestOptions
}.

Record Stores : Type := MkStores {
  event_store : option EventStore.EventStore;
  co_index : option CoOccurrence.CoOccurrenceIndex;
  vector_store : option VectorStore.VectorStore;
  metadata_store : option MetadataStore
}.

Record Generations : Type := MkGens {
  vector_generation : Z;
  metadata_generation : Z;
  dataset_generation : Z
}.

(** The counters of [ServerStats] that requests change. *)
Inductive StatCounter : Type :=
| total_commands | failed_commands | event_commands | sim_commands | vecset_commands
| info_commands | config_commands | dump_commands | cache_commands.

#[export] Instance StatCounter_eq_dec : EqDecision StatCounter.
Proof. solve_decision. Defined.

(** The flags of the server and its counters. *)
Record Flags : Type := MkFlags { loading : bool; read_only : bool; stats : StatCounter → Z }.

Record ConnectionContext : Type := MkConn { debug_mode : bool; authenticated : bool }.

(** Null pointers are [None].  [E]: the similarity engine; [W]: the log. *)
Record HandlerContext {E W : Type} : Type := MkCtx {
  stores : Stores;
  similarity_engine : option E;
  cache : option SimilarityCache.SimilarityCache;
  generations : Generations;
  flags : Flags;
  wal : option W;
  config : option ServerConfig;
  requirepass : string
}.
Arguments HandlerContext : clear implicits.
Arguments MkCtx {E W}.

(** ** Interfaces *)

Class Engine (E : Type) : Type := {
  NotifyVectorAdded : nat → VectorStore.VectorStore → E → E;   (* the row, in the store as it is then *)
  NotifyVectorRemoved : nat → E → E;
  RebuildAnnFromStore : VectorStore.VectorStore → E → E;
  SearchByIdEvents : Stores → E → string → Z → MetadataFilter → Expected (list SimilarityResult);
  SearchByIdVectors : Stores → E → string → Z → MetadataFilter → Expected (list SimilarityResult);
  SearchByIdFusion : Stores → E → string → Z → option bool → MetadataFilter → Expected (list SimilarityResult);
  SearchByVector : Stores → E → list Z → Z → MetadataFilter → Expected (list SimilarityResult)
}.

(** What the dispatcher relies on of a write-ahead log: an acknowledged append
    adds exactly its record. [log_room] is the space for one more segment. *)
Class AppendLog (W : Type) : Type := {
  log_append : WalOpType → list byte → Z → W → Expected Z * W;
  log_records : W → list WalRecord → Prop;
  log_room : W → Prop;
  log_append_ok : ∀ w rs op payload now seq w',
    log_records w rs → log_room w → Wal.op_of_byte (Wal.op_byte op) = op →
    log_append op payload now w = (Ok seq, w') → log_records w' (rs ++ [MkRecord seq (u64 now) op payload])
}.

Class CommandSyntax : Type := { ParseCommand : string → Z → Expected Command }.

(** The administrative commands: INFO, CONFIG, DUMP, SET, GET, SHOW VARIABLES,
    CACHE. *)
Class AdminHandlers (E W : Type) : Type := {
  handle_admin : Command → HandlerContext E W → Expected string * HandlerContext E W
}.

(** The readings one command makes: the clocks of the event store while
    preparing and while applying, the wall clock of the log. *)
Record Readings : Type := MkReadings { at_prepare : Clock; at_apply : Clock; at_append : Z }.

Section dispatcher.
Context {E W : Type}.
Abbreviation Ctx := (HandlerContext E W).

Definition with_stores (f : Stores → Stores) (c : Ctx) : Ctx :=
  MkCtx (f (stores c)) (similarity_engine c) (cache c) (generations c) (flags c) (wal c) (config c) (requirepass c).
Definition with_engine (f : E → E) (c : Ctx) : Ctx :=
  MkCtx (stores c) (f <$> similarity_engine c) (cache c) (generations c) (flags c) (wal c) (config c) (requirepass c).
Definition with_cache (f : SimilarityCache.SimilarityCache → SimilarityCache.SimilarityCache) (c : Ctx) : Ctx :=
  MkCtx (stores c) (similarity_engine c) (f <$> cache c) (generations c) (flags c) (wal c) (config c) (requirepass c).
Definition with_generations (f : Generations → Generations) (c : Ctx) : Ctx :=
  MkCtx (stores c) (similarity_engine c) (cache c) (f (generations c)) (flags c) (wal c) (config c) (requirepass c).
Definition with_flags (f : Flags → Flags) (c : Ctx) : Ctx :=
  MkCtx (stores c) (similarity_engine c) (cache c) (generations c) (f (flags c)) (wal c) (config c) (requirepass c).
Definition with_wal (w : option W) (c : Ctx) : Ctx :=
  MkCtx (stores c) (similarity_engine c) (cache c) (generations c) (flags c) w (config c) (requirepass c).

Definition set_event_store (es : EventStore.EventStore) (s : Stores) : Stores :=
  MkStores (Some es) (co_index s) (vector_store s) (metadata_store s).
Definition on_co_index (f : CoOccurrence.CoOccurrenceIndex → CoOccurrence.CoOccurrenceIndex) (s : Stores) : Stores :=
  MkStores (event_store s) (f <$> co_index s) (vector_store s) (metadata_store s).
Definition set_vector_store (vs : VectorStore.VectorStore) (s : Stores) : Stores :=
  MkStores (event_store s) (co_index s) (Some vs) (metadata_store s).
Definition on_metadata_store (f : MetadataStore → MetadataStore) (s : Stores) : Stores :=
  MkStores (event_store s) (co_index s) (vector_store s) (f <$> metadata_store s).

Definition set_read_only (f : Flags) : Flags := MkFlags (loading f) true (stats f).
Definition count (k : StatCounter) (f : Flags) : Flags :=
  MkFlags (loading f) (read_only f) (λ k', if decide (k' = k) then u64 (stats f k' + 1) else stats f k').

Definition bump_vector (g : Generations) : Generations :=
  MkGens (u64 (vector_generation g + 1)) (metadata_generation g) (dataset_generation g).
Definition bump_metadata (g : Generations) : Generations :=
  MkGens (vector_generation g) (u64 (metadata_generation g + 1)) (dataset_generation g).

(** ** Replies *)

Definition FormatOK (msg : string) : string :=
  if bool_decide (msg = "") then "OK" +:+ CRLF else "OK " +:+ msg +:+ CRLF.
Definition FormatError (msg : string) : string := "ERROR " +:+ msg +:+ CRLF.

(** ** Logging *)

Section logging.
Context {order : IterOrder} {log : AppendLog W}.

(** [VECSET] is not logged when the configuration leaves vectors out. *)
Definition skips_log (cmd : Command) (c : Ctx) : bool :=
  bool_decide (c_type cmd = kVecset) &&
  match config c with Some cfg => negb (include_vectors cfg) | None => false end.

Definition AppendToWal (now : Z) (cmd : Command) : SE Ctx unit := λ c,
  match wal c with
  | None => (Ok tt, c)
  | Some w =>
    if skips_log cmd c then (Ok tt, c)
    else
      match log_append (WalCodec.WalOpForCommand cmd) (WalCodec.EncodeCommand cmd) now w with
      | (Ok _, w) => (Ok tt, with_wal (Some w) c)
      | (Unexpected e, w) => (Unexpected e, with_flags set_read_only (with_wal (Some w) c))
      end
  end.
End logging.

(** ** Write commands *)

Section handlers.
Context {order : IterOrder} {log : AppendLog W} {engine : Engine E} {libm : Floats.Libm}
  {impl : Distance.DistanceFunctions} {libc : FilterParser.Strtod} {layout : SimilarityCache.Layout}.

Definition invalidate_item (id : string) : Ctx → Ctx :=
  with_cache (λ k, (SimilarityCache.InvalidateByItemId id k).1).

Definition AddEvent (clk : Clock) (cmd : Command) (score : Z) (ty : EventType) (ts : Z) (es : EventStore.EventStore)
    : Expected IngestResult * EventStore.EventStore :=
  EventStore.AddEventAndGetPrior clk (c_ctx cmd) (c_id cmd) score ty ts es.

Definition diverged (m : string) (c : Ctx) : Expected string * Ctx :=
  (throw kInternalError m, with_flags set_read_only c).

(** The command that is logged for an event: its fields resolved. *)
Definition wal_command (cmd : Command) (e : Event) : Command :=
  MkCommand (c_type cmd) (c_ctx cmd) (c_id cmd) (EventStore.score e) (EventStore.type e) (c_top_k cmd) (c_mode cmd)
    (Some (EventStore.ev_timestamp e)) (c_adaptive cmd) (c_filter_expr cmd) (c_metadata cmd) (c_min_score cmd)
    (c_dimension cmd) (c_vector cmd) (c_path cmd) (c_variable_name cmd) (c_variable_value cmd) (c_pattern cmd).

(** A dereferenced null configuration is undefined in the code: an index comes
    with a configuration. *)
Definition ingest (r : IngestResult) (c : Ctx) : Ctx :=
  match config c with
  | Some cfg =>
    with_stores (on_co_index
      (CoOccurrence.ApplyIngestedEvent (EventStore.prior_events r) (EventStore.stored_event r) (ingest_options cfg))) c
  | None => c
  end.

(** The part of [HandleEvent] after the log has taken the event. *)
Definition ApplyEvent (clk : Clock) (cmd : Command) (e : Event) (es : EventStore.EventStore) : SE Ctx string := λ c,
  let '(result, es) := AddEvent clk cmd (EventStore.score e) (EventStore.type e) (EventStore.ev_timestamp e) es in
  let c := with_stores (set_event_store es) c in
  match result with
  | Ok r =>
    if EventStore.deduped r then diverged "Event apply diverged after WAL acceptance" c
    else (Ok (FormatOK "EVENT"), invalidate_item (c_id cmd) (ingest r c))
  | Unexpected _ => diverged "Event apply diverged after WAL acceptance" c
  end.

Definition HandleEvent (at_ : Readings) (cmd : Command) : SE Ctx string := λ c,
  match event_store (stores c) with
  | None => (throw kInternalError "EventStore not initialized", c)
  | Some es =>
    match EventStore.PrepareEvent (at_prepare at_) (c_ctx cmd) (c_id cmd) (c_score cmd) (c_event_type cmd)
            (default 0 (c_timestamp cmd)) es with
    | Unexpected e => (Unexpected e, c)
    | Ok p =>
      if p_deduped p then
        let '(duplicate, es) :=
          AddEvent (at_apply at_) cmd (c_score cmd) (c_event_type cmd) (EventStore.ev_timestamp (p_event p)) es in
        let c := with_stores (set_event_store es) c in
        match duplicate with
        | Ok r => if EventStore.deduped r then (Ok (FormatOK "EVENT"), c)
                  else diverged "Event dedup state changed during acceptance" c
        | Unexpected _ => diverged "Event dedup state changed during acceptance" c
        end
      else
        (AppendToWal (at_append at_) (wal_command cmd (p_event p)) ;! ApplyEvent (at_apply at_) cmd (p_event p) es) c
    end
  end.

(** The vector's row, looked up under one read lock.  The copy of the row that
    the code passes along is not used: the engine reads the store itself. *)
Definition notify_added (id : string) (c : Ctx) : Ctx :=
  match vector_store (stores c) with
  | None => c
  | Some vs =>
    if bool_decide (VectorStore.matrix_ vs = []) || (VectorStore.GetCompactCount vs =? 0)%nat then c
    else match VectorStore.GetCompactIndex id vs with
         | None => c
         | Some idx => with_engine (NotifyVectorAdded idx vs) c
         end
  end.

(** [HandleVecset] after the log has taken the command. *)
Definition ApplyVecset (cmd : Command) (vs : VectorStore.VectorStore) : SE Ctx string := λ c,
  match VectorStore.SetVector (c_id cmd) (c_vector cmd) false vs with
  | (Unexpected e, vs) => (Unexpected e, with_flags set_read_only (with_stores (set_vector_store vs) c))
  | (Ok _, vs) =>
    let c := with_stores (set_vector_store vs) c in
    let c := match c_metadata cmd with
             | Some meta => with_stores (on_metadata_store (Metadata.MetaSet (c_id cmd) meta)) c
             | None => c end in
    let c := with_generations bump_vector (notify_added (c_id cmd) c) in
    let c := if bool_decide (is_Some (c_metadata cmd)) then with_generations bump_metadata c else c in
    let c := invalidate_item (c_id cmd) c in
    let c := if bool_decide (is_Some (c_metadata cmd)) then with_cache SimilarityCache.Clear c else c in
    (Ok (FormatOK "VECSET"), c)
  end.

Definition HandleVecset (at_ : Readings) (cmd : Command) : SE Ctx string := λ c,
  match vector_store (stores c) with
  | None => (throw kInternalError "VectorStore not initialized", c)
  | Some vs =>
    match VectorStore.ValidateVector vs (c_id cmd) (c_vector cmd) with
    | Unexpected e => (Unexpected e, c)
    | Ok _ => (AppendToWal (at_append at_) cmd ;! ApplyVecset cmd vs) c
    end
  end.

(** [HandleVecdel] after the log has taken the command. *)
Definition ApplyVecdel (cmd : Command) (compact_index : nat) (vs : VectorStore.VectorStore) : SE Ctx string := λ c,
  let '(found, vs) := VectorStore.DeleteVector (c_id cmd) vs in
  if negb found then
    (throw kVectorNotFound ("Vector not found: " +:+ c_id cmd),
     with_flags set_read_only (with_stores (set_vector_store vs) c))
  else
    let vs := VectorStore.Defragment vs in
    let c := with_stores (set_vector_store vs) c in
    let c := with_stores (on_metadata_store (Metadata.MetaDelete (c_id cmd))) c in
    let c := with_engine (λ e, RebuildAnnFromStore vs (NotifyVectorRemoved compact_index e)) c in
    let c := with_generations (λ g, bump_metadata (bump_vector g)) c in
    (Ok (FormatOK "VECDEL"), invalidate_item (c_id cmd) c).

Definition HandleVecdel (at_ : Readings) (cmd : Command) : SE Ctx string := λ c,
  match vector_store (stores c) with
  | None => (throw kInternalError "VectorStore not initialized", c)
  | Some vs =>
    match VectorStore.GetCompactIndex (c_id cmd) vs with
    | None => (throw kVectorNotFound ("Vector not found: " +:+ c_id cmd), c)
    | Some idx => (AppendToWal (at_append at_) cmd ;! ApplyVecdel cmd idx vs) c
    end
  end.

(** The metadata a [METASET] sets: typed, or the conditions of a filter text
    read as assignments, whatever their operator. *)
Fixpoint assign_conditions (cs : MetadataFilter) (meta : Metadata.Metadata) : Expected Metadata.Metadata :=
  match cs with
  | [] => Ok meta
  | cond :: cs =>
    if bool_decide (Metadata.field cond = "") then throw kCommandInvalidArgument "Metadata key must not be empty"
    else assign_conditions cs (<[Metadata.field cond := Metadata.value cond]> meta)
  end.

Definition metaset_value (cmd : Command) : Expected Metadata.Metadata :=
  match c_metadata cmd with
  | Some meta => Ok meta
  | None => let? parsed := FilterParser.ParseSimpleFilter (c_filter_expr cmd) in assign_conditions parsed ∅
  end.

Definition ApplyMetaset (cmd : Command) (meta : Metadata.Metadata) : SE Ctx string := λ c,
  let c := with_stores (on_metadata_store (Metadata.MetaSet (c_id cmd) meta)) c in
  let c := with_generations bump_metadata c in
  (Ok (FormatOK "METASET"), with_cache SimilarityCache.Clear c).

Definition HandleMetaset (at_ : Readings) (cmd : Command) : SE Ctx string := λ c,
  match vector_store (stores c), metadata_store (stores c) with
  | None, _ => (throw kInternalError "VectorStore not initialized", c)
  | _, None => (throw kInternalError "MetadataStore not initialized", c)
  | Some vs, Some _ =>
    match VectorStore.GetCompactIndex (c_id cmd) vs with
    | None => (throw kVectorNotFound ("Vector not found for metadata: " +:+ c_id cmd), c)
    | Some _ =>
      match metaset_value cmd with
      | Unexpected e => (Unexpected e, c)
      | Ok meta => (AppendToWal (at_append at_) cmd ;! ApplyMetaset cmd meta) c
      end
    end
  end.

(** ** Background maintenance (the callback NvecdServer gives DecayScheduler) *)

Definition maintenance_payload (alpha : Z) (prune : bool) : list byte :=
  le_bytes 8 alpha ++ [byte_of_Z (Z.b2z prune)].

Definition decay_and_prune (alpha : Z) (prune : bool) (i : CoOccurrence.CoOccurrenceIndex)
    : CoOccurrence.CoOccurrenceIndex :=
  let i := CoOccurrence.ApplyDecay alpha i in if prune then CoOccurrence.Prune i else i.

(** [persist]: the snapshot written when there is no log. *)
Definition Maintenance (now : Z) (persist : Stores → Expected unit) (alpha : Z) (prune : bool) : SE Ctx unit := λ c,
  if read_only (flags c) then (throw kEventDecayFailed "Server is read-only; decay maintenance skipped", c)
  else
    match wal c with
    | Some w =>
      match log_append kCoOccurrenceMaintenance (maintenance_payload alpha prune) now w with
      | (Unexpected e, w) => (Unexpected e, with_flags set_read_only (with_wal (Some w) c))
      | (Ok _, w) => (Ok tt, with_stores (on_co_index (decay_and_prune alpha prune)) (with_wal (Some w) c))
      end
    | None =>
      let c := with_stores (on_co_index (decay_and_prune alpha prune)) c in
      match persist (stores c) with
      | Unexpected e => (Unexpected e, with_flags set_read_only c)
      | Ok _ => (Ok tt, c)
      end
    end.

(** ** Replay *)

Definition ReplayMaintenance (payload : list byte) : SE Ctx unit := λ c,
  if negb (length payload =? 9)%nat then
    (throw kWalCorrupted "Invalid co-occurrence maintenance WAL payload size", c)
  else
    let alpha := le_value (take 8 payload) in
    let prune := le_value (drop 8 payload) in
    if negb (Floats.is_finite64 alpha) || Floats.f64_leb alpha 0 || Floats.f64_ltb Floats.f64_one alpha || (1 <? prune)
    then (throw kWalCorrupted "Invalid co-occurrence maintenance WAL payload", c)
    else (Ok tt, with_stores (on_co_index (decay_and_prune alpha (negb (prune =? 0)))) c).

(** The write handler of a command. *)
Definition HandleWrite (at_ : Readings) (cmd : Command) : SE Ctx string :=
  match c_type cmd with
  | kEvent => HandleEvent at_ cmd
  | kVecset => HandleVecset at_ cmd
  | kVecdel => HandleVecdel at_ cmd
  | kMetaset => HandleMetaset at_ cmd
  | _ => se_throw kCommandUnknown "Unsupported WAL command"
  end.

Definition ReplayRecord (at_ : Readings) (record : WalRecord) : SE Ctx unit :=
  match Wal.op record with
  | kCoOccurrenceMaintenance => ReplayMaintenance (Wal.payload record)
  | _ =>
    match WalCodec.DecodeWalRecord record with
    | Unexpected e => λ c, (Unexpected e, c)
    | Ok cmd => let! _ := HandleWrite at_ cmd in se_ret tt
    end
  end.

(** ** Queries

    A query reads the cache, searches, and offers its results to the cache;
    other requests may run between the search and the offer. *)

Context {lz4 : ResultCompressor.Lz4}.

(** A search that missed: what it found and the identity it captured. *)
Record Pending : Type := MkPending {
  p_key : Md5.CacheKey;
  p_search_type : SimilarityCache.SearchType;
  p_cooccurrence_generation : Z;
  p_generations : Generations;
  p_cached : bool;                 (* the cache was enabled *)
  p_results : list SimilarityResult
}.

Inductive Begun : Type := Replied (reply : Expected string) | Searched (p : Pending).

Definition co_generation (c : Ctx) : Z :=
  match co_index (stores c) with Some i => CoOccurrence.generation_ i | None => 0 end.

Definition cache_on (c : Ctx) : bool :=
  match cache c with
  | Some k => SimilarityCache.cache_enabled (SimilarityCache.settings k)
  | None => false
  end.

Definition respond (debug : bool) (mode : string) (min_score query_time_us : Z) (results : list SimilarityResult) : string :=
  let pairs := ApplyMinScore results min_score in
  let n := Z.of_nat (length pairs) in
  FormatSimResults pairs n +:+
  (if debug then FormatSimDebugBlock mode query_time_us (Z.of_nat (length results)) n else "").

(** The filter and the type under which a query is cached. *)
Definition query_filter (cmd : Command) (plain : SimilarityCache.SearchType)
    : Expected (MetadataFilter * SimilarityCache.SearchType) :=
  if bool_decide (c_filter_expr cmd = "") then Ok ([], plain)
  else let? f := FilterParser.ParseSimpleFilter (c_filter_expr cmd) in Ok (f, SimilarityCache.kFilteredSearch).

(** Look the key up when the cache is enabled. *)
Definition lookup_cached (key : Md5.CacheKey) (t : SimilarityCache.SearchType) (now : Z) (c : Ctx)
    : Ctx * option (list SimilarityResult) :=
  match cache c with
  | Some k =>
    if SimilarityCache.cache_enabled (SimilarityCache.settings k) then
      let '(k, cached) := SimilarityCache.LookupType key t now k in (with_cache (λ _, k) c, cached)
    else (c, None)
  | None => (c, None)
  end.

(** The search of a [SIM] by its mode. *)
Definition search_by_id (cmd : Command) (f : MetadataFilter) (c : Ctx) (e : E) : Expected (list SimilarityResult) :=
  let? results :=
    (if bool_decide (c_mode cmd = "events") then SearchByIdEvents (stores c) e (c_id cmd) (c_top_k cmd) f
     else if bool_decide (c_mode cmd = "vectors") then SearchByIdVectors (stores c) e (c_id cmd) (c_top_k cmd) f
     else SearchByIdFusion (stores c) e (c_id cmd) (c_top_k cmd) (c_adaptive cmd) f) in
  Ok (if bool_decide (c_mode cmd = "events") then results
      else ApplyMetadataFilter results (metadata_store (stores c)) f).

Definition sim_key (junk : list byte) (cmd : Command) (c : Ctx) : Md5.CacheKey :=
  CacheKeys.GenerateSimCacheKey junk
    (CacheKeys.MkSimKey (c_id cmd) (c_top_k cmd) (c_mode cmd) (c_adaptive cmd) (Z.to_N (co_generation c))
       (Z.to_N (vector_generation (generations c))) (c_filter_expr cmd) (Z.to_N (metadata_generation (generations c)))
       (Z.to_N (dataset_generation (generations c)))).

Definition simv_key (junk : list byte) (cmd : Command) (c : Ctx) : Md5.CacheKey :=
  CacheKeys.GenerateSimvCacheKey junk
    (CacheKeys.MkSimvKey (c_vector cmd) (c_top_k cmd) (Z.to_N (vector_generation (generations c)))
       (c_filter_expr cmd) (Z.to_N (metadata_generation (generations c)))
       (Z.to_N (dataset_generation (generations c)))).

(** Both queries up to their search. *)
Definition BeginQuery (plain : SimilarityCache.SearchType) (mode : string) (key : Md5.CacheKey)
    (search : MetadataFilter → Ctx → E → Expected (list SimilarityResult)) (now : Z) (debug : bool) (cmd : Command)
    (c : Ctx) : Begun * Ctx :=
  match similarity_engine c with
  | None => (Replied (throw kInternalError "SimilarityEngine not initialized"), c)
  | Some e =>
    match query_filter cmd plain with
    | Unexpected err => (Replied (Unexpected err), c)
    | Ok (f, t) =>
      let enabled := cache_on c in
      let '(c, cached) := lookup_cached key t now c in
      match cached with
      | Some results => (Replied (Ok (respond debug mode (c_min_score cmd) 0 results)), c)
      | None =>
        match search f c e with
        | Unexpected err => (Replied (Unexpected err), c)
        | Ok results => (Searched (MkPending key t (co_generation c) (generations c) enabled results), c)
        end
      end
    end
  end.

Definition BeginSim (junk : list byte) (now : Z) (debug : bool) (cmd : Command) (c : Ctx) : Begun * Ctx :=
  BeginQuery SimilarityCache.kItemSearch (c_mode cmd) (sim_key junk cmd c) (search_by_id cmd) now debug cmd c.

Definition BeginSimv (junk : list byte) (now : Z) (debug : bool) (cmd : Command) (c : Ctx) : Begun * Ctx :=
  BeginQuery SimilarityCache.kVectorSearch "vector" (simv_key junk cmd c)
    (λ f c e, let? results := SearchByVector (stores c) e (c_vector cmd) (c_top_k cmd) f in
              Ok (ApplyMetadataFilter results (metadata_store (stores c)) f)) now debug cmd c.

#[export] Instance Generations_eq_dec : EqDecision Generations.
Proof. solve_decision. Defined.

(** Offer the results to the cache, if the captured generations still hold.
    [item_ids]: the ids the entry is registered under. [same_cache]: the
    published cache is still the one that was looked up. *)
Definition FinishQuery (same_cache with_co : bool) (cost : Z) (env : SimilarityCache.InsertEnv)
    (item_ids : list string) (p : Pending) (c : Ctx) : Ctx :=
  match cache c with
  | Some k =>
    if p_cached p && same_cache && SimilarityCache.cache_enabled (SimilarityCache.settings k) &&
       (negb with_co || (p_cooccurrence_generation p =? co_generation c)) &&
       bool_decide (p_generations p = generations c)
    then with_cache (λ _, match SimilarityCache.InsertAndRegister (p_key p) (p_results p) item_ids cost (p_search_type p) env k with
                          | Some (k, _) => k | None => k end) c
    else c
  | None => c
  end.

(** What a query reads: the clock at the lookup, the measured time (as
    milliseconds in a [double] and as whole microseconds), the clocks of the
    insertion. *)
Record QueryReadings : Type := MkQueryReadings {
  q_now : Z; q_elapsed_ms : Z; q_elapsed_us : Z; q_env : SimilarityCache.InsertEnv
}.

Definition HandleSim (junk : list byte) (q : QueryReadings) (debug : bool) (cmd : Command) : SE Ctx string := λ c,
  match BeginSim junk (q_now q) debug cmd c with
  | (Replied r, c) => (r, c)
  | (Searched p, c) =>
    (Ok (respond debug (c_mode cmd) (c_min_score cmd) (q_elapsed_us q) (p_results p)),
     FinishQuery true true (q_elapsed_ms q) (q_env q) (c_id cmd :: (SimilarityResult.item_id <$> p_results p)) p c)
  end.

Definition HandleSimv (junk : list byte) (q : QueryReadings) (debug : bool) (cmd : Command) : SE Ctx string := λ c,
  match BeginSimv junk (q_now q) debug cmd c with
  | (Replied r, c) => (r, c)
  | (Searched p, c) =>
    (Ok (respond debug "vector" (c_min_score cmd) (q_elapsed_us q) (p_results p)),
     FinishQuery true false (q_elapsed_ms q) (q_env q) (SimilarityResult.item_id <$> p_results p) p c)
  end.

(** ** Dispatch *)

Context {syntax : CommandSyntax} {admin : AdminHandlers E W}.

Definition IsSnapshotProtectedWrite (type : CommandType) : bool :=
  match type with kEvent | kVecset | kVecdel | kMetaset => true | _ => false end.
Definition IsSnapshotProtectedCommand (type : CommandType) : bool :=
  IsSnapshotProtectedWrite type || match type with kSim | kSimv => true | _ => false end.

(** [ConstantTimeEquals]: the differences of the bytes, shorter strings
    padded with zero, and of the lengths. *)
Fixpoint byte_difference (a b : string) : Z :=
  match a, b with
  | String x a, String y b =>
      Z.lor (Z.lxor (Z.of_N (Ascii.N_of_ascii x)) (Z.of_N (Ascii.N_of_ascii y))) (byte_difference a b)
  | String x a, EmptyString => Z.lor (Z.of_N (Ascii.N_of_ascii x)) (byte_difference a "")
  | EmptyString, String _ _ =>
      (fix rest b := match b with
                     | String y b => Z.lor (Z.of_N (Ascii.N_of_ascii y)) (rest b)
                     | EmptyString => 0 end) b
  | EmptyString, EmptyString => 0
  end.
Definition ConstantTimeEquals (left right : string) : bool :=
  Z.lor (Z.lxor (Z.of_nat (String.length left)) (Z.of_nat (String.length right))) (byte_difference left right) =? 0.

Definition HandleAuth (cmd : Command) (conn : ConnectionContext) (c : Ctx) : string * ConnectionContext * Ctx :=
  if bool_decide (requirepass c = "") then ("+OK (no password required)" +:+ CRLF, conn, c)
  else if ConstantTimeEquals (c_variable_value cmd) (requirepass c)
  then ("+OK" +:+ CRLF, MkConn (debug_mode conn) true, c)
  else (FormatError "ERR invalid password", conn, with_flags (count failed_commands) c).

(** What one request reads besides the state. *)
Record RequestReadings : Type := MkRequestReadings {
  r_write : Readings; r_query : QueryReadings; r_md5_buffer : list byte
}.

(** The counter of a command type. *)
Definition command_counter (type : CommandType) : option StatCounter :=
  match type with
  | kEvent => Some event_commands
  | kVecset => Some vecset_commands
  | kSim | kSimv => Some sim_commands
  | kInfo => Some info_commands
  | kConfigHelp | kConfigShow | kConfigVerify | kSet | kGet | kShowVariables => Some config_commands
  | kDumpSave | kDumpLoad | kDumpVerify | kDumpInfo | kDumpStatus => Some dump_commands
  | kCacheStats | kCacheClear | kCacheEnable | kCacheDisable => Some cache_commands
  | _ => None
  end.

(** The switch of [Dispatch]. *)
Definition Route (rd : RequestReadings) (cmd : Command) (conn : ConnectionContext) (c : Ctx)
    : Expected string * ConnectionContext * Ctx :=
  let c := match command_counter (c_type cmd) with Some k => with_flags (count k) c | None => c end in
  match c_type cmd with
  | kEvent | kVecset | kVecdel | kMetaset => let '(r, c) := HandleWrite (r_write rd) cmd c in (r, conn, c)
  | kSim => let '(r, c) := HandleSim (r_md5_buffer rd) (r_query rd) (debug_mode conn) cmd c in (r, conn, c)
  | kSimv => let '(r, c) := HandleSimv (r_md5_buffer rd) (r_query rd) (debug_mode conn) cmd c in (r, conn, c)
  | kDebugOn => (Ok ("OK DEBUG_ON" +:+ CRLF), MkConn true (authenticated conn), c)
  | kDebugOff => (Ok ("OK DEBUG_OFF" +:+ CRLF), MkConn false (authenticated conn), c)
  | kAuth => (throw kCommandUnknown "Unknown command type", conn, c)
  | kUnknown => (throw kCommandUnknown "Unknown command", conn, c)
  | _ => let '(r, c) := handle_admin cmd c in (r, conn, c)
  end.

(** The gates, in the order of the code: the reply that stops the command. *)
Definition Gate (cmd : Command) (conn : ConnectionContext) (c : Ctx) : option string :=
  let privilege := GetCommandPrivilege (c_type cmd) in
  if negb (bool_decide (requirepass c = "")) && negb (bool_decide (privilege = kRead)) && negb (authenticated conn)
  then Some (FormatError "NOAUTH Authentication required")
  else if IsSnapshotProtectedCommand (c_type cmd) && loading (flags c)
  then Some (FormatError "LOADING Snapshot load in progress")
  else if negb (bool_decide (privilege = kRead)) && read_only (flags c)
  then Some (FormatError "READONLY Snapshot in progress")
  else None.

(** A command past its gates.  The second reading of [loading] and [read_only]
    is under the snapshot gate: between the two readings a snapshot may have
    begun, so the state [c] is the one met there. *)
Definition DispatchGated (rd : RequestReadings) (cmd : Command) (conn : ConnectionContext) (c : Ctx)
    : string * ConnectionContext * Ctx :=
  if IsSnapshotProtectedCommand (c_type cmd) && loading (flags c)
  then (FormatError "LOADING Snapshot load in progress", conn, with_flags (count failed_commands) c)
  else if IsSnapshotProtectedWrite (c_type cmd) && read_only (flags c)
  then (FormatError "READONLY Snapshot in progress", conn, with_flags (count failed_commands) c)
  else
    let '(r, conn, c) := Route rd cmd conn c in
    let c := with_flags (count total_commands) c in
    match r with
    | Unexpected e => (FormatError (message e), conn, with_flags (count failed_commands) c)
    | Ok reply => (reply, conn, c)
    end.

Definition DispatchCommand (rd : RequestReadings) (cmd : Command) (conn : ConnectionContext) (c : Ctx)
    : string * ConnectionContext * Ctx :=
  if bool_decide (c_type cmd = kAuth) then HandleAuth cmd conn c
  else
    match Gate cmd conn c with
    | Some reply => (reply, conn, with_flags (count failed_commands) c)
    | None => DispatchGated rd cmd conn c
    end.

Definition Dispatch (rd : RequestReadings) (request : string) (conn : ConnectionContext) (c : Ctx)
    : string * ConnectionContext * Ctx :=
  match ParseCommand request (match config c with Some cfg => max_top_k cfg | None => 0 end) with
  | Unexpected e => (FormatError (message e), conn, c)
  | Ok cmd => DispatchCommand rd cmd conn c
  end.
End handlers.
End dispatcher.

(** ** The gates *)

Lemma byte_difference_nonneg a b : 0 ≤ byte_difference a b.
Proof.
  revert b. induction a as [|x a IH]; intros b.
  - induction b as [|y b IHb]; [done|]. cbn [byte_difference] in *.
    apply Z.lor_nonneg. split; [lia|]. by destruct b.
  - destruct b as [|y b]; cbn [byte_difference]; rewrite Z.lor_nonneg; (split; [|apply IH]).
    + lia.
    + apply Z.lxor_nonneg. lia.
Qed.

Lemma byte_difference_eq a : ∀ b,
  String.length a = String.length b → byte_difference a b = 0 → a = b.
Proof.
  induction a as [|x a IH]; intros [|y b]; cbn [String.length byte_difference]; intros Hl H; [done|lia|lia|].
  apply Z.lor_eq_0_iff in H as [Hx Hr]. f_equal; [|apply IH; [lia|done]].
  apply Z.lxor_eq, N2Z.inj in Hx. by rewrite <- (Ascii.ascii_N_embedding x), Hx, Ascii.ascii_N_embedding.
Qed.

Lemma byte_difference_refl a : byte_difference a a = 0.
Proof. induction a as [|x a IH]; cbn [byte_difference]; [done|]. by rewrite Z.lxor_nilpotent, IH. Qed.

(** The comparison is equality. *)
Lemma ConstantTimeEquals_spec a b : ConstantTimeEquals a b = bool_decide (a = b).
Proof.
  unfold ConstantTimeEquals. case_bool_decide as H.
  - subst. by rewrite Z.lxor_nilpotent, byte_difference_refl.
  - apply Z.eqb_neq. intros [Hl Hd]%Z.lor_eq_0_iff. apply H.
    apply Z.lxor_eq, Nat2Z.inj in Hl. by apply byte_difference_eq.
Qed.

Section gates.
Context {E W : Type} {order : IterOrder} {log : AppendLog W} {engine : Engine E} {libm : Floats.Libm}
  {impl : Distance.DistanceFunctions} {libc : FilterParser.Strtod} {layout : SimilarityCache.Layout}
  {lz4 : ResultCompressor.Lz4} {syntax : CommandSyntax} {admin : AdminHandlers E W}.
Implicit Types (c : HandlerContext E W) (cmd : Command).

(** What a request may leave behind for others, the cache and the flags apart. *)
Definition kept (c : HandlerContext E W) : Stores * option E * Generations * option W * option ServerConfig * string :=
  (stores c, similarity_engine c, generations c, wal c, config c, requirepass c).

(** A query changes the cache and nothing else. *)
Definition cache_only (c c' : HandlerContext E W) : Prop := ∃ f, c' = with_cache f c.

Lemma cache_only_refl c : cache_only c c.
Proof. exists (λ k, k). destruct c as [? ? [] ? ? ? ? ?]; done. Qed.

Lemma cache_only_trans c1 c2 c3 : cache_only c1 c2 → cache_only c2 c3 → cache_only c1 c3.
Proof.
  intros [f ->] [g ->]. exists (λ k, g (f k)). unfold with_cache. cbn. by destruct (cache c1).
Qed.

Lemma cache_only_with f c : cache_only c (with_cache f c).
Proof. by exists f. Qed.

Hint Resolve cache_only_refl cache_only_with : core.

Lemma BeginQuery_frame plain mode key search now debug cmd c :
  cache_only c (BeginQuery plain mode key search now debug cmd c).2.
Proof.
  unfold BeginQuery, lookup_cached. repeat case_match; simplify_eq/=; auto.
Qed.

Lemma FinishQuery_frame same with_co cost env ids p c :
  cache_only c (FinishQuery same with_co cost env ids p c).
Proof. unfold FinishQuery. repeat case_match; auto. Qed.

Lemma HandleSim_frame junk q debug cmd c : cache_only c (HandleSim junk q debug cmd c).2.
Proof.
  unfold HandleSim, BeginSim.
  match goal with |- context [BeginQuery ?a ?b ?k ?s ?n ?d cmd c] =>
    pose proof (BeginQuery_frame a b k s n d cmd c) as H; destruct (BeginQuery a b k s n d cmd c) as [[r|p] c'] end;
    cbn [snd] in *; [done|]. eapply cache_only_trans; [done|apply FinishQuery_frame].
Qed.

Lemma HandleSimv_frame junk q debug cmd c : cache_only c (HandleSimv junk q debug cmd c).2.
Proof.
  unfold HandleSimv, BeginSimv.
  match goal with |- context [BeginQuery ?a ?b ?k ?s ?n ?d cmd c] =>
    pose proof (BeginQuery_frame a b k s n d cmd c) as H; destruct (BeginQuery a b k s n d cmd c) as [[r|p] c'] end;
    cbn [snd] in *; [done|]. eapply cache_only_trans; [done|apply FinishQuery_frame].
Qed.

Lemma kept_cache_only c c' : cache_only c c' → kept c' = kept c.
Proof. by intros [f ->]. Qed.

Lemma cache_only_flags c c' : cache_only c c' → flags c' = flags c.
Proof. by intros [f ->]. Qed.

(** The commands that are not the dispatcher's own. *)
Definition is_admin (type : CommandType) : bool :=
  match type with
  | kEvent | kVecset | kVecdel | kMetaset | kSim | kSimv | kDebugOn | kDebugOff | kAuth | kUnknown => false
  | _ => true
  end.

(** A routed query, debug or unknown command. *)
Lemma Route_frame rd cmd conn c :
  IsSnapshotProtectedWrite (c_type cmd) = false → is_admin (c_type cmd) = false →
  kept (Route rd cmd conn c).2 = kept c ∧
  loading (flags (Route rd cmd conn c).2) = loading (flags c) ∧
  read_only (flags (Route rd cmd conn c).2) = read_only (flags c).
Proof.
  intros Hw Ha. unfold Route. destruct (c_type cmd); try done; cbn [command_counter].
  - match goal with |- context [HandleSim ?a ?b ?d ?e ?f] => pose proof (HandleSim_frame a b d e f) as H;
      destruct (HandleSim a b d e f) as [r c'] end. cbn [snd] in *.
    by rewrite (kept_cache_only _ _ H), (cache_only_flags _ _ H).
  - match goal with |- context [HandleSimv ?a ?b ?d ?e ?f] => pose proof (HandleSimv_frame a b d e f) as H;
      destruct (HandleSimv a b d e f) as [r c'] end. cbn [snd] in *.
    by rewrite (kept_cache_only _ _ H), (cache_only_flags _ _ H).
Qed.

Lemma Route_authenticated rd cmd conn c : authenticated (Route rd cmd conn c).1.2 = authenticated conn.
Proof. unfold Route. destruct (c_type cmd); repeat case_match; simplify_eq/=; done. Qed.

Lemma DispatchGated_authenticated rd cmd conn c :
  authenticated (DispatchGated rd cmd conn c).1.2 = authenticated conn.
Proof.
  unfold DispatchGated. do 2 (case_match; [done|]). pose proof (Route_authenticated rd cmd conn c) as Hr.
  destruct (Route rd cmd conn c) as [[r conn'] c']. by destruct r.
Qed.

(** Past the gates a routed command alone changes the kept state. *)
Lemma DispatchGated_kept rd cmd conn c :
  kept (DispatchGated rd cmd conn c).2 = kept c ∨ kept (DispatchGated rd cmd conn c).2 = kept (Route rd cmd conn c).2.
Proof.
  unfold DispatchGated. do 2 (case_match; [by left|]). right.
  destruct (Route rd cmd conn c) as [[r conn'] c']. by destruct r.
Qed.

Definition refused_reply (reply : string) : Prop :=
  reply = FormatError "NOAUTH Authentication required" ∨ reply = FormatError "LOADING Snapshot load in progress" ∨
  reply = FormatError "READONLY Snapshot in progress".

(** C7: the gates.  A connection becomes authenticated only by AUTH with exactly
    the required password.  The stores, the search index, the generations, the
    log and the configuration change only under a command that is no read, from
    a connection that is authenticated where a password is required, on a
    server that is not read-only and, for the snapshot-protected commands, not
    loading.  A non-read command stopped by a gate gets one of the gate replies,
    counts as failed and changes nothing else.  [admin_reads]: the
    administrative reads (INFO, CONFIG SHOW, GET, CACHE STATS) change nothing of
    this. *)
Theorem dispatch_gates rd cmd conn c :
  (∀ cmd c, GetCommandPrivilege (c_type cmd) = kRead → kept (handle_admin cmd c).2 = kept c) →
  let '(reply, conn', c') := DispatchCommand rd cmd conn c in
  (authenticated conn' = true →
     authenticated conn = true ∨ (c_type cmd = kAuth ∧ c_variable_value cmd = requirepass c ∧ requirepass c ≠ "")) ∧
  (kept c' ≠ kept c →
     GetCommandPrivilege (c_type cmd) ≠ kRead ∧ (requirepass c = "" ∨ authenticated conn = true) ∧
     read_only (flags c) = false ∧
     (IsSnapshotProtectedCommand (c_type cmd) = true → loading (flags c) = false)) ∧
  (GetCommandPrivilege (c_type cmd) ≠ kRead →
     (requirepass c ≠ "" ∧ authenticated conn = false ∨ read_only (flags c) = true ∨
      IsSnapshotProtectedCommand (c_type cmd) = true ∧ loading (flags c) = true) →
     refused_reply reply ∧ conn' = conn ∧ c' = with_flags (count failed_commands) c).
Proof.
  intros admin_reads. unfold DispatchCommand. case_bool_decide as Hauth.
  - unfold HandleAuth. rewrite Hauth, ConstantTimeEquals_spec. case_bool_decide as Hp.
    { split_and!; [auto|done|by intros []]. }
    case_bool_decide as Heq; (split_and!; [auto|done|by intros []]).
  - unfold Gate.
    destruct (decide (GetCommandPrivilege (c_type cmd) = kRead)) as [Hr|Hr].
    + rewrite (bool_decide_true (_ = kRead)) by done. rewrite andb_false_r. cbn [negb andb].
      assert (Hkept : kept (DispatchGated rd cmd conn c).2 = kept c).
      { destruct (DispatchGated_kept rd cmd conn c) as [?| ->]; [done|].
        assert (Hw : IsSnapshotProtectedWrite (c_type cmd) = false) by (by destruct (c_type cmd)).
        destruct (is_admin (c_type cmd)) eqn:Ha; [|by apply Route_frame].
        unfold Route. pose proof (admin_reads cmd) as Hadm.
        destruct (c_type cmd); try done; cbn [command_counter];
          match goal with |- context [handle_admin cmd ?c0] => specialize (Hadm c0 eq_refl);
            destruct (handle_admin cmd c0) as [r c'] end; exact Hadm. }
      destruct (IsSnapshotProtectedCommand (c_type cmd) && loading (flags c)); [split_and!; [auto|done|done]|]. cbn [andb].
      pose proof (DispatchGated_authenticated rd cmd conn c) as Ha.
      destruct (DispatchGated rd cmd conn c) as [[reply conn'] c']. cbn [fst snd] in *.
      rewrite Ha, Hkept. split_and!; [auto|done|done].
    + rewrite (bool_decide_false (_ = kRead)) by done. rewrite andb_true_r. cbn [negb].
      unfold refused_reply.
      destruct (negb (bool_decide (requirepass c = "")) && negb (authenticated conn)) eqn:E1.
      { split_and!; [auto|done|auto]. }
      destruct (IsSnapshotProtectedCommand (c_type cmd) && loading (flags c)) eqn:E2.
      { split_and!; [auto|done|auto]. }
      cbn [andb]. destruct (read_only (flags c)) eqn:E3; [split_and!; [auto|done|auto 6]|].
      assert (Hauthd : requirepass c = "" ∨ authenticated conn = true).
      { apply andb_false_iff in E1 as [E1|E1]; apply negb_false_iff in E1; [left|by right].
        by apply bool_decide_eq_true in E1. }
      apply andb_false_iff in E2.
      pose proof (DispatchGated_authenticated rd cmd conn c) as Ha.
      destruct (DispatchGated rd cmd conn c) as [[reply conn'] c']. cbn [fst snd] in *. rewrite Ha.
      split_and!; [auto| |].
      * intros _. split_and!; [done|done|done|]. intros Hs. destruct E2; congruence.
      * intros _ [[Hp Hn]|[?|[Hp Hl]]]; [destruct Hauthd; congruence|done|destruct E2; congruence].
Qed.
End gates.
