(* ===== verification/CommandParser.v ===== *)
(** * [server::ParseCommand] (src/server/command_parser.cpp)

    One request line to a [Command].  [std::stof] is a parameter; [std::stoi]
    and [std::stoull] are written out, with their leading blanks, signs and
    ranges.  [ParseVector], which nothing calls, is not modelled. *)

From Stdlib Require Import Strings.Ascii.
From S2P Require Import Prelude StringLib RingBuffer Lru DedupCache StateCache EventStore Floats Metadata FilterParser Wal.
From S2P Require Import Command WalCodec Distance VectorStore SimilarityResult ResultCompressor Md5 CacheKeys SimilarityCache QueryResults.
From S2P Require Import Dispatcher.
#[local] Open Scope Z_scope.

(** ** Characters and lines *)

Definition char (n : nat) : Ascii.ascii := Ascii.ascii_of_nat n.
Definition blank : Ascii.ascii := char 32.
Definition is_eol (c : Ascii.ascii) : bool := Ascii.eqb c (char 13) || Ascii.eqb c (char 10).
Definition is_separator (c : Ascii.ascii) : bool := Ascii.eqb c blank || Ascii.eqb c (char 9).

(** [str] without its longest suffix, resp. prefix, of characters in [P]. *)
Fixpoint drop_back (P : Ascii.ascii → bool) (str : string) : string :=
  match str with
  | "" => ""
  | String c s => match drop_back P s with "" => if P c then "" else String c "" | r => String c r end
  end.
Fixpoint drop_front (P : Ascii.ascii → bool) (str : string) : string :=
  match str with String c s => if P c then drop_front P s else str | "" => "" end.

Definition str_has (P : Ascii.ascii → bool) (str : string) : bool := negb (str_all (λ c, negb (P c)) str).

(** The non-empty pieces. *)
Definition Split (str : string) (delimiter : Ascii.ascii) : list string :=
  filter (λ t, t ≠ "") (split_on delimiter str).

Definition Trim (str : string) : string := drop_back FilterParser.isspace (drop_front FilterParser.isspace str).

Definition toupper (c : Ascii.ascii) : Ascii.ascii :=
  let n := Ascii.nat_of_ascii c in if (97 <=? n)%nat && (n <=? 122)%nat then Ascii.ascii_of_nat (n - 32) else c.
Fixpoint ToUpper (str : string) : string :=
  match str with "" => "" | String c s => String (toupper c) (ToUpper s) end.

(** [str.rfind(prefix, 0) == 0], and what follows. *)
Definition after_prefix (prefix str : string) : option string :=
  if String.prefix prefix str then Some (str_drop (String.length prefix) str) else None.

(** ** Numbers *)

(** The longest run of decimal digits: its value and what follows. *)
Fixpoint leading_digits (acc : Z) (str : string) : Z * string :=
  match str with
  | String c s => match FilterParser.digit_value c with Some d => leading_digits (10 * acc + d) s | None => (acc, str) end
  | "" => (acc, "")
  end.

(** The subject sequence of [strtol]: sign, magnitude and what follows; [None]
    without a digit. *)
Definition scan_integer (str : string) : option (bool * Z * string) :=
  let s := FilterParser.skip_space str in
  let '(negative, s) :=
    match s with
    | String c r => if Ascii.eqb c "-" then (true, r) else if Ascii.eqb c "+" then (false, r) else (false, s)
    | "" => (false, "")
    end in
  match s with
  | String c _ => if bool_decide (is_Some (FilterParser.digit_value c))
                  then let '(m, rest) := leading_digits 0 s in Some (negative, m, rest) else None
  | "" => None
  end.

(** [std::stoi], [std::stoull]: the value and what they did not consume; [None]
    when they throw. *)
Definition stoi (str : string) : option (Z * string) :=
  '(negative, m, rest) ← scan_integer str;
  let z := if (negative : bool) then - m else m in
  if bool_decide (in_s 32 z) then Some (z, rest) else None.
Definition stoull (str : string) : option (Z * string) :=
  '(negative, m, rest) ← scan_integer str;
  if m <=? u64_max then Some (if (negative : bool) then u64 (- m) else m, rest) else None.

(** [std::stof] likewise. *)
Class Stof : Type := {
  stof : string → option (Z * string);
  stof_range : ∀ s v rest, stof s = Some (v, rest) → in_u 32 v
}.

Definition ParseInt (str : string) : Expected Z :=
  match stoi str with
  | Some (z, rest) => if bool_decide (rest = "") then Ok z else throw kCommandInvalidArgument ("Invalid integer: " +:+ str)
  | None => throw kCommandInvalidArgument ("Failed to parse integer: " +:+ str)
  end.

Definition ParseEventScore (str : string) : Expected Z :=
  let? value := ParseInt str in
  if (value <? EventStore.kMinEventScore) || (EventStore.kMaxEventScore <? value)
  then throw kEventInvalidScore ("Score must be in range [0, 100], got " +:+ pretty value)
  else Ok value.

Definition ParseTopK (str : string) (max_top_k : Z) : Expected Z :=
  let? value := ParseInt str in
  if value <=? 0 then throw kCommandInvalidTopK ("top_k must be positive, got " +:+ pretty value)
  else if (0 <? max_top_k) && (max_top_k <? u32 value)
  then throw kCommandInvalidTopK ("top_k " +:+ pretty value +:+ " exceeds maximum allowed: " +:+ pretty max_top_k)
  else Ok value.

Definition ParseTimestamp (str : string) : Expected Z :=
  match after_prefix "timestamp=" str with
  | None => throw kCommandInvalidArgument ("Invalid option: " +:+ str +:+ " (expected timestamp=<value>)")
  | Some value_str =>
    match stoull value_str with
    | Some (z, rest) =>
        if bool_decide (rest = "") then Ok z else throw kCommandInvalidArgument ("Invalid timestamp value: " +:+ value_str)
    | None => throw kCommandInvalidArgument ("Failed to parse timestamp: " +:+ value_str)
    end
  end.

Section parser.
Context {libc : Stof}.

Definition ParseFloat (str : string) : Expected Z :=
  match stof str with
  | Some (v, rest) =>
      if negb (bool_decide (rest = "")) || negb (Floats.is_finite32 v)
      then throw kCommandInvalidArgument ("Invalid float: " +:+ str) else Ok v
  | None => throw kCommandInvalidArgument ("Failed to parse float: " +:+ str)
  end.

Fixpoint ParseFloats (tokens : list string) : Expected (list Z) :=
  match tokens with
  | [] => Ok []
  | t :: tokens => let? v := ParseFloat t in let? vs := ParseFloats tokens in Ok (v :: vs)
  end.
(** ** Commands *)

Definition syntax_error {A} (m : string) : Expected A := throw kCommandSyntaxError m.

(** The optional last argument of an event. *)
Definition event_timestamp (rest : list string) : Expected (option Z) :=
  match rest with
  | [] => Ok None
  | t :: _ => let? ts := ParseTimestamp t in Ok (Some ts)
  end.

(** [EVENT <ctx> ADD|SET <id> <score> [timestamp=<value>]] *)
Definition ParseScoredEvent (type_str : string) (ty : EventStore.EventType) (ctx : string) (args : list string) : Expected Command :=
  match args with
  | [id; score] | [id; score; _] =>
    let? v := ParseEventScore score in
    let? ts := event_timestamp (drop 2 args) in
    Ok (event_command ctx id v ty ts)
  | _ => syntax_error ("EVENT " +:+ type_str +:+ " requires 4-5 arguments: <ctx> " +:+ type_str +:+ " <id> <score> [timestamp=<value>]")
  end.

Definition ParseEvent (args : list string) : Expected Command :=
  match args with
  | ctx :: type :: id :: rest =>
    let type_str := ToUpper type in
    if bool_decide (type_str = "ADD") then ParseScoredEvent "ADD" EventStore.ADD ctx (id :: rest)
    else if bool_decide (type_str = "SET") then ParseScoredEvent "SET" EventStore.SET ctx (id :: rest)
    else if bool_decide (type_str = "DEL") then
      if (1 <? length rest)%nat then syntax_error "EVENT DEL requires 3-4 arguments: <ctx> DEL <id> [timestamp=<value>]"
      else let? ts := event_timestamp rest in Ok (event_command ctx id 0 EventStore.DEL ts)
    else syntax_error ("Invalid EVENT type: " +:+ type_str +:+ " (must be ADD, SET, or DEL)")
  | _ => syntax_error "EVENT requires at least 3 arguments: <ctx> <type> <id> [<score>]"
  end.

Definition ParseVecset (args : list string) : Expected Command :=
  match args with
  | id :: (_ :: _) as floats => let? vec := ParseFloats floats in Ok (vecset_command id (i32 (Z.of_nat (length vec))) vec None)
  | _ => syntax_error "VECSET requires at least 2 arguments: <id> <floats>"
  end.

Definition ParseVecdel (args : list string) : Expected Command :=
  match args with
  | [id] => Ok (vecdel_command id)
  | _ => syntax_error "VECDEL requires 1 argument: <id>"
  end.

Definition ParseMetaset (args : list string) : Expected Command :=
  match args with
  | [id; expr] => Ok (metaset_command id expr None)
  | _ => syntax_error "METASET requires 2 arguments: <id> <key:value[,key:value...]>"
  end.

(** The fields a query's options set. *)
Definition with_mode (mode : string) (c : Command) : Command :=
  MkCommand (c_type c) (c_ctx c) (c_id c) (c_score c) (c_event_type c) (c_top_k c) mode (c_timestamp c) (c_adaptive c)
    (c_filter_expr c) (c_metadata c) (c_min_score c) (c_dimension c) (c_vector c) (c_path c) (c_variable_name c)
    (c_variable_value c) (c_pattern c).
Definition with_adaptive (a : bool) (c : Command) : Command :=
  MkCommand (c_type c) (c_ctx c) (c_id c) (c_score c) (c_event_type c) (c_top_k c) (c_mode c) (c_timestamp c) (Some a)
    (c_filter_expr c) (c_metadata c) (c_min_score c) (c_dimension c) (c_vector c) (c_path c) (c_variable_name c)
    (c_variable_value c) (c_pattern c).
Definition with_filter (f : string) (c : Command) : Command :=
  MkCommand (c_type c) (c_ctx c) (c_id c) (c_score c) (c_event_type c) (c_top_k c) (c_mode c) (c_timestamp c) (c_adaptive c)
    f (c_metadata c) (c_min_score c) (c_dimension c) (c_vector c) (c_path c) (c_variable_name c)
    (c_variable_value c) (c_pattern c).
Definition with_min_score (m : Z) (c : Command) : Command :=
  MkCommand (c_type c) (c_ctx c) (c_id c) (c_score c) (c_event_type c) (c_top_k c) (c_mode c) (c_timestamp c) (c_adaptive c)
    (c_filter_expr c) (c_metadata c) m (c_dimension c) (c_vector c) (c_path c) (c_variable_name c)
    (c_variable_value c) (c_pattern c).

Definition sim_command (id : string) (top_k : Z) : Command :=
  MkCommand kSim "" id 0 EventStore.ADD top_k "fusion" None None "" None f32_zero 0 [] "" "" "" "".
Definition simv_command (top_k : Z) : Command :=
  MkCommand kSimv "" "" 0 EventStore.ADD top_k "fusion" None None "" None f32_zero 0 [] "" "" "" "".

(** The options SIM and SIMV share; [name]: the command's, for the error. *)
Definition ParseQueryOption (name t : string) (cmd : Command) : Expected Command :=
  match after_prefix "filter=" t with
  | Some f => Ok (with_filter f cmd)
  | None =>
    match after_prefix "min_score=" t with
    | Some m => let? v := ParseFloat m in Ok (with_min_score v cmd)
    | None =>
      if String.prefix "candidate_limit=" t then syntax_error "candidate_limit option is not supported"
      else if String.prefix "explain=" t then syntax_error "explain option is not supported"
      else syntax_error ("Invalid " +:+ name +:+ " option: " +:+ t)
    end
  end.

Definition ParseSimOption (t : string) (cmd : Command) : Expected Command :=
  match after_prefix "using=" t with
  | Some mode =>
    if bool_decide (mode ∈ ["events"; "vectors"; "fusion"]) then Ok (with_mode mode cmd)
    else syntax_error ("Invalid using value: " +:+ mode +:+ " (must be events, vectors, or fusion)")
  | None =>
    match after_prefix "adaptive=" t with
    | Some val =>
      if bool_decide (val = "on") then Ok (with_adaptive true cmd)
      else if bool_decide (val = "off") then Ok (with_adaptive false cmd)
      else syntax_error ("Invalid adaptive value: " +:+ val +:+ " (must be on or off)")
    | None => ParseQueryOption "SIM" t cmd
    end
  end.

Fixpoint ParseSimOptions (tokens : list string) (cmd : Command) : Expected Command :=
  match tokens with
  | [] => Ok cmd
  | t :: tokens => let? cmd := ParseSimOption t cmd in ParseSimOptions tokens cmd
  end.

Definition ParseSim (max_top_k : Z) (args : list string) : Expected Command :=
  match args with
  | id :: k :: options => let? top_k := ParseTopK k max_top_k in ParseSimOptions options (sim_command id top_k)
  | _ => syntax_error "SIM requires at least 2 arguments: <id> <top_k>"
  end.

(** Options, up to the first token without an equals sign; what remains is the
    vector. *)
Fixpoint ParseSimvOptions (tokens : list string) (cmd : Command) : Expected (Command * list string) :=
  match tokens with
  | [] => Ok (cmd, [])
  | t :: rest =>
    if str_has (Ascii.eqb "=") t then let? cmd := ParseQueryOption "SIMV" t cmd in ParseSimvOptions rest cmd
    else Ok (cmd, tokens)
  end.

Definition with_vector (vec : list Z) (c : Command) : Command :=
  MkCommand (c_type c) (c_ctx c) (c_id c) (c_score c) (c_event_type c) (c_top_k c) (c_mode c) (c_timestamp c) (c_adaptive c)
    (c_filter_expr c) (c_metadata c) (c_min_score c) (i32 (Z.of_nat (length vec))) vec (c_path c) (c_variable_name c)
    (c_variable_value c) (c_pattern c).

Definition ParseSimv (max_top_k : Z) (args : list string) : Expected Command :=
  match args with
  | k :: (_ :: _) as rest =>
    let? top_k := ParseTopK k max_top_k in
    let? p := ParseSimvOptions rest (simv_command top_k) in
    let? vec := ParseFloats p.2 in
    if bool_decide (vec = []) then syntax_error "SIMV requires at least one vector float"
    else Ok (with_vector vec p.1)
  | _ => syntax_error "SIMV requires at least 2 arguments: <top_k> <floats>"
  end.

(** A command with a path, a variable, a pattern. *)
Definition path_command (type : CommandType) (path : string) : Command :=
  MkCommand type "" "" 0 EventStore.ADD 100 "fusion" None None "" None f32_zero 0 [] path "" "" "".
Definition variable_command (type : CommandType) (name value : string) : Command :=
  MkCommand type "" "" 0 EventStore.ADD 100 "fusion" None None "" None f32_zero 0 [] "" name value "".
Definition pattern_command (pattern : string) : Command :=
  MkCommand kShowVariables "" "" 0 EventStore.ADD 100 "fusion" None None "" None f32_zero 0 [] "" "" "" pattern.

(** [table]: a command's subcommands. *)
Fixpoint subcommand (table : list (string * CommandType)) (name : string) : option CommandType :=
  match table with
  | [] => None
  | (n, type) :: table => if bool_decide (name = n) then Some type else subcommand table name
  end.

Definition ParsePathCommand (name usage : string) (table : list (string * CommandType)) (args : list string) : Expected Command :=
  match args with
  | [] => syntax_error (name +:+ " requires subcommand: " +:+ usage)
  | sub :: rest =>
    match subcommand table (ToUpper sub) with
    | Some type => Ok (path_command type (default "" (head rest)))
    | None => syntax_error ("Unknown " +:+ name +:+ " subcommand: " +:+ ToUpper sub)
    end
  end.

Definition ParseConfig : list string → Expected Command :=
  ParsePathCommand "CONFIG" "HELP|SHOW|VERIFY" [("HELP", kConfigHelp); ("SHOW", kConfigShow); ("VERIFY", kConfigVerify)].
Definition ParseDump : list string → Expected Command :=
  ParsePathCommand "DUMP" "SAVE|LOAD|VERIFY|INFO|STATUS"
    [("SAVE", kDumpSave); ("LOAD", kDumpLoad); ("VERIFY", kDumpVerify); ("INFO", kDumpInfo); ("STATUS", kDumpStatus)].

Definition ParseDebug (args : list string) : Expected Command :=
  match args with
  | [arg] =>
    if bool_decide (ToUpper arg = "ON") then Ok (command kDebugOn)
    else if bool_decide (ToUpper arg = "OFF") then Ok (command kDebugOff)
    else syntax_error ("DEBUG requires ON or OFF, got: " +:+ ToUpper arg)
  | _ => syntax_error "DEBUG requires exactly one argument: ON|OFF"
  end.

Definition ParseCache (args : list string) : Expected Command :=
  match args with
  | [] => syntax_error "CACHE requires subcommand: STATS|CLEAR|ENABLE|DISABLE"
  | sub :: _ =>
    match subcommand [("STATS", kCacheStats); ("CLEAR", kCacheClear); ("ENABLE", kCacheEnable); ("DISABLE", kCacheDisable)]
            (ToUpper sub) with
    | Some type => Ok (command type)
    | None => syntax_error ("Unknown CACHE subcommand: " +:+ ToUpper sub)
    end
  end.

Fixpoint join_blank (tokens : list string) : string :=
  match tokens with [] => "" | [t] => t | t :: tokens => t +:+ String blank (join_blank tokens) end.

Definition ParseSet (args : list string) : Expected Command :=
  match args with
  | name :: (_ :: _) as value => Ok (variable_command kSet name (join_blank value))
  | _ => syntax_error "SET requires 2 arguments: <variable_name> <value>"
  end.

Definition ParseGet (args : list string) : Expected Command :=
  match args with
  | name :: _ => Ok (variable_command kGet name "")
  | [] => syntax_error "GET requires 1 argument: <variable_name>"
  end.

Definition ParseShow (args : list string) : Expected Command :=
  match args with
  | [] => syntax_error "SHOW requires subcommand: VARIABLES"
  | sub :: rest =>
    if bool_decide (ToUpper sub = "VARIABLES") then
      Ok (match rest with
          | like :: pattern :: _ => if bool_decide (ToUpper like = "LIKE") then pattern_command pattern else command kShowVariables
          | _ => command kShowVariables
          end)
    else syntax_error ("Unknown SHOW subcommand: " +:+ ToUpper sub)
  end.

(** The password: everything after the first separator of the untrimmed line. *)
Fixpoint after_separator (line : string) : option string :=
  match line with
  | "" => None
  | String c s => if is_separator c then Some s else after_separator s
  end.

Definition ParseAuth (raw_first_line : string) : Expected Command :=
  match after_separator raw_first_line with
  | None | Some "" => syntax_error "AUTH requires 1 argument: <password>"
  | Some password => Ok (variable_command kAuth "" password)
  end.

Definition ParseArguments (max_top_k : Z) (cmd_name : string) (args : list string) : Expected Command :=
  if bool_decide (cmd_name = "EVENT") then ParseEvent args
  else if bool_decide (cmd_name = "VECSET") then ParseVecset args
  else if bool_decide (cmd_name = "VECDEL") then ParseVecdel args
  else if bool_decide (cmd_name = "METASET") then ParseMetaset args
  else if bool_decide (cmd_name = "SIM") then ParseSim max_top_k args
  else if bool_decide (cmd_name = "SIMV") then ParseSimv max_top_k args
  else if bool_decide (cmd_name = "INFO") then Ok (command kInfo)
  else if bool_decide (cmd_name = "CONFIG") then ParseConfig args
  else if bool_decide (cmd_name = "DUMP") then ParseDump args
  else if bool_decide (cmd_name = "DEBUG") then ParseDebug args
  else if bool_decide (cmd_name = "CACHE") then ParseCache args
  else if bool_decide (cmd_name = "SET") then ParseSet args
  else if bool_decide (cmd_name = "GET") then ParseGet args
  else if bool_decide (cmd_name = "SHOW") then ParseShow args
  else throw kCommandUnknown ("Unknown command: " +:+ cmd_name).

Definition ParseCommand (request : string) (max_top_k : Z) : Expected Command :=
  if bool_decide (request = "") then syntax_error "Empty command"
  else if str_has (Ascii.eqb Ascii.zero) request then syntax_error "Command must not contain embedded NUL bytes"
  else
    let raw_first_line := drop_back is_eol request in
    if bool_decide (raw_first_line = "") then syntax_error "Empty command"
    else if str_has is_eol raw_first_line then syntax_error "Command must be a single line"
    else
      match Split (Trim raw_first_line) blank with
      | [] => syntax_error "Empty command"
      | name :: args =>
        let cmd_name := ToUpper name in
        if bool_decide (cmd_name = "AUTH") then ParseAuth raw_first_line
        else ParseArguments max_top_k cmd_name args
      end.

#[export] Instance parser : CommandSyntax := {| Dispatcher.ParseCommand := ParseCommand |}.
End parser.

(** ** Well-typed commands *)

(** A field as the tokenizer gives it from a request of bounded length. *)
Definition word (t : string) : Prop := t ≠ "" ∧ Z.of_nat (String.length t) < 2 ^ 29.

Lemma split_on_length c s t : t ∈ split_on c s → (String.length t ≤ String.length s)%nat.
Proof.
  revert t. induction s as [|a s IH]; intros t; cbn [split_on].
  - intros ->%list_elem_of_singleton. done.
  - case_match.
    + intros [->|Ht]%elem_of_cons; [cbn; lia|]. apply IH in Ht. cbn. lia.
    + destruct (split_on c s) as [|p ps]; [intros ->%list_elem_of_singleton; cbn; lia|].
      intros [->|Ht]%elem_of_cons; cbn; [apply le_n_S, IH; left|].
      assert (String.length t ≤ String.length s)%nat by (apply IH; by right). lia.
Qed.

Lemma split_on_count c s : (length (split_on c s) ≤ S (String.length s))%nat.
Proof.
  induction s as [|a s IH]; cbn [split_on]; [done|]. case_match; [cbn; lia|].
  destruct (split_on c s); cbn in *; lia.
Qed.

Lemma drop_back_length P s : (String.length (drop_back P s) ≤ String.length s)%nat.
Proof. induction s as [|a s IH]; cbn [drop_back]; [done|]. repeat case_match; cbn in *; lia. Qed.
Lemma drop_front_length P s : (String.length (drop_front P s) ≤ String.length s)%nat.
Proof. induction s as [|a s IH]; cbn [drop_front]; [done|]. case_match; cbn in *; lia. Qed.
Lemma str_drop_length n s : (String.length (str_drop n s) ≤ String.length s)%nat.
Proof. revert s. induction n as [|n IH]; intros [|a s]; cbn; try lia. specialize (IH s). lia. Qed.

Lemma Split_words s c :
  Z.of_nat (String.length s) < 2 ^ 29 → Forall word (Split s c) ∧ Z.of_nat (length (Split s c)) ≤ 2 ^ 29.
Proof.
  intros Hs. split.
  - apply Forall_forall. intros t [Hne Ht]%list_elem_of_filter. split; [done|].
    apply split_on_length in Ht. lia.
  - unfold Split. pose proof (length_filter (λ t, t ≠ "") (split_on c s)) as H. pose proof (split_on_count c s). lia.
Qed.

(** What every accepted command satisfies. *)
Definition top_k_ok (max_top_k k : Z) : Prop := 0 < k < 2 ^ 31 ∧ (0 < max_top_k → k ≤ max_top_k).
Definition vector_ok (cmd : Command) : Prop :=
  c_vector cmd ≠ [] ∧ c_dimension cmd = Z.of_nat (length (c_vector cmd)) ∧
  Forall (λ v, in_u 32 v ∧ Floats.is_finite32 v = true) (c_vector cmd).
Definition query_ok (max_top_k : Z) (cmd : Command) : Prop :=
  top_k_ok max_top_k (c_top_k cmd) ∧ Floats.is_finite32 (c_min_score cmd) = true.

Definition well_typed (max_top_k : Z) (cmd : Command) : Prop :=
  match c_type cmd with
  | kEvent =>
      c_ctx cmd ≠ "" ∧ c_id cmd ≠ "" ∧ c_event_type cmd ∈ [EventStore.ADD; EventStore.SET; EventStore.DEL] ∧
      0 ≤ c_score cmd ≤ 100 ∧ (c_event_type cmd = EventStore.DEL → c_score cmd = 0) ∧ in_u 64 (default 0 (c_timestamp cmd))
  | kVecset => c_id cmd ≠ "" ∧ vector_ok cmd ∧ c_metadata cmd = None
  | kVecdel => c_id cmd ≠ ""
  | kMetaset => c_id cmd ≠ "" ∧ c_filter_expr cmd ≠ "" ∧ c_metadata cmd = None
  | kSim => c_id cmd ≠ "" ∧ query_ok max_top_k cmd ∧ c_mode cmd ∈ ["events"; "vectors"; "fusion"]
  | kSimv => query_ok max_top_k cmd ∧ vector_ok cmd
  | kAuth => c_variable_value cmd ≠ ""
  | kSet => c_variable_name cmd ≠ "" ∧ c_variable_value cmd ≠ ""
  | kGet => c_variable_name cmd ≠ ""
  | kUnknown => False
  | _ => True
  end.

Lemma expected_bind_Ok {A B} (r : Expected A) (k : A → Expected B) b :
  expected_bind r k = Ok b → ∃ a, r = Ok a ∧ k a = Ok b.
Proof. destruct r as [a|e]; [by exists a|done]. Qed.

(** Splits a successful [let?]. *)
Ltac ok_bind H x Hx := apply expected_bind_Ok in H as (x & Hx & H).

Lemma leading_digits_nonneg acc s : 0 ≤ acc → 0 ≤ (leading_digits acc s).1.
Proof.
  revert acc. induction s as [|c s IH]; intros acc Ha; cbn [leading_digits]; [done|].
  destruct (FilterParser.digit_value c) as [d|] eqn:Hd; [|done]. apply IH.
  unfold FilterParser.digit_value in Hd. case_match eqn:E; [|done]. injection Hd as <-.
  apply andb_true_iff in E as [E%Z.leb_le _]. lia.
Qed.

Lemma scan_integer_nonneg s n m rest : scan_integer s = Some (n, m, rest) → 0 ≤ m.
Proof.
  unfold scan_integer. destruct (match FilterParser.skip_space s with "" => _ | String c r => _ end) as [neg t].
  destruct t as [|c t]; [done|]. case_bool_decide; [|done].
  pose proof (leading_digits_nonneg 0 (String c t) ltac:(done)) as Hn.
  destruct (leading_digits 0 (String c t)) as [m' rest']. by intros [= _ <- _].
Qed.

Lemma stoi_range s z rest : stoi s = Some (z, rest) → in_s 32 z.
Proof.
  unfold stoi. destruct (scan_integer s) as [[[neg m] r]|]; [|done]. cbn [mbind option_bind].
  case_bool_decide; [|done]. by intros [= <- _].
Qed.

Lemma stoull_range s z rest : stoull s = Some (z, rest) → in_u 64 z.
Proof.
  unfold stoull. destruct (scan_integer s) as [[[neg m] r]|] eqn:Hs; [|done]. cbn [mbind option_bind].
  apply scan_integer_nonneg in Hs. destruct (Z.leb_spec m u64_max) as [Hle|]; [|done]. intros [= <- _].
  destruct neg; [by apply wrap_in_u|]. unfold in_u, u64_max in *. lia.
Qed.

Lemma ParseInt_range s z : ParseInt s = Ok z → in_s 32 z.
Proof.
  unfold ParseInt. destruct (stoi s) as [[v rest]|] eqn:Hs; [|done]. case_bool_decide; [|done].
  intros [= <-]. by eapply stoi_range.
Qed.

Lemma ParseEventScore_range s z : ParseEventScore s = Ok z → 0 ≤ z ≤ 100.
Proof.
  unfold ParseEventScore. intros H. ok_bind H v Hv. case_match eqn:E; [done|]. injection H as ->.
  unfold EventStore.kMinEventScore, EventStore.kMaxEventScore in E.
  apply orb_false_iff in E as [E1%Z.ltb_ge E2%Z.ltb_ge]. lia.
Qed.

Lemma ParseTopK_range s m z : ParseTopK s m = Ok z → top_k_ok m z.
Proof.
  unfold ParseTopK. intros H. ok_bind H v Hv. apply ParseInt_range in Hv. destruct Hv as [_ Hv].
  destruct (Z.leb_spec v 0); [done|]. destruct ((0 <? m) && (m <? u32 v)) eqn:E; [done|]. injection H as ->.
  unfold u32 in E. rewrite wrap_small in E by (unfold in_u; lia).
  split; [lia|]. intros Hm. apply andb_false_iff in E as [E%Z.ltb_ge|E%Z.ltb_ge]; lia.
Qed.

Lemma ParseTimestamp_range s z : ParseTimestamp s = Ok z → in_u 64 z.
Proof.
  unfold ParseTimestamp. destruct (after_prefix _ s) as [v|]; [|done].
  destruct (stoull v) as [[t rest]|] eqn:Hs; [|done]. case_bool_decide; [|done]. intros [= <-]. by eapply stoull_range.
Qed.

Lemma event_timestamp_range rest ts : event_timestamp rest = Ok ts → in_u 64 (default 0 ts).
Proof.
  destruct rest as [|t rest]; cbn [event_timestamp]; [intros [= <-]; unfold in_u; cbn; lia|].
  intros H. ok_bind H v Hv. injection H as <-. by apply ParseTimestamp_range in Hv.
Qed.

Section typed.
Context {libc : Stof}.

Lemma ParseFloat_ok s v : ParseFloat s = Ok v → in_u 32 v ∧ Floats.is_finite32 v = true.
Proof.
  unfold ParseFloat. destruct (stof s) as [[f rest]|] eqn:Hs; [|done].
  destruct (negb (bool_decide (rest = "")) || negb (Floats.is_finite32 f)) eqn:E; [done|]. intros [= <-].
  apply orb_false_iff in E as [_ E%negb_false_iff]. split; [|done]. by eapply stof_range.
Qed.

Lemma ParseFloats_ok ts vs :
  ParseFloats ts = Ok vs → length vs = length ts ∧ Forall (λ v, in_u 32 v ∧ Floats.is_finite32 v = true) vs.
Proof.
  revert vs. induction ts as [|t ts IH]; cbn [ParseFloats]; intros vs H; [injection H as <-; by split|].
  ok_bind H v Hv. ok_bind H r Hr. injection H as <-. destruct (IH r Hr) as [Hl HF].
  split; [cbn; lia|]. constructor; [by apply ParseFloat_ok in Hv|done].
Qed.

Lemma word_string_ok t : word t → WalCodec.string_ok t.
Proof. intros [_ Hl]. unfold WalCodec.string_ok. lia. Qed.

(** A parsed command is well-typed, and a write fits its log record. *)
Definition parsed_ok (max_top_k : Z) (cmd : Command) : Prop :=
  well_typed max_top_k cmd ∧ (IsSnapshotProtectedWrite (c_type cmd) = true → WalCodec.encodable cmd).

Lemma ParseScoredEvent_ok m n ty ctx args cmd :
  ty ∈ [EventStore.ADD; EventStore.SET] → word ctx → Forall word args → ParseScoredEvent n ty ctx args = Ok cmd → parsed_ok m cmd.
Proof.
  intros Hty Hctx Hargs H.
  assert (∃ id score rest, args = id :: score :: rest ∧
    (let? v := ParseEventScore score in let? ts := event_timestamp rest in Ok (event_command ctx id v ty ts)) = Ok cmd)
    as (id & score & rest & -> & Hp).
  { destruct args as [|id [|score [|t [|]]]]; try done; by eexists _, _, _. }
  apply Forall_cons in Hargs as [Hid _]. clear H. ok_bind Hp v Hv. ok_bind Hp ts Hts. injection Hp as <-.
  apply ParseEventScore_range in Hv. apply event_timestamp_range in Hts.
  assert (Hty' : ty = EventStore.ADD ∨ ty = EventStore.SET) by set_solver.
  split.
  - cbn. split_and!; try apply Hctx; try apply Hid; try done; [set_solver|lia|lia|].
    intros ->. by destruct Hty'.
  - intros _. unfold WalCodec.encodable. cbn. split_and!; try (by apply word_string_ok); [by destruct Hty' as [->| ->]|unfold in_s; lia|exact Hts].
Qed.

Lemma ParseEvent_ok m args cmd : Forall word args → ParseEvent args = Ok cmd → parsed_ok m cmd.
Proof.
  intros Hargs H. destruct args as [|ctx [|type [|id rest]]]; try done. cbn [ParseEvent] in H.
  apply Forall_cons in Hargs as [Hctx [_ Hargs]%Forall_cons].
  case_bool_decide; [by eapply ParseScoredEvent_ok; [..|exact H]; first set_solver|].
  case_bool_decide; [by eapply ParseScoredEvent_ok; [..|exact H]; first set_solver|].
  case_bool_decide; [|done]. case_match; [done|]. ok_bind H ts Hts. injection H as <-.
  apply event_timestamp_range in Hts. apply Forall_cons in Hargs as [Hid _]. split.
  - cbn. split_and!; try apply Hctx; try apply Hid; try done; [set_solver].
  - intros _. unfold WalCodec.encodable. cbn. split_and!; try (by apply word_string_ok); try done; apply Hts.
Qed.

Lemma ParseVecset_ok m args cmd :
  Forall word args → Z.of_nat (length args) ≤ 2 ^ 29 → ParseVecset args = Ok cmd → parsed_ok m cmd.
Proof.
  intros Hargs Hlen H. destruct args as [|id [|f fs]]; try done. unfold ParseVecset in H.
  ok_bind H fv Hv. injection H as <-. apply Forall_cons in Hargs as [Hid _].
  apply ParseFloats_ok in Hv as [Hl HF]. cbn [length] in Hl, Hlen.
  assert (Hi : i32 (Z.of_nat (length fv)) = Z.of_nat (length fv)).
  { unfold i32, sint. rewrite wrap_small by (unfold in_u; lia). by rewrite (proj2 (Z.ltb_lt _ _)) by lia. }
  split.
  - cbn. split_and!; [apply Hid| |done]. unfold vector_ok. cbn. split_and!; [by destruct fv|done|done].
  - intros _. unfold WalCodec.encodable. cbn. split_and!; [by apply word_string_ok|lia| |done].
    eapply Forall_impl; [exact HF|]. by intros v [? _].
Qed.

Lemma ParseVecdel_ok m args cmd : Forall word args → ParseVecdel args = Ok cmd → parsed_ok m cmd.
Proof.
  intros Hargs H. destruct args as [|id [|]]; try done. injection H as <-. apply Forall_cons in Hargs as [Hid _].
  split; [apply Hid|]. intros _. by apply word_string_ok.
Qed.

Lemma ParseMetaset_ok m args cmd : Forall word args → ParseMetaset args = Ok cmd → parsed_ok m cmd.
Proof.
  intros Hargs H. destruct args as [|id [|expr [|]]]; try done. injection H as <-.
  apply Forall_cons in Hargs as [Hid [Hex _]%Forall_cons]. split.
  - cbn. split_and!; [apply Hid|apply Hex|done].
  - intros _. unfold WalCodec.encodable. cbn. split_and!; [by apply word_string_ok..|].
    destruct Hex as [_ Hl]. unfold WalCodec.kTypedMetadataMagic. lia.
Qed.

(** The fields that the options of a query leave alone. *)
Definition same_query (c c' : Command) : Prop :=
  c_type c' = c_type c ∧ c_id c' = c_id c ∧ c_top_k c' = c_top_k c ∧ c_vector c' = c_vector c.

Lemma ParseQueryOption_ok name t c c' :
  ParseQueryOption name t c = Ok c' → Floats.is_finite32 (c_min_score c) = true →
  same_query c c' ∧ c_mode c' = c_mode c ∧ Floats.is_finite32 (c_min_score c') = true.
Proof.
  unfold ParseQueryOption. destruct (after_prefix "filter=" t); [by intros [= <-]|].
  destruct (after_prefix "min_score=" t); [|by repeat case_match].
  intros H Hm. ok_bind H v Hv. injection H as <-. by apply ParseFloat_ok in Hv as [_ Hv].
Qed.

Lemma ParseSimOption_ok t c c' :
  ParseSimOption t c = Ok c' → Floats.is_finite32 (c_min_score c) = true → c_mode c ∈ ["events"; "vectors"; "fusion"] →
  same_query c c' ∧ c_mode c' ∈ ["events"; "vectors"; "fusion"] ∧ Floats.is_finite32 (c_min_score c') = true.
Proof.
  unfold ParseSimOption. destruct (after_prefix "using=" t); [case_bool_decide; [by intros [= <-]|done]|].
  destruct (after_prefix "adaptive=" t); [do 2 (case_bool_decide; [by intros [= <-]|]); done|].
  intros H Hm Hmode. apply ParseQueryOption_ok in H as (Hs & -> & Hf); done.
Qed.

Lemma ParseSimOptions_ok ts : ∀ c c',
  ParseSimOptions ts c = Ok c' → Floats.is_finite32 (c_min_score c) = true → c_mode c ∈ ["events"; "vectors"; "fusion"] →
  same_query c c' ∧ c_mode c' ∈ ["events"; "vectors"; "fusion"] ∧ Floats.is_finite32 (c_min_score c') = true.
Proof.
  induction ts as [|t ts IH]; intros c c' H Hm Hmode; cbn [ParseSimOptions] in H; [by injection H as <-|].
  ok_bind H c1 Hc1. apply ParseSimOption_ok in Hc1 as ((?&?&?&?) & ? & ?); [|done..].
  apply IH in H as ((?&?&?&?) & ? & ?); [|done..]. split; [|done]. unfold same_query. split_and!; congruence.
Qed.

Lemma ParseSim_ok m args cmd : Forall word args → ParseSim m args = Ok cmd → parsed_ok m cmd.
Proof.
  intros Hargs H. destruct args as [|id [|k opts]]; try done. cbn [ParseSim] in H. ok_bind H tk Hk.
  apply ParseTopK_range in Hk. apply Forall_cons in Hargs as [Hid _].
  apply ParseSimOptions_ok in H as ((Hty & Hi & Ht & _) & Hmode & Hms); [|done|right; right; left].
  split; [|by rewrite Hty]. unfold well_typed. rewrite Hty. cbn. rewrite Hi. split_and!; [apply Hid| |done].
  split; [by rewrite Ht|done].
Qed.

Lemma ParseSimvOptions_ok ts : ∀ c c' rest,
  ParseSimvOptions ts c = Ok (c', rest) → Floats.is_finite32 (c_min_score c) = true →
  same_query c c' ∧ Floats.is_finite32 (c_min_score c') = true ∧ (length rest ≤ length ts)%nat.
Proof.
  induction ts as [|t ts IH]; intros c c' rest H Hm; cbn [ParseSimvOptions] in H; [by injection H as <- <-|].
  case_match; [|by injection H as <- <-].
  ok_bind H c1 Hc1. apply ParseQueryOption_ok in Hc1 as ((?&?&?&?) & _ & ?); [|done].
  apply IH in H as ((?&?&?&?) & ? & ?); [|done]. split_and!; [|done|cbn; lia]. unfold same_query. split_and!; congruence.
Qed.

Lemma ParseSimv_ok m args cmd :
  Forall word args → Z.of_nat (length args) ≤ 2 ^ 29 → ParseSimv m args = Ok cmd → parsed_ok m cmd.
Proof.
  intros Hargs Hlen H. destruct args as [|k [|t ts]]; try done. unfold ParseSimv in H. ok_bind H tk Hk.
  apply ParseTopK_range in Hk. ok_bind H p Hp. destruct p as [c1 rest]. ok_bind H fv Hv.
  case_bool_decide as Hne; [done|]. injection H as <-.
  apply ParseSimvOptions_ok in Hp as ((Hty & _ & Ht & _) & Hms & Hr); [|done]. apply ParseFloats_ok in Hv as [Hl HF].
  cbn [fst snd length] in *. split; [|cbn; by rewrite Hty].
  unfold well_typed. cbn. rewrite Hty. cbn. split.
  - split; cbn; [by rewrite Ht|done].
  - unfold vector_ok. cbn. split_and!; [done| |done].
    unfold i32, sint. rewrite wrap_small by (unfold in_u; lia). by rewrite (proj2 (Z.ltb_lt _ _)) by lia.
Qed.

Lemma subcommand_elem table name type : subcommand table name = Some type → type ∈ table.*2.
Proof.
  induction table as [|[n t] table IH]; cbn [subcommand]; [done|]. case_bool_decide; [intros [= ->]; left|].
  intros H1. right. by apply IH.
Qed.

(** Commands whose type carries no obligation. *)
Definition plain_type (type : CommandType) : bool :=
  match type with
  | kEvent | kVecset | kVecdel | kMetaset | kSim | kSimv | kAuth | kSet | kGet | kUnknown => false
  | _ => true
  end.

Lemma plain_ok m cmd : plain_type (c_type cmd) = true → parsed_ok m cmd.
Proof. unfold parsed_ok, well_typed. by destruct (c_type cmd). Qed.

Lemma ParsePathCommand_ok m name usage table args cmd :
  forallb plain_type table.*2 = true → ParsePathCommand name usage table args = Ok cmd → parsed_ok m cmd.
Proof.
  intros Ht. destruct args as [|sub rest]; cbn [ParsePathCommand]; [done|].
  destruct (subcommand table _) as [type|] eqn:Hs; [|done]. intros [= <-]. apply plain_ok. cbn.
  apply subcommand_elem in Hs. rewrite <- Is_true_true, forallb_True, Forall_forall in Ht.
  apply Is_true_true. by apply Ht.
Qed.

Lemma join_blank_nonempty ts : Forall word ts → ts ≠ [] → join_blank ts ≠ "".
Proof.
  intros [|t ts' [Hne _] _] Hts; [done|]. destruct ts'; cbn [join_blank]; [done|]. by destruct t.
Qed.

Lemma ParseArguments_ok m name args cmd :
  Forall word args → Z.of_nat (length args) ≤ 2 ^ 29 → ParseArguments m name args = Ok cmd → parsed_ok m cmd.
Proof.
  intros Hargs Hlen. unfold ParseArguments.
  case_bool_decide; [by apply ParseEvent_ok|]. case_bool_decide; [by apply ParseVecset_ok|].
  case_bool_decide; [by apply ParseVecdel_ok|]. case_bool_decide; [by apply ParseMetaset_ok|].
  case_bool_decide; [by apply ParseSim_ok|]. case_bool_decide; [by apply ParseSimv_ok|].
  case_bool_decide; [intros [= <-]; by apply plain_ok|].
  case_bool_decide; [by apply ParsePathCommand_ok|]. case_bool_decide; [by apply ParsePathCommand_ok|].
  case_bool_decide.
  { unfold ParseDebug. repeat case_match; try done; intros [= <-]; by apply plain_ok. }
  case_bool_decide.
  { unfold ParseCache. destruct args as [|sub rest]; [done|]. destruct (subcommand _ _) as [type|] eqn:Hs; [|done].
    intros [= <-]. apply plain_ok. apply subcommand_elem in Hs. cbn in *. set_solver. }
  case_bool_decide.
  { destruct args as [|n [|v vs]]; try done. intros [= <-]. apply Forall_cons in Hargs as [Hn Hv]. split; [|done].
    split; [apply Hn|]. by apply (join_blank_nonempty (v :: vs)). }
  case_bool_decide.
  { destruct args as [|n rest]; [done|]. intros [= <-]. apply Forall_cons in Hargs as [Hn _]. split; [apply Hn|done]. }
  case_bool_decide; [|done].
  unfold ParseShow. destruct args as [|sub rest]; [done|]. case_bool_decide; [|done]. intros [= <-]. apply plain_ok.
  repeat case_match; done.
Qed.

Lemma ParseAuth_ok m line cmd : ParseAuth line = Ok cmd → parsed_ok m cmd.
Proof. unfold ParseAuth. repeat case_match; try done; intros [= <-]. by split. Qed.

(** C24: every command the parser accepts is well-typed: it has a known type and
    the fields its type needs, non-empty; scores are in [0, 100] and 0 for a
    deletion, timestamps are 64-bit, [top_k] is positive, at most 2^31 - 1 and
    at most the configured maximum, vectors are non-empty and of the announced
    dimension, every float is finite, the mode is one of the three.  And every
    write it accepts from a request under 512 MiB fits its log record, so the
    parser discharges what recovery asks of the requests. *)
Theorem parse_command_typed request max_top_k cmd :
  Z.of_nat (String.length request) < 2 ^ 29 → ParseCommand request max_top_k = Ok cmd →
  well_typed max_top_k cmd ∧ (IsSnapshotProtectedWrite (c_type cmd) = true → WalCodec.encodable cmd).
Proof.
  intros Hlen H. fold (parsed_ok max_top_k cmd). revert H. unfold ParseCommand.
  case_bool_decide; [done|]. case_match; [done|]. cbv zeta. case_bool_decide; [done|]. case_match; [done|].
  pose proof (drop_back_length is_eol request) as Hl1.
  pose proof (drop_front_length FilterParser.isspace (drop_back is_eol request)) as Hl2.
  pose proof (drop_back_length FilterParser.isspace (drop_front FilterParser.isspace (drop_back is_eol request))) as Hl3.
  destruct (Split_words (Trim (drop_back is_eol request)) blank ltac:(unfold Trim; lia)) as [Hw Hn].
  destruct (Split _ blank) as [|name args]; [done|]. apply Forall_cons in Hw as [_ Hw]. cbn [length] in Hn.
  case_bool_decide; [apply ParseAuth_ok|apply ParseArguments_ok; [done|lia]].
Qed.
End typed.

(** ** Printing requests *)

(** A token: no blanks of any kind, no NUL. *)
Definition clean (t : string) : Prop :=
  t ≠ "" ∧ str_all (λ c, negb (FilterParser.isspace c) && negb (Ascii.eqb c Ascii.zero)) t = true.

(** Decimal text that [std::stof] reads back exactly, without an equals sign. *)
Class Ftoa {libc : Stof} : Type := {
  ftoa : Z → string;
  ftoa_stof : ∀ v, in_u 32 v → Floats.is_finite32 v = true → stof (ftoa v) = Some (v, "");
  ftoa_clean : ∀ v, clean (ftoa v) ∧ str_has (Ascii.eqb "=") (ftoa v) = false
}.

Definition is_digit (c : Ascii.ascii) : bool := match FilterParser.digit_value c with Some _ => true | None => false end.

Lemma digit_char d : (d < 10)%N → FilterParser.digit_value (pretty_N_char d) = Some (Z.of_N d).
Proof.
  intros Hd.
  assert (d = 0 ∨ d = 1 ∨ d = 2 ∨ d = 3 ∨ d = 4 ∨ d = 5 ∨ d = 6 ∨ d = 7 ∨ d = 8 ∨ d = 9)%N as Hcases by lia.
  by destruct Hcases as [->|[->|[->|[->|[->|[->|[->|[->|[->| ->]]]]]]]]].
Qed.

Lemma digit_plain c :
  is_digit c = true →
  Ascii.eqb c "-" = false ∧ Ascii.eqb c "+" = false ∧ FilterParser.isspace c = false ∧ Ascii.eqb c Ascii.zero = false ∧
  Ascii.eqb "=" c = false.
Proof. destruct c as [[] [] [] [] [] [] [] []]; vm_compute; intros H; (discriminate H || tauto). Qed.

Lemma pretty_go_spec x s :
  str_all is_digit s = true →
  str_all is_digit (pretty_N_go x s) = true ∧ leading_digits 0 (pretty_N_go x s) = leading_digits (Z.of_N x) s ∧
  (s ≠ "" ∨ x ≠ 0%N → pretty_N_go x s ≠ "").
Proof.
  revert s. induction (N.lt_wf_0 x) as [x _ IH]. intros s Hs.
  destruct (decide (x = 0)%N) as [->|Hx]; [rewrite pretty_N_go_0; naive_solver|].
  rewrite pretty_N_go_step by lia.
  pose proof (N.mod_lt x 10 ltac:(lia)) as Hm. pose proof (N.div_mod x 10 ltac:(lia)) as Hd.
  destruct (IH (x / 10)%N ltac:(apply N.div_lt; lia) (String (pretty_N_char (x mod 10)) s)) as (H1 & H2 & H3).
  { cbn [str_all]. unfold is_digit at 1. by rewrite digit_char. }
  split_and!; [done| |intros _; apply H3; by left].
  rewrite H2. cbn [leading_digits]. rewrite digit_char by done. f_equal. lia.
Qed.

Lemma pretty_nat z :
  0 ≤ z → pretty z ≠ "" ∧ str_all is_digit (pretty z) = true ∧ leading_digits 0 (pretty z) = (z, "").
Proof.
  intros Hz. destruct z as [|p|p]; [done| |lia].
  change (pretty (Z.pos p)) with (pretty_N_go (N.pos p) "").
  destruct (pretty_go_spec (N.pos p) "" eq_refl) as (H1 & H2 & H3). split_and!; [apply H3; by right|done|done].
Qed.

Lemma scan_pretty z : 0 ≤ z → scan_integer (pretty z) = Some (false, z, "").
Proof.
  intros (Hne & Hd & Hl)%pretty_nat. unfold scan_integer. destruct (pretty z) as [|c s]; [done|].
  cbn [str_all] in Hd. apply andb_true_iff in Hd as [Hc _]. destruct (digit_plain c Hc) as (H1 & H2 & H3 & _).
  cbn [FilterParser.skip_space]. rewrite H3, H1, H2. unfold is_digit in Hc.
  rewrite bool_decide_eq_true_2 by (by destruct (FilterParser.digit_value c)). by rewrite Hl.
Qed.

Lemma ParseInt_pretty z : 0 ≤ z < 2 ^ 31 → ParseInt (pretty z) = Ok z.
Proof.
  intros Hz. unfold ParseInt, stoi. rewrite scan_pretty by lia. cbn [mbind option_bind].
  by rewrite bool_decide_eq_true_2 by (unfold in_s; lia).
Qed.

Lemma ParseEventScore_pretty z : 0 ≤ z ≤ 100 → ParseEventScore (pretty z) = Ok z.
Proof.
  intros Hz. unfold ParseEventScore. rewrite ParseInt_pretty by lia. cbn [expected_bind].
  unfold EventStore.kMinEventScore, EventStore.kMaxEventScore. by rewrite !(proj2 (Z.ltb_ge _ _)) by lia.
Qed.

Lemma ParseTopK_pretty m z : top_k_ok m z → ParseTopK (pretty z) m = Ok z.
Proof.
  intros [Hz Hm]. unfold ParseTopK. rewrite ParseInt_pretty by lia. cbn [expected_bind].
  rewrite (proj2 (Z.leb_gt _ _)) by lia. unfold u32. rewrite wrap_small by (unfold in_u; lia).
  destruct (Z.ltb_spec 0 m); cbn [andb]; [|done]. by rewrite (proj2 (Z.ltb_ge _ _)) by (apply Hm; lia).
Qed.

Lemma after_prefix_app pre s : after_prefix pre (pre +:+ s) = Some s.
Proof.
  unfold after_prefix. rewrite str_drop_app. enough (String.prefix pre (pre +:+ s) = true) as -> by done.
  induction pre as [|c pre IH]; [by rewrite app_nil; destruct s|]. rewrite app_cons. cbn. by destruct (Ascii.ascii_dec c c).
Qed.

Lemma ParseTimestamp_pretty z : in_u 64 z → ParseTimestamp ("timestamp=" +:+ pretty z) = Ok z.
Proof.
  intros [Hz1 Hz2]. unfold ParseTimestamp. rewrite after_prefix_app. unfold stoull. rewrite scan_pretty by lia.
  cbn [mbind option_bind]. by rewrite (proj2 (Z.leb_le _ _)) by (unfold u64_max; lia).
Qed.

(** ** Tokens of a printed line *)

Lemma clean_pretty z : 0 ≤ z → clean (pretty z).
Proof.
  intros (Hne & Hd & _)%pretty_nat. split; [done|]. revert Hd. generalize (pretty z) as s. clear.
  induction s as [|c s IH]; cbn [str_all]; [done|]. intros [Hc Hs]%andb_true_iff.
  destruct (digit_plain c Hc) as (_ & _ & -> & -> & _). by rewrite IH.
Qed.

Lemma clean_app s t : str_all (λ c, negb (FilterParser.isspace c) && negb (Ascii.eqb c Ascii.zero)) s = true → clean t → clean (s +:+ t).
Proof.
  intros Hs [Hne Ht]. split; [destruct s; [by rewrite app_nil|done]|]. by rewrite str_all_app, Hs, Ht.
Qed.

Lemma str_all_impl (P Q : Ascii.ascii → bool) s :
  (∀ c, P c = true → Q c = true) → str_all P s = true → str_all Q s = true.
Proof. intros HPQ. induction s as [|c s IH]; cbn; [done|]. intros [Hc Hs]%andb_true_iff. by rewrite (HPQ c Hc), IH. Qed.

Lemma drop_back_id P s : str_all (λ c, negb (P c)) s = true → drop_back P s = s.
Proof.
  induction s as [|c s IH]; cbn [str_all drop_back]; [done|]. intros [Hc%negb_true_iff Hs]%andb_true_iff.
  rewrite (IH Hs), Hc. by destruct s.
Qed.

Lemma drop_back_app P s t : t ≠ "" → drop_back P t = t → drop_back P (s +:+ t) = s +:+ t.
Proof.
  intros Hne Ht. induction s as [|c s IH]; [by rewrite app_nil|]. rewrite app_cons. cbn [drop_back]. rewrite IH.
  destruct (s +:+ t) eqn:E; [|done]. destruct s; [by rewrite app_nil in E|done].
Qed.

Lemma clean_not P t : (∀ c, P c = true → FilterParser.isspace c = true) → clean t → str_all (λ c, negb (P c)) t = true.
Proof.
  intros HP [_ Ht]. revert Ht. apply str_all_impl. intros c [Hc _]%andb_true_iff. apply negb_true_iff in Hc.
  apply negb_true_iff. destruct (P c) eqn:E; [|done]. by rewrite (HP c E) in Hc.
Qed.

Lemma eol_space c : is_eol c = true → FilterParser.isspace c = true.
Proof. unfold is_eol. intros [->%Ascii.eqb_eq| ->%Ascii.eqb_eq]%orb_true_iff; reflexivity. Qed.

Lemma join_ne ts : Forall clean ts → ts ≠ [] → join_blank ts ≠ "".
Proof. intros [|t ts' [Ht _] _] Hts; [done|]. destruct ts'; cbn [join_blank]; [done|by destruct t]. Qed.

Lemma drop_back_join P ts :
  (∀ c, P c = true → FilterParser.isspace c = true) → Forall clean ts → drop_back P (join_blank ts) = join_blank ts.
Proof.
  intros HP. induction 1 as [|t ts Ht Hts IH]; [done|]. destruct ts as [|t' ts].
  - by apply drop_back_id, clean_not.
  - change (join_blank (t :: t' :: ts)) with (t +:+ String blank (join_blank (t' :: ts))).
    apply drop_back_app; [done|]. cbn [drop_back]. rewrite IH.
    destruct (join_blank (t' :: ts)) eqn:E; [|done]. by apply join_ne in E.
Qed.

Lemma drop_front_join ts : Forall clean ts → drop_front FilterParser.isspace (join_blank ts) = join_blank ts.
Proof.
  intros [|t ts' [Hn Ht] Hts']; [done|]. destruct t as [|c t]; [done|]. cbn [str_all] in Ht.
  apply andb_true_iff in Ht as [[Hc%negb_true_iff _]%andb_true_iff _].
  destruct ts'; cbn [join_blank]; rewrite ?app_cons; cbn [drop_front]; by rewrite Hc.
Qed.

Lemma str_all_join (Q : Ascii.ascii → bool) ts :
  Q blank = true → Forall (λ t, str_all Q t = true) ts → str_all Q (join_blank ts) = true.
Proof.
  intros Hb. induction 1 as [|t ts Ht Hts IH]; [done|]. destruct ts as [|t' ts]; [done|].
  change (join_blank (t :: t' :: ts)) with (t +:+ String blank (join_blank (t' :: ts))).
  rewrite str_all_app. cbn [str_all]. by rewrite Ht, Hb, IH.
Qed.

Lemma Split_join ts : Forall clean ts → Split (join_blank ts) blank = ts.
Proof.
  unfold Split. induction 1 as [|t ts Ht Hts IH]; [done|].
  assert (Hfree : str_all (λ a, negb (Ascii.eqb a blank)) t = true).
  { apply (clean_not (λ a, Ascii.eqb a blank)); [|done]. by intros c ->%Ascii.eqb_eq. }
  destruct ts as [|t' ts].
  - cbn [join_blank]. rewrite FilterParser.split_on_plain by done. by rewrite filter_cons_True by apply Ht.
  - change (join_blank (t :: t' :: ts)) with (t +:+ String blank (join_blank (t' :: ts))).
    rewrite FilterParser.split_on_app by done. rewrite filter_cons_True by apply Ht. by rewrite IH.
Qed.

(** The tokens of a printed line. *)
Lemma ParseCommand_words {libc : Stof} name args m :
  Forall clean (name :: args) → ToUpper name ≠ "AUTH" →
  ParseCommand (join_blank (name :: args)) m = ParseArguments m (ToUpper name) args.
Proof.
  intros Hts Hauth. unfold ParseCommand.
  rewrite bool_decide_eq_false_2 by (by apply join_ne). rewrite (drop_back_join is_eol) by (done || apply eol_space).
  assert (Hz : str_has (Ascii.eqb Ascii.zero) (join_blank (name :: args)) = false).
  { unfold str_has. apply negb_false_iff, str_all_join; [done|]. eapply Forall_impl; [exact Hts|].
    intros t [_ Ht]. revert Ht. apply str_all_impl. intros c [_ Hc]%andb_true_iff. by rewrite Ascii.eqb_sym. }
  assert (He : str_has is_eol (join_blank (name :: args)) = false).
  { unfold str_has. apply negb_false_iff, str_all_join; [done|]. eapply Forall_impl; [exact Hts|].
    intros t Ht. apply clean_not; [apply eol_space|done]. }
  rewrite Hz, He. cbv zeta. rewrite bool_decide_eq_false_2 by (by apply join_ne).
  unfold Trim. rewrite drop_front_join, (drop_back_join FilterParser.isspace), Split_join by done.
  by rewrite bool_decide_eq_false_2.
Qed.

(** ** The printed form of a command *)

Section print.
Context {libc : Stof} {text : Ftoa}.

Definition type_word (ty : EventStore.EventType) : string :=
  match ty with EventStore.SET => "SET" | EventStore.DEL => "DEL" | _ => "ADD" end.
Definition opt {A} (f : A → list string) (o : option A) : list string := match o with Some a => f a | None => [] end.
Definition unless_empty (pre s : string) : list string := if bool_decide (s = "") then [] else [pre +:+ s].

(** The tokens of a request, the name first. *)
Definition print_command (cmd : Command) : list string :=
  match c_type cmd with
  | kEvent =>
      "EVENT" :: c_ctx cmd :: type_word (c_event_type cmd) :: c_id cmd ::
      (match c_event_type cmd with EventStore.DEL => [] | _ => [pretty (c_score cmd)] end) ++
      opt (λ ts : Z, ["timestamp=" +:+ pretty ts]) (c_timestamp cmd)
  | kVecset => "VECSET" :: c_id cmd :: (ftoa <$> c_vector cmd)
  | kVecdel => ["VECDEL"; c_id cmd]
  | kMetaset => ["METASET"; c_id cmd; c_filter_expr cmd]
  | kSim =>
      "SIM" :: c_id cmd :: pretty (c_top_k cmd) :: ("using=" +:+ c_mode cmd) ::
      opt (λ a : bool, [if a then "adaptive=on" else "adaptive=off"]) (c_adaptive cmd) ++
      unless_empty "filter=" (c_filter_expr cmd) ++ ["min_score=" +:+ ftoa (c_min_score cmd)]
  | kSimv =>
      "SIMV" :: pretty (c_top_k cmd) :: unless_empty "filter=" (c_filter_expr cmd) ++
      ["min_score=" +:+ ftoa (c_min_score cmd)] ++ (ftoa <$> c_vector cmd)
  | kConfigHelp => "CONFIG" :: "HELP" :: unless_empty "" (c_path cmd)
  | kConfigShow => "CONFIG" :: "SHOW" :: unless_empty "" (c_path cmd)
  | kConfigVerify => "CONFIG" :: "VERIFY" :: unless_empty "" (c_path cmd)
  | kDumpSave => "DUMP" :: "SAVE" :: unless_empty "" (c_path cmd)
  | kDumpLoad => "DUMP" :: "LOAD" :: unless_empty "" (c_path cmd)
  | kDumpVerify => "DUMP" :: "VERIFY" :: unless_empty "" (c_path cmd)
  | kDumpInfo => "DUMP" :: "INFO" :: unless_empty "" (c_path cmd)
  | kDumpStatus => "DUMP" :: "STATUS" :: unless_empty "" (c_path cmd)
  | kDebugOn => ["DEBUG"; "ON"]
  | kDebugOff => ["DEBUG"; "OFF"]
  | kCacheStats => ["CACHE"; "STATS"]
  | kCacheClear => ["CACHE"; "CLEAR"]
  | kCacheEnable => ["CACHE"; "ENABLE"]
  | kCacheDisable => ["CACHE"; "DISABLE"]
  | kSet => ["SET"; c_variable_name cmd; c_variable_value cmd]
  | kGet => ["GET"; c_variable_name cmd]
  | kShowVariables => "SHOW" :: "VARIABLES" :: (if bool_decide (c_pattern cmd = "") then [] else ["LIKE"; c_pattern cmd])
  | _ => ["INFO"]
  end.

(** The command with the fields its printed form does not carry at their
    defaults. *)
Definition canonical (cmd : Command) : Command :=
  match c_type cmd with
  | kEvent => event_command (c_ctx cmd) (c_id cmd) (c_score cmd) (c_event_type cmd) (c_timestamp cmd)
  | kVecset => vecset_command (c_id cmd) (c_dimension cmd) (c_vector cmd) None
  | kVecdel => vecdel_command (c_id cmd)
  | kMetaset => metaset_command (c_id cmd) (c_filter_expr cmd) None
  | kSim =>
      MkCommand kSim "" (c_id cmd) 0 EventStore.ADD (c_top_k cmd) (c_mode cmd) None (c_adaptive cmd) (c_filter_expr cmd) None
        (c_min_score cmd) 0 [] "" "" "" ""
  | kSimv =>
      MkCommand kSimv "" "" 0 EventStore.ADD (c_top_k cmd) "fusion" None None (c_filter_expr cmd) None
        (c_min_score cmd) (c_dimension cmd) (c_vector cmd) "" "" "" ""
  | kSet => variable_command kSet (c_variable_name cmd) (c_variable_value cmd)
  | kGet => variable_command kGet (c_variable_name cmd) ""
  | kShowVariables => pattern_command (c_pattern cmd)
  | kAuth => variable_command kAuth "" (c_variable_value cmd)
  | kConfigHelp | kConfigShow | kConfigVerify | kDumpSave | kDumpLoad | kDumpVerify | kDumpInfo | kDumpStatus =>
      path_command (c_type cmd) (c_path cmd)
  | type => command type
  end.

(** The texts a command carries can stand in a token. *)
Definition printable (cmd : Command) : Prop :=
  Forall (λ s, s = "" ∨ clean s)
    [c_ctx cmd; c_id cmd; c_filter_expr cmd; c_path cmd; c_variable_name cmd; c_variable_value cmd; c_pattern cmd] ∧
  in_u 32 (c_min_score cmd) ∧ Z.of_nat (length (c_vector cmd)) < 2 ^ 31.

Lemma ParseFloat_ftoa v : in_u 32 v → Floats.is_finite32 v = true → ParseFloat (ftoa v) = Ok v.
Proof. intros Hu Hf. unfold ParseFloat. by rewrite ftoa_stof, Hf by done. Qed.

Lemma ParseFloats_ftoa vs :
  Forall (λ v, in_u 32 v ∧ Floats.is_finite32 v = true) vs → ParseFloats (ftoa <$> vs) = Ok vs.
Proof.
  induction 1 as [|v vs [Hu Hf] _ IH]; [done|]. cbn [fmap list_fmap ParseFloats].
  rewrite ParseFloat_ftoa by done. cbn [expected_bind]. change (list_fmap _ _ ftoa vs) with (ftoa <$> vs). by rewrite IH.
Qed.

Lemma ParseEvent_print cmd m :
  c_type cmd = kEvent → well_typed m cmd → ParseEvent (tail (print_command cmd)) = Ok (canonical cmd).
Proof.
  intros Hty Hwt. unfold well_typed in Hwt. unfold print_command, canonical. rewrite Hty in *. cbn [tail ParseEvent].
  destruct Hwt as (_ & _ & Hev & Hsc & Hdel & Hts).
  assert (Hopt : event_timestamp (opt (λ ts : Z, ["timestamp=" +:+ pretty ts]) (c_timestamp cmd)) = Ok (c_timestamp cmd)).
  { destruct (c_timestamp cmd) as [ts|]; [|done]. cbn [opt event_timestamp]. by rewrite ParseTimestamp_pretty. }
  assert (Hscored : ∀ n ty, ParseScoredEvent n ty (c_ctx cmd) (c_id cmd :: [pretty (c_score cmd)] ++
      opt (λ ts : Z, ["timestamp=" +:+ pretty ts]) (c_timestamp cmd)) =
    Ok (event_command (c_ctx cmd) (c_id cmd) (c_score cmd) ty (c_timestamp cmd))).
  { intros n ty. unfold ParseScoredEvent. destruct (c_timestamp cmd) as [ts|]; cbn [opt app] in *; cbn [drop];
      rewrite ParseEventScore_pretty by done; cbn [expected_bind]; by rewrite Hopt. }
  assert (Hcase : c_event_type cmd = EventStore.ADD ∨ c_event_type cmd = EventStore.SET ∨ c_event_type cmd = EventStore.DEL) by set_solver.
  destruct Hcase as [E|[E|E]]; rewrite E in *; cbn [type_word app].
  - by apply Hscored.
  - by apply Hscored.
  - rewrite (Hdel eq_refl). change (ToUpper "DEL") with "DEL". cbn [bool_decide]. rewrite Hopt.
    by destruct (c_timestamp cmd).
Qed.

Lemma ParseSimOptions_app a b c :
  ParseSimOptions (a ++ b) c = let? c' := ParseSimOptions a c in ParseSimOptions b c'.
Proof.
  revert c. induction a as [|t a IH]; intros c; [done|]. cbn [app ParseSimOptions].
  destruct (ParseSimOption t c); cbn [expected_bind]; [apply IH|done].
Qed.

Lemma query_min_score name v c :
  in_u 32 v → Floats.is_finite32 v = true → ParseQueryOption name ("min_score=" +:+ ftoa v) c = Ok (with_min_score v c).
Proof. intros. unfold ParseQueryOption. rewrite after_prefix_app. cbn. by rewrite ParseFloat_ftoa. Qed.

Lemma query_filter name f c : ParseQueryOption name ("filter=" +:+ f) c = Ok (with_filter f c).
Proof. unfold ParseQueryOption. by rewrite after_prefix_app. Qed.

Lemma ParseSim_print cmd m :
  c_type cmd = kSim → well_typed m cmd → printable cmd →
  ParseSim m (tail (print_command cmd)) = Ok (canonical cmd).
Proof.
  intros Hty Hwt (_ & Hms & _). unfold well_typed in Hwt. unfold print_command, canonical. rewrite Hty in *.
  cbn [tail ParseSim]. destruct Hwt as (_ & [Hk Hfin] & Hmode). rewrite ParseTopK_pretty by done. cbn [expected_bind].
  cbn [ParseSimOptions]. unfold ParseSimOption at 1. rewrite after_prefix_app, bool_decide_eq_true_2 by done.
  cbn [expected_bind]. rewrite ParseSimOptions_app.
  assert (Ha : ParseSimOptions (opt (λ a : bool, [if a then "adaptive=on" else "adaptive=off"]) (c_adaptive cmd))
    (with_mode (c_mode cmd) (sim_command (c_id cmd) (c_top_k cmd))) =
    Ok (match c_adaptive cmd with Some a => with_adaptive a (with_mode (c_mode cmd) (sim_command (c_id cmd) (c_top_k cmd)))
        | None => with_mode (c_mode cmd) (sim_command (c_id cmd) (c_top_k cmd)) end)) by (by destruct (c_adaptive cmd) as [[]|]).
  rewrite Ha. cbn [expected_bind]. rewrite ParseSimOptions_app. unfold unless_empty.
  assert (Hlast : ∀ c, ParseSimOptions ["min_score=" +:+ ftoa (c_min_score cmd)] c = Ok (with_min_score (c_min_score cmd) c)).
  { intros c. cbn [ParseSimOptions]. unfold ParseSimOption.
    change (after_prefix "using=" ("min_score=" +:+ ftoa (c_min_score cmd))) with (@None string).
    change (after_prefix "adaptive=" ("min_score=" +:+ ftoa (c_min_score cmd))) with (@None string). cbv iota.
    by rewrite query_min_score. }
  case_bool_decide as Hf.
  - rewrite (ltac:(done) : ∀ c, ParseSimOptions [] c = Ok c). cbn [expected_bind]. rewrite Hlast, Hf.
    by destruct (c_adaptive cmd).
  - assert (Hfilt : ∀ c, ParseSimOptions ["filter=" +:+ c_filter_expr cmd] c = Ok (with_filter (c_filter_expr cmd) c)).
    { intros c. cbn [ParseSimOptions]. unfold ParseSimOption.
      change (after_prefix "using=" ("filter=" +:+ c_filter_expr cmd)) with (@None string).
      change (after_prefix "adaptive=" ("filter=" +:+ c_filter_expr cmd)) with (@None string). cbv iota.
      by rewrite query_filter. }
    rewrite Hfilt. cbn [expected_bind]. rewrite Hlast. by destruct (c_adaptive cmd).
Qed.

Lemma str_has_app (P : Ascii.ascii → bool) s t : str_has P (s +:+ t) = str_has P s || str_has P t.
Proof. unfold str_has. rewrite str_all_app. by rewrite negb_andb. Qed.

Lemma ParseSimvOptions_floats vs c : ParseSimvOptions (ftoa <$> vs) c = Ok (c, ftoa <$> vs).
Proof. destruct vs as [|v vs]; [done|]. cbn [fmap list_fmap ParseSimvOptions]. by rewrite (proj2 (ftoa_clean v)). Qed.

Lemma ParseSimv_print cmd m :
  c_type cmd = kSimv → well_typed m cmd → printable cmd →
  ParseSimv m (tail (print_command cmd)) = Ok (canonical cmd).
Proof.
  intros Hty Hwt (_ & Hms & Hlen). unfold well_typed in Hwt. unfold print_command, canonical. rewrite Hty in *.
  cbn [tail]. destruct Hwt as ([Hk Hfin] & Hne & Hdim & HF).
  assert (Hlast : ∀ c, ParseSimvOptions (["min_score=" +:+ ftoa (c_min_score cmd)] ++ (ftoa <$> c_vector cmd)) c =
    Ok (with_min_score (c_min_score cmd) c, ftoa <$> c_vector cmd)).
  { intros c. cbn [app ParseSimvOptions]. rewrite str_has_app. change (str_has (Ascii.eqb "=") "min_score=") with true.
    cbn [orb]. rewrite query_min_score by done. cbn [expected_bind]. apply ParseSimvOptions_floats. }
  assert (Hall : ParseSimvOptions (unless_empty "filter=" (c_filter_expr cmd) ++
      ["min_score=" +:+ ftoa (c_min_score cmd)] ++ (ftoa <$> c_vector cmd)) (simv_command (c_top_k cmd)) =
    Ok (with_min_score (c_min_score cmd) (with_filter (c_filter_expr cmd) (simv_command (c_top_k cmd))), ftoa <$> c_vector cmd)).
  { unfold unless_empty. case_bool_decide as Hf; [by rewrite Hf; apply Hlast|].
    change ([?t] ++ ?l) with (t :: l) at 1. cbn [ParseSimvOptions]. rewrite str_has_app.
    change (str_has (Ascii.eqb "=") "filter=") with true. cbn [orb]. rewrite query_filter. cbn [expected_bind]. apply Hlast. }
  revert Hall. destruct (unless_empty _ _ ++ _) as [|t ts] eqn:E; [by destruct (unless_empty _ _)|]. intros Hall.
  unfold ParseSimv. rewrite ParseTopK_pretty by done. cbn [expected_bind]. rewrite Hall. cbn [expected_bind fst snd].
  rewrite ParseFloats_ftoa by done. cbn [expected_bind]. rewrite bool_decide_eq_false_2 by done.
  unfold with_vector, with_min_score, with_filter, simv_command. cbn. rewrite Hdim.
  unfold i32, sint. rewrite wrap_small by (unfold in_u; lia). by rewrite (proj2 (Z.ltb_lt _ _)) by lia.
Qed.

Lemma ParseVecset_print cmd m :
  c_type cmd = kVecset → well_typed m cmd → printable cmd → ParseVecset (tail (print_command cmd)) = Ok (canonical cmd).
Proof.
  intros Hty Hwt (_ & _ & Hlen). unfold well_typed in Hwt. unfold print_command, canonical. rewrite Hty in *.
  cbn [tail]. destruct Hwt as (_ & (Hne & Hdim & HF) & _).
  assert (Hp : ParseFloats (ftoa <$> c_vector cmd) = Ok (c_vector cmd)) by (by apply ParseFloats_ftoa).
  destruct (c_vector cmd) as [|v vs] eqn:E; [done|]. cbn [fmap list_fmap] in *. unfold ParseVecset. rewrite Hp.
  cbn [expected_bind]. rewrite Hdim. unfold i32, sint. rewrite wrap_small by (unfold in_u; lia).
  by rewrite (proj2 (Z.ltb_lt _ _)) by lia.
Qed.

Lemma clean_ftoa v : clean (ftoa v).
Proof. apply ftoa_clean. Qed.

Lemma clean_ftoas vs : Forall clean (ftoa <$> vs).
Proof. induction vs; cbn; constructor; [apply clean_ftoa|done]. Qed.

Lemma clean_unless pre s :
  str_all (λ c, negb (FilterParser.isspace c) && negb (Ascii.eqb c Ascii.zero)) pre = true → s = "" ∨ clean s →
  Forall clean (unless_empty pre s).
Proof.
  intros Hp Hs. unfold unless_empty. case_bool_decide; [constructor|]. constructor; [|constructor].
  apply clean_app; [done|]. by destruct Hs.
Qed.

Lemma clean_option (pre : string) ts : in_u 64 (default 0 ts) →
  str_all (λ c, negb (FilterParser.isspace c) && negb (Ascii.eqb c Ascii.zero)) pre = true →
  Forall clean (opt (λ t : Z, [pre +:+ pretty t]) ts).
Proof.
  intros Hts Hp. destruct ts as [t|]; [|constructor]. constructor; [|constructor]. apply clean_app; [done|].
  apply clean_pretty, Hts.
Qed.

(** Every token of a printed request is one the tokenizer gives back. *)
Lemma print_clean cmd m : well_typed m cmd → printable cmd → Forall clean (print_command cmd).
Proof.
  intros Hwt (Ht & _). repeat apply Forall_cons in Ht as [? Ht].
  assert (Hc : ∀ s, (s = "" ∨ clean s) → s ≠ "" → clean s) by (by intros s [?|?]).
  unfold well_typed in Hwt. unfold print_command.
  destruct (c_type cmd);
    repeat (apply Forall_nil_2 || apply Forall_app_2 || (apply Forall_cons_2; [|])); try done;
    try (apply clean_unless; done); try apply clean_ftoas; try (apply clean_app; [done|apply clean_ftoa]); try (apply Hc; tauto).
  - by destruct (c_event_type cmd).
  - destruct Hwt as (_ & _ & _ & Hsc & _). destruct (c_event_type cmd);
      repeat (apply Forall_nil_2 || apply Forall_cons_2); apply clean_pretty; lia.
  - apply clean_option; [tauto|done].
  - destruct Hwt as (_ & [[[? _] _] _] & _). apply clean_pretty. lia.
  - destruct Hwt as (_ & _ & Hm). repeat apply elem_of_cons in Hm as [->|Hm]; [done..|by apply not_elem_of_nil in Hm].
  - destruct (c_adaptive cmd) as [[]|]; repeat constructor; done.
  - destruct Hwt as ([[[? _] _] _] & _). apply clean_pretty. lia.
  - case_bool_decide; repeat (apply Forall_nil_2 || apply Forall_cons_2); [done|by apply Hc].
Qed.

Lemma ParsePathCommand_print name usage table sub type path :
  subcommand table (ToUpper sub) = Some type →
  ParsePathCommand name usage table (sub :: unless_empty "" path) = Ok (path_command type path).
Proof. intros Hs. unfold ParsePathCommand. rewrite Hs. unfold unless_empty. by case_bool_decide as E; [rewrite E|]. Qed.

(** C23: printing a command as a request line and parsing the line gives the
    command back, for every command type of the protocol but AUTH: the
    tokenizer finds the printed tokens, the numbers, floats and options are
    read back exactly, and the fields that a type does not carry are at their
    defaults. *)
Theorem parse_print_command max_top_k cmd :
  well_typed max_top_k cmd → printable cmd → c_type cmd ≠ kAuth →
  ParseCommand (join_blank (print_command cmd)) max_top_k = Ok (canonical cmd).
Proof.
  intros Hwt Hp Hauth. pose proof (print_clean _ _ Hwt Hp) as Hcl.
  assert (∃ name args, print_command cmd = name :: args ∧ ToUpper name ≠ "AUTH") as (name & args & E & Hn).
  { unfold print_command. destruct (c_type cmd); solve [eexists _, _; split; [reflexivity|done]]. }
  rewrite E in *. rewrite ParseCommand_words by done.
  destruct (c_type cmd) eqn:Hty; try done;
    [pose proof (ParseEvent_print _ _ Hty Hwt) as Ha|pose proof (ParseVecset_print _ _ Hty Hwt Hp) as Ha| | |
     pose proof (ParseSim_print _ _ Hty Hwt Hp) as Ha|pose proof (ParseSimv_print _ _ Hty Hwt Hp) as Ha|..];
    try (rewrite E in Ha; cbn [tail] in Ha); unfold print_command, canonical in E; rewrite Hty in E; injection E as <- <-;
    unfold ParseArguments; cbn [bool_decide]; try exact Ha; unfold canonical; rewrite Hty; try done;
    try (by apply ParsePathCommand_print).
  - by destruct (bool_decide_reflect (c_pattern cmd = "")) as [->|].
  - unfold well_typed in Hwt. by rewrite Hty in Hwt.
Qed.
End print.

(** ** AUTH *)

Lemma drop_back_all P s : str_all P s = true → drop_back P s = "".
Proof. induction s as [|c s IH]; cbn [str_all drop_back]; [done|]. intros [Hc Hs]%andb_true_iff. by rewrite IH, Hc. Qed.

Lemma drop_back_cut P s t : str_all (λ c, negb (P c)) s = true → str_all P t = true → drop_back P (s +:+ t) = s.
Proof.
  intros Hs Ht. induction s as [|c s IH]; [rewrite app_nil; by apply drop_back_all|].
  cbn [str_all] in Hs. apply andb_true_iff in Hs as [Hc%negb_true_iff Hs]. rewrite app_cons. cbn [drop_back].
  rewrite (IH Hs), Hc. by destruct s.
Qed.

(** Trimming a line after a first word leaves the word. *)
Lemma Split_Trim_word word rest :
  clean word → ∃ ts, Split (Trim (word +:+ String blank rest)) blank = word :: ts.
Proof.
  intros Hw. pose proof (clean_not FilterParser.isspace word ltac:(done) Hw) as Hns.
  assert (Hf : drop_front FilterParser.isspace (word +:+ String blank rest) = word +:+ String blank rest).
  { destruct Hw as [Hne _]. destruct word as [|c w]; [done|]. rewrite app_cons. cbn [str_all drop_front] in *.
    by apply andb_true_iff in Hns as [->%negb_true_iff _]. }
  unfold Trim. rewrite Hf.
  assert (Hfree : str_all (λ a, negb (Ascii.eqb a blank)) word = true).
  { apply (clean_not (λ a, Ascii.eqb a blank)); [|done]. by intros c ->%Ascii.eqb_eq. }
  destruct (decide (drop_back FilterParser.isspace (String blank rest) = "")) as [E|E].
  - exists []. assert (Hb : drop_back FilterParser.isspace (word +:+ String blank rest) = word).
    { clear -E Hns. induction word as [|c w IH]; [by rewrite app_nil|]. cbn [str_all] in Hns.
      apply andb_true_iff in Hns as [Hc%negb_true_iff Hs]. rewrite app_cons. cbn [drop_back]. rewrite (IH Hs), Hc.
      by destruct w. }
    rewrite Hb. unfold Split. rewrite FilterParser.split_on_plain by done. by rewrite filter_cons_True by apply Hw.
  - assert (Hb : ∃ r, drop_back FilterParser.isspace (word +:+ String blank rest) = word +:+ String blank r).
    { clear -E. assert (∃ r, drop_back FilterParser.isspace (String blank rest) = String blank r) as [r Hr].
      { cbn [drop_back] in *. destruct (drop_back _ rest) as [|a r]; [done|by eexists]. }
      exists r. induction word as [|c w IH]; [by rewrite !app_nil|]. rewrite !app_cons. cbn [drop_back]. rewrite IH.
      by destruct (w +:+ String blank r) eqn:F; [destruct w|]. }
    destruct Hb as [r ->]. eexists. unfold Split. rewrite FilterParser.split_on_app by done.
    by rewrite filter_cons_True by apply Hw.
Qed.

(** A password: any characters but NUL and the line ends. *)
Definition password_ok (pw : string) : Prop :=
  pw ≠ "" ∧ str_all (λ c, negb (is_eol c)) pw = true ∧ str_has (Ascii.eqb Ascii.zero) pw = false.

Section auth.
Context {libc : Stof}.

Lemma ParseCommand_auth pw eol m :
  password_ok pw → str_all is_eol eol = true → ParseCommand ("AUTH " +:+ pw +:+ eol) m = Ok (variable_command kAuth "" pw).
Proof.
  intros (Hne & Hline & Hz) Heol. unfold ParseCommand. rewrite bool_decide_eq_false_2 by done.
  assert (Hz' : str_has (Ascii.eqb Ascii.zero) ("AUTH " +:+ pw +:+ eol) = false).
  { rewrite !str_has_app, Hz. cbn [orb]. unfold str_has. apply negb_false_iff. revert Heol. apply str_all_impl.
    unfold is_eol. by intros c [->%Ascii.eqb_eq| ->%Ascii.eqb_eq]%orb_true_iff. }
  rewrite Hz'. cbv zeta. change ("AUTH " +:+ pw +:+ eol) with (("AUTH " +:+ pw) +:+ eol). rewrite drop_back_cut by (try done; by rewrite str_all_app, Hline).
  rewrite bool_decide_eq_false_2 by done. unfold str_has. rewrite str_all_app, Hline.
  change (negb (str_all (λ c, negb (is_eol c)) "AUTH " && true)) with false. cbv iota.
  change ("AUTH " +:+ pw) with ("AUTH" +:+ String blank pw).
  destruct (Split_Trim_word "AUTH" pw ltac:(done)) as [ts ->]. cbn [ToUpper]. rewrite bool_decide_eq_true_2 by done.
  unfold ParseAuth. change (after_separator ("AUTH" +:+ String blank pw)) with (Some pw). by destruct pw.
Qed.

Context {E W : Type} {order : IterOrder} {log : AppendLog W} {engine : Engine E} {libm : Floats.Libm}
  {dist : Distance.DistanceFunctions} {strtod : FilterParser.Strtod} {layout : SimilarityCache.Layout}
  {lz4 : ResultCompressor.Lz4} {admin : AdminHandlers E W}.

(** A line [AUTH <password>] authenticates the connection exactly when the
    password is the required one, byte for byte: blanks inside, before and
    after it count, and nothing but the line end is cut off.  A wrong password
    counts as a failed command and changes nothing. *)
Lemma auth_line rd pw conn (c : HandlerContext E W) :
  password_ok pw → requirepass c ≠ "" →
  Dispatch rd ("AUTH " +:+ pw +:+ CRLF) conn c =
    if bool_decide (pw = requirepass c) then ("+OK" +:+ CRLF, MkConn (debug_mode conn) true, c)
    else (FormatError "ERR invalid password", conn, with_flags (count failed_commands) c).
Proof.
  intros Hpw Hreq. unfold Dispatch. cbn [Dispatcher.ParseCommand parser]. rewrite ParseCommand_auth by done.
  unfold DispatchCommand. cbn [c_type variable_command]. rewrite bool_decide_eq_true_2 by done.
  unfold HandleAuth. rewrite bool_decide_eq_false_2 by done. rewrite ConstantTimeEquals_spec.
  by repeat case_bool_decide.
Qed.
End auth.

(** ** Witnesses *)

Module Examples.

Definition half : Z := Floats.f32_div Floats.f32_one (Floats.f32_of_Z 2).

(** A [std::stof] that reads a few decimal texts, and the bits of a float
    written as an integer. *)
Definition read_float (s : string) : option (Z * string) :=
  if bool_decide (s = "0.5") then Some (half, "")
  else if bool_decide (s = "1.0") then Some (Floats.f32_one, "")
  else
    '(negative, m, rest) ← scan_integer s;
    if (negative : bool) then None else if bool_decide (in_u 32 m) then Some (m, rest) else None.

#[local] Instance table_stof : Stof.
Proof.
  refine {| stof := read_float |}. unfold read_float.
  intros s v rest. do 2 (case_bool_decide; [intros [= <- _]; split; vm_compute; [discriminate|reflexivity]|]).
  destruct (scan_integer s) as [[[[] m] r]|]; cbn [mbind option_bind]; try done. case_bool_decide; [|done]. by intros [= <- _].
Defined.

#[local] Instance bits_text : Ftoa.
Proof.
  refine {| ftoa v := if bool_decide (0 ≤ v) then pretty v else "0" |}.
  - intros v Hv _. rewrite bool_decide_eq_true_2 by apply Hv. cbn [stof table_stof]. unfold read_float.
    pose proof (scan_pretty v ltac:(apply Hv)) as Hs.
    rewrite bool_decide_eq_false_2 by (intros E; by rewrite E in Hs).
    rewrite bool_decide_eq_false_2 by (intros E; by rewrite E in Hs).
    rewrite Hs. cbn [mbind option_bind]. by rewrite bool_decide_eq_true_2.
  - intros v. case_bool_decide; [|by split]. split; [by apply clean_pretty|].
    destruct (pretty_nat v ltac:(done)) as (_ & Hd & _). unfold str_has. apply negb_false_iff.
    revert Hd. apply str_all_impl. intros c Hc. by destruct (digit_plain c Hc) as (_ & _ & _ & _ & ->).
Defined.

(** Lower case, double blanks and the line end. *)
Example parse_sim :
  ParseCommand ("sim  item 10 using=events min_score=0.5 adaptive=off" +:+ CRLF) 100 =
  Ok (MkCommand kSim "" "item" 0 EventStore.ADD 10 "events" None (Some false) "" None half 0 [] "" "" "" "").
Proof. vm_compute. reflexivity. Qed.

Example parse_simv :
  ParseCommand "SIMV 5 filter=lang:ja 0.5 1.0" 100 =
  Ok (MkCommand kSimv "" "" 0 EventStore.ADD 5 "fusion" None None "lang:ja" None f32_zero 2
        [half; Floats.f32_one] "" "" "" "").
Proof. vm_compute. reflexivity. Qed.

(** The limit on [top_k]; an embedded line end; a missing argument. *)
Example parse_refused :
  ParseCommand "SIM item 101" 100 = throw kCommandInvalidTopK "top_k 101 exceeds maximum allowed: 100" ∧
  ParseCommand ("INFO" +:+ CRLF +:+ "INFO") 100 = throw kCommandSyntaxError "Command must be a single line" ∧
  ParseCommand "VECSET a" 100 = throw kCommandSyntaxError "VECSET requires at least 2 arguments: <id> <floats>" ∧
  ParseCommand (String blank CRLF) 100 = throw kCommandSyntaxError "Empty command".
Proof. vm_compute. done. Qed.

(** A negative timestamp is accepted and wraps. *)
Example negative_timestamp_wraps :
  ParseCommand "EVENT user ADD item 50 timestamp=-5" 100 =
  Ok (event_command "user" "item" 50 EventStore.ADD (Some (2 ^ 64 - 5))).
Proof. vm_compute. reflexivity. Qed.

(** A blank in front of AUTH makes the command's name part of the password,
    and a tab does not separate the name from the password. *)
Example auth_separators :
  ParseCommand " AUTH secret" 100 = Ok (variable_command kAuth "" "AUTH secret") ∧
  ParseCommand ("AUTH" +:+ String (char 9) "secret") 100 =
    throw kCommandUnknown ("Unknown command: AUTH" +:+ String (char 9) "SECRET").
Proof. vm_compute. done. Qed.

Definition some_event : Command := event_command "user" "item" 50 EventStore.ADD (Some 1700000000).
Definition some_query : Command :=
  MkCommand kSimv "" "" 0 EventStore.ADD 5 "fusion" None None "lang:ja" None half 2
    [half; Floats.f32_one] "" "" "" "".

Lemma parse_command_typed_witness :
  well_typed 100 some_event ∧ WalCodec.encodable some_event.
Proof.
  assert (H : ParseCommand "EVENT user ADD item 50 timestamp=1700000000" 100 = Ok some_event) by (vm_compute; reflexivity).
  destruct (parse_command_typed "EVENT user ADD item 50 timestamp=1700000000" 100 some_event ltac:(vm_compute; reflexivity) H)
    as [Hw He]. split; [exact Hw|exact (He eq_refl)].
Defined.

Lemma some_query_typed : well_typed 100 some_query ∧ printable some_query.
Proof.
  split.
  - split; [split; [split; [by cbn|by cbn]|by vm_compute]|]. split; [done|]. split; [done|].
    repeat apply Forall_cons_2; try apply Forall_nil_2; (split; [split; vm_compute; [discriminate|reflexivity]|by vm_compute]).
  - split; [|split; [split; vm_compute; [discriminate|reflexivity]|done]].
    repeat apply Forall_cons_2; try apply Forall_nil_2; first [by left|right; split; [discriminate|vm_compute; reflexivity]].
Qed.

Lemma parse_print_command_witness : ParseCommand (join_blank (print_command some_query)) 100 = Ok some_query.
Proof.
  destruct some_query_typed as [Hw Hp]. exact (parse_print_command 100 some_query Hw Hp ltac:(discriminate)).
Defined.
End Examples.
