(* ===== verification/NetworkUtils.v ===== *)
(** * Addresses and access control (src/utils/network_utils.cpp)

    IPv4 addresses in host byte order as 32-bit integers, CIDR ranges, and the
    access control list of the server. *)

From Stdlib Require Import Strings.Ascii.
From S2P Require Import Prelude StringLib CommandParser.
#[local] Open Scope Z_scope.

(** [inet_pton] and [inet_ntop] for AF_INET, with [ntohl] and [htonl]. *)
Class Inet : Type := {
  inet_pton : string → option Z;
  inet_ntop : Z → string;
  inet_pton_range : ∀ s a, inet_pton s = Some a → in_u 32 a;
  inet_pton_ntop : ∀ a, in_u 32 a → inet_pton (inet_ntop a) = Some a;
  inet_pton_not : inet_pton "" = None ∧ inet_pton "unix" = None
}.

Definition kIPv4BitCount : Z := 32.

Section network.
Context {inet : Inet}.

Definition ParseIPv4 (ip_str : string) : option Z := inet_pton ip_str.
Definition IPv4ToString (ip_addr : Z) : string := inet_ntop ip_addr.

Record CIDR : Type := MkCIDR { network : Z; netmask : Z; prefix_length : Z }.

Definition Contains (ip_addr : Z) (c : CIDR) : bool := Z.land ip_addr (netmask c) =? network c.

Definition prefix_mask (prefix_length : Z) : Z :=
  if 0 <? prefix_length then u32 (Z.lnot (u32 (u32 (Z.shiftl 1 (kIPv4BitCount - prefix_length)) - 1))) else 0.

(** The prefix part: not empty, digits only, and all of it read by [std::stoi],
    which throws above 2^31 - 1. *)
Definition ParsePrefix (prefix_str : string) : option Z :=
  if bool_decide (prefix_str = "") || negb (str_all is_digit prefix_str) then None
  else
    '(prefix_length, rest) ← stoi prefix_str;
    if negb (bool_decide (rest = "")) || (prefix_length <? 0) || (kIPv4BitCount <? prefix_length) then None
    else Some prefix_length.

Definition Parse (cidr_str : string) : option CIDR :=
  slash_pos ← find_sub "/" cidr_str;
  ip ← ParseIPv4 (str_take slash_pos cidr_str);
  p ← ParsePrefix (str_drop (S slash_pos) cidr_str);
  Some (MkCIDR (Z.land ip (prefix_mask p)) (prefix_mask p) p).

(** The two overloads of [IsIPAllowed]. *)
Definition IsIPAllowed (ip_str : string) (parsed_allow_cidrs : list CIDR) : bool :=
  if bool_decide (length parsed_allow_cidrs = 0%nat) then false
  else match ParseIPv4 ip_str with
       | None => false
       | Some client_ip => existsb (Contains client_ip) parsed_allow_cidrs
       end.
Definition IsIPAllowedText (ip_str : string) (allow_cidrs : list string) : bool :=
  if bool_decide (length allow_cidrs = 0%nat) then false
  else match ParseIPv4 ip_str with
       | None => false
       | Some client_ip =>
           existsb (λ cidr_str, match Parse cidr_str with Some c => Contains client_ip c | None => false end) allow_cidrs
       end.

(** The list of the server: the ranges that parse ([NvecdServer::Start]). *)
Definition parse_allow_cidrs (allow_cidrs : list string) : list CIDR := omap Parse allow_cidrs.

(** ** Properties *)

Lemma testbit_above a i : in_u 32 a → 32 ≤ i → Z.testbit a i = false.
Proof. intros Ha Hi. rewrite <- (Z.mod_small a (2 ^ 32)) by done. by apply Z.mod_pow2_bits_high. Qed.

Lemma prefix_mask_bits p i : 0 ≤ p ≤ 32 → 0 ≤ i → Z.testbit (prefix_mask p) i = (32 - p <=? i) && (i <? 32).
Proof.
  intros Hp Hi. unfold prefix_mask, kIPv4BitCount, u32, wrap. destruct (Z.ltb_spec 0 p) as [Hpos|Hz].
  - rewrite Z.shiftl_1_l, (Z.mod_small (2 ^ (32 - p))) by (split; [lia|apply Z.pow_lt_mono_r; lia]).
    rewrite (Z.mod_small (2 ^ (32 - p) - 1)).
    2: { pose proof (Z.pow_lt_mono_r 2 (32 - p) 32). pose proof (Z.pow_pos_nonneg 2 (32 - p)). lia. }
    destruct (Z.ltb_spec i 32).
    + rewrite Z.mod_pow2_bits_low, Z.lnot_spec by lia.
      replace (2 ^ (32 - p) - 1) with (Z.ones (32 - p)) by (rewrite Z.ones_equiv; lia).
      rewrite Z.testbit_ones_nonneg by lia. rewrite andb_true_r.
      destruct (Z.ltb_spec i (32 - p)), (Z.leb_spec (32 - p) i); try done; lia.
    + rewrite Z.mod_pow2_bits_high by lia. by rewrite andb_false_r.
  - rewrite Z.bits_0. destruct (Z.leb_spec (32 - p) i), (Z.ltb_spec i 32); try done; lia.
Qed.

Lemma masked_eq a b p : in_u 32 a → in_u 32 b → 0 ≤ p ≤ 32 →
  Z.land a (prefix_mask p) = Z.land b (prefix_mask p) ↔ Z.shiftr a (32 - p) = Z.shiftr b (32 - p).
Proof.
  intros Ha Hb Hp. split; intros E; apply Z.bits_inj'; intros i Hi.
  - rewrite !Z.shiftr_spec by done. destruct (Z.ltb_spec (i + (32 - p)) 32) as [Hlt|Hge].
    + apply (f_equal (λ z, Z.testbit z (i + (32 - p)))) in E. rewrite !Z.land_spec, !prefix_mask_bits in E by lia.
      rewrite (proj2 (Z.leb_le _ _)), (proj2 (Z.ltb_lt _ _)), !andb_true_r in E by lia. done.
    + rewrite !testbit_above by (done || lia). done.
  - rewrite !Z.land_spec, !prefix_mask_bits by lia. destruct (Z.leb_spec (32 - p) i); [|by rewrite !andb_false_r].
    apply (f_equal (λ z, Z.testbit z (i - (32 - p)))) in E. rewrite !Z.shiftr_spec in E by lia.
    replace (i - (32 - p) + (32 - p)) with i in E by lia. by rewrite E.
Qed.

Lemma all_digits acc s : str_all is_digit s = true → (leading_digits acc s).2 = "".
Proof.
  revert acc. induction s as [|c s IH]; intros acc; cbn [str_all leading_digits]; [done|].
  rewrite andb_true_iff. unfold is_digit at 1. intros [Hc Hs]. destruct (FilterParser.digit_value c); [|done]. by apply IH.
Qed.

Lemma stoi_digits s : s ≠ "" → str_all is_digit s = true →
  stoi s = if bool_decide (in_s 32 (leading_digits 0 s).1) then Some ((leading_digits 0 s).1, "") else None.
Proof.
  intros Hne Hs. pose proof (all_digits 0 s Hs) as Hrest. unfold stoi, scan_integer.
  destruct s as [|c s]; [done|]. cbn [str_all] in Hs. apply andb_true_iff in Hs as [Hc Hs].
  destruct (digit_plain c Hc) as (H1 & H2 & H3 & _). cbn [FilterParser.skip_space]. rewrite H3, H1, H2.
  unfold is_digit in Hc. destruct (FilterParser.digit_value c) as [d|] eqn:Hd; [|done]. rewrite bool_decide_true by done.
  destruct (leading_digits 0 (String c s)) as [m rest]. cbn in Hrest |- *. by subst rest.
Qed.

(** [s] is the text of a range: an address, a slash, and a prefix length. *)
Definition range_text (s : string) (base p : Z) : Prop :=
  ∃ ip pre, s = ip +:+ "/" +:+ pre ∧ str_free "/" ip ∧ inet_pton ip = Some base ∧
    pre ≠ "" ∧ str_all is_digit pre = true ∧ leading_digits 0 pre = (p, "") ∧ p ≤ 32.

Lemma ParsePrefix_Some pre p :
  ParsePrefix pre = Some p ↔ pre ≠ "" ∧ str_all is_digit pre = true ∧ leading_digits 0 pre = (p, "") ∧ p ≤ 32.
Proof.
  unfold ParsePrefix, kIPv4BitCount. destruct (decide (pre = "")) as [->|Hne]; [by split; [|intros []]|].
  rewrite bool_decide_false by done. destruct (str_all is_digit pre) eqn:Hd; [|by split; [|intros (_ & [=] & _)]]. cbn [negb orb].
  rewrite stoi_digits by done. pose proof (leading_digits_nonneg 0 pre ltac:(done)) as H0. pose proof (all_digits 0 pre Hd) as Hr.
  destruct (leading_digits 0 pre) as [m rest]. cbn in *. subst rest. case_bool_decide as Hs; cbn.
  - destruct (Z.ltb_spec m 0), (Z.ltb_spec 32 m); cbn; (split; [intros [= <-] || intros [=]; try done|intros (_ & _ & [= ->] & ?)]); try done; lia.
  - split; [done|]. intros (_ & _ & [= ->] & Hp). destruct Hs. unfold in_s. lia.
Qed.

Lemma Parse_Some s c :
  Parse s = Some c ↔ ∃ base p, range_text s base p ∧ c = MkCIDR (Z.land base (prefix_mask p)) (prefix_mask p) p.
Proof.
  unfold Parse, ParseIPv4. split.
  - intros (n & Hn & (base & Hb & (p & Hp%ParsePrefix_Some & [= <-])%bind_Some)%bind_Some)%bind_Some.
    apply find_char_Some in Hn as [Hs Hf]. exists base, p. split; [|done]. exists (str_take n s), (str_drop (S n) s). done.
  - intros (base & p & (ip & pre & -> & Hf & Hb & Hp%ParsePrefix_Some) & ->).
    change ("/" +:+ pre) with (String "/" pre).
    rewrite find_char_first by done. cbn [mbind option_bind]. rewrite str_take_app, Hb. cbn [mbind option_bind].
    replace (str_drop (S (String.length ip)) (ip +:+ String "/" pre)) with pre; [by rewrite Hp|].
    clear. induction ip as [|a ip IH]; [by rewrite app_nil|]. cbn [String.length]. rewrite app_cons. exact IH.
Qed.

Lemma range_text_inj s b p b' p' : range_text s b p → range_text s b' p' → b = b' ∧ p = p'.
Proof.
  intros (ip & pre & -> & Hf & Hb & Hne & Hd & Hl & _) (ip' & pre' & Hs & Hf' & Hb' & _ & _ & Hl' & _).
  destruct (str_field_inj "/" ip ip' ("/" +:+ pre) ("/" +:+ pre')) as [-> Ht]; try done.
  apply str_app_inj in Ht as ->. split; congruence.
Qed.

Lemma Contains_range s c base p a : range_text s base p → c = MkCIDR (Z.land base (prefix_mask p)) (prefix_mask p) p → in_u 32 a →
  Contains a c = true ↔ Z.shiftr a (32 - p) = Z.shiftr base (32 - p).
Proof.
  intros (ip & pre & _ & _ & Hb & _ & _ & Hl & Hp) -> Ha. unfold Contains. cbn. rewrite Z.eqb_eq. apply masked_eq; [done| |].
  - by eapply inet_pton_range.
  - pose proof (leading_digits_nonneg 0 pre ltac:(done)) as H0. rewrite Hl in H0. cbn in H0. lia.
Qed.

(** C0: the access control list.  Both forms of the list accept an address
    exactly when it agrees with some well-formed range of the list on the bits
    of its prefix: an empty list, an ill-formed range and an ill-formed address
    accept nothing. *)
Theorem acl_exact cidrs ip :
  IsIPAllowed ip (parse_allow_cidrs cidrs) = IsIPAllowedText ip cidrs ∧
  (IsIPAllowedText ip cidrs = true ↔
     ∃ a s base p, inet_pton ip = Some a ∧ s ∈ cidrs ∧ range_text s base p ∧ Z.shiftr a (32 - p) = Z.shiftr base (32 - p)).
Proof.
  assert (Hnil : ∀ {A} (l : list A) (b : bool), (l = [] → b = false) → (if bool_decide (length l = 0%nat) then false else b) = b).
  { intros A l b Hl. case_bool_decide as E; [|done]. by rewrite Hl by (by apply nil_length_inv). }
  unfold IsIPAllowed, IsIPAllowedText, parse_allow_cidrs. rewrite !Hnil; [| |]; unfold ParseIPv4.
  2, 3: by intros ->; destruct (inet_pton ip).
  destruct (inet_pton ip) as [a|] eqn:Ha; [|split; [done|split; [done|by intros (? & ? & ? & ? & [=] & _)]]].
  split.
  - induction cidrs as [|s cidrs IH]; cbn; [done|]. destruct (Parse s); cbn; by rewrite IH.
  - rewrite existsb_exists. split.
    + intros (s & Hs%list_elem_of_In & Hc). destruct (Parse s) as [c|] eqn:Hp; [|done].
      apply Parse_Some in Hp as (base & p & Hr & Hcp). exists a, s, base, p. split_and!; try done.
      eapply Contains_range; eauto using inet_pton_range.
    + intros (a' & s & base & p & [= <-] & Hs & Hr & Heq). exists s. split; [by apply list_elem_of_In|].
      destruct (Parse s) as [c|] eqn:Hp.
      2: { assert (E : Parse s = Some (MkCIDR (Z.land base (prefix_mask p)) (prefix_mask p) p)) by (apply Parse_Some; eauto). congruence. }
      assert (Hc : c = MkCIDR (Z.land base (prefix_mask p)) (prefix_mask p) p).
      { apply Parse_Some in Hp as (b' & p' & Hr' & ->). by destruct (range_text_inj s b' p' base p Hr' Hr) as [-> ->]. }
      eapply Contains_range; eauto using inet_pton_range.
Qed.
End network.
