(* ===== verification/ConnectionAcceptor.v ===== *)
(** * Accepting connections (src/server/connection_acceptor.cpp, with the
    registration of src/server/nvecd_server.cpp and [IoReactor])

    The two acceptors of the server, TCP and Unix domain, with the descriptors of
    the process.  Each accept thread runs [AcceptLoop]; the reactor closes
    connections from its own threads, and in the legacy mode a worker does.  One
    step is one critical section under [fds_mutex_] or one system call, and the
    steps interleave in any order.  The kernel hands out any number that is not
    open, so a number closed too early can come back.

    Socket options and log lines are left out, and so is [Stop], which only ends
    the loops. *)

From S2P Require Import Prelude NetworkUtils.
#[local] Open Scope Z_scope.

Section acceptor.
Context {inet : Inet}.

(** ** The accounting of one acceptor *)

Record ServerConfig : Type := MkServerConfig {
  max_connections : Z;
  max_connections_per_ip : Z;
  parsed_allow_cidrs : list CIDR
}.

Record Acceptor : Type := MkAcceptor {
  active_fds_ : gset Z;
  per_ip_connections_ : gmap string Z;
  fd_to_ip_ : gmap Z string
}.

Definition connection_limit_reached (config : ServerConfig) (a : Acceptor) : bool :=
  max_connections config <=? Z.of_nat (size (active_fds_ a)).

(** The access control list, which a Unix domain socket skips. *)
Definition acl_allows (config : ServerConfig) (unix : bool) (client_ip : string) : bool :=
  unix || IsIPAllowed client_ip (parsed_allow_cidrs config).

Definition counted (client_ip : string) : bool := negb (bool_decide (client_ip = "")) && negb (bool_decide (client_ip = "unix")).

Definition per_ip_limit_reached (config : ServerConfig) (client_ip : string) (a : Acceptor) : bool :=
  (0 <? max_connections_per_ip config) && counted client_ip &&
  match per_ip_connections_ a !! client_ip with Some n => max_connections_per_ip config <=? n | None => false end.

Definition Track (fd : Z) (client_ip : string) (a : Acceptor) : Acceptor :=
  if counted client_ip
  then MkAcceptor ({[fd]} ∪ active_fds_ a)
         (<[client_ip := default 0 (per_ip_connections_ a !! client_ip) + 1]> (per_ip_connections_ a))
         (<[fd := client_ip]> (fd_to_ip_ a))
  else MkAcceptor ({[fd]} ∪ active_fds_ a) (per_ip_connections_ a) (fd_to_ip_ a).

Definition RemoveConnection (fd : Z) (a : Acceptor) : Acceptor :=
  let active := active_fds_ a ∖ {[fd]} in
  match fd_to_ip_ a !! fd with
  | None => MkAcceptor active (per_ip_connections_ a) (fd_to_ip_ a)
  | Some ip =>
      let count := default 0 (per_ip_connections_ a !! ip) in
      let count := if 0 <? count then count - 1 else count in
      MkAcceptor active
        (if count =? 0 then delete ip (per_ip_connections_ a) else <[ip := count]> (per_ip_connections_ a))
        (delete fd (fd_to_ip_ a))
  end.

(** ** The server *)

(** Where an accept thread stands with the descriptor it accepted. *)
Inductive Thread : Type :=
| Accepting
| CheckingLimit (fd : Z) (ip : string)
| CheckingAcl (fd : Z) (ip : string)
| CheckingIp (fd : Z) (ip : string)
| Tracking (fd : Z) (ip : string)
| HandingOff (fd : Z)
| Registering (fd : Z)        (* active_connections counted *)
| Refused (fd : Z)            (* by the reactor, whose connection object has closed it *)
| ClosingAgain (fd : Z)       (* after that: close(client_fd) *)
| Closing (fd : Z)            (* refused by the pool, or nobody to serve it *)
| Removing (fd : Z).          (* closed: RemoveConnection *)

(** The rest of [Unregister]: both acceptors, the counter, and the release of
    the last reference, whose destructor closes the descriptor. *)
Inductive Release : Type := ReleaseTcp | ReleaseUnix | ReleaseCount | ReleaseFd.

(** A task of the legacy mode: the handler, [RemoveConnection], [close]. *)
Inductive Task : Type := Serving | TaskRemoving | TaskClosing.

Inductive Handler : Type := ReactorHandler | PoolHandler | NoHandler.

Record Side : Type := MkSide { accounts : Acceptor; thread : Thread }.

Record Net : Type := MkNet {
  tcp : Side;
  uds : Side;
  registered : gset Z;                (* connections_ of the reactor *)
  releasing : list (Z * Release);
  tasks : list (bool * Z * Task);
  open_fds : gset Z;                  (* client descriptors the process has open *)
  active_connections : Z
}.

(** The acceptor: [true] is the Unix domain one. *)
Definition side (s : Net) (u : bool) : Side := if u then uds s else tcp s.
Definition with_side (u : bool) (x : Side) (s : Net) : Net :=
  MkNet (if u then tcp s else x) (if u then x else uds s) (registered s) (releasing s) (tasks s) (open_fds s) (active_connections s).
Definition with_thread (u : bool) (th : Thread) (s : Net) : Net := with_side u (MkSide (accounts (side s u)) th) s.
Definition with_accounts (u : bool) (f : Acceptor → Acceptor) (s : Net) : Net :=
  with_side u (MkSide (f (accounts (side s u))) (thread (side s u))) s.
Definition with_registered (r : gset Z) (s : Net) : Net := MkNet (tcp s) (uds s) r (releasing s) (tasks s) (open_fds s) (active_connections s).
Definition with_releasing (r : list (Z * Release)) (s : Net) : Net := MkNet (tcp s) (uds s) (registered s) r (tasks s) (open_fds s) (active_connections s).
Definition with_tasks (ts : list (bool * Z * Task)) (s : Net) : Net := MkNet (tcp s) (uds s) (registered s) (releasing s) ts (open_fds s) (active_connections s).
Definition with_open (o : gset Z) (s : Net) : Net := MkNet (tcp s) (uds s) (registered s) (releasing s) (tasks s) o (active_connections s).
Definition with_count (n : Z) (s : Net) : Net := MkNet (tcp s) (uds s) (registered s) (releasing s) (tasks s) (open_fds s) n.
Definition closes (fd : Z) (s : Net) : Net := with_open (open_fds s ∖ {[fd]}) s.

Context (config : bool → ServerConfig) (handler : Handler).

(** [accept] and [inet_ntop], which may fail to name the peer. *)
Definition Accept (u : bool) (fd : Z) (peer : option Z) (s : Net) : option Net :=
  match thread (side s u) with
  | Accepting =>
      if bool_decide (fd ∈ open_fds s) then None
      else
        let ip := if u then "unix" else match peer with Some a => IPv4ToString a | None => "" end in
        Some (with_thread u (CheckingLimit fd ip) (with_open ({[fd]} ∪ open_fds s) s))
  | _ => None
  end.

(** The next step of the accept thread.  [ok] is the answer of the reactor or of
    the pool where they are asked. *)
Definition AcceptLoop (u : bool) (ok : bool) (s : Net) : option Net :=
  let refuse fd := Some (with_thread u Accepting (closes fd s)) in
  match thread (side s u) with
  | Accepting => None
  | CheckingLimit fd ip =>
      if connection_limit_reached (config u) (accounts (side s u)) then refuse fd
      else Some (with_thread u (CheckingAcl fd ip) s)
  | CheckingAcl fd ip =>
      if acl_allows (config u) u ip then Some (with_thread u (CheckingIp fd ip) s) else refuse fd
  | CheckingIp fd ip =>
      if per_ip_limit_reached (config u) ip (accounts (side s u)) then refuse fd
      else Some (with_thread u (Tracking fd ip) s)
  | Tracking fd ip => Some (with_thread u (HandingOff fd) (with_accounts u (Track fd ip) s))
  | HandingOff fd =>
      match handler with
      | ReactorHandler => Some (with_thread u (Registering fd) (with_count (active_connections s + 1) s))
      | PoolHandler =>
          if ok then Some (with_thread u Accepting (with_tasks (tasks s ++ [(u, fd, Serving)]) s))
          else Some (with_thread u (Closing fd) s)
      | NoHandler => Some (with_thread u (Closing fd) s)
      end
  | Registering fd =>
      if ok && bool_decide (fd ∉ registered s)
      then Some (with_thread u Accepting (with_registered ({[fd]} ∪ registered s) s))
      else Some (with_thread u (Refused fd) (closes fd s))
  | Refused fd => Some (with_thread u (ClosingAgain fd) (with_count (active_connections s - 1) s))
  | ClosingAgain fd | Closing fd => Some (with_thread u (Removing fd) (closes fd s))
  | Removing fd => Some (with_thread u Accepting (with_accounts u (RemoveConnection fd) s))
  end.

(** [IoReactor::Unregister]. *)
Definition Unregister (fd : Z) (s : Net) : option Net :=
  if bool_decide (fd ∈ registered s)
  then Some (with_registered (registered s ∖ {[fd]}) (with_releasing (releasing s ++ [(fd, ReleaseTcp)]) s)) else None.
Definition Releases (i : nat) (s : Net) : option Net :=
  '(fd, r) ← releasing s !! i;
  Some (match r with
        | ReleaseTcp => with_accounts false (RemoveConnection fd) (with_releasing (<[i := (fd, ReleaseUnix)]> (releasing s)) s)
        | ReleaseUnix => with_accounts true (RemoveConnection fd) (with_releasing (<[i := (fd, ReleaseCount)]> (releasing s)) s)
        | ReleaseCount => with_count (active_connections s - 1) (with_releasing (<[i := (fd, ReleaseFd)]> (releasing s)) s)
        | ReleaseFd => closes fd (with_releasing (delete i (releasing s)) s)
        end).

(** The task of [AcceptLoop] on a worker. *)
Definition RunTask (i : nat) (s : Net) : option Net :=
  '(u, fd, t) ← tasks s !! i;
  Some (match t with
        | Serving => with_tasks (<[i := (u, fd, TaskRemoving)]> (tasks s)) s
        | TaskRemoving => with_accounts u (RemoveConnection fd) (with_tasks (<[i := (u, fd, TaskClosing)]> (tasks s)) s)
        | TaskClosing => closes fd (with_tasks (delete i (tasks s)) s)
        end).

Inductive Label : Type :=
| LAccept (u : bool) (fd : Z) (peer : option Z)
| LLoop (u : bool) (ok : bool)
| LUnregister (fd : Z)
| LRelease (i : nat)
| LTask (i : nat).

Definition exec (l : Label) (s : Net) : option Net :=
  match l with
  | LAccept u fd peer => Accept u fd peer s
  | LLoop u ok => AcceptLoop u ok s
  | LUnregister fd => Unregister fd s
  | LRelease i => Releases i s
  | LTask i => RunTask i s
  end.

Definition new_acceptor : Acceptor := MkAcceptor ∅ ∅ ∅.
Definition new_net : Net := MkNet (MkSide new_acceptor Accepting) (MkSide new_acceptor Accepting) ∅ [] [] ∅ 0.
End acceptor.
