(* ===== verification/ConnectionAccounting.v ===== *)
(** * The accounting of connections

    [connection_accounting]: however the accept threads, the reactor and the
    workers interleave, the limits hold, the counters are exact, only addresses
    of the access control list are served, and every open descriptor has one
    holder.  The runs are those in which a number that the reactor has closed on
    a failed registration is not in use again when [AcceptLoop] closes it a
    second time; [Hazards] shows what happens otherwise. *)

From S2P Require Import Prelude NetworkUtils ConnectionAcceptor.
#[local] Open Scope Z_scope.

Section accounting.
Context {inet : Inet} (config : bool → ServerConfig).

(** ** The accounts of one acceptor *)

(** The connections of one address. *)
Definition ip_count (ip : string) (m : gmap Z string) : nat := size (filter (λ kv : Z * string, kv.2 = ip) m).

Record acc_ok (u : bool) (a : Acceptor) : Prop := {
  acc_ips : if u then fd_to_ip_ a = ∅ else dom (fd_to_ip_ a) = active_fds_ a;
  acc_per_ip : ∀ ip, per_ip_connections_ a !! ip = if bool_decide (ip_count ip (fd_to_ip_ a) = 0%nat) then None else Some (Z.of_nat (ip_count ip (fd_to_ip_ a)));
  acc_allowed : ∀ fd ip, fd_to_ip_ a !! fd = Some ip → counted ip = true ∧ acl_allows (config u) u ip = true;
  acc_limit : Z.of_nat (size (active_fds_ a)) ≤ Z.max 0 (max_connections (config u));
  acc_ip_limit : 0 < max_connections_per_ip (config u) → ∀ ip, Z.of_nat (ip_count ip (fd_to_ip_ a)) ≤ max_connections_per_ip (config u)
}.

Lemma acl_counted ip : acl_allows (config false) false ip = true → counted ip = true.
Proof.
  unfold acl_allows, IsIPAllowed, ParseIPv4, counted. cbn. case_bool_decide; [done|]. destruct inet_pton_not as [H1 H2].
  destruct (decide (ip = "")) as [->|Hn1]; [by rewrite H1|]. destruct (decide (ip = "unix")) as [->|Hn2]; [by rewrite H2|].
  intros _. by rewrite !bool_decide_false by done.
Qed.

Lemma ip_count_insert fd ip ip' (m : gmap Z string) : m !! fd = None →
  ip_count ip' (<[fd := ip]> m) = ((if bool_decide (ip = ip') then 1 else 0) + ip_count ip' m)%nat.
Proof.
  intros Hn. unfold ip_count. rewrite map_filter_insert. cbn. case_decide as E; [rewrite bool_decide_true by done|rewrite bool_decide_false by done].
  - rewrite map_size_insert_None; [done|]. rewrite map_lookup_filter_None. by left.
  - by rewrite delete_id.
Qed.

Lemma ip_count_delete fd ip ip' (m : gmap Z string) : m !! fd = Some ip →
  ip_count ip' m = ((if bool_decide (ip = ip') then 1 else 0) + ip_count ip' (delete fd m))%nat.
Proof.
  intros Hs. pose proof (ip_count_insert fd ip ip' (delete fd m) (lookup_delete_eq _ _)) as H. by rewrite insert_delete_id in H.
Qed.

Lemma Track_ok u fd ip a :
  acc_ok u a → fd ∉ active_fds_ a → Z.of_nat (size (active_fds_ a)) < max_connections (config u) →
  acl_allows (config u) u ip = true → (u = true → ip = "unix") → per_ip_limit_reached (config u) ip a = false →
  acc_ok u (Track fd ip a).
Proof.
  intros [H1 H2 H3 H4 H5] Hfd Hmax Hacl Hu Hip. unfold Track.
  assert (Hsize : size ({[fd]} ∪ active_fds_ a) = S (size (active_fds_ a))).
  { rewrite size_union by set_solver. by rewrite size_singleton. }
  destruct (counted ip) eqn:Hc.
  - assert (u = false) as -> by (destruct u; [by rewrite Hu in Hc|done]).
    assert (Hn : fd_to_ip_ a !! fd = None) by (apply not_elem_of_dom; by rewrite H1).
    pose proof (λ ip', ip_count_insert fd ip ip' (fd_to_ip_ a) Hn) as Hcnt.
    split; cbn.
    + by rewrite dom_insert_L, H1.
    + intros ip'. rewrite Hcnt. destruct (decide (ip = ip')) as [<-|Hne].
      * rewrite lookup_insert_eq, (bool_decide_true (ip = ip)), bool_decide_false, H2 by (done || lia). case_bool_decide as E; cbn; f_equal; lia.
      * rewrite lookup_insert_ne, (bool_decide_false (ip = ip')) by done. apply H2.
    + intros fd' ip'. destruct (decide (fd' = fd)) as [->|Hne]; [rewrite lookup_insert_eq; by intros [= <-]|].
      rewrite lookup_insert_ne by done. apply H3.
    + rewrite Hsize. lia.
    + intros Hpos ip'. rewrite Hcnt. specialize (H5 Hpos). destruct (decide (ip = ip')) as [<-|Hne]; [|rewrite bool_decide_false by done; apply H5].
      rewrite bool_decide_true by done. unfold per_ip_limit_reached in Hip. rewrite (proj2 (Z.ltb_lt _ _) Hpos), Hc, H2 in Hip. cbn in Hip.
      case_bool_decide as E; [lia|]. apply Z.leb_gt in Hip. lia.
  - destruct u; [|by rewrite acl_counted in Hc]. split; cbn; try done. rewrite Hsize. lia.
Qed.

Lemma RemoveConnection_ok u fd a : acc_ok u a → acc_ok u (RemoveConnection fd a).
Proof.
  intros [H1 H2 H3 H4 H5]. unfold RemoveConnection.
  assert (Hsize : (size (active_fds_ a ∖ {[fd]}) ≤ size (active_fds_ a))%nat) by (apply subseteq_size; set_solver).
  destruct (fd_to_ip_ a !! fd) as [ip|] eqn:Hip.
  - destruct u; [by rewrite H1 in Hip|]. pose proof (λ ip', ip_count_delete fd ip ip' (fd_to_ip_ a) Hip) as Hcnt.
    pose proof (Hcnt ip) as Hself. rewrite bool_decide_true in Hself by done.
    rewrite H2, bool_decide_false by lia. cbn [default from_option id]. rewrite (proj2 (Z.ltb_lt 0 _)) by lia.
    split; cbn.
    + rewrite dom_delete_L, H1. done.
    + intros ip'. specialize (Hcnt ip'). destruct (decide (ip = ip')) as [<-|Hne].
      * destruct (Z.eqb_spec (Z.of_nat (ip_count ip (fd_to_ip_ a)) - 1) 0).
        -- rewrite lookup_delete_eq, bool_decide_true by lia. done.
        -- rewrite lookup_insert_eq, bool_decide_false by lia. f_equal. lia.
      * rewrite bool_decide_false in Hcnt by done. cbn in Hcnt. rewrite <- Hcnt, <- H2.
        destruct (_ =? 0); [by rewrite lookup_delete_ne|by rewrite lookup_insert_ne].
    + intros fd' ip' [_ Hl]%lookup_delete_Some. by eapply H3.
    + lia.
    + intros Hpos ip'. specialize (H5 Hpos ip'). specialize (Hcnt ip'). lia.
  - split; cbn; try done; [|lia]. destruct u; [done|]. rewrite <- H1. apply not_elem_of_dom in Hip. set_solver.
Qed.

Lemma Remove_active fd fd' a : fd' ∈ active_fds_ (RemoveConnection fd a) ↔ fd' ∈ active_fds_ a ∧ fd' ≠ fd.
Proof. unfold RemoveConnection. destruct (fd_to_ip_ a !! fd); cbn; set_solver. Qed.

Lemma Track_active fd ip fd' a : fd' ∈ active_fds_ (Track fd ip a) ↔ fd' = fd ∨ fd' ∈ active_fds_ a.
Proof. unfold Track. destruct (counted ip); cbn; set_solver. Qed.
End accounting.
