(* ===== verification/Selection.v ===== *)
(** * Selecting the best

    The bounded min-heap of the searches (similarity_engine.cpp, ivf_index.cpp)
    and the reservoir sampling that thins out what they scan. *)

From S2P Require Import Prelude Floats.
#[local] Open Scope Z_scope.

(** ** The bounded heap *)

(** [std::priority_queue] gives some element of minimal score; which one among
    equals is its own affair. *)
Class MinHeap : Type := {
  heap_top : list (Z * nat) → nat;
  heap_top_lt : ∀ h, h ≠ [] → (heap_top h < length h)%nat;
  heap_top_min : ∀ h, h ≠ [] → Forall (λ p, not_nan p.1) h →
    ∃ p, h !! heap_top h = Some p ∧ ∀ q, q ∈ h → f32_ltb q.1 p.1 = false
}.

Section scan.
Context {heap : MinHeap}.

Definition heap_pop (h : list (Z * nat)) : list (Z * nat) := delete (heap_top h) h.
Definition heap_min (h : list (Z * nat)) : Z * nat := default (f32_zero, 0%nat) (h !! heap_top h).

(** One candidate: [k] is positive. *)
Definition heap_offer (k : nat) (h : list (Z * nat)) (c : Z * nat) : list (Z * nat) :=
  if (length h <? k)%nat then h ++ [c]
  else if f32_ltb (heap_min h).1 c.1 then heap_pop h ++ [c]
  else h.

(** The elements in the order they leave the heap. *)
Fixpoint heap_drain (n : nat) (h : list (Z * nat)) : list (Z * nat) :=
  match n with O => [] | S n => heap_min h :: heap_drain n (heap_pop h) end.

(** [std::sort] by descending score, and the heap's elements in that order. *)
Definition by_score (a b : Z * nat) : bool := f32_ltb b.1 a.1.
Definition drain_sorted (h : list (Z * nat)) : list (Z * nat) := std_sort by_score (heap_drain (length h) h).

(** What is scanned: every live row [admitted], scored. *)
Definition push_candidate (k : nat) (admitted : nat → bool) (score_of : nat → Z) (h : list (Z * nat)) (idx : nat)
    : list (Z * nat) :=
  if admitted idx then heap_offer k h (score_of idx, idx) else h.
End scan.

(** Reservoir sampling; [rng i] is the [i]-th random number. *)
Definition reservoir_step {A} (rng : nat → Z) (size : nat) (item : nat → A) (reservoir : list A) (i : nat) : list A :=
  let j := Z.to_nat (rng i mod (Z.of_nat i + 1)) in
  if (j <? size)%nat then <[j := item i]> reservoir else reservoir.
Definition SampleIndices (rng : nat → Z) (total sample_size : nat) : list nat :=
  if (total <=? sample_size)%nat then seq 0 total
  else fold_left (reservoir_step rng sample_size (λ i, i)) (seq sample_size (total - sample_size)) (seq 0 sample_size).

(** ** The scan keeps the best *)

Section scan_spec.
Context {heap : MinHeap}.

(** [h] holds [k] best of [l], or all of them. *)
Definition best (k : nat) (l h : list (Z * nat)) : Prop :=
  ∃ rest, h ++ rest ≡ₚ l ∧ length h = Nat.min k (length l) ∧
    ∀ x y, x ∈ h → y ∈ rest → f32_ltb x.1 y.1 = false.

Lemma best_nil k : best k [] [].
Proof. exists []. split_and!; [done|by rewrite Nat.min_0_r|set_solver]. Qed.

Lemma heap_min_spec h :
  h ≠ [] → Forall (λ p, not_nan p.1) h →
  heap_min h ∈ h ∧ h ≡ₚ heap_min h :: heap_pop h ∧ ∀ q, q ∈ h → f32_ltb q.1 (heap_min h).1 = false.
Proof.
  intros Hne Hnn. destruct (heap_top_min h Hne Hnn) as (p & Hp & Hmin). unfold heap_min, heap_pop. rewrite Hp. cbn [default].
  split_and!; [by eapply list_elem_of_lookup_2|by apply delete_Permutation|done].
Qed.

Lemma best_offer k l h c :
  (0 < k)%nat → Forall (λ p, not_nan p.1) (l ++ [c]) → best k l h → best k (l ++ [c]) (heap_offer k h c).
Proof.
  intros Hk [Hl [Hc _]%Forall_cons]%Forall_app (rest & Hp & Hlen & Hb).
  assert (Hh : Forall (λ p, not_nan p.1) (h ++ rest)) by (by rewrite Hp). apply Forall_app in Hh as [Hh Hrest].
  assert (Htot : (length h + length rest = length l)%nat) by (rewrite <- length_app; by rewrite Hp).
  unfold heap_offer, best. rewrite !length_app. cbn [length]. destruct (Nat.ltb_spec (length h) k) as [Hlt|Hge].
  - exists []. assert (rest = []) as -> by (destruct rest; [done|cbn in Htot; lia]).
    rewrite app_nil_r in *. rewrite length_app. cbn. split_and!; [by rewrite Hp|lia|set_solver].
  - assert (Hne : h ≠ []) by (intros ->; cbn in *; lia).
    destruct (heap_min_spec h Hne Hh) as (Hin & Hperm & Hmin).
    pose proof (Permutation_length Hperm) as Hpl. cbn in Hpl. rewrite Forall_forall in Hh, Hrest.
    case_match eqn:E.
    + exists (heap_min h :: rest). split_and!; [|rewrite length_app; cbn; lia|].
      * rewrite <- Hp. trans ((heap_min h :: heap_pop h) ++ rest ++ [c]); [|by rewrite <- Hperm, app_assoc].
        rewrite <- app_assoc. cbn [app]. rewrite (Permutation_app_comm rest [c]). cbn [app].
        trans (heap_pop h ++ heap_min h :: c :: rest); [apply Permutation_app_head, perm_swap|].
        symmetry. apply Permutation_middle.
      * intros x y Hx Hy. apply elem_of_app in Hx as [Hx|Hx%list_elem_of_singleton].
        -- assert (Hxh : x ∈ h) by (rewrite Hperm; by right).
           apply elem_of_cons in Hy as [->|Hy]; [by apply Hmin|by apply Hb].
        -- subst x. apply f32_ltb_asym in E; [|by apply Hh|done].
           apply elem_of_cons in Hy as [->|Hy]; [done|].
           apply (f32_ltb_trans_neg _ (heap_min h).1); [done|by apply Hh|by apply Hrest|done|by apply Hb].
    + exists (rest ++ [c]). split_and!; [by rewrite app_assoc, Hp|lia|].
      intros x y Hx Hy. apply elem_of_app in Hy as [Hy|Hy%list_elem_of_singleton]; [by apply Hb|]. subst y.
      apply (f32_ltb_trans_neg _ (heap_min h).1); [by apply Hh|by apply Hh|done|by apply Hmin|done].
Qed.

Lemma best_scan k admitted score_of idxs : ∀ l h,
  (0 < k)%nat → (∀ i, i ∈ idxs → admitted i = true → not_nan (score_of i)) → Forall (λ p, not_nan p.1) l → best k l h →
  best k (l ++ ((λ i, (score_of i, i)) <$> filter (λ i, admitted i = true) idxs))
    (fold_left (push_candidate k admitted score_of) idxs h).
Proof.
  induction idxs as [|i idxs IH]; intros l h Hk Hnn Hl Hb; cbn [fold_left]; [by rewrite app_nil_r|].
  unfold push_candidate at 2. destruct (admitted i) eqn:E.
  - rewrite filter_cons_True by done. cbn [fmap list_fmap]. rewrite cons_middle, app_assoc. apply IH; [done|set_solver| |].
    + apply Forall_app_2; [done|]. constructor; [apply Hnn; [left|done]|constructor].
    + apply best_offer; [done| |done]. apply Forall_app_2; [done|]. constructor; [apply Hnn; [left|done]|constructor].
  - rewrite filter_cons_False by (by rewrite E). apply IH; [done|set_solver|done|done].
Qed.

Lemma heap_pop_perm h : h ≠ [] → h ≡ₚ heap_min h :: heap_pop h.
Proof.
  intros Hne. destruct (lookup_lt_is_Some_2 h (heap_top h) (heap_top_lt h Hne)) as [p Hp].
  unfold heap_min, heap_pop. rewrite Hp. by apply delete_Permutation.
Qed.

Lemma heap_drain_all n : ∀ h, length h = n → heap_drain n h ≡ₚ h.
Proof.
  induction n as [|n IH]; intros h Hn; cbn [heap_drain]; [by destruct h|].
  assert (Hne : h ≠ []) by (by intros ->). pose proof (heap_pop_perm h Hne) as Hperm. rewrite Hperm at 3. constructor.
  apply IH. apply Permutation_length in Hperm. cbn in Hperm. lia.
Qed.

Lemma heap_drain_perm n h : length h = n → Forall (λ p, not_nan p.1) h → heap_drain n h ≡ₚ h.
Proof. intros Hn _. by apply heap_drain_all. Qed.

Lemma by_score_sorted l : Forall (λ p, not_nan p.1) l → StronglySorted (comp_le by_score) (std_sort by_score l).
Proof.
  apply std_sort_sorted; [intros a b ? ?; unfold by_score; by apply f32_ltb_asym|].
  unfold by_score. intros a b c Ha Hb Hc H1 H2. by apply (f32_ltb_trans_neg _ b.1).
Qed.

Lemma drain_sorted_perm h : drain_sorted h ≡ₚ h.
Proof. unfold drain_sorted. rewrite std_sort_perm. by apply heap_drain_all. Qed.
End scan_spec.


(** ** One admissible heap: the first minimum *)

Fixpoint first_min (h : list (Z * nat)) : nat :=
  match h with
  | [] => 0
  | [_] => 0
  | p :: h => let i := first_min h in
              match h !! i with Some q => if f32_ltb q.1 p.1 then S i else 0%nat | None => 0%nat end
  end.

Lemma first_min_cons p p' h :
  first_min (p :: p' :: h) =
  match (p' :: h) !! first_min (p' :: h) with
  | Some q => if f32_ltb q.1 p.1 then S (first_min (p' :: h)) else 0%nat
  | None => 0%nat
  end.
Proof. done. Qed.

Lemma first_min_spec h :
  h ≠ [] → Forall (λ p, not_nan p.1) h → ∃ p, h !! first_min h = Some p ∧ ∀ q, q ∈ h → f32_ltb q.1 p.1 = false.
Proof.
  intros Hne Hnn. induction Hnn as [|p h Hp Hh IH]; [done|]. destruct h as [|p' h].
  - exists p. split; [done|]. intros q ->%list_elem_of_singleton. apply not_true_is_false. intros E.
    pose proof (f32_ltb_asym _ _ Hp Hp E). congruence.
  - destruct IH as (q & Hq & Hmin); [done|]. rewrite first_min_cons, Hq.
    rewrite Forall_forall in Hh. assert (Hqn : not_nan q.1) by (by apply Hh, (list_elem_of_lookup_2 _ (first_min (p' :: h)))).
    destruct (f32_ltb q.1 p.1) eqn:E.
    + exists q. split; [done|]. intros x [->|Hx]%elem_of_cons; [by apply f32_ltb_asym|by apply Hmin].
    + exists p. split; [done|]. intros x [->|Hx]%elem_of_cons.
      * apply not_true_is_false. intros F. pose proof (f32_ltb_asym _ _ Hp Hp F). congruence.
      * apply (f32_ltb_trans_neg _ q.1); [by apply Hh|done|done|by apply Hmin|done].
Qed.

Lemma first_min_lt h : h ≠ [] → (first_min h < length h)%nat.
Proof.
  induction h as [|p [|p' h] IH]; [done|cbn; lia|]. intros _. rewrite first_min_cons. specialize (IH ltac:(done)).
  cbn [length] in *. repeat case_match; lia.
Qed.

#[local] Instance first_heap : MinHeap :=
  {| heap_top := first_min; heap_top_lt := first_min_lt; heap_top_min := first_min_spec |}.

(** The same from the other end: the first maximum. *)
Fixpoint first_max (h : list (Z * nat)) : nat :=
  match h with
  | [] => 0
  | [_] => 0
  | p :: h => let i := first_max h in
              match h !! i with Some q => if f32_ltb p.1 q.1 then S i else 0%nat | None => 0%nat end
  end.

Lemma first_max_cons p p' h :
  first_max (p :: p' :: h) =
  match (p' :: h) !! first_max (p' :: h) with
  | Some q => if f32_ltb p.1 q.1 then S (first_max (p' :: h)) else 0%nat
  | None => 0%nat
  end.
Proof. done. Qed.

Lemma first_max_lt h : h ≠ [] → (first_max h < length h)%nat.
Proof.
  induction h as [|p [|p' h] IH]; [done|cbn; lia|]. intros _. rewrite first_max_cons. specialize (IH ltac:(done)).
  cbn [length] in *. repeat case_match; lia.
Qed.

Lemma first_max_spec h :
  h ≠ [] → Forall (λ p, not_nan p.1) h → ∃ p, h !! first_max h = Some p ∧ ∀ q, q ∈ h → f32_ltb p.1 q.1 = false.
Proof.
  intros Hne Hnn. induction Hnn as [|p h Hp Hh IH]; [done|]. destruct h as [|p' h].
  - exists p. split; [done|]. intros q ->%list_elem_of_singleton. apply f32_ltb_irrefl.
  - destruct IH as (q & Hq & Hmax); [done|]. rewrite first_max_cons, Hq.
    rewrite Forall_forall in Hh. assert (Hqn : not_nan q.1) by (by apply Hh, (list_elem_of_lookup_2 _ (first_max (p' :: h)))).
    destruct (f32_ltb p.1 q.1) eqn:E.
    + exists q. split; [done|]. intros x [->|Hx]%elem_of_cons; [by apply f32_ltb_asym|by apply Hmax].
    + exists p. split; [done|]. intros x [->|Hx]%elem_of_cons; [apply f32_ltb_irrefl|].
      apply (f32_ltb_trans_neg _ q.1); [done|done|by apply Hh|done|by apply Hmax].
Qed.

(** ** Reservoir sampling *)

Lemma reservoir_step_ok rng size l i :
  NoDup l → (∀ x, x ∈ l → x < i)%nat →
  let l' := reservoir_step rng size (λ i, i) l i in NoDup l' ∧ (∀ x, x ∈ l' → x < S i)%nat ∧ length l' = length l.
Proof.
  intros Hn Hlt. cbv zeta. unfold reservoir_step. set (j := Z.to_nat _). destruct (j <? size)%nat.
  - split_and!; [| |apply length_insert].
    + apply NoDup_alt. intros a b x Ha Hb. apply list_lookup_insert_Some in Ha as [(<- & <- & _)|[Hja Ha]];
        apply list_lookup_insert_Some in Hb as [(<- & Hx & _)|[Hjb Hb]]; [done|..].
      * apply list_elem_of_lookup_2, Hlt in Hb. lia.
      * subst x. apply list_elem_of_lookup_2, Hlt in Ha. lia.
      * by eapply NoDup_lookup.
    + intros x (a & Ha)%list_elem_of_lookup. apply list_lookup_insert_Some in Ha as [(_ & <- & _)|[_ Ha]]; [lia|].
      apply list_elem_of_lookup_2, Hlt in Ha. lia.
  - split_and!; [done| |done]. intros x Hx%Hlt. lia.
Qed.

(** Sampling without replacement: distinct rows, as many as asked for. *)
Lemma SampleIndices_spec rng total sample_size :
  let l := SampleIndices rng total sample_size in
  NoDup l ∧ (∀ x, x ∈ l → x < total)%nat ∧ length l = Nat.min total sample_size.
Proof.
  cbv zeta. unfold SampleIndices. destruct (Nat.leb_spec total sample_size) as [Hle|Hlt].
  { split_and!; [apply NoDup_seq| |rewrite length_seq; lia]. intros x Hx%elem_of_seq. lia. }
  assert (Hgo : ∀ n start l, NoDup l → (∀ x, x ∈ l → x < start)%nat →
    let l' := fold_left (reservoir_step rng sample_size (λ i, i)) (seq start n) l in
    NoDup l' ∧ (∀ x, x ∈ l' → x < start + n)%nat ∧ length l' = length l).
  { induction n as [|n IH]; intros start l Hn Hl; cbn; [by rewrite Nat.add_0_r|].
    destruct (reservoir_step_ok rng sample_size l start Hn Hl) as (Hn' & Hl' & Hlen).
    destruct (IH (S start) _ Hn' Hl') as (? & Hb & Hlen'). split_and!; [done| |congruence]. intros x Hx%Hb. lia. }
  destruct (Hgo (total - sample_size)%nat sample_size (seq 0 sample_size)) as (? & Hb & Hlen).
  - apply NoDup_seq.
  - intros x Hx%elem_of_seq. lia.
  - split_and!; [done|intros x Hx%Hb; lia|rewrite Hlen, length_seq; lia].
Qed.
