(* ===== verification/IvfIndex.v ===== *)
(** * [vectors::IvfIndex] (src/vectors/ivf_index.h, ivf_index.cpp)

    Inverted lists over k-means clusters, with a write buffer in front and a
    sealing tier between the two.  The random choices of the training are
    arguments.  Flat arrays of rows are flat lists, as in the code; a pointer is
    the list of what it points to. *)

From S2P Require Import Prelude Floats Distance VectorStore Selection.
#[local] Open Scope Z_scope.

Inductive IvfMetric : Type := kCosine | kDot | kL2.
#[export] Instance IvfMetric_eq_dec : EqDecision IvfMetric.
Proof. solve_decision. Defined.

Definition IvfMetricFromString (metric : string) : IvfMetric :=
  if bool_decide (metric = "dot") then kDot else if bool_decide (metric = "l2") then kL2 else kCosine.

Record IvfConfig : Type := MkIvfConfig {
  nlist : Z;
  nprobe : Z;
  max_iterations : nat;
  convergence_threshold : Z;      (* float *)
  seal_threshold : Z;
  ivf_metric : IvfMetric
}.

Record IvfIndex : Type := MkIvf {
  ivf_config : IvfConfig;
  ivf_dimension : nat;
  trained_ : bool;
  centroids_ : list Z;            (* nlist x dimension *)
  centroid_norms_ : list Z;
  inverted_lists_ : list (list nat);
  layout_generation_ : Z;
  buffer_indices_ : list nat;
  buffer_vectors_ : list Z;
  sealing_indices_ : list nat;
  sealing_vectors_ : list Z
}.

Definition new_ivf (dimension : nat) (cfg : IvfConfig) : IvfIndex := MkIvf cfg dimension false [] [] [] 0 [] [] [] [].

Definition with_config (cfg : IvfConfig) (x : IvfIndex) : IvfIndex :=
  MkIvf cfg (ivf_dimension x) (trained_ x) (centroids_ x) (centroid_norms_ x) (inverted_lists_ x) (layout_generation_ x)
    (buffer_indices_ x) (buffer_vectors_ x) (sealing_indices_ x) (sealing_vectors_ x).
Definition with_layout (dim : nat) (trained : bool) (centroids norms : list Z) (lists : list (list nat)) (gen : Z) (x : IvfIndex)
    : IvfIndex :=
  MkIvf (ivf_config x) dim trained centroids norms lists gen (buffer_indices_ x) (buffer_vectors_ x) (sealing_indices_ x)
    (sealing_vectors_ x).
Definition with_lists (lists : list (list nat)) (x : IvfIndex) : IvfIndex :=
  with_layout (ivf_dimension x) (trained_ x) (centroids_ x) (centroid_norms_ x) lists (layout_generation_ x) x.
Definition with_tiers (bi : list nat) (bv : list Z) (si : list nat) (sv : list Z) (x : IvfIndex) : IvfIndex :=
  MkIvf (ivf_config x) (ivf_dimension x) (trained_ x) (centroids_ x) (centroid_norms_ x) (inverted_lists_ x)
    (layout_generation_ x) bi bv si sv.
Definition with_nlist (n : Z) (cfg : IvfConfig) : IvfConfig :=
  MkIvfConfig n (nprobe cfg) (max_iterations cfg) (convergence_threshold cfg) (seal_threshold cfg) (ivf_metric cfg).
Definition with_nprobe (n : Z) (cfg : IvfConfig) : IvfConfig :=
  MkIvfConfig (nlist cfg) n (max_iterations cfg) (convergence_threshold cfg) (seal_threshold cfg) (ivf_metric cfg).

Definition kMaxTrainingSamples : nat := Z.to_nat 10000.
Definition kMaxAutoNlist : Z := 1024.
(** Minus infinity. *)
Definition kWorstScore : Z := 0xFF800000.

Section ivf.
Context {impl : DistanceFunctions}.

Definition Similarity (metric : IvfMetric) (a : list Z) (norm_a : Z) (b : list Z) (norm_b : Z) : Z :=
  match metric with
  | kDot => dot_product a b
  | kL2 => f32_div f32_one (f32_add f32_one (l2_distance a b))
  | kCosine =>
    if f32_ltb norm_a kNormEpsilon || f32_ltb norm_b kNormEpsilon then kWorstScore
    else f32_div (dot_product a b) (f32_mul norm_a norm_b)
  end.

(** The best of [n] centroids, the first among equals; [kWorstScore] when no
    centroid beats it. *)
Definition nearest (metric : IvfMetric) (dim : nat) (centroids norms : list Z) (n : nat) (vec : list Z) : nat * Z :=
  let vec_norm := l2_norm vec in
  fold_left (λ best c,
    let sim := Similarity metric vec vec_norm (row dim centroids c) (default 0 (norms !! c)) in
    if f32_ltb best.2 sim then (c, sim) else best) (seq 0 n) (0%nat, kWorstScore).

Definition FindNearestCentroid (x : IvfIndex) (vec : list Z) : nat :=
  (nearest (ivf_metric (ivf_config x)) (ivf_dimension x) (centroids_ x) (centroid_norms_ x)
     (Z.to_nat (nlist (ivf_config x))) (take (ivf_dimension x) vec)).1.

(** The cluster of a vector in the bulk paths, where vectors without a nearest
    centroid are spread by their index. *)
Definition assign_cluster (metric : IvfMetric) (dim : nat) (centroids norms : list Z) (n : nat) (idx : nat) (vec : list Z) : nat :=
  let '(best, best_sim) := nearest metric dim centroids norms n vec in
  if f32_eqb best_sim kWorstScore then (idx mod n)%nat else best.

(** [inverted_lists_[cluster].push_back(idx)] *)
Definition push_list (cluster idx : nat) (lists : list (list nat)) : list (list nat) := alter (λ l, l ++ [idx]) cluster lists.

(** *** Training *)

(** The random numbers of a training run: of the reservoir, of the shuffle, and
    of the re-initialization of empty clusters, by iteration and cluster. *)
Record TrainRandom : Type := MkTrainRandom {
  rnd_sample : nat → Z;
  rnd_shuffle : list nat → list nat;
  rnd_reinit : nat → nat → Z
}.

Definition centroid_norms (dim n : nat) (centroids : list Z) : list Z := (λ c, l2_norm (row dim centroids c)) <$> seq 0 n.

(** The assignment step of an iteration. *)
Definition assignments (x : IvfIndex) (matrix : list Z) (dim : nat) (samples : list nat) : list nat :=
  (λ i, FindNearestCentroid x (row dim matrix i)) <$> samples.

(** The new centroid of cluster [c]: the mean of its members, or a random sample. *)
Definition update_centroid (rnd : nat → Z) (matrix : list Z) (dim : nat) (samples clusters : list nat) (c : nat) : list Z :=
  let members := (filter (λ p : nat * nat, p.2 = c) (zip samples clusters)).*1 in
  if bool_decide (members = []) then
    row dim matrix (default 0%nat (samples !! Z.to_nat (rnd c mod Z.of_nat (length samples))))
  else
    let sum := fold_left (λ acc i, zip_with f32_add acc (row dim matrix i)) members (replicate dim f32_zero) in
    let inv_size := f32_div f32_one (f32_of_Z (Z.of_nat (length members))) in
    (λ v, f32_mul v inv_size) <$> sum.

(** Lloyd's iterations from [iter] on, at most [fuel] of them. *)
Fixpoint lloyd (fuel iter : nat) (rnd : nat → nat → Z) (matrix : list Z) (dim : nat) (samples : list nat) (x : IvfIndex) : IvfIndex :=
  match fuel with
  | O => x
  | S fuel =>
    let n := Z.to_nat (nlist (ivf_config x)) in
    let clusters := assignments x matrix dim samples in
    let new_centroids := seq 0 n ≫= update_centroid (rnd iter) matrix dim samples clusters in
    let max_delta := fold_left (λ m c, f32_max m (l2_distance (row dim (centroids_ x) c) (row dim new_centroids c))) (seq 0 n) f32_zero in
    let x := with_layout (ivf_dimension x) (trained_ x) new_centroids (centroid_norms dim n new_centroids) (inverted_lists_ x)
               (layout_generation_ x) x in
    if f32_ltb max_delta (convergence_threshold (ivf_config x)) then x
    else lloyd fuel (S iter) rnd matrix dim samples x
  end.

Definition KMeansTrain (rnd : TrainRandom) (matrix : list Z) (samples : list nat) (dim : nat) (x : IvfIndex) : IvfIndex :=
  let n := Z.to_nat (nlist (ivf_config x)) in
  let init_indices := rnd_shuffle rnd (seq 0 (length samples)) in
  let centroids := seq 0 n ≫= λ c, row dim matrix (default 0%nat (samples !! default 0%nat (init_indices !! c))) in
  lloyd (max_iterations (ivf_config x)) 0 (rnd_reinit rnd) matrix dim samples
    (with_layout (ivf_dimension x) (trained_ x) centroids (centroid_norms dim n centroids) (inverted_lists_ x) (layout_generation_ x) x).

Definition auto_nlist (num_valid : nat) : Z := Z.min (Z.max 1 (Z.sqrt (Z.of_nat num_valid))) kMaxAutoNlist.

Definition training_samples (rnd : nat → Z) (valid : list nat) : list nat :=
  if (length valid <=? kMaxTrainingSamples)%nat then valid
  else fold_left (reservoir_step rnd kMaxTrainingSamples (λ i, default 0%nat (valid !! i)))
         (seq kMaxTrainingSamples (length valid - kMaxTrainingSamples)) (take kMaxTrainingSamples valid).

(** [matrix = None]: a null pointer. *)
Definition Train (rnd : TrainRandom) (matrix : option (list Z)) (valid : list nat) (dimension : nat) (assign_vectors : bool)
    (x : IvfIndex) : IvfIndex :=
  match matrix with
  | None => x
  | Some matrix =>
    if bool_decide (valid = []) then x
    else
      let num_valid := Z.of_nat (length valid) in
      let n := if nlist (ivf_config x) =? 0 then auto_nlist (length valid) else nlist (ivf_config x) in
      let n := if num_valid <? n then num_valid else n in
      let x := with_layout dimension (trained_ x) (centroids_ x) (centroid_norms_ x) (inverted_lists_ x) (layout_generation_ x)
                 (with_config (with_nlist n (ivf_config x)) x) in
      let x := KMeansTrain rnd matrix (training_samples (rnd_sample rnd) valid) dimension x in
      let empty_lists := replicate (Z.to_nat n) [] in
      let lists :=
        if assign_vectors then
          fold_left (λ lists idx,
            push_list (assign_cluster (ivf_metric (ivf_config x)) dimension (centroids_ x) (centroid_norms_ x) (Z.to_nat n) idx
                         (row dimension matrix idx)) idx lists) valid empty_lists
        else empty_lists in
      with_layout (ivf_dimension x) true (centroids_ x) (centroid_norms_ x) lists (u64 (layout_generation_ x + 1)) x
  end.

(** *** The lists *)

Definition AddVector (compact_index : nat) (vector : option (list Z)) (x : IvfIndex) : IvfIndex :=
  match vector with
  | Some vec => if trained_ x then with_lists (push_list (FindNearestCentroid x vec) compact_index (inverted_lists_ x)) x else x
  | None => x
  end.

Definition BulkAddVectors (indices : list nat) (vectors : list Z) (dimension : nat) (x : IvfIndex) : IvfIndex :=
  if trained_ x then
    with_lists (fold_left (λ lists p,
      push_list (assign_cluster (ivf_metric (ivf_config x)) dimension (centroids_ x) (centroid_norms_ x)
                   (Z.to_nat (nlist (ivf_config x))) p.2 (row dimension vectors p.1)) p.2 lists)
      (zip (seq 0 (length indices)) indices) (inverted_lists_ x)) x
  else x.

Definition ResetTrained (x : IvfIndex) : IvfIndex :=
  with_layout (ivf_dimension x) false (centroids_ x) (centroid_norms_ x) (inverted_lists_ x) (u64 (layout_generation_ x + 1))
    (with_config (with_nlist 0 (ivf_config x)) x).

Definition SetNprobe (n : Z) (x : IvfIndex) : IvfIndex :=
  with_config (with_nprobe (Z.min n (nlist (ivf_config x))) (ivf_config x)) x.
Definition SetNlist (n : Z) (x : IvfIndex) : IvfIndex :=
  with_layout (ivf_dimension x) (trained_ x) (centroids_ x) (centroid_norms_ x) (inverted_lists_ x) (u64 (layout_generation_ x + 1))
    (with_config (with_nlist n (ivf_config x)) x).

Definition GetIndexedCount (x : IvfIndex) : nat := sum_list (length <$> inverted_lists_ x).
Definition GetClusterCount (x : IvfIndex) : Z := if trained_ x then nlist (ivf_config x) else 0.
Definition GetBufferSize (x : IvfIndex) : nat := (length (buffer_indices_ x) + length (sealing_indices_ x))%nat.
Definition NeedsSeal (x : IvfIndex) : bool := seal_threshold (ivf_config x) <=? Z.of_nat (length (buffer_indices_ x)).

(** *** The write buffer and the sealing tier *)

(** The position of the first occurrence. *)
Definition position (idx : nat) (indices : list nat) : option nat := fst <$> list_find (λ i, i = idx) indices.

(** [vector = None]: a null pointer.  The index reads its own dimension's worth
    of floats from it. *)
Definition AppendToBuffer (compact_index : nat) (vector : option (list Z)) (x : IvfIndex) : IvfIndex :=
  match vector with
  | None => x
  | Some vector =>
    let dim := ivf_dimension x in
    match position compact_index (buffer_indices_ x) with
    | Some i => with_tiers (buffer_indices_ x) (copy_at (i * dim) (take dim vector) (buffer_vectors_ x))
                  (sealing_indices_ x) (sealing_vectors_ x) x
    | None => with_tiers (buffer_indices_ x ++ [compact_index]) (buffer_vectors_ x ++ take dim vector)
                (sealing_indices_ x) (sealing_vectors_ x) x
    end
  end.

(** Removes every occurrence from position [i] on, the last entry filling each gap. *)
Fixpoint remove_from_tier (fuel dim compact_index i : nat) (tier : list nat * list Z) : list nat * list Z :=
  match fuel with
  | O => tier
  | S fuel =>
    let '(indices, vectors) := tier in
    match indices !! i with
    | None => tier
    | Some idx =>
      if negb (idx =? compact_index)%nat then remove_from_tier fuel dim compact_index (S i) tier
      else
        let last := pred (length indices) in
        let '(indices, vectors) :=
          if (i =? last)%nat then (indices, vectors)
          else (<[i := default 0%nat (indices !! last)]> indices, copy_at (i * dim) (row dim vectors last) vectors) in
        remove_from_tier fuel dim compact_index i (take last indices, resize (last * dim) f32_zero vectors)
    end
  end.

Definition RemoveVector (compact_index : nat) (x : IvfIndex) : IvfIndex :=
  let dim := ivf_dimension x in
  let buffer := remove_from_tier (S (length (buffer_indices_ x))) dim compact_index 0 (buffer_indices_ x, buffer_vectors_ x) in
  let sealing := remove_from_tier (S (length (sealing_indices_ x))) dim compact_index 0 (sealing_indices_ x, sealing_vectors_ x) in
  let x := with_tiers buffer.1 buffer.2 sealing.1 sealing.2 x in
  if trained_ x then with_lists ((λ l, filter (λ i, i ≠ compact_index) l) <$> inverted_lists_ x) x else x.

(** [SealBuffer], first phase: the buffer moves into the sealing tier. *)
Definition seal_begin (x : IvfIndex) : option IvfIndex :=
  if bool_decide (buffer_indices_ x = []) || negb (bool_decide (sealing_indices_ x = [])) then None
  else Some (with_tiers (sealing_indices_ x) (sealing_vectors_ x) (buffer_indices_ x) (buffer_vectors_ x) x).

(** The sealing entries go back behind the buffer, unless a newer embedding is there. *)
Definition unseal (x : IvfIndex) : IvfIndex :=
  let dim := ivf_dimension x in
  let back := fold_left (λ tier p,
      if bool_decide (p.2 ∈ tier.1) then tier else (tier.1 ++ [p.2], tier.2 ++ row dim (sealing_vectors_ x) p.1))
    (zip (seq 0 (length (sealing_indices_ x))) (sealing_indices_ x)) (buffer_indices_ x, buffer_vectors_ x) in
  with_tiers back.1 back.2 [] [] x.

(** Second phase: the clusters of the entries of the state [x0] met after the
    first phase; [None] when the index is not trained then. *)
Definition seal_assign (indices : list nat) (vectors : list Z) (dim : nat) (x0 : IvfIndex) : option (list nat) :=
  if trained_ x0 then
    Some ((λ p, assign_cluster (ivf_metric (ivf_config x0)) dim (centroids_ x0) (centroid_norms_ x0)
             (Z.to_nat (nlist (ivf_config x0))) p.2 (row dim vectors p.1)) <$> zip (seq 0 (length indices)) indices)
  else None.

(** Still in the sealing tier. *)
Definition in_sealing (x : IvfIndex) (idx : nat) : bool := bool_decide (idx ∈ sealing_indices_ x).

(** Third phase, on the state [x] met then: [layout] is the generation the
    clusters belong to. *)
Definition seal_commit (indices : list nat) (clusters : list nat) (layout : Z) (x : IvfIndex) : IvfIndex :=
  if negb (trained_ x) || negb (layout_generation_ x =? layout) then unseal x
  else
    let lists := fold_left (λ lists p, if in_sealing x p.1 then push_list p.2 p.1 lists else lists)
                   (zip indices clusters) (inverted_lists_ x) in
    with_tiers (buffer_indices_ x) (buffer_vectors_ x) [] [] (with_lists lists x).

(** The three phases with nothing in between. *)
Definition SealBuffer (x : IvfIndex) : IvfIndex :=
  match seal_begin x with
  | None => x
  | Some x =>
    match seal_assign (sealing_indices_ x) (sealing_vectors_ x) (ivf_dimension x) x with
    | None => unseal x
    | Some clusters => seal_commit (sealing_indices_ x) clusters (layout_generation_ x) x
    end
  end.
End ivf.

(** *** Searching *)

Section search.
Context {impl : DistanceFunctions} {order : IterOrder} {heap : MinHeap}.

(** Two transient tiers scored into one map; a newer embedding overwrites. *)
Definition score_tier (x : IvfIndex) (query : list Z) (query_norm : Z) (dimension : nat) (overwrite : bool)
    (indices : list nat) (vectors : list Z) (scores : gmap nat Z) : gmap nat Z :=
  fold_left (λ m p,
    let vec := row dimension vectors p.1 in
    let score := Similarity (ivf_metric (ivf_config x)) query query_norm vec (l2_norm vec) in
    if f32_eqb score kWorstScore then m
    else match m !! p.2 with
         | None => <[p.2 := score]> m
         | Some old => if overwrite || f32_ltb old score then <[p.2 := score]> m else m
         end) (zip (seq 0 (length indices)) indices) scores.

Definition SearchBuffer (query : list Z) (query_norm : Z) (dimension top_k : nat) (x : IvfIndex) : list (Z * nat) :=
  let cosine_undefined := bool_decide (ivf_metric (ivf_config x) = kCosine) && f32_ltb query_norm kNormEpsilon in
  if (bool_decide (buffer_indices_ x = []) && bool_decide (sealing_indices_ x = [])) || cosine_undefined then []
  else
    let scores := score_tier x query query_norm dimension true (buffer_indices_ x) (buffer_vectors_ x)
                    (score_tier x query query_norm dimension false (sealing_indices_ x) (sealing_vectors_ x) ∅) in
    drain_sorted (fold_left (λ h p, heap_offer top_k h (p.2, p.1)) (iter_order scores) []).

(** The [n] nearest centroids, nearest first. *)
Definition FindNearestCentroids (x : IvfIndex) (vec : list Z) (n : Z) : list nat :=
  let dim := ivf_dimension x in
  let vec := take dim vec in
  let vec_norm := l2_norm vec in
  let sims := (λ c, (Similarity (ivf_metric (ivf_config x)) vec vec_norm (row dim (centroids_ x) c)
                       (default 0 (centroid_norms_ x !! c)), c)) <$> seq 0 (Z.to_nat (nlist (ivf_config x))) in
  (take (Z.to_nat (Z.min n (nlist (ivf_config x)))) (std_sort by_score sims)).*2.

(** The candidates of the probed clusters. *)
Definition probe (x : IvfIndex) (query : list Z) : list nat :=
  FindNearestCentroids x query (Z.min (nprobe (ivf_config x)) (nlist (ivf_config x))) ≫=
    λ c, default [] (inverted_lists_ x !! c).

Definition offer_row (x : IvfIndex) (query : list Z) (query_norm : Z) (matrix norms : list Z) (total_count dimension top_k : nat)
    (h : list (Z * nat)) (idx : nat) : list (Z * nat) :=
  if (total_count <=? idx)%nat then h
  else
    let score := Similarity (ivf_metric (ivf_config x)) query query_norm (row dimension matrix idx) (default 0 (norms !! idx)) in
    if f32_eqb score kWorstScore then h else heap_offer top_k h (score, idx).

(** The first occurrence of every index. *)
Fixpoint dedup_first (seen : gset nat) (l : list (Z * nat)) : list (Z * nat) :=
  match l with
  | [] => []
  | p :: l => if bool_decide (p.2 ∈ seen) then dedup_first seen l else p :: dedup_first ({[p.2]} ∪ seen) l
  end.

Definition SearchLists (query : list Z) (query_norm : Z) (matrix norms : list Z) (total_count dimension top_k : nat) (x : IvfIndex)
    : list (Z * nat) :=
  if trained_ x && (0 <? total_count)%nat then
    let h := fold_left (offer_row x query query_norm matrix norms total_count dimension top_k) (probe x query) [] in
    heap_drain (length h) h
  else [].

Definition Search (query : list Z) (query_norm : Z) (matrix norms : list Z) (total_count dimension top_k : nat) (x : IvfIndex)
    : list (Z * nat) :=
  let buffer_results := SearchBuffer query query_norm dimension top_k x in
  let ivf_results := SearchLists query query_norm matrix norms total_count dimension top_k x in
  if bool_decide (buffer_results = []) then dedup_first ∅ (std_sort by_score ivf_results)
  else if bool_decide (ivf_results = []) then buffer_results
  else drain_sorted (fold_left (heap_offer top_k) (dedup_first ∅ (buffer_results ++ ivf_results)) []).
End search.

(** ** Training partitions the vectors *)

Section training.
Context {impl : DistanceFunctions}.
Implicit Types x : IvfIndex.

(** A trained index has a list for every cluster, and at least one cluster. *)
Definition ivf_ok x : Prop :=
  0 ≤ nlist (ivf_config x) ∧
  (trained_ x = true → 0 < nlist (ivf_config x) ∧ length (inverted_lists_ x) = Z.to_nat (nlist (ivf_config x))).

Lemma nearest_lt metric dim centroids norms n vec :
  (0 < n)%nat → ((nearest metric dim centroids norms n vec).1 < n)%nat.
Proof.
  intros Hn. unfold nearest. cbv zeta.
  assert (Hgo : ∀ (cs : list nat) (best : nat * Z), (best.1 < n)%nat → (∀ c, c ∈ cs → (c < n)%nat) →
    ((fold_left (λ best c, let sim := Similarity metric vec (l2_norm vec) (row dim centroids c) (default 0 (norms !! c))%Z in
        if f32_ltb best.2 sim then (c, sim) else best) cs best).1 < n)%nat).
  { induction cs as [|c cs IH]; intros best Hb Hc; [done|]. cbn [fold_left]. apply IH; [|set_solver].
    cbv zeta. case_match; [apply Hc; left|done]. }
  apply Hgo; [done|]. intros c Hc%elem_of_seq. lia.
Qed.

Lemma assign_cluster_lt metric dim centroids norms n idx vec :
  (0 < n)%nat → (assign_cluster metric dim centroids norms n idx vec < n)%nat.
Proof.
  intros Hn. unfold assign_cluster. pose proof (nearest_lt metric dim centroids norms n vec Hn).
  destruct (nearest _ _ _ _ _ _) as [b s]. case_match; [apply Nat.mod_upper_bound; lia|done].
Qed.

Lemma push_list_perm c i lists : (c < length lists)%nat → concat (push_list c i lists) ≡ₚ i :: concat lists.
Proof.
  unfold push_list. revert c. induction lists as [|l lists IH]; intros c Hc; cbn in *; [lia|]. destruct c as [|c]; cbn.
  - rewrite <- app_assoc. cbn. symmetry. apply Permutation_middle.
  - change (list_alter _ c lists) with (alter (λ l : list nat, l ++ [i]) c lists). rewrite IH by lia. symmetry. apply Permutation_middle.
Qed.

Lemma length_push_list c i lists : length (push_list c i lists) = length lists.
Proof. apply length_alter. Qed.

(** Entries pushed one by one. *)
Lemma push_all (cluster : nat → nat) idxs : ∀ lists,
  (∀ i, i ∈ idxs → cluster i < length lists)%nat →
  let lists' := fold_left (λ ls i, push_list (cluster i) i ls) idxs lists in
  concat lists' ≡ₚ idxs ++ concat lists ∧ length lists' = length lists.
Proof.
  induction idxs as [|i idxs IH]; intros lists Hc; cbn; [done|].
  destruct (IH (push_list (cluster i) i lists)) as [Hp Hl].
  { intros j Hj. rewrite length_push_list. apply Hc. by right. }
  rewrite Hl, length_push_list. split; [|done]. rewrite Hp, push_list_perm by (apply Hc; left).
  symmetry. apply Permutation_middle.
Qed.

Lemma lloyd_keeps fuel iter rnd matrix dim samples : ∀ x,
  let x' := lloyd fuel iter rnd matrix dim samples x in
  ivf_config x' = ivf_config x ∧ ivf_dimension x' = ivf_dimension x ∧ buffer_indices_ x' = buffer_indices_ x ∧
  sealing_indices_ x' = sealing_indices_ x ∧ layout_generation_ x' = layout_generation_ x.
Proof.
  revert iter. induction fuel as [|fuel IH]; intros iter x; cbn [lloyd]; [done|]. cbv zeta. case_match; [done|].
  match goal with |- context [lloyd fuel (S iter) rnd matrix dim samples ?x'] =>
    destruct (IH (S iter) x') as (-> & -> & -> & -> & ->) end. done.
Qed.

Lemma concat_replicate_nil n : concat (replicate n ([] : list nat)) = [].
Proof. induction n; cbn; [done|]. assumption. Qed.

(** The cluster count a training run settles on. *)
Definition trained_nlist (valid : list nat) x : Z :=
  let n := if nlist (ivf_config x) =? 0 then auto_nlist (length valid) else nlist (ivf_config x) in
  if Z.of_nat (length valid) <? n then Z.of_nat (length valid) else n.

Lemma trained_nlist_pos valid x :
  ivf_ok x → valid ≠ [] → 0 < trained_nlist valid x.
Proof.
  intros [Hn _] Hv. unfold trained_nlist, auto_nlist, kMaxAutoNlist. cbv zeta. assert (0 < length valid)%nat by (destruct valid; [done|cbn; lia]).
  destruct (Z.eqb_spec (nlist (ivf_config x)) 0); case_match; lia.
Qed.

(** What training leaves: the vectors spread over the lists, each in one. *)
Lemma Train_spec rnd matrix valid dimension assign x :
  ivf_ok x → valid ≠ [] →
  let x' := Train rnd (Some matrix) valid dimension assign x in
  trained_ x' = true ∧ ivf_ok x' ∧ ivf_dimension x' = dimension ∧
  nlist (ivf_config x') = trained_nlist valid x ∧ nprobe (ivf_config x') = nprobe (ivf_config x) ∧
  ivf_metric (ivf_config x') = ivf_metric (ivf_config x) ∧
  buffer_indices_ x' = buffer_indices_ x ∧ sealing_indices_ x' = sealing_indices_ x ∧
  concat (inverted_lists_ x') ≡ₚ (if assign then valid else []).
Proof.
  intros Hok Hv. pose proof (trained_nlist_pos valid x Hok Hv) as Hpos. unfold Train. rewrite bool_decide_eq_false_2 by done.
  cbv zeta. fold (trained_nlist valid x). set (n := trained_nlist valid x) in *.
  set (x0 := with_layout dimension _ _ _ _ _ _). unfold KMeansTrain. cbv zeta.
  set (x1 := with_layout (ivf_dimension x0) _ _ _ _ _ x0).
  destruct (lloyd_keeps (max_iterations (ivf_config x0)) 0 (rnd_reinit rnd) matrix dimension
    (training_samples (rnd_sample rnd) valid) x1) as (Hc & Hd & Hb & Hs & Hg).
  set (x2 := lloyd _ _ _ _ _ _ _) in *. clearbody x2.
  cbn [trained_ ivf_config ivf_dimension inverted_lists_ buffer_indices_ sealing_indices_ with_layout]. rewrite Hc, Hd, Hb, Hs. cbn.
  assert (Hl : (if assign then fold_left (λ ls idx, push_list (assign_cluster (ivf_metric (ivf_config x)) dimension (centroids_ x2)
      (centroid_norms_ x2) (Z.to_nat n) idx (row dimension matrix idx)) idx ls) valid (replicate (Z.to_nat n) []) else replicate (Z.to_nat n) [])
      = fold_left (λ ls idx, push_list (assign_cluster (ivf_metric (ivf_config x)) dimension (centroids_ x2)
      (centroid_norms_ x2) (Z.to_nat n) idx (row dimension matrix idx)) idx ls) (if assign then valid else []) (replicate (Z.to_nat n) []))
    by (by destruct assign).
  rewrite Hl.
  destruct (push_all (λ idx, assign_cluster (ivf_metric (ivf_config x)) dimension (centroids_ x2) (centroid_norms_ x2) (Z.to_nat n) idx
     (row dimension matrix idx)) (if assign then valid else []) (replicate (Z.to_nat n) [])) as [Hp Hlen].
  { intros i _. rewrite length_replicate. apply assign_cluster_lt. lia. }
  split_and!; try done.
  - split; cbn; rewrite Hc; cbn; [lia|]. intros _. split; [lia|]. rewrite Hlen. apply length_replicate.
  - rewrite Hp, concat_replicate_nil. by rewrite app_nil_r.
Qed.
End training.

(** ** Probing every cluster is exhaustive *)

Section exhaustive.
Context {impl : DistanceFunctions} {order : IterOrder} {heap : MinHeap}.
Implicit Types x : IvfIndex.

(** [r] ranks [k] best of [idxs] by [score_of], leaving out the unscorable. *)
Record ranks_best (score_of : nat → Z) (idxs : list nat) (k : nat) (r : list (Z * nat)) : Prop := MkRanks {
  ranks_sorted : StronglySorted (comp_le by_score) r;
  ranks_nodup : NoDup r.*2;
  ranks_bound : (length r ≤ k)%nat;
  ranks_sound s i : (s, i) ∈ r → i ∈ idxs ∧ s = score_of i ∧ f32_eqb s kWorstScore = false;
  ranks_complete i : i ∈ idxs → f32_eqb (score_of i) kWorstScore = false → i ∉ r.*2 →
    length r = k ∧ ∀ p, p ∈ r → f32_ltb p.1 (score_of i) = false
}.

Lemma dedup_first_id l : ∀ seen : gset nat, NoDup l.*2 → (∀ i, i ∈ l.*2 → i ∉ seen) → dedup_first seen l = l.
Proof.
  induction l as [|p l IH]; intros seen Hn Hs; [done|]. cbn [dedup_first]. apply NoDup_cons in Hn as [Hp Hn].
  rewrite bool_decide_eq_false_2 by (apply Hs; left). f_equal. apply IH; [done|]. set_solver.
Qed.

(** A drained heap ranks the best. *)
Lemma best_ranks score_of idxs k r :
  NoDup idxs → (∀ i, i ∈ idxs → not_nan (score_of i)) →
  (∃ h, best k ((λ i, (score_of i, i)) <$> filter (λ i, f32_eqb (score_of i) kWorstScore = false) idxs) h ∧
    r = std_sort by_score (heap_drain (length h) h)) →
  ranks_best score_of idxs k r.
Proof.
  intros Hnd Hnn (h & (rest & Hp & Hlen & Hbest) & ->). set (cands := filter _ idxs) in *.
  assert (Hin : ∀ p, p ∈ h ++ rest ↔ p.2 ∈ cands ∧ p.1 = score_of p.2).
  { intros p. rewrite Hp. split; [by intros (i & -> & Hi)%list_elem_of_fmap|]. intros [Hi Hs]. apply list_elem_of_fmap.
    exists p.2. by destruct p; cbn in *; subst. }
  assert (Hc : ∀ i, i ∈ cands ↔ f32_eqb (score_of i) kWorstScore = false ∧ i ∈ idxs) by (intros i; unfold cands; by rewrite list_elem_of_filter).
  assert (Hh : Forall (λ p, not_nan p.1) h).
  { apply Forall_forall. intros p Hph. assert (Hpr : p ∈ h ++ rest) by (apply elem_of_app; by left).
    apply Hin in Hpr as [[_ Hi]%Hc ->]. by apply Hnn. }
  assert (Hr : std_sort by_score (heap_drain (length h) h) ≡ₚ h) by (by rewrite std_sort_perm, heap_drain_perm).
  assert (Hall : NoDup ((h ++ rest).*2)).
  { rewrite Hp, <- list_fmap_compose. cbn. rewrite list_fmap_id. by apply NoDup_filter. }
  constructor.
  - apply by_score_sorted. by rewrite heap_drain_perm.
  - rewrite Hr. rewrite fmap_app in Hall. by apply NoDup_app in Hall as (? & _).
  - rewrite Hr. lia.
  - intros s i Hsi. rewrite Hr in Hsi. assert (Hpr : (s, i) ∈ h ++ rest) by (apply elem_of_app; by left).
    apply Hin in Hpr as [[Hw Hi]%Hc Hs]. cbn in *. by subst s.
  - intros i Hi Hw Hni. rewrite Hr in Hni. assert (Hpr : (score_of i, i) ∈ h ++ rest) by (apply Hin; split; [by apply Hc|done]).
    apply elem_of_app in Hpr as [Hih|Hrest].
    { destruct Hni. apply list_elem_of_fmap. by exists (score_of i, i). }
    split.
    + rewrite Hr. apply Permutation_length in Hp. rewrite length_app in Hp.
      assert (0 < length rest)%nat by (destruct rest; [set_solver|cbn; lia]). rewrite length_fmap in Hlen, Hp. lia.
    + intros p Hpp. rewrite Hr in Hpp. by apply (Hbest p (score_of i, i)).
Qed.

Lemma bind_perm {A B} (g : A → list B) l l' : l ≡ₚ l' → l ≫= g ≡ₚ l' ≫= g.
Proof. by intros ->. Qed.

Lemma concat_lookups (lists : list (list nat)) : (seq 0 (length lists) ≫= λ c, default [] (lists !! c)) = concat lists.
Proof.
  assert (Hgo : ∀ pre, (seq (length pre) (length lists) ≫= λ c, default [] ((pre ++ lists) !! c)) = concat lists).
  { induction lists as [|l lists IH]; intros pre; [done|]. cbn [length seq]. rewrite bind_cons.
    rewrite list_lookup_middle by done. cbn [concat]. f_equal. specialize (IH (pre ++ [l])).
    rewrite length_app, Nat.add_1_r, <- app_assoc in IH. exact IH. }
  apply (Hgo []).
Qed.

Lemma probe_all x query :
  ivf_ok x → trained_ x = true → nlist (ivf_config x) ≤ nprobe (ivf_config x) → probe x query ≡ₚ concat (inverted_lists_ x).
Proof.
  intros [_ Hok] Ht Hp. destruct (Hok Ht) as [Hpos Hlen]. unfold probe. rewrite Z.min_r by done. rewrite <- concat_lookups, Hlen.
  apply bind_perm. unfold FindNearestCentroids. cbv zeta. rewrite Z.min_id.
  rewrite take_ge by (rewrite std_sort_perm, length_fmap, length_seq; lia).
  rewrite std_sort_perm, <- list_fmap_compose. cbn. by rewrite list_fmap_id.
Qed.

Definition scorable (total_count : nat) (score_of : nat → Z) (i : nat) : bool :=
  negb (total_count <=? i)%nat && negb (f32_eqb (score_of i) kWorstScore).

Lemma filter_admitted total_count score_of (idxs : list nat) :
  (∀ i, i ∈ idxs → (i < total_count)%nat) →
  filter (λ i, scorable total_count score_of i = true) idxs = filter (λ i, f32_eqb (score_of i) kWorstScore = false) idxs.
Proof.
  induction idxs as [|i idxs IH]; intros Hi; [done|]. rewrite !filter_cons, IH by set_solver.
  apply decide_ext. unfold scorable. rewrite (proj2 (Nat.leb_gt total_count i)) by (apply Hi; left). cbn [negb andb].
  by destruct (f32_eqb _ _).
Qed.

Lemma fold_left_ext {A B} (f g : A → B → A) l : (∀ a b, f a b = g a b) → ∀ a, fold_left f l a = fold_left g l a.
Proof. intros Hfg. induction l as [|b l IH]; intros a; [done|]. cbn. by rewrite Hfg. Qed.

(** A freshly trained index that probes every cluster answers exactly: the
    training puts every vector into exactly one inverted list, and a search over
    all lists returns, best first and without duplicates, [top_k] best of the
    trained vectors (with the cosine metric, of those with a norm). *)
Lemma ivf_exhaustive_exact rnd matrix norms valid dimension x query query_norm total_count top_k :
  let score_of := λ i, Similarity (ivf_metric (ivf_config x)) query query_norm (row dimension matrix i) (default 0 (norms !! i)) in
  let x' := Train rnd (Some matrix) valid dimension true x in
  ivf_ok x → buffer_indices_ x = [] → sealing_indices_ x = [] → valid ≠ [] → NoDup valid →
  (∀ i, i ∈ valid → (i < total_count)%nat ∧ not_nan (score_of i)) →
  trained_nlist valid x ≤ nprobe (ivf_config x) → (0 < top_k)%nat →
  ranks_best score_of valid top_k (Search query query_norm matrix norms total_count dimension top_k x').
Proof.
  intros score_of x' Hok Hb Hs Hne Hnd Hv Hprobe Hk.
  destruct (Train_spec rnd matrix valid dimension true x Hok Hne) as (Ht & Hok' & _ & Hn & Hnp & Hmet & Hb' & Hs' & Hperm).
  fold x' in Ht, Hok', Hn, Hnp, Hmet, Hb', Hs', Hperm. rewrite <- Hn, <- Hnp in Hprobe.
  pose proof (probe_all x' query Hok' Ht Hprobe) as Hpr. rewrite Hperm in Hpr.
  unfold Search. assert (SearchBuffer query query_norm dimension top_k x' = []) as ->.
  { unfold SearchBuffer. by rewrite Hb', Hs', Hb, Hs. }
  cbv zeta. rewrite bool_decide_eq_true_2 by done. unfold SearchLists. rewrite Ht. cbn [andb].
  assert ((0 <? total_count)%nat = true) as ->.
  { apply Nat.ltb_lt. destruct valid as [|i valid]; [done|]. destruct (Hv i ltac:(left)). lia. }
  set (h := fold_left _ _ []).
  assert (Hin : ∀ i, i ∈ probe x' query ↔ i ∈ valid) by (intros; by rewrite Hpr).
  assert (Hh : best top_k ((λ i, (score_of i, i)) <$> filter (λ i, f32_eqb (score_of i) kWorstScore = false) (probe x' query)) h).
  { rewrite <- (filter_admitted total_count score_of (probe x' query)) by (intros i Hi%Hin; by apply Hv).
    unfold h. rewrite (fold_left_ext _ (push_candidate top_k (scorable total_count score_of) score_of)).
    - apply (best_scan top_k (scorable total_count score_of) score_of (probe x' query) [] []);
        [done|intros i Hi%Hin _; by apply Hv|constructor|apply best_nil].
    - intros h0 i. unfold offer_row, push_candidate, scorable. rewrite Hmet.
      change (Similarity _ query query_norm _ _) with (score_of i). by destruct (_ <=? _)%nat, (f32_eqb _ _). }
  assert (Hranks : ranks_best score_of (probe x' query) top_k (std_sort by_score (heap_drain (length h) h))).
  { apply best_ranks; [by rewrite Hpr|intros i Hi%Hin; by apply Hv|]. by exists h. }
  rewrite dedup_first_id; [|by apply Hranks|set_solver].
  destruct Hranks as [H1 H2 H3 H4 H5]. constructor; [done..| |].
  - intros s i Hsi. destruct (H4 s i Hsi) as (?%Hin & ? & ?). done.
  - intros i Hi. by apply H5, Hin.
Qed.
End exhaustive.

(** ** Sealing loses nothing *)

Section sealing.
Context {impl : DistanceFunctions}.
Implicit Types x : IvfIndex.

(** The indices a search can still meet. *)
Definition entries x : gset nat :=
  list_to_set (buffer_indices_ x) ∪ list_to_set (sealing_indices_ x) ∪ list_to_set (concat (inverted_lists_ x)).

Lemma unseal_entries x : entries (unseal x) = entries x.
Proof.
  unfold unseal. cbv zeta. set (dim := ivf_dimension x).
  assert (Hgo : ∀ ps tier, list_to_set (C := gset nat) (fold_left (λ tier p,
      if bool_decide (p.2 ∈ tier.1) then tier else (tier.1 ++ [p.2], tier.2 ++ row dim (sealing_vectors_ x) p.1)) ps tier).1 =
      list_to_set tier.1 ∪ list_to_set (ps : list (nat * nat)).*2).
  { induction ps as [|p ps IH]; intros tier; cbn [fold_left]; [set_solver|]. rewrite IH. case_bool_decide as Hin; [set_solver|].
    cbn [fst fmap list_fmap]. rewrite list_to_set_app_L. set_solver. }
  unfold entries. cbn [buffer_indices_ sealing_indices_ inverted_lists_ with_tiers]. rewrite Hgo. cbn [fst].
  rewrite snd_zip by (by rewrite length_seq). set_solver.
Qed.

Lemma push_entries (lists : list (list nat)) (P : nat → bool) ps : 
  (∀ p, p ∈ ps → (p.2 < length lists)%nat) →
  let lists' := fold_left (λ lists p, if P p.1 then push_list p.2 p.1 lists else lists) ps lists in
  list_to_set (C := gset nat) (concat lists') = list_to_set (concat lists) ∪ list_to_set (filter (λ i, P i = true) ps.*1).
Proof.
  revert lists. induction ps as [|p ps IH]; intros lists Hp; cbn [fold_left]; [set_solver|]. cbv zeta in *.
  cbn [fmap list_fmap]. destruct (P p.1) eqn:E.
  - rewrite IH by (intros q Hq; rewrite length_push_list; apply Hp; by right). rewrite filter_cons_True by done.
    rewrite push_list_perm by (apply Hp; left). set_solver.
  - rewrite IH by (intros q Hq; apply Hp; by right). by rewrite filter_cons_False by (by rewrite E).
Qed.

Lemma length_push_entries (P : nat → bool) ps : ∀ lists,
  length (fold_left (λ lists p, if P p.1 then push_list p.2 p.1 lists else lists) ps lists) = length lists.
Proof.
  induction ps as [|p ps IH]; intros lists; [done|]. cbn [fold_left]. rewrite IH. by destruct (P p.1); rewrite ?length_push_list.
Qed.

(** The commit, in whatever state it meets: an entry that was still in the
    sealing tier moves to a list or back to the buffer. *)
Lemma seal_commit_entries indices clusters layout x :
  length clusters = length indices → sealing_indices_ x ⊆ indices →
  (layout_generation_ x = layout → Forall (λ c, c < length (inverted_lists_ x))%nat clusters) →
  entries (seal_commit indices clusters layout x) = entries x.
Proof.
  intros Hlen Hsub Hc. unfold seal_commit. destruct (trained_ x); [|apply unseal_entries]. cbn [negb orb].
  destruct (Z.eqb_spec (layout_generation_ x) layout) as [Hl|]; [|apply unseal_entries]. cbn [negb]. specialize (Hc Hl).
  unfold entries. cbn [buffer_indices_ sealing_indices_ inverted_lists_ with_tiers with_lists with_layout].
  rewrite (push_entries (inverted_lists_ x) (in_sealing x)).
  - rewrite fst_zip by lia. assert (list_to_set (C := gset nat) (filter (λ i, in_sealing x i = true) indices) =
      list_to_set (sealing_indices_ x)) as ->; [|set_solver].
    apply set_eq. intros i. rewrite !elem_of_list_to_set, list_elem_of_filter. unfold in_sealing. rewrite bool_decide_eq_true. set_solver.
  - intros [i c] Hp%elem_of_zip_r. rewrite Forall_forall in Hc. by apply Hc.
Qed.

(** Sealing never loses an entry: moving the buffer into the sealing tier,
    assigning it to clusters and committing it keep the set of indices a search
    can meet, whether the index is trained or not; the commit does so in any
    state it meets, after other threads added, removed or retrained.  And the
    uninterrupted sealing of a trained index empties the buffer. *)
Lemma sealing_keeps_entries x :
  ivf_ok x →
  entries (SealBuffer x) = entries x ∧ ivf_ok (SealBuffer x) ∧
  (trained_ x = true → sealing_indices_ x = [] → buffer_indices_ (SealBuffer x) = []) ∧
  (∀ x1, seal_begin x = Some x1 → entries x1 = entries x) ∧
  (∀ indices clusters layout x2, length clusters = length indices → sealing_indices_ x2 ⊆ indices →
    (layout_generation_ x2 = layout → Forall (λ c, c < length (inverted_lists_ x2))%nat clusters) →
    entries (seal_commit indices clusters layout x2) = entries x2).
Proof.
  intros [Hn Hok].
  assert (Hbegin : ∀ x1, seal_begin x = Some x1 → entries x1 = entries x ∧
    x1 = with_tiers (sealing_indices_ x) (sealing_vectors_ x) (buffer_indices_ x) (buffer_vectors_ x) x ∧ sealing_indices_ x = []).
  { intros x1. unfold seal_begin. destruct (bool_decide _ || _) eqn:E; [done|]. intros [= <-].
    apply orb_false_iff in E as [_ E%negb_false_iff%bool_decide_eq_true]. split_and!; [|done|done].
    unfold entries. cbn. set_solver. }
  assert (Hall : entries (SealBuffer x) = entries x ∧ ivf_ok (SealBuffer x) ∧
    (trained_ x = true → sealing_indices_ x = [] → buffer_indices_ (SealBuffer x) = [])).
  { unfold SealBuffer. destruct (seal_begin x) as [x1|] eqn:E.
    - destruct (Hbegin x1 eq_refl) as (He & -> & Hs). clear E. unfold seal_assign. cbn [trained_ with_tiers]. destruct (trained_ x) eqn:Ht.
      + destruct (Hok eq_refl) as [Hpos Hll]. rewrite seal_commit_entries; [split; [done|]|..].
        * unfold seal_commit. cbn [trained_ with_tiers layout_generation_]. rewrite Ht, Z.eqb_refl. cbn [negb orb].
          split; [|by intros _ _; cbn]. split; [done|]. intros _. cbn. split; [done|]. rewrite <- Hll.
          apply length_push_entries.
        * cbn. rewrite length_fmap, length_zip, length_seq. lia.
        * done.
        * intros _. cbn. apply Forall_fmap, Forall_forall. intros p _. cbn. rewrite Hll. apply assign_cluster_lt. lia.
      + rewrite unseal_entries. split_and!; [done| |done]. split; [done|]. cbn. by rewrite Ht.
    - split_and!; [done|done|]. intros _ Hs. unfold seal_begin in E. rewrite Hs in E. cbn in E.
      destruct (bool_decide (buffer_indices_ x = [])) eqn:Eb; [by apply bool_decide_eq_true in Eb|done]. }
  destruct Hall as (? & ? & ?). split_and!; [done..| |].
  - intros x1 Hx1. by apply Hbegin.
  - intros. by apply seal_commit_entries.
Qed.
End sealing.
