(* ===== verification/HnswIndex.v ===== *)
(** * The HNSW graph index

    [vectors::HnswIndex] (src/vectors/hnsw_index.cpp).  A node of the graph is
    named by its position, an [nat]; the sentinel [UINT32_MAX] of
    [entry_point_] and [compact_to_internal_] is [None].  The positions fit
    their [uint32_t] as long as the graph has room ([hnsw_room]). *)

From S2P Require Import Prelude Floats Distance VectorStore Selection.
#[local] Open Scope Z_scope.

(** ** Data *)

Definition kMaxNodeLevel : nat := 64.

(** [max_elements] only reserves memory. *)
Record HnswConfig : Type := MkHnswConfig {
  m : Z;
  ef_construction : Z;
  ef_search : Z;
  rebuild_tombstone_ratio : Z;
  rebuild_min_nodes : Z
}.

Record Node : Type := MkNode {
  compact_index : nat;
  level : nat;
  deleted : bool;
  neighbors : list (list nat)
}.

Record HnswIndex : Type := MkHnsw {
  hnsw_config : HnswConfig;
  dimension_ : nat;
  metric_ : string;              (* names the pointer [distance_func_] *)
  use_cosine_prenorm_ : bool;
  nodes_ : list Node;
  vectors_ : list Z;
  vector_norms_ : list Z;
  compact_to_internal_ : list (option nat);
  entry_point_ : option nat;
  max_level_ : nat;
  active_count_ : Z;
  level_mult_ : Z;
  rng_ : nat                     (* draws made *)
}.

(** The generator and the logarithm: [next_uniform n] is the [n]-th draw of
    [uniform_real_distribution(0, 1)]. *)
Class LevelRandom : Type := MkLevelRandom {
  next_uniform : nat → Z;
  std_log : Z → Z
}.

(** [std::priority_queue] with the greatest score on top. *)
Class MaxHeap : Type := {
  max_top : list (Z * nat) → nat;
  max_top_lt : ∀ h, h ≠ [] → (max_top h < length h)%nat;
  max_top_spec : ∀ h, h ≠ [] → Forall (λ p, not_nan p.1) h →
    ∃ p, h !! max_top h = Some p ∧ ∀ q, q ∈ h → f32_ltb p.1 q.1 = false
}.

(** The conversion [static_cast<uint32_t>] of a [double]. *)
Definition trunc_f64 (b : Z) : nat :=
  match f64 b with
  | S754_finite false mant e => Z.to_nat (Z.shiftl (Zpos mant) e)
  | _ => 0%nat
  end.

(** ** Updates of single fields *)

Definition with_nodes (nodes : list Node) (h : HnswIndex) : HnswIndex :=
  MkHnsw (hnsw_config h) (dimension_ h) (metric_ h) (use_cosine_prenorm_ h) nodes (vectors_ h) (vector_norms_ h)
    (compact_to_internal_ h) (entry_point_ h) (max_level_ h) (active_count_ h) (level_mult_ h) (rng_ h).
Definition with_entry (entry : option nat) (top : nat) (h : HnswIndex) : HnswIndex :=
  MkHnsw (hnsw_config h) (dimension_ h) (metric_ h) (use_cosine_prenorm_ h) (nodes_ h) (vectors_ h) (vector_norms_ h)
    (compact_to_internal_ h) entry top (active_count_ h) (level_mult_ h) (rng_ h).
Definition with_active (count : Z) (h : HnswIndex) : HnswIndex :=
  MkHnsw (hnsw_config h) (dimension_ h) (metric_ h) (use_cosine_prenorm_ h) (nodes_ h) (vectors_ h) (vector_norms_ h)
    (compact_to_internal_ h) (entry_point_ h) (max_level_ h) count (level_mult_ h) (rng_ h).
Definition with_compact (map : list (option nat)) (h : HnswIndex) : HnswIndex :=
  MkHnsw (hnsw_config h) (dimension_ h) (metric_ h) (use_cosine_prenorm_ h) (nodes_ h) (vectors_ h) (vector_norms_ h)
    map (entry_point_ h) (max_level_ h) (active_count_ h) (level_mult_ h) (rng_ h).
Definition with_vectors (vectors norms : list Z) (h : HnswIndex) : HnswIndex :=
  MkHnsw (hnsw_config h) (dimension_ h) (metric_ h) (use_cosine_prenorm_ h) (nodes_ h) vectors norms
    (compact_to_internal_ h) (entry_point_ h) (max_level_ h) (active_count_ h) (level_mult_ h) (rng_ h).
Definition with_rng (draws : nat) (h : HnswIndex) : HnswIndex :=
  MkHnsw (hnsw_config h) (dimension_ h) (metric_ h) (use_cosine_prenorm_ h) (nodes_ h) (vectors_ h) (vector_norms_ h)
    (compact_to_internal_ h) (entry_point_ h) (max_level_ h) (active_count_ h) (level_mult_ h) draws.

Definition empty_node : Node := MkNode 0 0 false [].
Definition node_at (h : HnswIndex) (id : nat) : Node := default empty_node (nodes_ h !! id).
Definition alter_node (f : Node → Node) (id : nat) (h : HnswIndex) : HnswIndex := with_nodes (alter f id (nodes_ h)) h.
Definition set_deleted (n : Node) : Node := MkNode (compact_index n) (level n) true (neighbors n).
Definition set_links (layer : nat) (links : list nat) (n : Node) : Node :=
  MkNode (compact_index n) (level n) (deleted n) (<[layer := links]> (neighbors n)).

(** [std::vector::clear] of everything a rebuild starts from. *)
Definition clear_graph (h : HnswIndex) : HnswIndex :=
  MkHnsw (hnsw_config h) (dimension_ h) (metric_ h) (use_cosine_prenorm_ h) [] [] [] [] None 0 0 (level_mult_ h) (rng_ h).
Definition with_dimension (dim : nat) (h : HnswIndex) : HnswIndex :=
  MkHnsw (hnsw_config h) dim (metric_ h) (use_cosine_prenorm_ h) (nodes_ h) (vectors_ h) (vector_norms_ h)
    (compact_to_internal_ h) (entry_point_ h) (max_level_ h) (active_count_ h) (level_mult_ h) (rng_ h).

(** ** Distances *)

Section hnsw.
Context {impl : DistanceFunctions} {heap : MinHeap} {max_heap : MaxHeap} {random : LevelRandom}.
Implicit Types (h : HnswIndex) (query vec : list Z).

(** [distance_func == CosineDistanceRaw] holds of the metrics that select it. *)
Definition new_hnsw (dim : nat) (metric : string) (cfg : HnswConfig) : HnswIndex :=
  MkHnsw cfg dim metric (negb (bool_decide (metric = "dot")) && negb (bool_decide (metric = "l2")))
    [] [] [] [] None 0 0 (f64_div f64_one (std_log (f64_of_Z (Z.max (m cfg) 2)))) 0.

Definition distance_func_ h : list Z → list Z → Z := GetDistanceFunc (metric_ h).

Definition GetNodeVector h (internal_id : nat) : list Z := row (dimension_ h) (vectors_ h) internal_id.
Definition node_norm h (internal_id : nat) : Z := default 0 (vector_norms_ h !! internal_id).

Definition query_norm_of h query : Z :=
  if use_cosine_prenorm_ h then l2_norm (take (dimension_ h) query) else f32_zero.

Definition ComputeDistance h query (query_norm : Z) (internal_id : nat) : Z :=
  if use_cosine_prenorm_ h
  then CosineSimilarityPreNorm query (GetNodeVector h internal_id) query_norm (node_norm h internal_id)
  else distance_func_ h query (GetNodeVector h internal_id).

(** [std::numeric_limits<double>::min()] *)
Definition f64_min_positive : Z := 2 ^ 52.

Definition RandomLevel h : nat * HnswIndex :=
  let r := next_uniform (rng_ h) in
  let h := with_rng (S (rng_ h)) h in
  let r := if f64_leb r 0 then f64_min_positive else r in
  let level_f := f64_mul (f64_opp (std_log r)) (level_mult_ h) in
  (if negb (f64_ltb level_f (f64_of_Z (Z.of_nat kMaxNodeLevel))) then kMaxNodeLevel else trunc_f64 level_f, h).

Definition MaxNeighbors h (layer : nat) : Z :=
  if (layer =? 0)%nat then u32 (m (hnsw_config h) * 2) else m (hnsw_config h).

(** ** Greedy descent *)

(** One pass over the neighbors the node has on a layer. *)
Definition greedy_pass h query (query_norm : Z) (layer cur_node : nat) : nat * bool :=
  match neighbors (node_at h cur_node) !! layer with
  | None => (cur_node, false)
  | Some ns =>
    let '(node, _, changed) :=
      fold_left (λ '(node, cur_dist, changed) neighbor,
        let d := ComputeDistance h query query_norm neighbor in
        if f32_ltb cur_dist d then (neighbor, d, true) else (node, cur_dist, changed))
        ns (cur_node, ComputeDistance h query query_norm cur_node, false) in
    (node, changed)
  end.

(** [while (changed)]; [None] when the fuel runs out. *)
Fixpoint greedy (fuel : nat) h query (query_norm : Z) (layer cur_node : nat) : option nat :=
  match fuel with
  | O => None
  | S fuel =>
    let '(node, changed) := greedy_pass h query query_norm layer cur_node in
    if changed then greedy fuel h query query_norm layer node else Some node
  end.

(** The layers from the top down to [low], which is excluded. *)
Definition layers_above (top low : nat) : list nat := reverse (seq (S low) (top - low)).

Fixpoint descend h query (query_norm : Z) (layers : list nat) (cur_node : nat) : option nat :=
  match layers with
  | [] => Some cur_node
  | l :: layers => node ← greedy (S (length (nodes_ h))) h query query_norm l cur_node; descend h query query_norm layers node
  end.

(** ** Search of one layer *)

Record LayerSearch : Type := MkLayerSearch {
  visited : gset nat;
  to_visit : list (Z * nat);
  candidates : list (Z * nat)
}.

Definition max_pop (l : list (Z * nat)) : list (Z * nat) := delete (max_top l) l.
Definition max_front (l : list (Z * nat)) : Z * nat := default (f32_zero, 0%nat) (l !! max_top l).

Definition visit_neighbor h query (query_norm ef : Z) (st : LayerSearch) (neighbor_id : nat) : LayerSearch :=
  if bool_decide (neighbor_id ∈ visited st) then st
  else
    let visited := {[neighbor_id]} ∪ visited st in
    let dist := ComputeDistance h query query_norm neighbor_id in
    if (Z.of_nat (length (candidates st)) <? ef) || f32_ltb (heap_min (candidates st)).1 dist
    then
      let cands := candidates st ++ [(dist, neighbor_id)] in
      MkLayerSearch visited (to_visit st ++ [(dist, neighbor_id)])
        (if ef <? Z.of_nat (length cands) then heap_pop cands else cands)
    else MkLayerSearch visited (to_visit st) (candidates st).

Fixpoint layer_loop (fuel : nat) h query (query_norm ef : Z) (layer : nat) (st : LayerSearch) : option LayerSearch :=
  if bool_decide (to_visit st = []) then Some st
  else
    match fuel with
    | O => None
    | S fuel =>
      let '(c_dist, c_id) := max_front (to_visit st) in
      if f32_ltb c_dist (heap_min (candidates st)).1 && (ef <=? Z.of_nat (length (candidates st))) then Some st
      else
        let st := MkLayerSearch (visited st) (max_pop (to_visit st)) (candidates st) in
        match neighbors (node_at h c_id) !! layer with
        | None => layer_loop fuel h query query_norm ef layer st
        | Some ns => layer_loop fuel h query query_norm ef layer (fold_left (visit_neighbor h query query_norm ef) ns st)
        end
    end.

Definition layer_start h query (query_norm : Z) (entry_node : nat) : LayerSearch :=
  let entry := (ComputeDistance h query query_norm entry_node, entry_node) in
  MkLayerSearch {[entry_node]} [entry] [entry].

Definition SearchLayer h query (query_norm : Z) (entry_node layer : nat) (ef : Z) : option (list (Z * nat)) :=
  st ← layer_loop (S (length (nodes_ h))) h query query_norm ef layer (layer_start h query query_norm entry_node);
  Some (drain_sorted (candidates st)).

Definition SelectNeighbors (cands : list (Z * nat)) (max_count : Z) : list nat :=
  (take (Z.to_nat (Z.min max_count (Z.of_nat (length cands)))) cands).*2.

(** ** Insertion *)

(** A neighbor's distance to one of its own neighbors. *)
Definition link_distance h (neighbor_id nid : nat) : Z :=
  if use_cosine_prenorm_ h
  then CosineSimilarityPreNorm (GetNodeVector h neighbor_id) (GetNodeVector h nid) (node_norm h neighbor_id) (node_norm h nid)
  else distance_func_ h (GetNodeVector h neighbor_id) (GetNodeVector h nid).

Definition prune h (neighbor_id : nat) (links : list nat) (max_conn : Z) : list nat :=
  SelectNeighbors (std_sort by_score ((λ nid, (link_distance h neighbor_id nid, nid)) <$> links)) max_conn.

Definition link_back (layer internal_id : nat) (max_conn : Z) h (neighbor_id : nat) : HnswIndex :=
  match neighbors (node_at h neighbor_id) !! layer with
  | None => h
  | Some links =>
    let links := links ++ [internal_id] in
    alter_node (set_links layer (if max_conn <? Z.of_nat (length links) then prune h neighbor_id links max_conn else links))
      neighbor_id h
  end.

(** One layer of the insertion, and the entry for the layer below. *)
Definition connect_layer (query : list Z) (query_norm : Z) (internal_id : nat) (st : HnswIndex * nat) (layer : nat)
    : option (HnswIndex * nat) :=
  let '(h, cur_node) := st in
  cands ← SearchLayer h query query_norm cur_node layer (ef_construction (hnsw_config h));
  let max_conn := MaxNeighbors h layer in
  let selected := SelectNeighbors cands max_conn in
  let h := alter_node (set_links layer selected) internal_id h in
  let h := fold_left (link_back layer internal_id max_conn) selected h in
  Some (h, match cands with [] => cur_node | (_, node) :: _ => node end).

Fixpoint connect (query : list Z) (query_norm : Z) (internal_id : nat) (layers : list nat) (st : HnswIndex * nat)
    : option (HnswIndex * nat) :=
  match layers with
  | [] => Some st
  | l :: layers => st ← connect_layer query query_norm internal_id st l; connect query query_norm internal_id layers st
  end.

(** The label's previous node is retired. *)
Definition retire_previous (label : nat) h : HnswIndex :=
  match compact_to_internal_ h !! label with
  | Some (Some previous) =>
    if (previous <? length (nodes_ h))%nat && negb (deleted (node_at h previous))
    then
      let h := alter_node set_deleted previous h in
      if 0 <? active_count_ h then with_active (u32 (active_count_ h - 1)) h else h
    else h
  | _ => h
  end.

(** [std::vector::resize] when the vector is shorter. *)
Definition grow {A} (x : A) (n : nat) (l : list A) : list A := if (length l <? n)%nat then resize n x l else l.

(** The node is stored and labelled, not yet linked. *)
Definition append_node (label : nat) (vector : list Z) h : nat * nat * HnswIndex :=
  let internal_id := length (nodes_ h) in
  let h := with_compact (grow None (S label) (compact_to_internal_ h)) h in
  let h := retire_previous label h in
  let h := with_compact (<[label := Some internal_id]> (compact_to_internal_ h)) h in
  let h := with_vectors (vectors_ h ++ vector) (vector_norms_ h ++ [query_norm_of h vector]) h in
  let '(level, h) := RandomLevel h in
  let h := with_nodes (nodes_ h ++ [MkNode label level false (replicate (S level) [])]) h in
  (internal_id, level, with_active (u32 (active_count_ h + 1)) h).

Definition AddLocked (label : nat) (pointer : list Z) h : option HnswIndex :=
  let vector := take (dimension_ h) pointer in
  let vector_norm := query_norm_of h vector in
  let '(internal_id, level, h) := append_node label vector h in
  match entry_point_ h with
  | None => Some (with_entry (Some internal_id) level h)
  | Some entry =>
    cur_node ← descend h vector vector_norm (layers_above (max_level_ h) level) entry;
    st ← connect vector vector_norm internal_id (reverse (seq 0 (S (Nat.min level (max_level_ h))))) (h, cur_node);
    let h := st.1 in
    Some (if (max_level_ h <? level)%nat then with_entry (Some internal_id) level h else h)
  end.

(** The live vectors under their labels, in label order. *)
Definition live_vectors h : list (nat * list Z) :=
  omap (λ label,
    match compact_to_internal_ h !! label with
    | Some (Some id) =>
      if (length (nodes_ h) <=? id)%nat || deleted (node_at h id) then None else Some (label, GetNodeVector h id)
    | _ => None
    end) (seq 0 (length (compact_to_internal_ h))).

Fixpoint add_all (items : list (nat * list Z)) h : option HnswIndex :=
  match items with
  | [] => Some h
  | (label, vector) :: items => h ← AddLocked label vector h; add_all items h
  end.

Definition tombstones h : Z := Z.of_nat (length (nodes_ h)) - active_count_ h.

Definition MaybeCompactLocked h : option HnswIndex :=
  if (Z.of_nat (length (nodes_ h)) <? rebuild_min_nodes (hnsw_config h)) || (length (nodes_ h) =? 0)%nat then Some h
  else if f64_ltb (f64_div (f64_of_Z (tombstones h)) (f64_of_Z (Z.of_nat (length (nodes_ h)))))
            (f64_of_f32 (rebuild_tombstone_ratio (hnsw_config h)))
  then Some h
  else add_all (live_vectors h) (clear_graph h).

(** ** The interface *)

Definition Add (label : nat) (pointer : list Z) h : option HnswIndex :=
  h ← AddLocked label pointer h; MaybeCompactLocked h.

Definition MarkDeleted (label : nat) h : option HnswIndex :=
  match compact_to_internal_ h !! label with
  | Some (Some id) =>
    if deleted (node_at h id) then Some h
    else MaybeCompactLocked (with_active (u32 (active_count_ h - 1)) (alter_node set_deleted id h))
  | _ => Some h
  end.

(** The first [top_k] live candidates; the loop stops right after the
    [top_k]-th. *)
Fixpoint live_results h (top_k : Z) (cands : list (Z * nat)) (found : list (nat * Z)) : list (nat * Z) :=
  match cands with
  | [] => found
  | (score, id) :: cands =>
    if deleted (node_at h id) then live_results h top_k cands found
    else
      let found := found ++ [(compact_index (node_at h id), score)] in
      if top_k <=? Z.of_nat (length found) then found else live_results h top_k cands found
  end.

Fixpoint search_rounds (fuel : nat) h query (query_norm : Z) (cur_node : nat) (top_k ef : Z) : option (list (nat * Z)) :=
  match fuel with
  | O => None
  | S fuel =>
    cands ← SearchLayer h query query_norm cur_node 0 ef;
    let results := live_results h top_k cands [] in
    let count := Z.of_nat (length (nodes_ h)) in
    if (top_k <=? Z.of_nat (length results)) || (count <=? ef) then Some results
    else search_rounds fuel h query query_norm cur_node top_k (u32 (Z.min count (Z.max (u32 (ef + 1)) (ef * 2))))
  end.

Definition Search (pointer : list Z) (top_k : Z) h : option (list (nat * Z)) :=
  match entry_point_ h with
  | None => Some []
  | Some entry =>
    if active_count_ h =? 0 then Some []
    else
      let ef := Z.max (ef_search (hnsw_config h)) top_k in
      let query := take (dimension_ h) pointer in
      let query_norm := query_norm_of h query in
      cur_node ← descend h query query_norm (layers_above (max_level_ h) 0) entry;
      search_rounds (S (length (nodes_ h))) h query query_norm cur_node top_k ef
  end.

Definition Rebuild (all_vectors : list Z) (count dimension : nat) h : option HnswIndex :=
  let h := with_dimension dimension (clear_graph h) in
  if (count =? 0)%nat then Some h
  else
    let h := with_compact (replicate count None) h in
    add_all ((λ i, (i, drop (i * dimension) all_vectors)) <$> seq 0 count) h.

Definition Size h : Z := active_count_ h.
Definition GetNodeCount h : Z := u32 (Z.of_nat (length (nodes_ h))).
Definition GetTombstoneCount h : Z := u32 (tombstones h).
Definition GetMaxLevel h : nat := max_level_ h.
Definition GetEfSearch h : Z := ef_search (hnsw_config h).
Definition SetEfSearch (ef : Z) h : HnswIndex :=
  let c := hnsw_config h in
  MkHnsw (MkHnswConfig (m c) (ef_construction c) ef (rebuild_tombstone_ratio c) (rebuild_min_nodes c)) (dimension_ h)
    (metric_ h) (use_cosine_prenorm_ h) (nodes_ h) (vectors_ h) (vector_norms_ h) (compact_to_internal_ h)
    (entry_point_ h) (max_level_ h) (active_count_ h) (level_mult_ h) (rng_ h).
End hnsw.
