(* ===== verification/HnswTheorems.v ===== *)
(** * The HNSW graph: invariant, refinement, searches

    Every operation of [HnswIndex] keeps a layered graph of bounded degree and
    implements a finite map from labels to vectors. *)

From S2P Require Import Prelude Floats Distance VectorStore Selection HnswIndex.
#[local] Open Scope Z_scope.

(** ** Loops end *)

Section loops.
Context {impl : DistanceFunctions} {heap : MinHeap} {max_heap : MaxHeap} {random : LevelRandom}.
Implicit Types (h : HnswIndex) (P : nat → Prop).

(** [P] holds along the links of a layer. *)
Definition closed h (layer : nat) P : Prop :=
  ∀ id ns, P id → neighbors (node_at h id) !! layer = Some ns → ∀ x, x ∈ ns → P x.

(** A pass stays, or moves to a node that is strictly nearer. *)
Lemma greedy_pass_spec h q qn layer cur node changed P :
  closed h layer P → P cur → greedy_pass h q qn layer cur = (node, changed) →
  P node ∧ if changed then f32_ltb (ComputeDistance h q qn cur) (ComputeDistance h q qn node) = true else node = cur.
Proof.
  intros Hc Hp. unfold greedy_pass. destruct (neighbors _ !! layer) as [ns|] eqn:E; [|by intros [= <- <-]].
  set (step := λ '(node, cur_dist, changed) neighbor, _). specialize (Hc cur ns Hp E). clear E.
  assert (Hgo : ∀ ns st, (∀ x, x ∈ ns → P x) →
    (let '(n, d, c) := st in P n ∧ d = ComputeDistance h q qn n ∧
      if (c : bool) then f32_ltb (ComputeDistance h q qn cur) d = true else n = cur) →
    let '(n, d, c) := fold_left step ns st in P n ∧ d = ComputeDistance h q qn n ∧
      if (c : bool) then f32_ltb (ComputeDistance h q qn cur) d = true else n = cur).
  { clear ns Hc. induction ns as [|x ns IH]; intros [[n d] c] Hns Hst; [done|]. cbn [fold_left]. apply IH; [set_solver|].
    destruct Hst as (Hn & -> & Hst). unfold step. cbn -[ComputeDistance].
    destruct (f32_ltb (ComputeDistance h q qn n) _) eqn:E; [|by split_and!].
    split_and!; [apply Hns; left|done|]. destruct c; [by eapply f32_ltb_trans|by subst]. }
  specialize (Hgo ns (cur, ComputeDistance h q qn cur, false) Hc ltac:(done)). fold step.
  destruct (fold_left step ns _) as [[n d] c]. intros [= <- <-]. destruct Hgo as (? & -> & ?). by destruct c.
Qed.

(** The nodes nearer than [d]: what is left to climb. *)
Definition nearer h q qn (d : Z) : nat :=
  length (filter (λ x, f32_ltb d (ComputeDistance h q qn x) = true) (seq 0 (length (nodes_ h)))).

Lemma nearer_lt h q qn cur node :
  (node < length (nodes_ h))%nat → f32_ltb (ComputeDistance h q qn cur) (ComputeDistance h q qn node) = true →
  (nearer h q qn (ComputeDistance h q qn node) < nearer h q qn (ComputeDistance h q qn cur))%nat.
Proof.
  intros Hn Hlt. unfold nearer. set (l := seq 0 _). assert (Hin : node ∈ l) by (apply elem_of_seq; lia).
  set (P1 := λ x, f32_ltb (ComputeDistance h q qn node) (ComputeDistance h q qn x) = true).
  set (P2 := λ x, f32_ltb (ComputeDistance h q qn cur) (ComputeDistance h q qn x) = true).
  assert (Hsub : ∀ x, P1 x → P2 x) by (intros x Hx; by eapply f32_ltb_trans).
  assert (Hperm : filter P2 l ≡ₚ filter P1 l ++ filter (λ x, P2 x ∧ ¬ P1 x) l).
  { clear Hin. induction l as [|x l IH]; [done|]. rewrite !filter_cons. repeat case_decide; naive_solver eauto using Permutation_skip, Permutation_cons_app. }
  rewrite Hperm, length_app. assert (Hx : node ∈ filter (λ x, P2 x ∧ ¬ P1 x) l).
  { apply list_elem_of_filter. split; [|done]. split; [done|]. unfold P1. by rewrite f32_ltb_irrefl. }
  destruct (filter (λ x, P2 x ∧ ¬ P1 x) l); [by apply not_elem_of_nil in Hx|cbn; lia].
Qed.

Lemma greedy_total h q qn layer P : closed h layer P → (∀ x, P x → (x < length (nodes_ h))%nat) →
  ∀ fuel cur, P cur → (nearer h q qn (ComputeDistance h q qn cur) < fuel)%nat →
  ∃ node, greedy fuel h q qn layer cur = Some node ∧ P node.
Proof.
  intros Hc Hb. induction fuel as [|fuel IH]; intros cur Hp Hf; [lia|]. cbn [greedy].
  destruct (greedy_pass h q qn layer cur) as [node changed] eqn:E.
  destruct (greedy_pass_spec h q qn layer cur node changed P Hc Hp E) as [Hn Hch]. destruct changed; [|subst; eauto].
  apply IH; [done|]. pose proof (nearer_lt h q qn cur node (Hb node Hn) Hch). lia.
Qed.

Lemma nearer_le h q qn d : (nearer h q qn d ≤ length (nodes_ h))%nat.
Proof. unfold nearer. rewrite length_filter, length_seq. done. Qed.

(** [P l] is closed at every layer [l] and narrows as layers go up. *)
Lemma descend_total h q qn (P : nat → nat → Prop) :
  (∀ l, closed h l (P l)) → (∀ l x, P l x → (x < length (nodes_ h))%nat) → (∀ l l' x, (l ≤ l')%nat → P l' x → P l x) →
  ∀ n low cur, P (low + n)%nat cur → ∃ node, descend h q qn (reverse (seq (S low) n)) cur = Some node ∧ P low node.
Proof.
  intros Hc Hb Hm. induction n as [|n IH]; intros low cur Hp.
  { exists cur. cbn. split; [done|]. by rewrite Nat.add_0_r in Hp. }
  rewrite seq_S, reverse_app. cbn [reverse rev_append app descend]. replace (S low + n)%nat with (low + S n)%nat by lia.
  destruct (greedy_total h q qn (low + S n) (P (low + S n)%nat) (Hc _) (Hb _) (S (length (nodes_ h))) cur) as (node & -> & Hn).
  { done. } { pose proof (nearer_le h q qn (ComputeDistance h q qn cur)). lia. }
  cbn. apply IH. apply (Hm _ (low + S n)%nat); [lia|done].
Qed.

(** ** The search of a layer *)

(** What holds of the two queues: distinct visited nodes with their distances. *)
Record layer_inv h q qn P (st : LayerSearch) : Prop := {
  li_visited x : x ∈ visited st → P x;
  li_to_visit p : p ∈ to_visit st → p.2 ∈ visited st;
  li_candidates p : p ∈ candidates st → p.2 ∈ visited st ∧ p.1 = ComputeDistance h q qn p.2;
  li_nodup : NoDup (candidates st).*2;
  li_nonempty : candidates st ≠ []
}.

Lemma layer_start_inv h q qn P entry : P entry → layer_inv h q qn P (layer_start h q qn entry).
Proof.
  intros Hp. constructor; cbn; [set_solver| | |apply NoDup_singleton|done].
  - intros p ->%list_elem_of_singleton. set_solver.
  - intros p ->%list_elem_of_singleton. set_solver.
Qed.

Lemma heap_pop_sub l p : l ≠ [] → p ∈ heap_pop l → p ∈ l.
Proof. intros Hne Hp. rewrite (heap_pop_perm l Hne). by right. Qed.

Lemma visit_neighbor_inv h q qn ef P st x :
  P x → layer_inv h q qn P st → layer_inv h q qn P (visit_neighbor h q qn ef st x).
Proof.
  intros Hx [Hv Ht Hc Hn Hne]. unfold visit_neighbor. case_bool_decide as Hin; [done|]. cbv zeta.
  set (d := ComputeDistance h q qn x). set (cands := candidates st ++ [(d, x)]).
  assert (Hcands : layer_inv h q qn P (MkLayerSearch ({[x]} ∪ visited st) (to_visit st ++ [(d, x)]) cands)).
  { constructor; cbn [visited to_visit candidates].
    - set_solver.
    - intros p [Hp| ->%list_elem_of_singleton]%elem_of_app; [apply Ht in Hp; set_solver|set_solver].
    - intros p [Hp| ->%list_elem_of_singleton]%elem_of_app; [apply Hc in Hp; set_solver|set_solver].
    - unfold cands. rewrite fmap_app. apply NoDup_app. split_and!; [done| |apply NoDup_singleton].
      intros y (p & -> & Hp)%list_elem_of_fmap. apply Hc in Hp as [Hp _]. cbn. set_solver.
    - unfold cands. by destruct (candidates st). }
  destruct (_ || _); [|constructor; cbn; try done; [set_solver| |]; intros p Hp; [apply Ht in Hp|apply Hc in Hp]; set_solver].
  destruct (Z.ltb_spec ef (Z.of_nat (length cands))) as [Hlt|]; [|done]. destruct Hcands as [Hv' Ht' Hc' Hn' Hne'].
  cbn [visited to_visit candidates] in *. pose proof (heap_pop_perm cands Hne') as Hperm. constructor; cbn [visited to_visit candidates]; try done.
  - intros p Hp. apply Hc'. by apply heap_pop_sub.
  - rewrite Hperm in Hn'. by apply NoDup_cons in Hn' as [_ ?].
  - intros E. rewrite E in Hperm. apply Permutation_length in Hperm. unfold cands in Hperm. rewrite length_app in Hperm. cbn in Hperm.
    destruct (candidates st); [done|cbn in Hperm; lia].
Qed.

(** The unvisited nodes and the queue pay for every round. *)
Definition layer_fuel h (st : LayerSearch) : nat := length (nodes_ h) - size (visited st) + length (to_visit st).

Lemma visited_le h q qn P st : (∀ x, P x → (x < length (nodes_ h))%nat) → layer_inv h q qn P st →
  (size (visited st) ≤ length (nodes_ h))%nat.
Proof.
  intros Hb Hi. trans (size (list_to_set (seq 0 (length (nodes_ h))) : gset nat)).
  2: { rewrite size_list_to_set by apply NoDup_seq. by rewrite length_seq. }
  apply subseteq_size. intros x Hx. apply elem_of_list_to_set, elem_of_seq. apply (li_visited _ _ _ _ _ Hi), Hb in Hx. lia.
Qed.

Lemma visit_neighbor_fuel h q qn ef P st x :
  (∀ x, P x → (x < length (nodes_ h))%nat) → P x → layer_inv h q qn P st →
  (layer_fuel h (visit_neighbor h q qn ef st x) ≤ layer_fuel h st)%nat.
Proof.
  intros Hb Hx Hi. pose proof (visit_neighbor_inv h q qn ef P st x Hx Hi) as Hi'. apply visited_le in Hi'; [|done].
  revert Hi'. unfold visit_neighbor, layer_fuel. case_bool_decide as Hin; [done|]. cbv zeta.
  pose proof (visited_le h q qn P st Hb Hi) as Hle.
  assert (Hs : size ({[x]} ∪ visited st) = S (size (visited st))) by (by rewrite size_union, size_singleton by set_solver).
  destruct (_ || _); cbn [visited to_visit]; rewrite Hs; rewrite ?length_app; cbn; lia.
Qed.

Lemma visit_neighbors_inv h q qn ef P ns : ∀ st,
  (∀ x, x ∈ ns → P x) → layer_inv h q qn P st → layer_inv h q qn P (fold_left (visit_neighbor h q qn ef) ns st).
Proof. induction ns as [|x ns IH]; intros st Hns Hi; [done|]. apply IH; [set_solver|]. apply visit_neighbor_inv; [set_solver|done]. Qed.

Lemma visit_neighbors_fuel h q qn ef P ns : ∀ st, (∀ x, P x → (x < length (nodes_ h))%nat) →
  (∀ x, x ∈ ns → P x) → layer_inv h q qn P st →
  (layer_fuel h (fold_left (visit_neighbor h q qn ef) ns st) ≤ layer_fuel h st)%nat.
Proof.
  induction ns as [|x ns IH]; intros st Hb Hns Hi; [done|]. cbn [fold_left].
  etrans; [apply IH; [done|set_solver|apply visit_neighbor_inv; [set_solver|done]]|]. eapply visit_neighbor_fuel; [done| |done]. set_solver.
Qed.

Lemma max_pop_perm l : l ≠ [] → l ≡ₚ max_front l :: max_pop l.
Proof.
  intros Hne. destruct (lookup_lt_is_Some_2 l (max_top l) (max_top_lt l Hne)) as [p Hp].
  unfold max_front, max_pop. rewrite Hp. by apply delete_Permutation.
Qed.

Lemma layer_loop_total h q qn ef layer P :
  closed h layer P → (∀ x, P x → (x < length (nodes_ h))%nat) →
  ∀ fuel st, layer_inv h q qn P st → (layer_fuel h st ≤ fuel)%nat →
  ∃ st', layer_loop fuel h q qn ef layer st = Some st' ∧ layer_inv h q qn P st'.
Proof.
  intros Hc Hb. induction fuel as [|fuel IH]; intros st Hi Hf; cbn [layer_loop].
  { case_bool_decide as E; [eauto|]. unfold layer_fuel in Hf. destruct (to_visit st); [done|cbn in Hf; lia]. }
  case_bool_decide as E; [eauto|]. pose proof (max_pop_perm _ E) as Hperm. destruct (max_front (to_visit st)) as [c_dist c_id] eqn:Ef.
  destruct (_ && _); [eauto|]. set (st0 := MkLayerSearch _ _ _).
  assert (Hi0 : layer_inv h q qn P st0).
  { destruct Hi as [Hv Ht Hca Hn Hne]. constructor; try done. cbn. intros p Hp. apply Ht. rewrite Hperm. by right. }
  assert (Hf0 : (layer_fuel h st0 ≤ fuel)%nat).
  { unfold layer_fuel in *. cbn [st0 visited to_visit] in *. rewrite Hperm in Hf. cbn in Hf. lia. }
  destruct (neighbors (node_at h c_id) !! layer) as [ns|] eqn:En; [|by apply IH].
  assert (Hns : ∀ x, x ∈ ns → P x).
  { eapply Hc; [|done]. apply (li_visited _ _ _ _ _ Hi). apply (li_to_visit _ _ _ _ _ Hi (c_dist, c_id)). rewrite Hperm. left. }
  apply IH; [by apply visit_neighbors_inv|]. etrans; [by eapply visit_neighbors_fuel|done].
Qed.

(** A layer search ends with distinct nodes of [P], the nearest first. *)
Lemma SearchLayer_spec h q qn entry layer ef P :
  closed h layer P → (∀ x, P x → (x < length (nodes_ h))%nat) → P entry →
  ∃ cands, SearchLayer h q qn entry layer ef = Some cands ∧ cands ≠ [] ∧ NoDup cands.*2 ∧
    (∀ p, p ∈ cands → P p.2 ∧ p.1 = ComputeDistance h q qn p.2) ∧
    (Forall (λ p, not_nan p.1) cands → StronglySorted (comp_le by_score) cands).
Proof.
  intros Hc Hb Hp. unfold SearchLayer.
  destruct (layer_loop_total h q qn ef layer P Hc Hb (S (length (nodes_ h))) (layer_start h q qn entry)) as (st & -> & Hi).
  { by apply layer_start_inv. } { unfold layer_fuel. cbn. lia. }
  cbn. eexists. split; [done|]. destruct Hi as [Hv Ht Hca Hn Hne]. pose proof (drain_sorted_perm (candidates st)) as Hperm. split_and!.
  - intros E. rewrite E in Hperm. by apply Permutation_nil_l in Hperm.
  - by rewrite Hperm.
  - intros p Hin. rewrite Hperm in Hin. apply Hca in Hin as [Hin ->]. split; [by apply Hv|done].
  - intros Hnn. unfold drain_sorted. apply by_score_sorted. rewrite Hperm in Hnn. by rewrite heap_drain_all.
Qed.
End loops.

(** ** Links *)

Section links.
Context {impl : DistanceFunctions} {heap : MinHeap} {max_heap : MaxHeap} {random : LevelRandom}.
Implicit Types (h : HnswIndex) (P : nat → Prop).

Definition links_of h (id l : nat) : option (list nat) := neighbors (node_at h id) !! l.

(** A link of a layer leads to a distinct other node of that layer, and a node
    has no more of them than [MaxNeighbors]. *)
Definition links_ok h : Prop :=
  ∀ id l ns, links_of h id l = Some ns →
    NoDup ns ∧ Z.of_nat (length ns) ≤ Z.max 0 (MaxNeighbors h l) ∧ id ∉ ns ∧ ∀ x, x ∈ ns → is_Some (links_of h x l).

(** Only links changed. *)
Definition node_data (n : Node) : nat * nat * bool * nat := (compact_index n, level n, deleted n, length (neighbors n)).
Definition relinked h h' : Prop := h' = with_nodes (nodes_ h') h ∧ node_data <$> nodes_ h' = node_data <$> nodes_ h.

#[global] Instance relinked_refl : Reflexive relinked.
Proof. intros h. split; [by destruct h|done]. Qed.
#[global] Instance relinked_trans : Transitive relinked.
Proof. intros h1 h2 h3 [H1 E1] [H2 E2]. split; [by rewrite H2, H1|by rewrite E2]. Qed.

Lemma fmap_alter_same {A B} (f : A → B) (g : A → A) i (l : list A) : (∀ x, f (g x) = f x) → f <$> alter g i l = f <$> l.
Proof.
  intros Hf. revert i. induction l as [|x l IH]; intros [|i]; [done..| |]; cbn.
  - by rewrite Hf.
  - f_equal. apply IH.
Qed.

Lemma relinked_set h id l ns : relinked h (alter_node (set_links l ns) id h).
Proof.
  split; [by destruct h|]. apply fmap_alter_same. intros n. unfold node_data. cbn. by rewrite length_insert.
Qed.

Lemma relinked_length h h' : relinked h h' → length (nodes_ h') = length (nodes_ h).
Proof. intros [_ E]. apply (f_equal length) in E. by rewrite !length_fmap in E. Qed.

Lemma relinked_data h h' id : relinked h h' → node_data (node_at h' id) = node_data (node_at h id).
Proof.
  intros [_ E]. apply (f_equal (λ l, l !! id)) in E. rewrite !list_lookup_fmap in E. unfold node_at.
  destruct (nodes_ h' !! id), (nodes_ h !! id); cbn in *; congruence.
Qed.

Lemma relinked_layer h h' id l : relinked h h' → is_Some (links_of h' id l) ↔ is_Some (links_of h id l).
Proof.
  intros Hr. pose proof (relinked_data h h' id Hr) as [= _ _ _ Hl]. unfold links_of. by rewrite !lookup_lt_is_Some, Hl.
Qed.

Lemma layer_in_range h id l : is_Some (links_of h id l) → (id < length (nodes_ h))%nat.
Proof.
  unfold links_of, node_at. destruct (nodes_ h !! id) eqn:E; [intros _; by eapply lookup_lt_Some|cbn; by intros [? ?]].
Qed.

Lemma links_set h id l ns id' l' :
  links_of (alter_node (set_links l ns) id h) id' l' =
    if decide (id = id' ∧ l = l') then (λ _, ns) <$> links_of h id l else links_of h id' l'.
Proof.
  unfold links_of, node_at, alter_node. cbn. destruct (decide (id = id')) as [<-|Hne].
  - rewrite list_lookup_alter_eq. destruct (nodes_ h !! id) as [n|]; cbn; [|by case_decide].
    destruct (decide (l = l')) as [<-|Hl].
    + rewrite decide_True by done. destruct (neighbors n !! l) as [old|] eqn:E.
      * rewrite list_lookup_insert_eq; [done|]. by eapply lookup_lt_Some.
      * rewrite list_insert_ge by (by apply lookup_ge_None). by rewrite E.
    + rewrite decide_False by naive_solver. by rewrite list_lookup_insert_ne.
  - rewrite list_lookup_alter_ne by done. by rewrite decide_False by naive_solver.
Qed.

(** Replacing one list of links. *)
Lemma links_ok_set h id l ns :
  links_ok h → NoDup ns → Z.of_nat (length ns) ≤ Z.max 0 (MaxNeighbors h l) → id ∉ ns → (∀ x, x ∈ ns → is_Some (links_of h x l)) →
  links_ok (alter_node (set_links l ns) id h).
Proof.
  intros Hok Hn Hlen Hid Hx id' l' ns' Hl. assert (Hr : ∀ x, is_Some (links_of h x l') → is_Some (links_of (alter_node (set_links l ns) id h) x l')).
  { intros x. by rewrite (relinked_layer h _ x l' (relinked_set h id l ns)). }
  rewrite links_set in Hl. case_decide as E.
  - destruct E as [<- <-]. destruct (links_of h id l); [|done]. injection Hl as <-. split_and!; [done..|]. intros x Hin. by apply Hr, Hx.
  - destruct (Hok id' l' ns' Hl) as (? & ? & ? & Hx'). split_and!; [done..|]. intros x Hin. by apply Hr, Hx'.
Qed.

Lemma SelectNeighbors_take cands k : SelectNeighbors cands k = (take (Z.to_nat k) cands).*2.
Proof.
  unfold SelectNeighbors. destruct (Z.min_spec k (Z.of_nat (length cands))) as [[_ ->]|[? ->]]; [done|].
  by rewrite Nat2Z.id, !take_ge by lia.
Qed.

Lemma prune_spec h id links k :
  let pruned := prune h id links k in
  (NoDup links → NoDup pruned) ∧ Z.of_nat (length pruned) ≤ Z.max 0 k ∧ ∀ x, x ∈ pruned → x ∈ links.
Proof.
  cbv zeta. unfold prune. rewrite SelectNeighbors_take. set (l := std_sort by_score _).
  assert (Hperm : l.*2 ≡ₚ links).
  { unfold l. rewrite std_sort_perm, <- list_fmap_compose. cbn. by rewrite list_fmap_id. }
  rewrite fmap_take. split_and!.
  - intros Hn. eapply sublist_NoDup; [|apply sublist_take]. by rewrite Hperm.
  - rewrite length_take. lia.
  - intros x Hx. rewrite <- Hperm. by apply (subseteq_take (Z.to_nat k)).
Qed.

(** A link back to the new node keeps the degrees. *)
Lemma link_back_ok h l id x :
  links_ok h → x ≠ id → is_Some (links_of h id l) → (∀ ns, links_of h x l = Some ns → id ∉ ns) →
  links_ok (link_back l id (MaxNeighbors h l) h x) ∧ relinked h (link_back l id (MaxNeighbors h l) h x) ∧
  ∀ y l', (y, l') ≠ (x, l) → links_of (link_back l id (MaxNeighbors h l) h x) y l' = links_of h y l'.
Proof.
  intros Hok Hx Hid Hfresh. unfold link_back. fold (links_of h x l). destruct (links_of h x l) as [ns|] eqn:E; [|by split_and!].
  destruct (Hok x l ns E) as (Hn & Hlen & Hself & Hlayer). specialize (Hfresh ns eq_refl). set (links := if _ : bool then _ else _).
  assert (Hl : NoDup links ∧ Z.of_nat (length links) ≤ Z.max 0 (MaxNeighbors h l) ∧ ∀ y, y ∈ links → y ∈ ns ++ [id]).
  { assert (Hn' : NoDup (ns ++ [id])) by (apply NoDup_app; split_and!; [done|set_solver|apply NoDup_singleton]).
    unfold links. destruct (Z.ltb_spec (MaxNeighbors h l) (Z.of_nat (length (ns ++ [id])))) as [_|Hle].
    - destruct (prune_spec h x (ns ++ [id]) (MaxNeighbors h l)) as (? & ? & ?). auto.
    - split_and!; [done|lia|done]. }
  destruct Hl as (Hn' & Hlen' & Hsub). split_and!; [|apply relinked_set|].
  - apply links_ok_set; [done..| |].
    + intros [?| ->%list_elem_of_singleton]%Hsub%elem_of_app; [done|done].
    + intros y [Hy| ->%list_elem_of_singleton]%Hsub%elem_of_app; [by apply Hlayer|done].
  - intros y l' Hne. rewrite links_set, decide_False; [done|]. naive_solver.
Qed.
End links.

(** ** Connecting a node *)

Section connect.
Context {impl : DistanceFunctions} {heap : MinHeap} {max_heap : MaxHeap} {random : LevelRandom}.
Implicit Types (h : HnswIndex) (P : nat → Prop).

Definition unlinked h (id l : nat) : Prop := ∀ k l' ns, (l' ≤ l)%nat → links_of h k l' = Some ns → id ∉ ns.

Lemma relinked_max h h' l : relinked h h' → MaxNeighbors h' l = MaxNeighbors h l.
Proof. by intros [-> _]. Qed.

Lemma links_below h x l l' : (l' ≤ l)%nat → is_Some (links_of h x l) → is_Some (links_of h x l').
Proof. unfold links_of. rewrite !lookup_lt_is_Some. lia. Qed.

Lemma link_all_ok l id k selected : ∀ h,
  links_ok h → MaxNeighbors h l = k → is_Some (links_of h id l) → NoDup selected → id ∉ selected →
  (∀ x ns, x ∈ selected → links_of h x l = Some ns → id ∉ ns) →
  let h' := fold_left (link_back l id k) selected h in
  links_ok h' ∧ relinked h h' ∧ ∀ y l', l' ≠ l → links_of h' y l' = links_of h y l'.
Proof.
  induction selected as [|x sel IH]; intros h Hok Hk Hid Hn Hns Hfresh; [by split_and!|]. cbn [fold_left].
  apply NoDup_cons in Hn as [Hx Hn]. subst k.
  destruct (link_back_ok h l id x) as (Hok' & Hr & Hsame); [done|set_solver|done|intros ns; apply Hfresh; left|].
  destruct (IH (link_back l id (MaxNeighbors h l) h x)) as (? & Hr' & Hsame').
  - done.
  - by apply relinked_max.
  - by rewrite (relinked_layer _ _ _ _ Hr).
  - done.
  - set_solver.
  - intros y ns Hy. rewrite Hsame by (intros [= ->]; done). apply Hfresh. by right.
  - split_and!; [done|by trans (link_back l id (MaxNeighbors h l) h x)|]. intros y l' Hl. rewrite Hsame' by done. apply Hsame. naive_solver.
Qed.

Lemma connect_layer_ok q qn id l h cur :
  links_ok h → unlinked h id l → is_Some (links_of h id l) → is_Some (links_of h cur l) → cur ≠ id →
  ∃ h' cur', connect_layer q qn id (h, cur) l = Some (h', cur') ∧ links_ok h' ∧ relinked h h' ∧
    (∀ l', (l' < l)%nat → unlinked h' id l') ∧ is_Some (links_of h' cur' l) ∧ cur' ≠ id.
Proof.
  intros Hok Hun Hid Hcur Hne. unfold connect_layer. set (P := λ x, is_Some (links_of h x l) ∧ x ≠ id).
  destruct (SearchLayer_spec h q qn cur l (ef_construction (hnsw_config h)) P) as (cands & -> & Hcne & Hnd & HP & _).
  { intros k ns [_ _] Hns x Hx. destruct (Hok k l ns Hns) as (_ & _ & _ & Hlayer). split; [by apply Hlayer|].
    intros ->. by eapply Hun. }
  { intros x [Hx _]. by eapply layer_in_range. } { done. }
  cbn. rewrite SelectNeighbors_take. set (selected := (take _ cands).*2). assert (Hsub : ∀ x, x ∈ selected → P x).
  { intros x (p & -> & Hp)%list_elem_of_fmap. apply (subseteq_take _ cands) in Hp. by apply HP. }
  assert (Hsn : NoDup selected) by (unfold selected; rewrite fmap_take; eapply sublist_NoDup; [exact Hnd|apply sublist_take]).
  assert (Hids : id ∉ selected) by (intros [_ ?]%Hsub; done).
  set (h1 := alter_node (set_links l selected) id h). assert (Hr1 : relinked h h1) by apply relinked_set.
  assert (Hok1 : links_ok h1).
  { apply links_ok_set; [done|done| |done|]. - unfold selected. rewrite length_fmap, length_take. lia. - intros x Hx. by apply Hsub. }
  destruct (link_all_ok l id (MaxNeighbors h l) selected h1) as (Hok2 & Hr2 & Hsame); [done|by apply relinked_max| |done|done| |].
  { by rewrite (relinked_layer _ _ _ _ Hr1). }
  { intros x ns Hx. unfold h1. rewrite links_set, decide_False; [|intros [-> _]; by apply Hids].
    intros Hns. by apply (Hun x l ns). }
  assert (Hr : relinked h (fold_left (link_back l id (MaxNeighbors h l)) selected h1)) by (by trans h1).
  eexists _, _. split; [done|]. split_and!; [done|done| | |].
  - intros l' Hl k l'' ns Hl' Hns. rewrite Hsame in Hns by lia. unfold h1 in Hns. rewrite links_set, decide_False in Hns by lia.
    eapply (Hun k l''); [lia|done].
  - rewrite (relinked_layer _ _ _ _ Hr). destruct cands as [|[d x] cands]; [done|]. apply (HP (d, x)). left.
  - destruct cands as [|[d x] cands]; [done|]. apply (HP (d, x)). left.
Qed.

Lemma connect_ok q qn id : ∀ n h cur,
  links_ok h → unlinked h id n → is_Some (links_of h id n) → is_Some (links_of h cur n) → cur ≠ id →
  ∃ h' cur', connect q qn id (reverse (seq 0 (S n))) (h, cur) = Some (h', cur') ∧ links_ok h' ∧ relinked h h'.
Proof.
  induction n as [|n IH]; intros h cur Hok Hun Hid Hcur Hne; rewrite seq_S, reverse_app; cbn [reverse rev_append app connect Nat.add].
  - destruct (connect_layer_ok q qn id 0 h cur) as (h' & cur' & -> & ? & ? & _); [done..|]. by exists h', cur'.
  - destruct (connect_layer_ok q qn id (S n) h cur) as (h' & cur' & -> & Hok' & Hr & Hun' & Hcur' & Hne'); [done..|]. cbn.
    destruct (IH h' cur') as (h2 & cur2 & E & ? & ?).
    + done. + apply Hun'. lia.
    + rewrite (relinked_layer _ _ _ _ Hr). apply (links_below _ _ (S n)); [lia|done].
    + apply (links_below _ _ (S n)); [lia|done]. + done.
    + exists h2, cur2. split_and!; [exact E|done|by trans h'].
Qed.
End connect.

(** ** The level of a node *)

Section level.
Context {random : LevelRandom}.

Lemma f64_mantissa b s mant e : f64 b = S754_finite s mant e → Zpos mant < 2 ^ 53.
Proof.
  unfold f64, decode. cbn [mbits ebits binary64]. set (k := b mod 2 ^ 52).
  assert (Hk : 0 ≤ k < 2 ^ 52) by (apply Z.mod_pos_bound; lia).
  destruct (_ =? _); [by case_match|]. destruct (_ =? 0).
  - destruct k eqn:E; intros [= <- <- <-]; lia.
  - destruct (k + 2 ^ 52) eqn:E; intros [= <- <- <-]; lia.
Qed.

Lemma trunc_below b : f64_ltb b (f64_of_Z (Z.of_nat kMaxNodeLevel)) = true → (trunc_f64 b ≤ kMaxNodeLevel)%nat.
Proof.
  unfold f64_ltb, trunc_f64. assert (f64 (f64_of_Z (Z.of_nat kMaxNodeLevel)) = S754_finite false 4503599627370496 (-46)) as -> by (by vm_compute).
  destruct (f64 b) as [| | |[] mant e] eqn:E; try (intros _; unfold kMaxNodeLevel; lia). apply f64_mantissa in E.
  rewrite SFltb_rank by done. unfold rank_lt, rank. cbn [fst snd]. intros Hlt.
  rewrite Z.shiftl_div_pow2 by lia. assert (Z.pos mant / 2 ^ (- e) ≤ 64); [|unfold kMaxNodeLevel; lia].
  destruct (Z.eq_dec e (-46)) as [->|He].
  - apply Z.div_le_upper_bound; [done|]. change (2 ^ (- -46)) with 70368744177664. lia.
  - assert (2 ^ 47 ≤ 2 ^ (- e)) by (apply Z.pow_le_mono_r; lia). apply Z.div_le_upper_bound; lia.
Qed.

Lemma RandomLevel_spec h : let '(l, h') := RandomLevel h in (l ≤ kMaxNodeLevel)%nat ∧ h' = with_rng (S (rng_ h)) h.
Proof. unfold RandomLevel. split; [|done]. destruct (f64_ltb _ _) eqn:E; cbn [negb]; [by apply trunc_below|done]. Qed.
End level.

(** ** The map of the index *)

Section refinement.
Context {impl : DistanceFunctions} {heap : MinHeap} {max_heap : MaxHeap} {random : LevelRandom}.
Implicit Types (h : HnswIndex).

Definition count_live (l : list Node) : nat := length (filter (λ b, b = false) (deleted <$> l)).
Definition live h (id : nat) : Prop := (id < length (nodes_ h))%nat ∧ deleted (node_at h id) = false.

(** The tables agree with the nodes. *)
Record base_ok h : Prop := {
  hk_vectors : length (vectors_ h) = (length (nodes_ h) * dimension_ h)%nat;
  hk_norms : length (vector_norms_ h) = length (nodes_ h);
  hk_norm id : (id < length (nodes_ h))%nat → node_norm h id = query_norm_of h (GetNodeVector h id);
  hk_shape id : (id < length (nodes_ h))%nat →
    length (neighbors (node_at h id)) = S (level (node_at h id)) ∧ (level (node_at h id) ≤ kMaxNodeLevel)%nat;
  hk_map label id : compact_to_internal_ h !! label = Some (Some id) → (id < length (nodes_ h))%nat ∧ compact_index (node_at h id) = label;
  hk_live id : live h id → compact_to_internal_ h !! compact_index (node_at h id) = Some (Some id);
  hk_active : active_count_ h = Z.of_nat (count_live (nodes_ h))
}.

(** The entry point is on the top layer. *)
Definition entry_ok h : Prop :=
  match entry_point_ h with
  | None => nodes_ h = []
  | Some e => (e < length (nodes_ h))%nat ∧ level (node_at h e) = max_level_ h ∧
              ∀ id, (id < length (nodes_ h))%nat → (level (node_at h id) ≤ max_level_ h)%nat
  end.

Record hnsw_ok h : Prop := { hk_base : base_ok h; hk_links : links_ok h; hk_entry : entry_ok h }.

(** Positions and labels fit their [uint32_t]. *)
Definition hnsw_room h : Prop := Z.of_nat (length (nodes_ h)) < u32_max.

Definition hnsw_view h : gmap Z (list Z) := list_to_map ((λ p, (Z.of_nat p.1, p.2)) <$> live_vectors h).

(** The frame: what no operation on the contents changes. *)
Definition same_setup h h' : Prop :=
  hnsw_config h' = hnsw_config h ∧ dimension_ h' = dimension_ h ∧ metric_ h' = metric_ h ∧
  use_cosine_prenorm_ h' = use_cosine_prenorm_ h ∧ level_mult_ h' = level_mult_ h.

#[global] Instance same_setup_refl : Reflexive same_setup.
Proof. by intros h. Qed.
#[global] Instance same_setup_trans : Transitive same_setup.
Proof. unfold same_setup. intros h1 h2 h3 H1 H2. intuition congruence. Qed.

Lemma relinked_setup h h' : relinked h h' → same_setup h h'.
Proof. by intros [-> _]. Qed.

Lemma live_vectors_spec h label v :
  (label, v) ∈ live_vectors h ↔
  ∃ id, compact_to_internal_ h !! label = Some (Some id) ∧ live h id ∧ v = GetNodeVector h id.
Proof.
  unfold live_vectors, live. rewrite list_elem_of_omap. split.
  - intros (l & _ & Hl). destruct (compact_to_internal_ h !! l) as [[id|]|] eqn:E; [|done..].
    destruct (Nat.leb_spec (length (nodes_ h)) id); [done|]. cbn [orb] in Hl. destruct (deleted _) eqn:Ed; [done|].
    injection Hl as <- <-. eauto.
  - intros (id & Hid & [Hlt Hd] & ->). exists label. split; [apply elem_of_seq; apply lookup_lt_Some in Hid; lia|].
    rewrite Hid. destruct (Nat.leb_spec (length (nodes_ h)) id); [lia|]. by rewrite Hd.
Qed.

Lemma live_vectors_labels h : NoDup (live_vectors h).*1.
Proof.
  unfold live_vectors. generalize (NoDup_seq 0 (length (compact_to_internal_ h))). generalize (seq 0 (length (compact_to_internal_ h))) as l.
  set (f := λ label : nat, _). assert (Hf : ∀ x p, f x = Some p → p.1 = x).
  { intros x p. unfold f. repeat case_match; naive_solver. }
  induction l as [|x l IH]; intros Hn; [constructor|]. apply NoDup_cons in Hn as [Hx Hn]. cbn [omap list_omap].
  destruct (f x) as [p|] eqn:E; [|by apply IH]. cbn. apply NoDup_cons. split; [|by apply IH].
  intros (q & Hq & (y & Hy & Hfy)%list_elem_of_omap)%list_elem_of_fmap. apply Hf in E, Hfy. congruence.
Qed.

Lemma hnsw_view_spec h l v :
  hnsw_view h !! l = Some v ↔
  ∃ label id, l = Z.of_nat label ∧ compact_to_internal_ h !! label = Some (Some id) ∧ live h id ∧ v = GetNodeVector h id.
Proof.
  unfold hnsw_view. rewrite <- elem_of_list_to_map.
  - rewrite list_elem_of_fmap. split.
    + intros ([label v'] & [= -> ->] & (id & ?)%live_vectors_spec). eauto.
    + intros (label & id & -> & H). exists (label, v). split; [done|]. apply live_vectors_spec. eauto.
  - rewrite <- list_fmap_compose. change (fst ∘ _) with (Z.of_nat ∘ (fst : nat * list Z → nat)). rewrite list_fmap_compose.
    apply NoDup_fmap_2; [apply _|]. apply live_vectors_labels.
Qed.

(** Equal lookups are equal maps. *)
Lemma view_ext h m : (∀ l v, hnsw_view h !! l = Some v ↔ m !! l = Some v) → hnsw_view h = m.
Proof. intros H. apply map_eq. intros l. apply option_eq. apply H. Qed.

(** *** Relinking *)

Lemma node_data_eq n n' : node_data n = node_data n' →
  compact_index n = compact_index n' ∧ level n = level n' ∧ deleted n = deleted n' ∧ length (neighbors n) = length (neighbors n').
Proof. by intros [= ? ? ? ?]. Qed.

Lemma base_ok_relinked h h' : relinked h h' → base_ok h → base_ok h'.
Proof.
  intros Hr [Hv Hn Hnm Hs Hm Hl Ha]. pose proof (relinked_length h h' Hr) as Hlen.
  assert (Hd : ∀ id, _) by exact (λ id, node_data_eq _ _ (relinked_data h h' id Hr)).
  assert (Hdel : deleted <$> nodes_ h' = deleted <$> nodes_ h).
  { destruct Hr as [_ E]. apply (f_equal (fmap (λ d, d.1.2))) in E. by rewrite <- !list_fmap_compose in E. }
  destruct Hr as [E _]. assert (Hvec : vectors_ h' = vectors_ h) by (by rewrite E).
  assert (Hnorms : vector_norms_ h' = vector_norms_ h) by (by rewrite E).
  assert (Hdim : dimension_ h' = dimension_ h) by (by rewrite E). assert (Hcos : use_cosine_prenorm_ h' = use_cosine_prenorm_ h) by (by rewrite E).
  assert (Hc2i : compact_to_internal_ h' = compact_to_internal_ h) by (by rewrite E).
  assert (Hact : active_count_ h' = active_count_ h) by (by rewrite E). clear E. unfold live in *.
  constructor; unfold live, node_norm, GetNodeVector, query_norm_of; rewrite ?Hlen, ?Hvec, ?Hnorms, ?Hdim, ?Hcos, ?Hc2i, ?Hact; try done.
  - intros id. destruct (Hd id) as (_ & -> & _ & ->). apply Hs.
  - intros label id Hid. destruct (Hd id) as (-> & _). by apply Hm.
  - intros id [Hid Hdid]. destruct (Hd id) as (-> & _ & E & _). apply Hl. split; [done|]. by rewrite <- E.
  - rewrite Ha. unfold count_live. by rewrite Hdel.
Qed.

Lemma view_relinked h h' : relinked h h' → hnsw_view h' = hnsw_view h.
Proof.
  intros Hr. pose proof (relinked_length h h' Hr) as Hlen. apply view_ext. intros l v. rewrite !hnsw_view_spec. unfold live.
  assert (Hd : ∀ id, deleted (node_at h' id) = deleted (node_at h id)).
  { intros id. by destruct (node_data_eq _ _ (relinked_data h h' id Hr)) as (_ & _ & ? & _). }
  assert (Hv : ∀ id, GetNodeVector h' id = GetNodeVector h id) by (intros id; by destruct Hr as [-> _]).
  assert (Hc : compact_to_internal_ h' = compact_to_internal_ h) by (by destruct Hr as [-> _]).
  setoid_rewrite Hd. setoid_rewrite Hv. by rewrite Hlen, Hc.
Qed.

(** *** Retiring a node *)

Definition retire (id : nat) h : HnswIndex := with_active (u32 (active_count_ h - 1)) (alter_node set_deleted id h).

Lemma node_at_retire h id x :
  node_at (retire id h) x = if decide (x = id ∧ (x < length (nodes_ h))%nat) then set_deleted (node_at h x) else node_at h x.
Proof.
  unfold node_at, retire, alter_node. cbn. destruct (decide (x = id)) as [->|Hne].
  - rewrite list_lookup_alter_eq. case_decide as E.
    + destruct E as [_ E]. apply lookup_lt_is_Some in E as [n ->]. done.
    + rewrite lookup_ge_None_2 by lia. done.
  - rewrite list_lookup_alter_ne by done. by rewrite decide_False by naive_solver.
Qed.

Lemma count_live_retire l id n : l !! id = Some n → deleted n = false → count_live l = S (count_live (alter set_deleted id l)).
Proof.
  revert id. unfold count_live. induction l as [|x l IH]; intros [|id] Hid Hd; [done..| |]; cbn in *.
  - injection Hid as ->. by rewrite Hd.
  - case_decide; cbn; [f_equal|]; by apply IH.
Qed.

Lemma count_live_le l : (count_live l ≤ length l)%nat.
Proof. unfold count_live. rewrite length_filter. by rewrite length_fmap. Qed.

Lemma retire_ok h id label :
  base_ok h → Z.of_nat (length (nodes_ h)) ≤ u32_max → live h id → compact_to_internal_ h !! label = Some (Some id) →
  base_ok (retire id h) ∧ hnsw_view (retire id h) = delete (Z.of_nat label) (hnsw_view h).
Proof.
  intros [Hv Hn Hnm Hs Hm Hl Ha] Hroom [Hid Hd] Hlab. destruct (Hm label id Hlab) as [_ Hci].
  assert (Hlen : length (nodes_ (retire id h)) = length (nodes_ h)) by apply length_alter. split.
  - constructor; unfold live; rewrite ?Hlen; try done.
    + intros x Hx. rewrite node_at_retire. case_decide; by apply Hs.
    + intros l x Hx. rewrite node_at_retire. destruct (Hm l x Hx). by case_decide.
    + intros x. rewrite node_at_retire. case_decide as E; [by intros [_ ?]|]. intros ?. by apply Hl.
    + change (u32 (active_count_ h - 1) = Z.of_nat (count_live (alter set_deleted id (nodes_ h)))). rewrite Ha. destruct (lookup_lt_is_Some_2 _ _ Hid) as [n Hn']. unfold node_at in Hd. rewrite Hn' in Hd.
      pose proof (count_live_retire _ id n Hn' Hd) as Hc. pose proof (count_live_le (nodes_ h)). unfold u32. rewrite wrap_small by (unfold in_u, u32_max in *; lia). lia.
  - apply view_ext. intros l v. rewrite lookup_delete_Some, !hnsw_view_spec. unfold live. rewrite Hlen. split.
    + intros (lb & x & -> & Hx & [Hlt Hdel] & ->). rewrite node_at_retire in Hdel. case_decide as E; [done|].
      change (compact_to_internal_ h !! lb = Some (Some x)) in Hx. split; [|by exists lb, x].
      intros ->%Nat2Z.inj. rewrite Hlab in Hx. injection Hx as <-. naive_solver.
    + intros (Hne & lb & x & -> & Hx & [Hlt Hdel] & ->). exists lb, x. split_and!; [done|done|done| |done]. rewrite node_at_retire.
      rewrite decide_False; [done|]. intros [-> _]. destruct (Hm lb id Hx). congruence.
Qed.

(** *** A new node *)

Lemma grow_lookup {A} (n : nat) (l : list (option A)) i y : grow None n l !! i = Some (Some y) ↔ l !! i = Some (Some y).
Proof.
  unfold grow. destruct (Nat.ltb_spec (length l) n) as [Hlt|]; [|done]. rewrite resize_ge by lia. rewrite lookup_app.
  destruct (l !! i) eqn:E; [done|]. split; [|done]. intros H. apply list_elem_of_lookup_2, elem_of_replicate in H. naive_solver.
Qed.

Lemma grow_length {A} (x : A) (n : nat) (l : list A) : (n ≤ length (grow x n l))%nat.
Proof. unfold grow. destruct (Nat.ltb_spec (length l) n) as [Hlt|]; [|done]. by rewrite length_resize. Qed.

(** Only the value of "no node" may differ. *)
Lemma with_compact_ok h map :
  (∀ l id, map !! l = Some (Some id) ↔ compact_to_internal_ h !! l = Some (Some id)) →
  base_ok h → base_ok (with_compact map h) ∧ hnsw_view (with_compact map h) = hnsw_view h.
Proof.
  intros Hmap [Hv Hn Hnm Hs Hm Hl Ha]. split.
  - constructor; try done.
    + intros l id Hid. by apply Hm, Hmap.
    + intros id Hid. by apply Hmap, Hl.
  - apply view_ext. intros l v. rewrite !hnsw_view_spec. cbn. by setoid_rewrite Hmap.
Qed.

Lemma retire_previous_ok h label :
  base_ok h → Z.of_nat (length (nodes_ h)) ≤ u32_max →
  base_ok (retire_previous label h) ∧ hnsw_view (retire_previous label h) = delete (Z.of_nat label) (hnsw_view h) ∧
  length (nodes_ (retire_previous label h)) = length (nodes_ h) ∧
  (∀ id, live (retire_previous label h) id → compact_index (node_at (retire_previous label h) id) ≠ label) ∧
  (∀ id, neighbors (node_at (retire_previous label h) id) = neighbors (node_at h id) ∧ level (node_at (retire_previous label h) id) = level (node_at h id)) ∧
  compact_to_internal_ (retire_previous label h) = compact_to_internal_ h.
Proof.
  intros Hok Hroom. pose proof Hok as [Hv Hn Hnm Hs Hm Hl Ha].
  assert (Hskip : (∀ id, compact_to_internal_ h !! label = Some (Some id) → live h id → False) →
    hnsw_view h = delete (Z.of_nat label) (hnsw_view h) ∧ ∀ id, live h id → compact_index (node_at h id) ≠ label).
  { intros Hno. split.
    - symmetry. apply delete_id. apply eq_None_not_Some. intros [v (lb & id & E%Nat2Z.inj & Hid & Hlive & _)%hnsw_view_spec]. subst lb. by eapply Hno.
    - intros id Hlive E. pose proof (Hl id Hlive) as Hc. rewrite E in Hc. by eapply Hno. }
  unfold retire_previous. destruct (compact_to_internal_ h !! label) as [[id|]|] eqn:Hlab.
  2, 3: destruct Hskip as [? ?]; [done|]; by split_and!.
  destruct (Hm label id Hlab) as [Hlt Hci]. rewrite (proj2 (Nat.ltb_lt _ _) Hlt). cbn [andb].
  destruct (deleted (node_at h id)) eqn:Hd; cbn [negb].
  { destruct Hskip as [? ?]; [|by split_and!]. intros ? [= <-] [_ ?]. congruence. }
  assert (0 <? active_count_ h = true) as Hact.
  { apply Z.ltb_lt. rewrite Ha. destruct (lookup_lt_is_Some_2 _ _ Hlt) as [n Hn']. unfold node_at in Hd. rewrite Hn' in Hd.
    rewrite (count_live_retire _ id n Hn' Hd). lia. }
  cbn [active_count_ alter_node with_nodes]. rewrite Hact. fold (retire id h).
  destruct (retire_ok h id label Hok Hroom (conj Hlt Hd) Hlab) as [Hok' Hview]. split_and!; [done|done|apply length_alter| | |done].
  - intros x Hx E. pose proof (hk_live _ Hok' x Hx) as Hc. rewrite E in Hc. change (compact_to_internal_ h !! label = Some (Some x)) in Hc.
    rewrite Hlab in Hc. injection Hc as <-. destruct Hx as [_ Hx]. rewrite node_at_retire, decide_True in Hx by done. done.
  - intros x. rewrite node_at_retire. by case_decide.
Qed.

(** The state with the new node stored, not yet linked. *)
Definition pushed (label lvl : nat) (v : list Z) (draws : nat) h : HnswIndex :=
  with_active (u32 (active_count_ h + 1))
    (with_nodes (nodes_ h ++ [MkNode label lvl false (replicate (S lvl) [])])
      (with_rng draws
        (with_vectors (vectors_ h ++ v) (vector_norms_ h ++ [query_norm_of h v])
          (with_compact (<[label := Some (length (nodes_ h))]> (compact_to_internal_ h)) h)))).

Lemma pushed_node label lvl v draws h x :
  node_at (pushed label lvl v draws h) x =
  if decide (x = length (nodes_ h)) then MkNode label lvl false (replicate (S lvl) []) else node_at h x.
Proof.
  unfold node_at, pushed. cbn. case_decide as E; [subst; by rewrite list_lookup_middle|].
  destruct (decide (x < length (nodes_ h))%nat); [by rewrite lookup_app_l|].
  rewrite !lookup_ge_None_2; [done|lia|]. rewrite length_app. cbn. lia.
Qed.

Lemma pushed_vector label lvl v draws h x :
  base_ok h → length v = dimension_ h →
  ((x < length (nodes_ h))%nat → GetNodeVector (pushed label lvl v draws h) x = GetNodeVector h x ∧ node_norm (pushed label lvl v draws h) x = node_norm h x) ∧
  (x = length (nodes_ h) → GetNodeVector (pushed label lvl v draws h) x = v ∧ node_norm (pushed label lvl v draws h) x = query_norm_of h v).
Proof.
  intros [Hv Hn _ _ _ _ _] Hlen. unfold GetNodeVector, node_norm, pushed. cbn -[row]. split.
  - intros Hx. rewrite row_app by (rewrite Hv; by apply row_end). by rewrite lookup_app_l by lia.
  - intros ->. rewrite <- Hn, list_lookup_middle by done. split; [|done]. unfold row. rewrite Hn, <- Hv, drop_app_length, take_ge by lia. done.
Qed.

Lemma pushed_links label lvl v draws h :
  links_ok h → links_ok (pushed label lvl v draws h) ∧
  (∀ l, unlinked (pushed label lvl v draws h) (length (nodes_ h)) l) ∧
  (∀ x l, (x < length (nodes_ h))%nat → links_of (pushed label lvl v draws h) x l = links_of h x l) ∧
  (∀ l, (l ≤ lvl)%nat → is_Some (links_of (pushed label lvl v draws h) (length (nodes_ h)) l)).
Proof.
  intros Hok. set (h' := pushed _ _ _ _ _). set (n := length (nodes_ h)).
  assert (Hnew : ∀ l ns, links_of h' n l = Some ns → ns = []).
  { intros l ns. unfold links_of, h'. rewrite pushed_node, decide_True by done. cbn [neighbors]. by intros [-> _]%lookup_replicate. }
  assert (Hold : ∀ x l, x ≠ n → links_of h' x l = links_of h x l).
  { intros x l Hx. unfold links_of, h'. by rewrite pushed_node, decide_False. }
  assert (Hin : ∀ x l ns, x ≠ n → links_of h' x l = Some ns → ∀ y, y ∈ ns → is_Some (links_of h y l)).
  { intros x l ns Hx Hns y Hy. rewrite Hold in Hns by done. destruct (Hok x l ns Hns) as (_ & _ & _ & H). by apply H. }
  split_and!.
  - intros x l ns Hns. destruct (decide (x = n)) as [->|Hx].
    + rewrite (Hnew l ns Hns). split_and!; [constructor|cbn; lia|set_solver|set_solver].
    + pose proof (Hin x l ns Hx Hns) as Hys. rewrite Hold in Hns by done. destruct (Hok x l ns Hns) as (? & ? & ? & _). split_and!; [done..|].
      intros y Hy. rewrite Hold; [by apply Hys|]. intros ->. apply Hys, layer_in_range in Hy. unfold n in Hy. lia.
  - intros l k l' ns _ Hns Hn. destruct (decide (k = n)) as [->|Hk].
    + rewrite (Hnew l' ns Hns) in Hn. set_solver.
    + apply (Hin k l' ns Hk Hns), layer_in_range in Hn. unfold n in Hn. lia.
  - intros x l Hx. apply Hold. unfold n. lia.
  - intros l Hl. unfold links_of, h', n. rewrite pushed_node, decide_True by done. cbn [neighbors]. apply lookup_lt_is_Some. rewrite length_replicate. lia.
Qed.

Lemma count_live_app l1 l2 : count_live (l1 ++ l2) = (count_live l1 + count_live l2)%nat.
Proof. unfold count_live. by rewrite fmap_app, filter_app, length_app. Qed.

Lemma pushed_ok label lvl v draws h :
  base_ok h → hnsw_room h → length v = dimension_ h → (lvl ≤ kMaxNodeLevel)%nat → (label < length (compact_to_internal_ h))%nat →
  (∀ id, live h id → compact_index (node_at h id) ≠ label) →
  base_ok (pushed label lvl v draws h) ∧ hnsw_view (pushed label lvl v draws h) = <[Z.of_nat label := v]> (hnsw_view h).
Proof.
  intros Hok Hroom Hlen Hlvl Hlab Hfree. pose proof Hok as [Hv Hn Hnm Hs Hm Hl Ha]. set (h' := pushed _ _ _ _ _). set (n := length (nodes_ h)) in *.
  assert (Hln : length (nodes_ h') = S n) by (cbn; rewrite length_app; cbn; lia).
  assert (Hc : ∀ l id, compact_to_internal_ h' !! l = Some (Some id) ↔ (l = label ∧ id = n) ∨ (l ≠ label ∧ compact_to_internal_ h !! l = Some (Some id))).
  { intros l id. cbn. rewrite list_lookup_insert_Some. naive_solver. }
  assert (Hlive : ∀ id, live h' id ↔ id = n ∨ live h id).
  { intros id. unfold live. rewrite Hln. unfold h'. rewrite pushed_node. fold n. case_decide; [subst; cbn; split; [by left|lia]|]. split; [right|naive_solver lia]. split; [lia|naive_solver]. }
  assert (Hvec : ∀ id, _) by exact (λ id, pushed_vector label lvl v draws h id Hok Hlen). fold h' n in Hvec. split.
  - constructor; rewrite ?Hln.
    + cbn. rewrite length_app, Hv, Hlen. lia.
    + cbn. rewrite length_app, Hn. cbn. lia.
    + intros id Hid. destruct (Hvec id) as [H1 H2]. destruct (decide (id = n)) as [E|E]; [destruct (H2 E) as [-> ->]; done|].
      destruct (H1 ltac:(lia)) as [-> ->]. by rewrite Hnm by lia.
    + intros id Hid. unfold h'. rewrite pushed_node. fold n. case_decide; [cbn; by rewrite length_replicate|apply Hs; lia].
    + intros l id Hid. unfold h'. rewrite pushed_node. fold n. apply Hc in Hid as [[-> ->]|[Hne Hid]]; [by rewrite decide_True; [split; [lia|]|]|].
      destruct (Hm l id Hid). rewrite decide_False by lia. split; [lia|done].
    + assert (Hnode : ∀ x, node_at h' x = _) by exact (pushed_node label lvl v draws h). fold n in Hnode.
      intros id [->|Hid]%Hlive; rewrite Hnode; [rewrite decide_True by done; apply Hc; by left|].
      destruct Hid as [Hid Hd]. rewrite decide_False by lia. apply Hc. right. split; [by apply Hfree|by apply Hl].
    + change (u32 (active_count_ h + 1) = Z.of_nat (count_live (nodes_ h ++ [MkNode label lvl false (replicate (S lvl) [])]))).
      rewrite count_live_app, Ha. pose proof (count_live_le (nodes_ h)). unfold hnsw_room, u32_max in Hroom. unfold u32. rewrite wrap_small by (unfold in_u; lia).
      change (count_live [MkNode label lvl false (replicate (S lvl) [])]) with 1%nat. lia.
  - apply view_ext. intros l w. rewrite lookup_insert_Some, !hnsw_view_spec. setoid_rewrite Hc. setoid_rewrite Hlive. split.
    + intros (lb & id & -> & [[-> ->]|[Hne Hid]] & Hli & ->); [left; destruct (Hvec n) as [_ H2]; by destruct (H2 eq_refl) as [-> _]|].
      destruct (Hm lb id Hid) as [Hlt _]. destruct Hli as [->|Hli]; [lia|]. right. split; [lia|]. exists lb, id.
      destruct (Hvec id) as [H1 _]. by destruct (H1 Hlt) as [-> _].
    + intros [[<- <-]|(Hne & lb & id & -> & Hid & Hli & ->)].
      * exists label, n. destruct (Hvec n) as [_ H2]. destruct (H2 eq_refl) as [-> _]. naive_solver.
      * exists lb, id. destruct (Hm lb id Hid) as [Hlt _]. destruct (Hvec id) as [H1 _]. destruct (H1 Hlt) as [-> _].
        split_and!; [done|right; split; [intros ->; lia|done]|by right|done].
Qed.

Definition prepared (label : nat) h : HnswIndex :=
  retire_previous label (with_compact (grow None (S label) (compact_to_internal_ h)) h).

Lemma prepared_ok label h :
  hnsw_ok h → hnsw_room h →
  hnsw_ok (prepared label h) ∧ hnsw_view (prepared label h) = delete (Z.of_nat label) (hnsw_view h) ∧
  length (nodes_ (prepared label h)) = length (nodes_ h) ∧ (label < length (compact_to_internal_ (prepared label h)))%nat ∧
  (∀ id, live (prepared label h) id → compact_index (node_at (prepared label h) id) ≠ label) ∧ same_setup h (prepared label h).
Proof.
  intros [Hb Hl He] Hroom. unfold hnsw_room in Hroom. unfold prepared. set (g := with_compact _ h).
  destruct (with_compact_ok h (grow None (S label) (compact_to_internal_ h))) as [Hb1 Hv1]; [intros; apply grow_lookup|done|]. fold g in Hb1, Hv1.
  destruct (retire_previous_ok g label Hb1) as (Hb2 & Hv2 & Hlen & Hfree & Hsame & Hc2i); [cbn; lia|].
  assert (Hlinks : ∀ x l, links_of (retire_previous label g) x l = links_of h x l).
  { intros x l. unfold links_of. by destruct (Hsame x) as [-> _]. }
  assert (Hset : same_setup h (retire_previous label g)) by (unfold retire_previous; repeat case_match; done).
  split_and!; [|by rewrite Hv2, Hv1|done| |done|done].
  - split; [done| |].
    + intros x l ns. rewrite Hlinks. intros Hns. setoid_rewrite Hlinks. unfold MaxNeighbors. destruct Hset as (-> & _). by apply Hl.
    + assert (Hent : entry_point_ (retire_previous label g) = entry_point_ h ∧ max_level_ (retire_previous label g) = max_level_ h)
        by (unfold retire_previous; repeat case_match; done).
      unfold entry_ok in *. destruct Hent as [-> ->]. destruct (entry_point_ h).
      * rewrite Hlen. destruct He as (? & <- & Hmax). destruct (Hsame n) as [_ ->]. split_and!; [done|done|].
        intros id Hid. destruct (Hsame id) as [_ ->]. by apply Hmax.
      * apply nil_length_inv. rewrite Hlen. cbn. by rewrite He.
  - rewrite Hc2i. cbn. pose proof (grow_length None (S label) (compact_to_internal_ h)). lia.
Qed.

Lemma append_node_pushed label v h :
  length (nodes_ (prepared label h)) = length (nodes_ h) →
  ∃ lvl, (lvl ≤ kMaxNodeLevel)%nat ∧
    append_node label v h = (length (nodes_ h), lvl, pushed label lvl v (S (rng_ (prepared label h))) (prepared label h)).
Proof.
  intros Hlen. exists (RandomLevel (prepared label h)).1. split.
  { pose proof (RandomLevel_spec (prepared label h)) as H. destruct (RandomLevel _). by destruct H. }
  unfold append_node. fold (prepared label h). cbv zeta. unfold pushed. rewrite Hlen. done.
Qed.

Lemma layers_start h e : entry_ok h → base_ok h → entry_point_ h = Some e → is_Some (links_of h e (max_level_ h)).
Proof.
  unfold entry_ok. intros He Hb E. rewrite E in He. destruct He as (Hlt & <- & _). destruct (hk_shape _ Hb e Hlt) as [Hs _].
  unfold links_of. apply lookup_lt_is_Some. lia.
Qed.

(** Descending to the level of a new node and linking it from there. *)
Lemma descend_connect_ok v qn h id lvl top e :
  links_ok h → (∀ l, unlinked h id l) → (∀ l, (l ≤ lvl)%nat → is_Some (links_of h id l)) → is_Some (links_of h e top) → e ≠ id →
  ∃ cur h' cur', descend h v qn (layers_above top lvl) e = Some cur ∧
    connect v qn id (reverse (seq 0 (S (lvl `min` top)))) (h, cur) = Some (h', cur') ∧ links_ok h' ∧ relinked h h'.
Proof.
  intros Hok Hun Hid He Hne. set (P := λ l x, is_Some (links_of h x l) ∧ x ≠ id).
  assert (Hclosed : ∀ l, closed h l (P l)).
  { intros l x ns _ Hns y Hy. destruct (Hok x l ns Hns) as (_ & _ & _ & Hly). split; [by apply Hly|]. intros ->. by eapply (Hun l x l). }
  assert (Hrange : ∀ l x, P l x → (x < length (nodes_ h))%nat) by (intros l x [Hx _]; by eapply layer_in_range).
  assert (Hdown : ∀ l l' x, (l ≤ l')%nat → P l' x → P l x) by (intros l l' x Hle [? ?]; split; [by eapply links_below|done]).
  destruct (descend_total h v qn P Hclosed Hrange Hdown (top - lvl) (lvl `min` top) e) as (cur & Hdesc & Hcur & Hcurn).
  { split; [|done]. by replace (lvl `min` top + (top - lvl))%nat with top by lia. }
  destruct (connect_ok v qn id (lvl `min` top) h cur) as (h' & cur' & Hcon & ? & ?); [done|apply Hun|apply Hid; lia|done|done|].
  exists cur, h', cur'. split_and!; [|done..]. rewrite <- Hdesc. unfold layers_above.
  destruct (decide (lvl ≤ top)%nat); [by rewrite Nat.min_l by lia|]. by replace (top - lvl)%nat with 0%nat by lia.
Qed.

(** An insertion ends, keeps the graph, and stores the vector under its label. *)
Lemma AddLocked_ok label pointer h :
  hnsw_ok h → hnsw_room h → (dimension_ h ≤ length pointer)%nat →
  ∃ h', AddLocked label pointer h = Some h' ∧ hnsw_ok h' ∧
    hnsw_view h' = <[Z.of_nat label := take (dimension_ h) pointer]> (hnsw_view h) ∧ same_setup h h' ∧
    length (nodes_ h') = S (length (nodes_ h)).
Proof.
  intros Hok Hroom Hp. destruct (prepared_ok label h Hok Hroom) as ([Hb Hl He] & Hview & Hlen & Hlab & Hfree & Hset).
  unfold AddLocked. set (v := take (dimension_ h) pointer). assert (Hv : length v = dimension_ h) by (unfold v; rewrite length_take; lia).
  destruct (append_node_pushed label v h Hlen) as (lvl & Hlvl & ->). set (g := prepared label h) in *.
  assert (Hgv : length v = dimension_ g) by (destruct Hset as (_ & -> & _); done).
  assert (Hgroom : hnsw_room g) by (unfold hnsw_room; by rewrite Hlen).
  destruct (pushed_ok label lvl v (S (rng_ g)) g Hb Hgroom Hgv Hlvl Hlab Hfree) as [Hb1 Hview1].
  destruct (pushed_links label lvl v (S (rng_ g)) g Hl) as (Hl1 & Hun & Hold & Hnew). set (g1 := pushed label lvl v (S (rng_ g)) g) in *.
  rewrite Hview, insert_delete_eq in Hview1. rewrite Hlen in *.
  assert (Hlen1 : length (nodes_ g1) = S (length (nodes_ h))) by (cbn; rewrite length_app, Hlen; cbn; lia).
  assert (Hset1 : same_setup h g1) by exact Hset. assert (Hnode : ∀ x, node_at g1 x = _) by exact (pushed_node label lvl v (S (rng_ g)) g).
  rewrite Hlen in Hnode. change (entry_point_ g1) with (entry_point_ g). unfold entry_ok in He. destruct (entry_point_ g) as [e|] eqn:Ee.
  2: { eexists. split; [done|]. split_and!; [|done|done|done]. assert (Hn0 : length (nodes_ h) = 0%nat) by (by rewrite <- Hlen, He).
       split; [by destruct Hb1; constructor|exact Hl1|]. unfold entry_ok. cbn [entry_point_ with_entry max_level_ nodes_]. rewrite Hlen1, Hn0.
       change (node_at (with_entry _ _ g1)) with (node_at g1). setoid_rewrite Hnode. rewrite Hn0.
       split_and!; [lia|done|]. intros id Hid. by rewrite decide_True by lia. }
  destruct He as (Helt & Hetop & Hemax). set (n := length (nodes_ h)) in *. change (max_level_ g1) with (max_level_ g).
  assert (Hestart : is_Some (links_of g1 e (max_level_ g))).
  { rewrite Hold by lia. apply layers_start; [|done|done]. unfold entry_ok. by rewrite Ee. }
  destruct (descend_connect_ok v (query_norm_of h v) g1 n lvl (max_level_ g) e) as (cur & g2 & cur2 & -> & Hcon & Hl2 & Hr); [done..|lia|].
  cbn [mbind option_bind]. rewrite Hcon.
  cbn [mbind option_bind fst]. assert (Hb2 : base_ok g2) by (by eapply base_ok_relinked). assert (Hlen2 : length (nodes_ g2) = S n) by (by rewrite (relinked_length _ _ Hr)).
  assert (Hlvl2 : ∀ id, level (node_at g2 id) = if decide (id = n) then lvl else level (node_at g id)).
  { intros id. destruct (node_data_eq _ _ (relinked_data _ _ id Hr)) as (_ & -> & _). rewrite Hnode. by case_decide. }
  assert (Hset2 : same_setup h g2) by (trans g1; [done|by apply relinked_setup]).
  assert (Htop : max_level_ g2 = max_level_ g ∧ entry_point_ g2 = Some e) by (destruct Hr as [-> _]; done). destruct Htop as [-> Hent].
  eexists. split; [done|]. destruct (Nat.ltb_spec (max_level_ g) lvl) as [Hup|Hdown].
  - split_and!; [|by rewrite <- Hview1, <- (view_relinked _ _ Hr)|done|done]. split; [by destruct Hb2; constructor|exact Hl2|].
    unfold entry_ok. cbn [entry_point_ with_entry max_level_ nodes_]. change (node_at (with_entry _ _ g2)) with (node_at g2). rewrite Hlen2. setoid_rewrite Hlvl2.
    split_and!; [lia|by rewrite decide_True|]. intros id Hid. case_decide; [done|]. specialize (Hemax id ltac:(lia)). lia.
  - split_and!; [|by rewrite <- Hview1, <- (view_relinked _ _ Hr)|done|done]. split; [done|done|]. unfold entry_ok. rewrite Hent, Hlen2. setoid_rewrite Hlvl2.
    destruct Hr as [-> _]. cbn [max_level_ with_nodes]. change (max_level_ g1) with (max_level_ g).
    split_and!; [lia|by rewrite decide_False by lia|]. intros id Hid. case_decide; [lia|]. apply Hemax. lia.
Qed.

(** *** Rebuilding *)

Lemma add_all_ok items : ∀ h,
  hnsw_ok h → Z.of_nat (length (nodes_ h) + length items) ≤ u32_max → Forall (λ p, (dimension_ h ≤ length p.2)%nat) items →
  ∃ h', add_all items h = Some h' ∧ hnsw_ok h' ∧
    hnsw_view h' = fold_left (λ m p, <[p.1 := p.2]> m) ((λ p, (Z.of_nat p.1, take (dimension_ h) p.2)) <$> items) (hnsw_view h) ∧
    same_setup h h' ∧ length (nodes_ h') = (length (nodes_ h) + length items)%nat.
Proof.
  induction items as [|[label v] items IH]; intros h Hok Hroom Hv; cbn [add_all].
  { exists h. split_and!; [done..|]. cbn. lia. }
  apply Forall_cons in Hv as [Hv Hvs]. cbn [length] in Hroom.
  destruct (AddLocked_ok label v h Hok) as (h1 & -> & Hok1 & Hview1 & Hset1 & Hlen1); [unfold hnsw_room; lia|done|].
  cbn [mbind option_bind]. destruct (IH h1 Hok1) as (h2 & -> & ? & Hview2 & Hset2 & Hlen2).
  { lia. } { destruct Hset1 as (_ & -> & _). done. }
  exists h2. split_and!; [done|done| |by trans h1|cbn; lia]. rewrite Hview2, Hview1. destruct Hset1 as (_ & -> & _). done.
Qed.

Lemma fold_insert_spec {A} (l : list (Z * A)) : ∀ (m : gmap Z A) k v, NoDup l.*1 →
  fold_left (λ m p, <[p.1 := p.2]> m) l m !! k = Some v ↔ (k, v) ∈ l ∨ (k ∉ l.*1 ∧ m !! k = Some v).
Proof.
  induction l as [|[k' v'] l IH]; intros m k v Hn; cbn [fold_left]; [set_solver|]. cbn in Hn. apply NoDup_cons in Hn as [Hk Hn].
  rewrite IH by done. cbn [fst snd]. rewrite lookup_insert_Some, elem_of_cons. cbn [fmap list_fmap fst].
  rewrite not_elem_of_cons. assert (∀ w, (k', w) ∈ l → False) by (intros w Hw; apply Hk, list_elem_of_fmap; by exists (k', w)). naive_solver.
Qed.

Lemma clear_graph_ok dim h : hnsw_ok (with_dimension dim (clear_graph h)) ∧ hnsw_view (with_dimension dim (clear_graph h)) = ∅.
Proof.
  split; [split|done].
  - constructor; unfold live; cbn; try done; try lia.
  - intros x l ns. unfold links_of, node_at. cbn. by rewrite !lookup_nil.
  - done.
Qed.

Lemma length_live_vectors h : base_ok h → (length (live_vectors h) ≤ length (nodes_ h))%nat.
Proof.
  intros Hb. trans (length ((λ id, compact_index (node_at h id)) <$> seq 0 (length (nodes_ h)))); [|by rewrite length_fmap, length_seq].
  rewrite <- (length_fmap fst (live_vectors h)). apply submseteq_length, NoDup_submseteq; [apply live_vectors_labels|].
  intros label ([l v] & -> & (id & Hid & Hlive & _)%live_vectors_spec)%list_elem_of_fmap. apply list_elem_of_fmap. exists id.
  split; [by destruct (hk_map _ Hb l id Hid) as [_ ->]|]. apply elem_of_seq. destruct Hlive. lia.
Qed.

Lemma length_GetNodeVector h id : base_ok h → (id < length (nodes_ h))%nat → length (GetNodeVector h id) = dimension_ h.
Proof. intros Hb Hid. apply length_row. rewrite (hk_vectors _ Hb). by apply row_end. Qed.

(** Compaction keeps the map. *)
Lemma MaybeCompactLocked_ok h :
  hnsw_ok h → Z.of_nat (length (nodes_ h)) ≤ u32_max →
  ∃ h', MaybeCompactLocked h = Some h' ∧ hnsw_ok h' ∧ hnsw_view h' = hnsw_view h ∧ same_setup h h' ∧
    (length (nodes_ h') ≤ length (nodes_ h))%nat.
Proof.
  intros Hok Hroom. unfold MaybeCompactLocked. destruct (_ || _); [by exists h|]. destruct (f64_ltb _ _); [by exists h|].
  pose proof (hk_base _ Hok) as Hb. pose proof (length_live_vectors h Hb) as Hlen.
  destruct (clear_graph_ok (dimension_ h) h) as [Hc Hview]. change (with_dimension (dimension_ h) (clear_graph h)) with (clear_graph h) in Hc, Hview.
  assert (Hdims : ∀ label v, (label, v) ∈ live_vectors h → length v = dimension_ h).
  { intros label v (id & _ & [Hid _] & ->)%live_vectors_spec. by apply length_GetNodeVector. }
  destruct (add_all_ok (live_vectors h) (clear_graph h) Hc) as (h' & -> & Hok' & Hview' & Hset & Hlen').
  { cbn. lia. } { apply Forall_forall. intros [label v] Hv. cbn. by rewrite (Hdims label v Hv). }
  exists h'. split_and!; [done|done| |done|cbn in Hlen'; lia]. rewrite Hview', Hview. apply map_eq. intros k. apply option_eq. intros v.
  rewrite fold_insert_spec.
  - rewrite lookup_empty, hnsw_view_spec, list_elem_of_fmap. split.
    + intros [([label w] & [= -> ->] & Hin)|[_ ?]]; [|done]. cbn [fst snd dimension_ clear_graph]. pose proof (Hdims label w Hin).
      apply live_vectors_spec in Hin as (id & ? & ? & ->). exists label, id. split_and!; [done..|]. cbn. rewrite take_ge by lia. done.
    + intros (label & id & -> & Hid & Hli & ->). left. exists (label, GetNodeVector h id). cbn [fst snd]. destruct Hli as [Hlt Hd].
      split; [|apply live_vectors_spec; by exists id]. cbn. by rewrite take_ge by (by rewrite length_GetNodeVector).
  - rewrite <- list_fmap_compose. change (fst ∘ _) with (Z.of_nat ∘ (fst : nat * list Z → nat)). rewrite list_fmap_compose.
    apply NoDup_fmap_2; [apply _|]. apply live_vectors_labels.
Qed.

(** *** The operations *)

Lemma Add_ok label pointer h :
  hnsw_ok h → hnsw_room h → (dimension_ h ≤ length pointer)%nat →
  ∃ h', Add label pointer h = Some h' ∧ hnsw_ok h' ∧
    hnsw_view h' = <[Z.of_nat label := take (dimension_ h) pointer]> (hnsw_view h) ∧ same_setup h h' ∧
    Z.of_nat (length (nodes_ h')) ≤ u32_max.
Proof.
  intros Hok Hroom Hp. unfold Add. destruct (AddLocked_ok label pointer h Hok Hroom Hp) as (h1 & -> & Hok1 & Hview1 & Hset1 & Hlen1).
  cbn [mbind option_bind]. destruct (MaybeCompactLocked_ok h1 Hok1) as (h2 & -> & Hok2 & Hview2 & Hset2 & Hlen2); [unfold hnsw_room in *; lia|].
  exists h2. split_and!; [done|done|by rewrite Hview2|by trans h1|unfold hnsw_room in *; lia].
Qed.

Lemma links_retire h id x l : links_of (retire id h) x l = links_of h x l.
Proof. unfold links_of. rewrite node_at_retire. by case_decide. Qed.

Lemma MarkDeleted_ok label h :
  hnsw_ok h → Z.of_nat (length (nodes_ h)) ≤ u32_max →
  ∃ h', MarkDeleted label h = Some h' ∧ hnsw_ok h' ∧ hnsw_view h' = delete (Z.of_nat label) (hnsw_view h) ∧ same_setup h h' ∧
    Z.of_nat (length (nodes_ h')) ≤ u32_max.
Proof.
  intros Hok Hroom. pose proof Hok as [Hb Hl He]. unfold MarkDeleted.
  assert (Hnone : (∀ id, compact_to_internal_ h !! label = Some (Some id) → live h id → False) → hnsw_view h = delete (Z.of_nat label) (hnsw_view h)).
  { intros Hno. symmetry. apply delete_id, eq_None_not_Some. intros [v (lb & id & E%Nat2Z.inj & Hid & Hlive & _)%hnsw_view_spec]. subst lb. by eapply Hno. }
  destruct (compact_to_internal_ h !! label) as [[id|]|] eqn:Hlab; [|by exists h; split_and!; try apply Hnone; naive_solver..].
  destruct (deleted (node_at h id)) eqn:Hd.
  { exists h. split_and!; try done. apply Hnone. intros ? [= <-] [_ ?]. congruence. }
  fold (retire id h). destruct (hk_map _ Hb label id Hlab) as [Hlt _].
  destruct (retire_ok h id label Hb Hroom (conj Hlt Hd) Hlab) as [Hb' Hview].
  assert (Hlen : length (nodes_ (retire id h)) = length (nodes_ h)) by apply length_alter.
  destruct (MaybeCompactLocked_ok (retire id h)) as (h' & -> & ? & Hview' & ? & Hlen').
  - split; [done| |].
    + intros x l ns. rewrite links_retire. setoid_rewrite links_retire. apply Hl.
    + unfold entry_ok in *. change (entry_point_ (retire id h)) with (entry_point_ h). change (max_level_ (retire id h)) with (max_level_ h).
      assert (Hlv : ∀ x, level (node_at (retire id h) x) = level (node_at h x)) by (intros x; rewrite node_at_retire; by case_decide).
      destruct (entry_point_ h); [rewrite Hlen; setoid_rewrite Hlv; done|]. apply nil_length_inv. by rewrite Hlen, He.
  - by rewrite Hlen.
  - exists h'. split_and!; [done|done|by rewrite Hview'|done|lia].
Qed.

Lemma Rebuild_ok matrix count dim h :
  Z.of_nat count ≤ u32_max → (count * dim ≤ length matrix)%nat →
  ∃ h', Rebuild matrix count dim h = Some h' ∧ hnsw_ok h' ∧ dimension_ h' = dim ∧
    (∀ l v, hnsw_view h' !! l = Some v ↔ 0 ≤ l < Z.of_nat count ∧ v = row dim matrix (Z.to_nat l)) ∧
    same_setup (with_dimension dim h) h' ∧ length (nodes_ h') = count.
Proof.
  intros Hroom Hm. unfold Rebuild. destruct (clear_graph_ok dim h) as [Hok Hview]. set (g := with_dimension dim (clear_graph h)) in *.
  destruct (Nat.eqb_spec count 0) as [->|Hne].
  { exists g. split_and!; try done. intros l v. rewrite Hview, lookup_empty. split; [done|lia]. }
  destruct (with_compact_ok g (replicate count None)) as [Hb1 Hview1]; [|by destruct Hok|].
  { intros l id. split; [|done]. intros H. apply list_elem_of_lookup_2, elem_of_replicate in H. naive_solver. }
  set (items := (λ i, (i, drop (i * dim) matrix)) <$> seq 0 count). assert (Hli : length items = count) by (unfold items; by rewrite length_fmap, length_seq).
  destruct (add_all_ok items (with_compact (replicate count None) g)) as (h' & -> & Hok' & Hview' & Hset & Hlen).
  { split; [done|by destruct Hok|by destruct Hok]. } { cbn. lia. }
  { apply Forall_forall. intros p (i & -> & Hi%elem_of_seq)%list_elem_of_fmap. cbn. rewrite length_drop. pose proof (row_end i count dim ltac:(lia)). lia. }
  exists h'. split_and!; [done|done|by destruct Hset as (_ & -> & _)| |exact Hset|by rewrite Hlen, Hli].
  intros l v. rewrite Hview', Hview1, Hview, fold_insert_spec.
  - rewrite lookup_empty. unfold items. rewrite <- list_fmap_compose, list_elem_of_fmap. split.
    + intros [(i & [= -> ->] & Hi%elem_of_seq)|[_ ?]]; [|done]. rewrite Nat2Z.id. split; [lia|done].
    + intros [Hl ->]. left. exists (Z.to_nat l). split; [cbn; by rewrite Z2Nat.id by lia|]. apply elem_of_seq. lia.
  - unfold items. rewrite <- !list_fmap_compose. apply NoDup_fmap_2; [intros x y; apply Nat2Z.inj|apply NoDup_seq].
Qed.
End refinement.

(** ** Searches *)

Section searches.
Context {impl : DistanceFunctions} {heap : MinHeap} {max_heap : MaxHeap} {random : LevelRandom}.
Implicit Types (h : HnswIndex).

(** The score of a stored vector. *)
Definition view_score h (query vec : list Z) : Z :=
  if use_cosine_prenorm_ h then CosineSimilarityPreNorm query vec (query_norm_of h query) (query_norm_of h vec)
  else distance_func_ h query vec.

Lemma ComputeDistance_view h query id :
  base_ok h → (id < length (nodes_ h))%nat →
  ComputeDistance h query (query_norm_of h query) id = view_score h query (GetNodeVector h id).
Proof. intros Hb Hid. unfold ComputeDistance, view_score. by rewrite (hk_norm _ Hb). Qed.

Definition labelled h (p : Z * nat) : nat * Z := (compact_index (node_at h p.2), p.1).
Definition live_cands h (cands : list (Z * nat)) : list (Z * nat) := filter (λ p, deleted (node_at h p.2) = false) cands.

Lemma live_results_take h k cands : ∀ found, Z.of_nat (length found) < Z.max 1 k →
  live_results h k cands found = take (Z.to_nat (Z.max 1 k)) (found ++ (labelled h <$> live_cands h cands)).
Proof.
  induction cands as [|[s id] cands IH]; intros found Hf; cbn [live_results].
  { rewrite app_nil_r, take_ge by lia. done. }
  unfold live_cands in *. destruct (deleted (node_at h id)) eqn:Hd.
  { rewrite filter_cons_False by (cbn; by rewrite Hd). by apply IH. }
  rewrite filter_cons_True by done. cbn [fmap list_fmap]. change (labelled h (s, id)) with (compact_index (node_at h id), s).
  set (found' := found ++ [_]). set (rest := labelled h <$> _).
  replace (found ++ _ :: rest) with (found' ++ rest) by (unfold found'; by rewrite <- app_assoc).
  assert (Hl : length found' = S (length found)) by (unfold found'; rewrite length_app; cbn; lia).
  destruct (Z.leb_spec k (Z.of_nat (length found'))); [|apply IH; lia]. rewrite take_app_le by lia. rewrite take_ge; [done|lia].
Qed.

(** The widening rounds end. *)
Lemma search_rounds_total h query qn cur top_k :
  links_ok h → (cur < length (nodes_ h))%nat → is_Some (links_of h cur 0) → Z.of_nat (length (nodes_ h)) ≤ u32_max →
  ∀ fuel ef, 0 ≤ ef → Z.of_nat (length (nodes_ h)) - ef ≤ Z.of_nat fuel →
  ∃ cands ef', search_rounds (S fuel) h query qn cur top_k ef = Some (live_results h top_k cands []) ∧
    ef ≤ ef' ∧ SearchLayer h query qn cur 0 ef' = Some cands.
Proof.
  intros Hl Hcur Hc0 Hroom. induction fuel as [|fuel IH]; intros ef Hef Hf; cbn [search_rounds].
  all: destruct (SearchLayer_spec h query qn cur 0 ef (λ x, is_Some (links_of h x 0))) as (cands & HS & _);
    [intros x ns _ Hns y Hy; destruct (Hl x 0%nat ns Hns) as (_ & _ & _ & H); by apply H|intros x; apply layer_in_range|done|].
  all: rewrite HS; cbn [mbind option_bind].
  - rewrite (proj2 (Z.leb_le _ ef)), orb_true_r by lia. by exists cands, ef.
  - destruct (_ || _) eqn:E; [by exists cands, ef|]. apply orb_false_iff in E as [_ E%Z.leb_gt].
    set (ef' := u32 _). assert (Hef' : ef + 1 ≤ ef').
    { unfold ef', u32, u32_max in *. rewrite !wrap_small; unfold in_u; rewrite ?wrap_small; unfold in_u; lia. }
    destruct (IH ef') as (c & e & H & ? & ?); [lia|lia|]. exists c, e. split_and!; [exact H|lia|done].
Qed.

Lemma start_node h query qn :
  hnsw_ok h → ∀ e, entry_point_ h = Some e →
  ∃ cur, descend h query qn (layers_above (max_level_ h) 0) e = Some cur ∧ is_Some (links_of h cur 0).
Proof.
  intros [Hb Hl He] e Hent. pose proof (layers_start h e He Hb Hent) as Hs. unfold layers_above. rewrite Nat.sub_0_r.
  apply (descend_total h query qn (λ l x, is_Some (links_of h x l))).
  - intros l x ns _ Hns y Hy. destruct (Hl x l ns Hns) as (_ & _ & _ & H). by apply H.
  - intros l x. apply layer_in_range.
  - intros l l' x. apply links_below.
  - done.
Qed.

Lemma live_in_map h id : base_ok h → live h id → hnsw_view h !! Z.of_nat (compact_index (node_at h id)) = Some (GetNodeVector h id).
Proof. intros Hb Hli. apply hnsw_view_spec. exists (compact_index (node_at h id)), id. split_and!; [done|by apply (hk_live _ Hb)|done|done]. Qed.

Lemma live_labels_inj h id id' : base_ok h → live h id → live h id' → compact_index (node_at h id) = compact_index (node_at h id') → id = id'.
Proof. intros Hb H H' E. apply (hk_live _ Hb) in H, H'. rewrite E in H. congruence. Qed.

(** What a candidate list turns into: distinct labels of the map, with their scores. *)
Lemma live_results_ok h query top_k cands :
  base_ok h → NoDup cands.*2 →
  (∀ p, p ∈ cands → (p.2 < length (nodes_ h))%nat ∧ p.1 = ComputeDistance h query (query_norm_of h query) p.2) →
  let rs := live_results h top_k cands [] in
  NoDup rs.*1 ∧ Z.of_nat (length rs) ≤ Z.max 1 top_k ∧
  ∀ label s, (label, s) ∈ rs → ∃ v, hnsw_view h !! Z.of_nat label = Some v ∧ s = view_score h query v.
Proof.
  intros Hb Hnd Hc. cbv zeta. rewrite live_results_take by (cbn; lia). cbn [app].
  assert (Hlive : ∀ p, p ∈ live_cands h cands → live h p.2 ∧ p.1 = view_score h query (GetNodeVector h p.2)).
  { intros p [Hd Hp]%list_elem_of_filter. destruct (Hc p Hp) as [Hlt ->]. split; [done|]. by apply ComputeDistance_view. }
  split_and!.
  - eapply sublist_NoDup; [|rewrite fmap_take; apply sublist_take]. rewrite <- list_fmap_compose.
    assert (Hn : NoDup (live_cands h cands).*2) by (eapply sublist_NoDup; [exact Hnd|apply fmap_sublist, sublist_filter]).
    unfold live_cands in *. revert Hn Hlive. generalize (filter (λ p, deleted (node_at h p.2) = false) cands) as l.
    induction l as [|p l IH]; intros Hn Hlive; [constructor|]. cbn in Hn |- *. apply NoDup_cons in Hn as [Hp Hn]. constructor; [|apply IH; [done|intros q Hq; apply Hlive; by right]].
    intros (q & E & Hq)%list_elem_of_fmap. apply Hp, list_elem_of_fmap. exists q. split; [|done].
    eapply live_labels_inj; [done|by apply Hlive; left|by apply Hlive; right|exact E].
  - rewrite length_take. lia.
  - intros label s Hin. apply (subseteq_take (Z.to_nat (Z.max 1 top_k))) in Hin. apply list_elem_of_fmap in Hin as (p & [= -> ->] & Hp).
    destruct (Hlive p Hp) as [Hli Hs]. exists (GetNodeVector h p.2). split; [by apply live_in_map|done].
Qed.

Definition by_result (a b : nat * Z) : bool := f32_ltb b.2 a.2.

Lemma sorted_results h top_k cands :
  StronglySorted (comp_le by_score) cands → StronglySorted (comp_le by_result) (live_results h top_k cands []).
Proof.
  intros Hs. rewrite live_results_take by (cbn; lia). cbn [app]. apply StronglySorted_take.
  unfold live_cands. induction Hs as [|p cands Hs IH HF]; [constructor|]. rewrite filter_cons. case_decide; [|done]. cbn. constructor; [done|].
  apply Forall_fmap, Forall_forall. intros q [_ Hq]%list_elem_of_filter. rewrite Forall_forall in HF. by apply HF.
Qed.

Lemma Search_ok pointer top_k h :
  hnsw_ok h → Z.of_nat (length (nodes_ h)) ≤ u32_max → 0 ≤ ef_search (hnsw_config h) →
  let query := take (dimension_ h) pointer in
  ∃ rs, Search pointer top_k h = Some rs ∧ NoDup rs.*1 ∧ Z.of_nat (length rs) ≤ Z.max 1 top_k ∧
    (∀ label s, (label, s) ∈ rs → ∃ v, hnsw_view h !! Z.of_nat label = Some v ∧ s = view_score h query v) ∧
    ((∀ id, (id < length (nodes_ h))%nat → not_nan (view_score h query (GetNodeVector h id))) →
     StronglySorted (comp_le by_result) rs).
Proof.
  intros Hok Hroom Hef query. unfold Search. destruct (entry_point_ h) as [e|] eqn:Ee.
  2: { exists []. split_and!; [done|constructor|cbn; lia|set_solver|constructor]. }
  destruct (active_count_ h =? 0). { exists []. split_and!; [done|constructor|cbn; lia|set_solver|constructor]. }
  fold query. destruct (start_node h query (query_norm_of h query) Hok e Ee) as (cur & -> & Hcur). cbn [mbind option_bind].
  pose proof Hok as [Hb Hl _]. pose proof (layer_in_range _ _ _ Hcur) as Hlt.
  destruct (search_rounds_total h query (query_norm_of h query) cur top_k Hl Hlt Hcur Hroom (length (nodes_ h)) (Z.max (ef_search (hnsw_config h)) top_k))
    as (cands & ef' & -> & _ & HS); [lia|lia|].
  destruct (SearchLayer_spec h query (query_norm_of h query) cur 0 ef' (λ x, is_Some (links_of h x 0))) as (cands' & HS' & _ & Hnd & HP & Hsort).
  { intros x ns _ Hns y Hy. destruct (Hl x 0%nat ns Hns) as (_ & _ & _ & H). by apply H. } { intros x; apply layer_in_range. } { done. }
  rewrite HS in HS'. injection HS' as <-.
  assert (Hc : ∀ p, p ∈ cands → (p.2 < length (nodes_ h))%nat ∧ p.1 = ComputeDistance h query (query_norm_of h query) p.2).
  { intros p [Hp ->]%HP. split; [by eapply layer_in_range|done]. }
  destruct (live_results_ok h query top_k cands Hb Hnd Hc) as (? & ? & ?). eexists. split; [done|]. split_and!; [done..|].
  intros Hnn. apply sorted_results, Hsort, Forall_forall. intros p [Hp ->]%Hc. rewrite ComputeDistance_view by done. by apply Hnn.
Qed.

(** *** A search wide enough is exhaustive *)

Definition linked h (layer x y : nat) : Prop := ∃ ns, links_of h x layer = Some ns ∧ y ∈ ns.

(** Every visited node is a candidate; every node off the queue has been expanded. *)
Record full_inv h (layer : nat) (st : LayerSearch) : Prop := {
  fi_candidates x : x ∈ visited st → x ∈ (candidates st).*2;
  fi_expanded x y : x ∈ visited st → x ∉ (to_visit st).*2 → linked h layer x y → y ∈ visited st
}.

Lemma length_candidates h q qn P st : layer_inv h q qn P st → (length (candidates st) ≤ size (visited st))%nat.
Proof.
  intros Hi. rewrite <- (length_fmap snd). rewrite <- (size_list_to_set (C := gset nat)) by apply (li_nodup _ _ _ _ _ Hi).
  apply subseteq_size. intros x (p & -> & Hp)%elem_of_list_to_set%list_elem_of_fmap. by apply (li_candidates _ _ _ _ _ Hi).
Qed.

(** With room for every node, a new neighbor is queued and nothing is dropped. *)
Lemma visit_neighbor_wide h q qn ef P st x :
  (∀ y, P y → (y < length (nodes_ h))%nat) → Z.of_nat (length (nodes_ h)) ≤ ef → P x → layer_inv h q qn P st → x ∉ visited st →
  let p := (ComputeDistance h q qn x, x) in
  visit_neighbor h q qn ef st x = MkLayerSearch ({[x]} ∪ visited st) (to_visit st ++ [p]) (candidates st ++ [p]).
Proof.
  intros Hb Hef Hx Hi Hnew. unfold visit_neighbor. rewrite bool_decide_eq_false_2 by done. cbv zeta.
  pose proof (length_candidates h q qn P st Hi) as Hlen. pose proof (visit_neighbor_inv h q qn ef P st x Hx Hi) as Hi'.
  assert (Hs : (S (size (visited st)) ≤ length (nodes_ h))%nat).
  { apply (visited_le h q qn P _ Hb) in Hi'. revert Hi'. unfold visit_neighbor. rewrite bool_decide_eq_false_2 by done. cbv zeta.
    destruct (_ || _); cbn [visited]; rewrite size_union, size_singleton by set_solver; done. }
  rewrite (proj2 (Z.ltb_lt _ ef)) by lia. cbn [orb]. rewrite (proj2 (Z.ltb_ge ef _)); [done|]. rewrite length_app. cbn. lia.
Qed.

Lemma visit_neighbors_wide h q qn ef P ns : ∀ st,
  (∀ y, P y → (y < length (nodes_ h))%nat) → Z.of_nat (length (nodes_ h)) ≤ ef → (∀ x, x ∈ ns → P x) → layer_inv h q qn P st →
  (∀ x, x ∈ visited st → x ∈ (candidates st).*2) →
  let st' := fold_left (visit_neighbor h q qn ef) ns st in
  (∀ x, x ∈ visited st' → x ∈ (candidates st').*2) ∧ (∀ x, x ∈ ns ∨ x ∈ visited st → x ∈ visited st') ∧
  (∀ x, x ∈ visited st' → x ∈ visited st ∨ x ∈ (to_visit st').*2) ∧ (∀ x, x ∈ (to_visit st).*2 → x ∈ (to_visit st').*2).
Proof.
  induction ns as [|x ns IH]; intros st Hb Hef Hns Hi Hc; cbn [fold_left].
  { split_and!; [done| |by left|done]. intros y [Hy|Hy]; [by apply not_elem_of_nil in Hy|done]. }
  assert (Hx : P x) by (apply Hns; left). assert (Hns' : ∀ y, y ∈ ns → P y) by (intros y Hy; apply Hns; by right).
  pose proof (visit_neighbor_inv h q qn ef P st x Hx Hi) as Hi'.
  destruct (decide (x ∈ visited st)) as [Hin|Hnew].
  - assert (Hv : visit_neighbor h q qn ef st x = st) by (unfold visit_neighbor; by rewrite bool_decide_eq_true_2). rewrite Hv.
    destruct (IH st Hb Hef Hns' Hi Hc) as (? & Hin' & ? & ?). split_and!; [done| |done|done].
    intros y [[->|Hy]%elem_of_cons|Hy]; apply Hin'; auto.
  - rewrite (visit_neighbor_wide h q qn ef P st x) in * by done. set (st1 := MkLayerSearch _ _ _) in *.
    destruct (IH st1) as (? & Hin' & Hq & Ht); [done|done|done|done| |].
    { intros y [->%elem_of_singleton|Hy]%elem_of_union; cbn; rewrite fmap_app, elem_of_app; [right; by left|left; by apply Hc]. }
    split_and!; [done| | |].
    + intros y [[->|Hy]%elem_of_cons|Hy]; apply Hin'; [right; cbn; set_solver|by left|right; cbn; set_solver].
    + intros y [Hy|Hy]%Hq; [|by right]. cbn in Hy. apply elem_of_union in Hy as [->%elem_of_singleton|Hy]; [|by left]. right. apply Ht.
      cbn. rewrite fmap_app, elem_of_app. right. by left.
    + intros y Hy. apply Ht. cbn. rewrite fmap_app, elem_of_app. by left.
Qed.

Lemma layer_loop_wide h q qn ef layer P : 
  closed h layer P → (∀ x, P x → (x < length (nodes_ h))%nat) → Z.of_nat (length (nodes_ h)) ≤ ef →
  ∀ fuel st st', layer_inv h q qn P st → full_inv h layer st → layer_loop fuel h q qn ef layer st = Some st' →
  (∀ x, x ∈ visited st → x ∈ (candidates st').*2) ∧ ∀ x y, x ∈ (candidates st').*2 → linked h layer x y → y ∈ (candidates st').*2.
Proof.
  intros Hc Hb Hef. induction fuel as [|fuel IH]; intros st st' Hi [Hfc Hfe] H; cbn [layer_loop] in H; case_bool_decide as E.
  1, 3: injection H as <-; split; [done|]; intros x y Hx Hxy; apply Hfc; eapply Hfe; [|by rewrite E; apply not_elem_of_nil|done];
    apply list_elem_of_fmap in Hx as (p & -> & Hp); by apply (li_candidates _ _ _ _ _ Hi).
  { done. }
  pose proof (max_pop_perm _ E) as Hperm. destruct (max_front (to_visit st)) as [c_dist c_id] eqn:Ef. destruct (_ && _) eqn:Hstop.
  { injection H as <-. split; [done|]. intros x y Hx [ns [Hns Hy]]. apply andb_true_iff in Hstop as [_ Hfull%Z.leb_le].
    pose proof (length_candidates h q qn P st Hi) as Hlen. apply Hfc.
    assert (Hall : list_to_set (seq 0 (length (nodes_ h))) ⊆ visited st).
    { assert (Hsub : visited st ⊆ list_to_set (seq 0 (length (nodes_ h)))).
      { intros z Hz. apply (li_visited _ _ _ _ _ Hi), Hb in Hz. apply elem_of_list_to_set, elem_of_seq. lia. }
      apply set_subseteq_size_eq in Hsub; [set_solver|]. rewrite size_list_to_set, length_seq by apply NoDup_seq. lia. }
    apply Hall, elem_of_list_to_set, elem_of_seq. assert (Hpy : P y).
    { eapply Hc; [|exact Hns|done]. apply list_elem_of_fmap in Hx as (p & -> & Hp).
      apply (li_visited _ _ _ _ _ Hi). by apply (li_candidates _ _ _ _ _ Hi). }
    apply Hb in Hpy. lia. }
  set (st0 := MkLayerSearch _ _ _) in H.
  assert (Hi0 : layer_inv h q qn P st0).
  { destruct Hi as [Hv Ht Hca Hn Hne]. constructor; try done. cbn. intros p Hp. apply Ht. rewrite Hperm. by right. }
  assert (Hq : ∀ x, x ∈ (to_visit st).*2 → x = c_id ∨ x ∈ (to_visit st0).*2).
  { intros x. rewrite Hperm. cbn. by rewrite elem_of_cons. }
  fold (links_of h c_id layer) in H. destruct (links_of h c_id layer) as [ns|] eqn:En.
  - assert (Hns : ∀ x, x ∈ ns → P x).
    { eapply Hc; [|done]. apply (li_visited _ _ _ _ _ Hi). apply (li_to_visit _ _ _ _ _ Hi (c_dist, c_id)). rewrite Hperm. left. }
    destruct (visit_neighbors_wide h q qn ef P ns st0 Hb Hef Hns Hi0 Hfc) as (Hf1 & Hin & Hnew & Hkeep).
    destruct (IH _ st' (visit_neighbors_inv h q qn ef P ns st0 Hns Hi0)) as [Hv Hlk]; [|exact H|].
    + split; [done|]. intros x y Hx Hnx Hxy. destruct (Hnew x Hx) as [Hold|]; [|done]. destruct (decide (x = c_id)) as [->|Hne].
      { destruct Hxy as (ns' & Hns' & Hy). rewrite En in Hns'. injection Hns' as <-. apply Hin. by left. }
      apply Hin. right. cbn. eapply Hfe; [done| |done]. intros [?|?]%Hq; [done|]. by apply Hnx, Hkeep.
    + split; [|done]. intros x Hx. apply Hv, Hin. by right.
  - destruct (IH st0 st' Hi0) as [Hv Hlk]; [|exact H|done]. split; [done|]. intros x y Hx Hnx Hxy. cbn in Hx |- *.
    destruct (decide (x = c_id)) as [->|Hne]; [destruct Hxy as (? & ? & _); congruence|]. eapply Hfe; [done| |done]. by intros [?|?]%Hq.
Qed.

(** All that the links reach is found. *)
Lemma SearchLayer_wide h q qn entry layer ef P cands :
  closed h layer P → (∀ x, P x → (x < length (nodes_ h))%nat) → P entry → Z.of_nat (length (nodes_ h)) ≤ ef →
  SearchLayer h q qn entry layer ef = Some cands → ∀ x, rtc (linked h layer) entry x → x ∈ cands.*2.
Proof.
  intros Hc Hb Hp Hef. unfold SearchLayer. destruct (layer_loop _ _ _ _ _ _ _) as [st|] eqn:E; [|done]. cbn. intros [= <-].
  assert (Hf : full_inv h layer (layer_start h q qn entry)).
  { split; cbn; [set_solver|]. intros x y ->%elem_of_singleton []. by apply list_elem_of_singleton. }
  destruct (layer_loop_wide h q qn ef layer P Hc Hb Hef _ _ _ (layer_start_inv h q qn P entry Hp) Hf E) as [Hstart Hlk].
  intros x Hx. rewrite drain_sorted_perm. assert (He : entry ∈ (candidates st).*2) by (apply Hstart; cbn; set_solver).
  clear E Hf Hstart Hp. induction Hx as [|a b c Hab _ IH]; [done|]. by apply IH, (Hlk a).
Qed.

Lemma live_active h id : base_ok h → live h id → active_count_ h ≠ 0.
Proof.
  intros Hb [Hid Hd]. rewrite (hk_active _ Hb). destruct (lookup_lt_is_Some_2 _ _ Hid) as [n Hn]. unfold node_at in Hd. rewrite Hn in Hd.
  rewrite (count_live_retire _ id n Hn Hd). lia.
Qed.

(** The labels a truncated list leaves out are no better than those it keeps. *)
Lemma taken_best {A} (k : nat) (l : list (A * Z)) x s :
  StronglySorted (λ a b, f32_ltb a.2 b.2 = false) l → (x, s) ∈ l → x ∉ (take k l).*1 →
  length (take k l) = k ∧ ∀ p, p ∈ take k l → f32_ltb p.2 s = false.
Proof.
  intros Hs Hin Hx. rewrite <- (take_drop k l) in Hin. apply elem_of_app in Hin as [Hin|Hin].
  { destruct Hx. apply list_elem_of_fmap. by exists (x, s). }
  split. { rewrite length_take. assert (0 < length (drop k l))%nat by (destruct (drop k l); [by apply not_elem_of_nil in Hin|cbn; lia]). rewrite length_drop in *. lia. }
  intros p Hp. rewrite <- (take_drop k l) in Hs. induction (take k l) as [|y r IH]; [by apply not_elem_of_nil in Hp|].
  cbn in Hs. apply StronglySorted_inv in Hs as [Hs HF]. apply elem_of_cons in Hp as [->|Hp].
  - rewrite Forall_forall in HF. apply (HF (x, s)). apply elem_of_app. by right.
  - apply IH; [done| |done]. intros H. apply Hx. cbn. by right.
Qed.

(** An exhaustive search: every node can be reached and the width covers them. *)
Lemma Search_wide pointer top_k h :
  hnsw_ok h → 0 < top_k → Z.of_nat (length (nodes_ h)) ≤ Z.max (ef_search (hnsw_config h)) top_k →
  let query := take (dimension_ h) pointer in
  (∀ id, (id < length (nodes_ h))%nat → not_nan (view_score h query (GetNodeVector h id))) →
  (∀ a id, (a < length (nodes_ h))%nat → live h id → rtc (linked h 0) a id) →
  ∃ all, Search pointer top_k h = Some (take (Z.to_nat top_k) all) ∧ StronglySorted (comp_le by_result) all ∧
    ∀ l v, hnsw_view h !! l = Some v → (Z.to_nat l, view_score h query v) ∈ all.
Proof.
  intros Hok Hk Hw query Hnn Hreach. pose proof Hok as [Hb Hl He]. unfold Search.
  assert (Hview : ∀ l v, hnsw_view h !! l = Some v → ∃ id, live h id ∧ l = Z.of_nat (compact_index (node_at h id)) ∧ v = GetNodeVector h id).
  { intros l v (label & id & -> & Hc & Hli & ->)%hnsw_view_spec. exists id. destruct (hk_map _ Hb _ _ Hc) as [_ ->]. done. }
  destruct (entry_point_ h) as [e|] eqn:Ee.
  2: { exists []. split_and!; [by rewrite take_nil|constructor|]. intros l v (id & [Hid _] & _)%Hview. unfold entry_ok in He. rewrite Ee in He.
       rewrite He in Hid. cbn in Hid. lia. }
  destruct (Z.eqb_spec (active_count_ h) 0) as [Ha|_].
  { exists []. split_and!; [by rewrite take_nil|constructor|]. intros l v (id & Hli & _)%Hview. by destruct (live_active h id Hb Hli). }
  fold query. destruct (start_node h query (query_norm_of h query) Hok e Ee) as (cur & -> & Hcur). cbn [mbind option_bind search_rounds].
  set (ef := Z.max _ _) in *. pose proof (layer_in_range _ _ _ Hcur) as Hlt. set (P := λ x, is_Some (links_of h x 0)).
  assert (Hc : closed h 0 P) by (intros x ns _ Hns y Hy; destruct (Hl x 0%nat ns Hns) as (_ & _ & _ & H); by apply H).
  assert (Hr : ∀ x, P x → (x < length (nodes_ h))%nat) by (intros x; apply layer_in_range).
  destruct (SearchLayer_spec h query (query_norm_of h query) cur 0 ef P Hc Hr Hcur) as (cands & HS & _ & _ & HP & Hsort). rewrite HS.
  cbn [mbind option_bind]. rewrite (proj2 (Z.leb_le _ ef)), orb_true_r by done. rewrite live_results_take by (cbn; lia). cbn [app].
  rewrite (Z.max_r 1) by lia. eexists. split; [done|]. split.
  - pose proof (sorted_results h (Z.of_nat (S (length cands))) cands) as Hs. rewrite live_results_take in Hs by (cbn; lia). cbn [app] in Hs.
    rewrite take_ge in Hs by (rewrite length_fmap; unfold live_cands; rewrite length_filter; lia). apply Hs, Hsort, Forall_forall.
    intros p [Hp ->]%HP. rewrite ComputeDistance_view; [by apply Hnn, Hr|done|by apply Hr].
  - intros l v (id & Hli & -> & ->)%Hview. rewrite Nat2Z.id. pose proof (SearchLayer_wide h query _ cur 0 ef P cands Hc Hr Hcur Hw HS id (Hreach cur id Hlt Hli)) as Hin.
    apply list_elem_of_fmap in Hin as ([s x] & -> & Hin). cbn in *. destruct Hli as [Hid Hd]. apply list_elem_of_fmap. exists (s, x). split.
    + unfold labelled. cbn. f_equal. destruct (HP _ Hin) as [_ Hs]. cbn in Hs. rewrite Hs. by rewrite ComputeDistance_view.
    + by apply list_elem_of_filter.
Qed.
End searches.

(** ** What the index promises *)

Section claims.
Context {impl : DistanceFunctions} {heap : MinHeap} {max_heap : MaxHeap} {random : LevelRandom}.
Implicit Types (h : HnswIndex).

(** What the server can make of an index. *)
Inductive hnsw_reachable : HnswIndex → Prop :=
| hnsw_start dim metric cfg : in_u 32 (ef_search cfg) → hnsw_reachable (new_hnsw dim metric cfg)
| hnsw_add label pointer h h' :
    hnsw_reachable h → hnsw_room h → (dimension_ h ≤ length pointer)%nat → Add label pointer h = Some h' → hnsw_reachable h'
| hnsw_mark label h h' : hnsw_reachable h → MarkDeleted label h = Some h' → hnsw_reachable h'
| hnsw_rebuild matrix count dim h h' :
    hnsw_reachable h → Z.of_nat count ≤ u32_max → (count * dim ≤ length matrix)%nat → Rebuild matrix count dim h = Some h' →
    hnsw_reachable h'
| hnsw_width ef h : hnsw_reachable h → in_u 32 ef → hnsw_reachable (SetEfSearch ef h).

(** The invariant with the widths of its counters. *)
Definition hnsw_good h : Prop := hnsw_ok h ∧ Z.of_nat (length (nodes_ h)) ≤ u32_max ∧ in_u 32 (ef_search (hnsw_config h)).

Lemma new_hnsw_ok dim metric cfg : hnsw_ok (new_hnsw dim metric cfg).
Proof.
  split; [|intros x l ns; unfold links_of, node_at; cbn; by rewrite !lookup_nil|done].
  constructor; unfold live; cbn; try done; try lia.
Qed.

Lemma SetEfSearch_ok ef h : hnsw_ok h → hnsw_ok (SetEfSearch ef h).
Proof. intros [[] ? ?]. split; [by constructor|done|done]. Qed.

Lemma reachable_good h : hnsw_reachable h → hnsw_good h.
Proof.
  induction 1 as [dim metric cfg Hef|label pointer h h' _ (Hok & Hlen & Hef) Hroom Hp Hadd|label h h' _ (Hok & Hlen & Hef) Hmark|
    matrix count dim h h' _ (_ & _ & Hef) Hc Hm Hre|ef h _ (Hok & Hlen & _) Hef].
  - split_and!; [apply new_hnsw_ok|done|apply Hef..].
  - destruct (Add_ok label pointer h Hok Hroom Hp) as (g & E & ? & _ & (Hcfg & _) & ?). rewrite Hadd in E. injection E as <-.
    split_and!; [done|done|rewrite Hcfg; apply Hef..].
  - destruct (MarkDeleted_ok label h Hok Hlen) as (g & E & ? & _ & (Hcfg & _) & ?). rewrite Hmark in E. injection E as <-.
    split_and!; [done|done|rewrite Hcfg; apply Hef..].
  - destruct (Rebuild_ok matrix count dim h Hc Hm) as (g & E & ? & _ & _ & (Hcfg & _) & Hl). rewrite Hre in E. injection E as <-.
    split_and!; [done|by rewrite Hl|rewrite Hcfg; apply Hef..].
  - split_and!; [by apply SetEfSearch_ok|done|apply Hef..].
Qed.

(** The live nodes are the entries of the map. *)
Lemma count_live_positions l : count_live l = length (filter (λ id, deleted (default empty_node (l !! id)) = false) (seq 0 (length l))).
Proof.
  assert (Hgo : ∀ pre, count_live l = length (filter (λ id, deleted (default empty_node ((pre ++ l) !! id)) = false) (seq (length pre) (length l)))).
  { induction l as [|n l IH]; intros pre; [done|]. cbn [length seq]. rewrite filter_cons. rewrite list_lookup_middle by done.
    specialize (IH (pre ++ [n])). rewrite length_app, Nat.add_1_r, <- app_assoc in IH. cbn [app] in IH.
    change (count_live (n :: l)) with (length (filter (λ b, b = false) (deleted n :: (deleted <$> l)))). rewrite filter_cons.
    change (default empty_node (Some n)) with n. destruct (decide (deleted n = false)); cbn [length]; rewrite <- IH; done. }
  apply (Hgo []).
Qed.

Lemma Size_view h : base_ok h → Size h = Z.of_nat (size (hnsw_view h)).
Proof.
  intros Hb. unfold Size. rewrite (hk_active _ Hb). f_equal. rewrite count_live_positions. set (ids := filter _ _).
  assert (Hids : ∀ id, id ∈ ids ↔ live h id).
  { intros id. unfold ids, live, node_at. rewrite list_elem_of_filter, elem_of_seq. naive_solver lia. }
  unfold hnsw_view. rewrite <- length_map_to_list, map_to_list_to_map.
  2: { rewrite <- list_fmap_compose. change (fst ∘ _) with (Z.of_nat ∘ (fst : nat * list Z → nat)). rewrite list_fmap_compose.
       apply NoDup_fmap_2; [apply _|]. apply live_vectors_labels. }
  rewrite length_fmap, <- (length_fmap (λ id, compact_index (node_at h id)) ids), <- (length_fmap fst (live_vectors h)).
  apply Permutation_length, NoDup_Permutation; [|apply live_vectors_labels|].
  - apply NoDup_fmap_2_strong; [|by apply NoDup_filter, NoDup_seq]. intros x y Hx%Hids Hy%Hids. by apply live_labels_inj.
  - intros label. rewrite !list_elem_of_fmap. split.
    + intros (id & -> & Hid%Hids). exists (compact_index (node_at h id), GetNodeVector h id). split; [done|].
      apply live_vectors_spec. exists id. split_and!; [by apply (hk_live _ Hb)|done|done].
    + intros ([l v] & -> & (id & Hc & Hli & _)%live_vectors_spec). exists id. split; [by destruct (hk_map _ Hb l id Hc) as [_ ->]|by apply Hids].
Qed.

(** C38: whatever is added, deleted, compacted and rebuilt, the graph stays well
    formed: every node has one list of links per layer up to its own, at most 65;
    a link leads to another node of the same layer, no list has duplicates or
    more than [MaxNeighbors] entries; the entry point is a node of the highest
    layer; rows, norms and labels belong to their nodes; and the counter of
    active nodes counts the labels held. *)
Theorem hnsw_invariant h : hnsw_reachable h → hnsw_ok h ∧ Size h = Z.of_nat (size (hnsw_view h)).
Proof. intros (Hok & _)%reachable_good. split; [done|]. apply Size_view, Hok. Qed.

(** C37: the index implements a map from labels to vectors.  Every operation
    ends: [Add] inserts, [MarkDeleted] deletes, [Rebuild] leaves the rows of the
    matrix, a compaction on the way changes nothing; [Search] returns at most
    [top_k] distinct labels of the map, each with the score of its vector, and
    the best first. *)
Theorem hnsw_refines h label pointer matrix count dim top_k :
  hnsw_reachable h → hnsw_room h → (dimension_ h ≤ length pointer)%nat →
  Z.of_nat count ≤ u32_max → (count * dim ≤ length matrix)%nat → 0 < top_k →
  let query := take (dimension_ h) pointer in
  (∃ h', Add label pointer h = Some h' ∧ hnsw_view h' = <[Z.of_nat label := query]> (hnsw_view h)) ∧
  (∃ h', MarkDeleted label h = Some h' ∧ hnsw_view h' = delete (Z.of_nat label) (hnsw_view h)) ∧
  (∃ h', Rebuild matrix count dim h = Some h' ∧
    ∀ l v, hnsw_view h' !! l = Some v ↔ 0 ≤ l < Z.of_nat count ∧ v = row dim matrix (Z.to_nat l)) ∧
  ∃ rs, Search pointer top_k h = Some rs ∧ NoDup rs.*1 ∧ Z.of_nat (length rs) ≤ top_k ∧
    (∀ l s, (l, s) ∈ rs → ∃ v, hnsw_view h !! Z.of_nat l = Some v ∧ s = view_score h query v) ∧
    ((∀ id, (id < length (nodes_ h))%nat → not_nan (view_score h query (GetNodeVector h id))) →
     StronglySorted (comp_le by_result) rs).
Proof.
  intros (Hok & Hlen & Hef)%reachable_good Hroom Hp Hc Hm Hk query. split_and!.
  - destruct (Add_ok label pointer h Hok Hroom Hp) as (h' & -> & _ & ? & _). by exists h'.
  - destruct (MarkDeleted_ok label h Hok Hlen) as (h' & -> & _ & ? & _). by exists h'.
  - destruct (Rebuild_ok matrix count dim h Hc Hm) as (h' & -> & _ & _ & ? & _). by exists h'.
  - destruct (Search_ok pointer top_k h Hok Hlen (proj1 Hef)) as (rs & -> & ? & ? & ? & ?). exists rs. split_and!; [done|done|lia|done|done].
Qed.

(** C39: a search that is wide enough is exact: when the width or [top_k] covers
    the graph and the links of layer 0 lead to every live node, the results are
    the [top_k] best of the map. *)
Theorem hnsw_exhaustive h pointer top_k :
  hnsw_reachable h → 0 < top_k → Z.of_nat (length (nodes_ h)) ≤ Z.max (ef_search (hnsw_config h)) top_k →
  let query := take (dimension_ h) pointer in
  (∀ id, (id < length (nodes_ h))%nat → not_nan (view_score h query (GetNodeVector h id))) →
  (∀ a id, (a < length (nodes_ h))%nat → live h id → rtc (linked h 0) a id) →
  ∃ rs, Search pointer top_k h = Some rs ∧ StronglySorted (comp_le by_result) rs ∧
    ∀ l v, hnsw_view h !! l = Some v → Z.to_nat l ∉ rs.*1 →
      Z.of_nat (length rs) = top_k ∧ ∀ r, r ∈ rs → f32_ltb r.2 (view_score h query v) = false.
Proof.
  intros (Hok & _)%reachable_good Hk Hw query Hnn Hreach.
  destruct (Search_wide pointer top_k h Hok Hk Hw Hnn Hreach) as (all & -> & Hs & Hall). eexists. split; [done|]. split; [by apply StronglySorted_take|].
  intros l v Hl Hout. destruct (taken_best (Z.to_nat top_k) all (Z.to_nat l) (view_score h query v)) as [Hlen Hb]; [done|by apply Hall|done|].
  split; [lia|done].
Qed.
End claims.

(** ** Concrete indexes *)

Module Examples.
#[local] Existing Instance first_heap.
#[local] Existing Instance Distance.Scalar.

#[local] Instance last_heap : MaxHeap := {| max_top := first_max; max_top_lt := first_max_lt; max_top_spec := first_max_spec |}.

Definition ratio (a b : Z) : Z := f64_div (f64_of_Z a) (f64_of_Z b).

(** The second draw is 1/4 and gives level 2, every other one 9/10 and level 0. *)
#[local] Instance two_levels : LevelRandom := MkLevelRandom
  (λ n, if (n =? 1)%nat then ratio 1 4 else ratio 9 10)
  (λ x, if x =? ratio 1 4 then ratio (-1386294) 1000000
        else if x =? ratio 9 10 then ratio (-105361) 1000000 else ratio 693147 1000000).

Definition small_config : HnswConfig := MkHnswConfig 2 8 4 (f32_of_Z 1) 4.
Definition points (l : list Z) : HnswIndex :=
  let start := new_hnsw 1 "l2" small_config in
  default start (add_all (zip (seq 0 (length l)) ((λ x, [f32_of_Z x]) <$> l)) start).

(** An outlier next to a cluster of six: its four nearest neighbors drop the
    links back to it, so no link leads to it and even its own vector does not
    find it. *)
Definition outlier : HnswIndex := points [1; 2; 3; 4; 5; 6; 100].
Example unreachable_vector :
  Size outlier = 7 ∧ links_of outlier 6 0 = Some [5; 4; 3; 2]%nat ∧
  Search [f32_of_Z 100] 1 outlier = Some [(5%nat, f32_div f32_one (f32_of_Z 95))] ∧
  option_map (map fst) (Search [f32_of_Z 100] 7 outlier) = Some [5; 4; 3; 2; 1; 0]%nat.
Proof. vm_compute. done. Qed.

Definition three_points : HnswIndex := points [1; 2; 4].

Lemma three_points_reachable : hnsw_reachable three_points.
Proof.
  assert (Hadd : ∀ label x h h', hnsw_reachable h → bool_decide (hnsw_room h ∧ dimension_ h = 1%nat) = true →
    Add label [x] h = Some h' → hnsw_reachable h').
  { intros label x h h' Hr [Hroom Hd]%bool_decide_eq_true. apply hnsw_add; [done|done|]. rewrite Hd. done. }
  assert (H0 : hnsw_reachable (new_hnsw 1 "l2" small_config)) by (apply hnsw_start; split; [done|reflexivity]).
  apply (Hadd 2%nat (f32_of_Z 4) (points [1; 2])); [|vm_compute; reflexivity..].
  apply (Hadd 1%nat (f32_of_Z 2) (points [1])); [|vm_compute; reflexivity..].
  apply (Hadd 0%nat (f32_of_Z 1) (new_hnsw 1 "l2" small_config)); [done|vm_compute; reflexivity..].
Qed.

Lemma hnsw_invariant_witness : hnsw_ok three_points ∧ size (hnsw_view three_points) = 3%nat.
Proof.
  destruct (hnsw_invariant three_points three_points_reachable) as [Hok _]. split; [exact Hok|vm_compute; reflexivity].
Defined.

Lemma hnsw_refines_witness :
  Search [f32_of_Z 3] 2 three_points = Some [(1%nat, 0x3F000000); (2%nat, 0x3F000000)] ∧
  ∃ h', MarkDeleted 1 three_points = Some h' ∧ hnsw_view h' = delete 1 (hnsw_view three_points).
Proof.
  split; [vm_compute; reflexivity|].
  destruct (hnsw_refines three_points 1 [f32_of_Z 3] [] 0 1 2) as (_ & H & _); [exact three_points_reachable|..|exact H].
  - vm_compute. reflexivity.
  - vm_compute. lia.
  - vm_compute. discriminate.
  - vm_compute. lia.
  - reflexivity.
Defined.

(** The three nodes are linked pairwise. *)
Lemma three_points_linked a id : (a < 3)%nat → (id < 3)%nat → rtc (linked three_points 0) a id.
Proof.
  assert (Hall : forallb (λ a, forallb (λ id, (a =? id)%nat || match links_of three_points a 0 with
    Some ns => bool_decide (id ∈ ns) | None => false end) [0; 1; 2]%nat) [0; 1; 2]%nat = true) by (vm_compute; reflexivity).
  intros Ha Hid. rewrite forallb_forall in Hall. specialize (Hall a ltac:(cbn; lia)). rewrite forallb_forall in Hall.
  specialize (Hall id ltac:(cbn; lia)). apply orb_true_iff in Hall as [->%Nat.eqb_eq|Hl]; [done|]. apply rtc_once. unfold linked.
  destruct (links_of three_points a 0) as [ns|]; [|done]. apply bool_decide_eq_true in Hl. by exists ns.
Qed.

Lemma hnsw_exhaustive_witness :
  Search [f32_of_Z 3] 1 three_points = Some [(1%nat, 0x3F000000)] ∧
  ∀ l v, hnsw_view three_points !! l = Some v → Z.to_nat l ≠ 1%nat →
    f32_ltb 0x3F000000 (view_score three_points [f32_of_Z 3] v) = false.
Proof.
  assert (Hs : Search [f32_of_Z 3] 1 three_points = Some [(1%nat, 0x3F000000)]) by (vm_compute; reflexivity).
  assert (Hn : length (nodes_ three_points) = 3%nat) by (vm_compute; reflexivity). split; [exact Hs|].
  destruct (hnsw_exhaustive three_points [f32_of_Z 3] 1) as (rs & Hrs & _ & Hb).
  - exact three_points_reachable.
  - reflexivity.
  - vm_compute. discriminate.
  - intros id Hid. rewrite Hn in Hid. destruct id as [|[|[|id]]]; [vm_compute; reflexivity..|lia].
  - intros a id Ha [Hid _]. rewrite Hn in Ha, Hid. by apply three_points_linked.
  - rewrite Hs in Hrs. injection Hrs as <-. intros l v Hl Hne. destruct (Hb l v Hl) as [_ H].
    + intros Hin. apply Hne. by apply list_elem_of_singleton in Hin.
    + apply (H (1%nat, 0x3F000000)). by apply list_elem_of_singleton.
Defined.
End Examples.
