(* ===== verification/SimilarityEngine.v ===== *)
(** * [similarity::SimilarityEngine] (src/similarity/similarity_engine.h, .cpp)

    The four searches, the fusion of their results, and the publication of the
    approximate index.  The index itself is a class of operations, as
    vectors/ann_index.h presents it; HNSW and IVF are its implementations.  A
    search locks the vector store several times; the store it meets each time is
    an argument, so that the definitions also cover writers in between. *)

From S2P Require Import Prelude StringLib Floats CoOccurrence Metadata Distance VectorStore SimilarityResult Selection.
#[local] Open Scope Z_scope.

(** ** Configuration *)

Record SimilarityConfig : Type := MkSimConfig {
  max_top_k : Z;                 (* uint32_t *)
  fusion_alpha : Z;              (* double *)
  fusion_beta : Z;
  sample_size : Z;               (* uint32_t, 0 = exact *)
  adaptive_fusion : bool;
  adaptive_min_alpha : Z;
  adaptive_max_alpha : Z;
  adaptive_maturity_threshold : Z;
  index_type : string;
  ivf_enabled : bool;
  ivf_nlist : Z;
  ivf_train_threshold : Z
}.

(** [vectors::AnnIndex] and what the engine uses of [IvfAnnAdapter]. *)
Class AnnIndex (I : Type) : Type := {
  ann_add : Z → list Z → I → I;                     (* label, pointer *)
  ann_mark_deleted : Z → I → I;
  ann_search : VectorStore → I → list Z → Z → list (Z * Z);   (* label, score; the store is IVF's *)
  ann_rebuild : list Z → Z → Z → I → I;             (* matrix, count, dimension *)
  ann_size : I → Z;
  ivf_is_trained : I → bool;
  ivf_needs_seal : I → bool;
  ivf_reset_trained : I → I;
  ivf_set_nlist : Z → I → I;
  ivf_train : list Z → Z → Z → I → I;               (* sample, count, dimension; no assignment *)
  ivf_seal_buffer : I → I
}.

(** What the background thread will do. *)
Inductive Job : Type :=
| TrainAndSeal (sample : list Z) (count dim : Z)
| SealOnly.

Record SimilarityEngine {I : Type} : Type := MkEngine {
  config_ : SimilarityConfig;
  distance_metric : string;
  ann_index_ : option I;
  ann_generation_ : Z;
  ann_dimension_ : Z;
  ann_dimension_bound_ : bool;
  ivf_training_ : bool;
  ivf_train_thread_ : option Job
}.
Arguments SimilarityEngine : clear implicits.
Arguments MkEngine {I}.

Section engine.
Context {I : Type}.
Implicit Types e : SimilarityEngine I.

Definition with_index (index : option I) (gen dim : Z) (bound : bool) e : SimilarityEngine I :=
  MkEngine (config_ e) (distance_metric e) index gen dim bound (ivf_training_ e) (ivf_train_thread_ e).
Definition with_thread (training : bool) (job : option Job) e : SimilarityEngine I :=
  MkEngine (config_ e) (distance_metric e) (ann_index_ e) (ann_generation_ e) (ann_dimension_ e) (ann_dimension_bound_ e)
    training job.

Definition use_prenorm_ e : bool := bool_decide (distance_metric e = "") || bool_decide (distance_metric e = "cosine").

(** [index_type] with the old [ivf_enabled] flag. *)
Definition effective_type (cfg : SimilarityConfig) : string :=
  if bool_decide (index_type cfg = "flat") && ivf_enabled cfg then "ivf" else index_type cfg.

(** The constructor: [index] is the freshly built index of the type it is given. *)
Definition new_engine (cfg : SimilarityConfig) (metric : string) (default_dimension : Z) (index : string → option I)
    : SimilarityEngine I :=
  let type := effective_type cfg in
  let index := if bool_decide (type = "hnsw") || bool_decide (type = "ivf") then index type else None in
  MkEngine
    (MkSimConfig (max_top_k cfg) (fusion_alpha cfg) (fusion_beta cfg) (sample_size cfg) (adaptive_fusion cfg)
      (adaptive_min_alpha cfg) (adaptive_max_alpha cfg) (adaptive_maturity_threshold cfg) type (ivf_enabled cfg)
      (ivf_nlist cfg) (ivf_train_threshold cfg))
    metric index 0 (match index with Some _ => u32 default_dimension | None => 0 end) false false None.

Definition ValidateTopK (top_k : Z) e : Expected Z :=
  if top_k <=? 0 then throw kCommandInvalidTopK "top_k must be positive"
  else if i32 (max_top_k (config_ e)) <? top_k
  then throw kCommandInvalidTopK ("top_k exceeds maximum allowed: " +:+ pretty (max_top_k (config_ e)))
  else Ok top_k.
End engine.

(** The first [top_k] results that [f] lets through; the loops stop right
    after the [top_k]-th. *)
Fixpoint collect {A} (f : A → option SimilarityResult) (top_k : nat) (l : list A) : list SimilarityResult :=
  match l with
  | [] => []
  | x :: l =>
    match f x with
    | None => collect f top_k l
    | Some r => r :: (if (top_k <=? 1)%nat then [] else collect f (pred top_k) l)
    end
  end.

Definition filtering (f : MetadataFilter) (metadata : option MetadataStore) : bool :=
  negb (FilterEmpty f) && bool_decide (is_Some metadata).
Definition passes (f : MetadataFilter) (metadata : option MetadataStore) (id : string) : bool :=
  match metadata with
  | Some m => FilterEmpty f || Matches id f m
  | None => true
  end.

Definition int_max : Z := 2 ^ 31 - 1.

(** ** Search by events *)

Section events.
Context {order : IterOrder} {I : Type}.

Definition event_result (f : MetadataFilter) (metadata : option MetadataStore) (p : string * Z) : option SimilarityResult :=
  if passes f metadata p.1 then Some (MkResult p.1 p.2) else None.

(** The rounds of the fetch; [None] when the fuel runs out. *)
Fixpoint event_rounds (fuel : nat) (co : CoOccurrenceIndex) (metadata : option MetadataStore) (f : MetadataFilter)
    (item : string) (top_k neighbor_count fetch_k : Z) : option (list SimilarityResult) :=
  match fuel with
  | O => None
  | S fuel =>
    let co_results := GetSimilar item fetch_k co in
    let results := collect (event_result f metadata) (Z.to_nat top_k) co_results in
    if negb (filtering f metadata) || (top_k <=? Z.of_nat (length results)) ||
       (Z.of_nat (length co_results) <? fetch_k) || (neighbor_count <=? fetch_k)
    then Some results
    else event_rounds fuel co metadata f item top_k neighbor_count (Z.min neighbor_count (Z.min (fetch_k * 2) int_max))
  end.

(** 32 doublings pass every [int]. *)
Definition kRounds : nat := 33.

Definition SearchByIdEvents (co : CoOccurrenceIndex) (metadata : option MetadataStore) (item : string) (top_k : Z)
    (f : MetadataFilter) (e : SimilarityEngine I) : option (Expected (list SimilarityResult)) :=
  match ValidateTopK top_k e with
  | Unexpected err => Some (Unexpected err)
  | Ok top_k => Ok <$> event_rounds kRounds co metadata f item top_k (GetNeighborCount item co) top_k
  end.
End events.

(** ** Search by vectors *)

Section vectors.
Context {impl : DistanceFunctions} {heap : MinHeap} {I : Type} {ann : AnnIndex I}.
Implicit Types (vs : VectorStore) (e : SimilarityEngine I).

Definition snapshot_empty vs : bool := bool_decide (matrix_ vs = []) || (GetCompactCount vs =? 0)%nat.
Definition id_at vs (idx : nat) : string := default "" (GetIdByIndex idx vs).
Definition norm_at vs (idx : nat) : Z := default 0 (GetNorm idx vs).

(** [1.0F / (1.0F + L2Distance(lhs, rhs))] *)
Definition SelectDistanceFunction (metric : string) : list Z → list Z → Z :=
  if bool_decide (metric = "dot") then DotProduct
  else if bool_decide (metric = "l2") then λ lhs rhs, f32_div f32_one (f32_add f32_one (L2Distance lhs rhs))
  else CosineSimilarity.

(** A row's score against a query and its norm. *)
Definition score_row (query : list Z) (query_norm : Z) vs e (idx : nat) : Z :=
  if use_prenorm_ e then CosineSimilarityPreNorm query (GetMatrixRow idx vs) query_norm (norm_at vs idx)
  else SelectDistanceFunction (distance_metric e) query (GetMatrixRow idx vs).

Definition use_sampling vs e : bool :=
  (0 <? sample_size (config_ e)) && (u32 (sample_size (config_ e) * 2) <? Z.of_nat (GetCompactCount vs)).
Definition scan_indices (rng : nat → Z) vs e : list nat :=
  if use_sampling vs e then SampleIndices rng (GetCompactCount vs) (Z.to_nat (sample_size (config_ e)))
  else seq 0 (GetCompactCount vs).

Definition admitted (query_idx : option nat) (f : MetadataFilter) (metadata : option MetadataStore) vs (idx : nat) : bool :=
  negb (bool_decide (query_idx = Some idx)) && negb (IsDeleted idx vs) && passes f metadata (id_at vs idx).

(** The exhaustive or sampled scan. *)
Definition flat_search (rng : nat → Z) (query_idx : option nat) (query : list Z) (query_norm : Z) (k : nat)
    (f : MetadataFilter) (metadata : option MetadataStore) vs e : list SimilarityResult :=
  let min_heap := fold_left (push_candidate k (admitted query_idx f metadata vs) (score_row query query_norm vs e))
                    (scan_indices rng vs e) [] in
  std_sort result_before ((λ p, MkResult (id_at vs p.2) p.1) <$> heap_drain (length min_heap) min_heap).

(** *** The approximate index *)

Definition IsAnnIndexReady e : bool :=
  match ann_index_ e with
  | None => false
  | Some index =>
    if bool_decide (index_type (config_ e) = "hnsw") then 0 <? ann_size index
    else if bool_decide (index_type (config_ e) = "ivf") then ivf_is_trained index
    else false
  end.

(** A label as the id it maps to, unless the row is gone, is the query's own, or
    fails the filter. *)
Definition ann_result (self : option string) (f : MetadataFilter) (metadata : option MetadataStore) vs (p : Z * Z)
    : option SimilarityResult :=
  let idx := Z.to_nat p.1 in
  if (Z.of_nat (GetCompactCount vs) <=? p.1) || IsDeleted idx vs then None
  else
    let id := id_at vs idx in
    if bool_decide (self = Some id) then None
    else if filtering f metadata && negb (passes f metadata id) then None
    else Some (MkResult id p.2).

(** The outcome of the approximate search: results, or labels of another layout. *)
Inductive AnnOutcome : Type :=
| AnnResults (results : list SimilarityResult)
| AnnStale.

(** [searched round], [maps round]: the stores met when a round searches and
    when it maps the labels;
    [total]: the count that bounds the growth. *)
Fixpoint ann_rounds (fuel round : nat) (searched maps : nat → VectorStore) (total : VectorStore → Z) (index : I) e
    (self : option string) (query : list Z) (f : MetadataFilter) (metadata : option MetadataStore) (top_k current_fetch : Z)
    : option AnnOutcome :=
  match fuel with
  | O => None
  | S fuel =>
    let ann_results := ann_search (searched round) index query current_fetch in
    let map_snap := maps round in
    if snapshot_empty map_snap then Some (AnnResults [])
    else if negb (generation_ map_snap =? ann_generation_ e) then Some AnnStale
    else
      let results := collect (ann_result self f metadata map_snap) (Z.to_nat top_k) ann_results in
      if filtering f metadata && (Z.of_nat (length results) <? top_k) && (current_fetch <? total map_snap) &&
         (current_fetch <=? Z.of_nat (length ann_results))
      then ann_rounds fuel (S round) searched maps total index e self query f metadata top_k (u32 (current_fetch * 2))
      else Some (AnnResults (std_sort result_before results))
  end.

Definition kOversamplingFactor : Z := 3.

Definition fetch_count (f : MetadataFilter) (metadata : option MetadataStore) (top_k : Z) e : Z :=
  Z.min (if filtering f metadata then top_k * kOversamplingFactor else top_k) (max_top_k (config_ e)).

(** The stores a search meets: when it resolves its query, when the index
    searches, when labels are mapped, and when it falls back to the scan; and the
    random numbers of the scan. *)
Record SearchReads : Type := MkSearchReads {
  at_first : VectorStore;
  at_search : nat → VectorStore;
  at_map : nat → VectorStore;
  at_flat : VectorStore;
  at_rng : nat → Z
}.

(** One store throughout. *)
Definition quiet_reads vs (rng : nat → Z) : SearchReads := MkSearchReads vs (λ _, vs) (λ _, vs) vs rng.

(** The approximate path, when there is one. *)
Definition ann_path (rd : SearchReads) (total : VectorStore → Z) e (self : option string) (query : list Z)
    (f : MetadataFilter) (metadata : option MetadataStore) (top_k current_fetch : Z) : option AnnOutcome :=
  match ann_index_ e with
  | Some index =>
    if IsAnnIndexReady e
    then ann_rounds kRounds 0 (at_search rd) (at_map rd) total index e self query f metadata top_k current_fetch
    else Some AnnStale
  | None => Some AnnStale
  end.

Definition vector_missing {A} (item : string) : Expected A := throw kVectorNotFound ("Query vector not found: " +:+ item).

Definition SearchByIdVectors (rd : SearchReads) (metadata : option MetadataStore) (item : string) (top_k : Z)
    (f : MetadataFilter) e : option (Expected (list SimilarityResult)) :=
  match ValidateTopK top_k e with
  | Unexpected err => Some (Unexpected err)
  | Ok top_k =>
    let snap := at_first rd in
    match (if snapshot_empty snap then None else GetCompactIndex item snap) with
    | None => Some (vector_missing item)
    | Some query_idx =>
      let total := u32 (Z.of_nat (GetCompactCount snap)) in
      outcome ← ann_path rd (λ _, total) e (Some item) (GetMatrixRow query_idx snap) f metadata top_k
                  (u32 (fetch_count f metadata top_k e + 1));
      match outcome with
      | AnnResults results => Some (Ok results)
      | AnnStale =>
        let snap := at_flat rd in
        match (if snapshot_empty snap then None else GetCompactIndex item snap) with
        | None => Some (vector_missing item)
        | Some query_idx =>
          Some (Ok (flat_search (at_rng rd) (Some query_idx) (GetMatrixRow query_idx snap) (norm_at snap query_idx)
                     (Z.to_nat top_k) f metadata snap e))
        end
      end
    end
  end.

(** SIMV.  [at_first]: the store whose dimension is checked. *)
Definition SearchByVector (rd : SearchReads) (metadata : option MetadataStore) (query : list Z) (top_k : Z)
    (f : MetadataFilter) e : option (Expected (list SimilarityResult)) :=
  match ValidateTopK top_k e with
  | Unexpected err => Some (Unexpected err)
  | Ok top_k =>
    let expected_dim := GetDimension (at_first rd) in
    let query_norm := l2_norm query in
    if bool_decide (query = []) then Some (throw kInvalidArgument "Query vector cannot be empty")
    else if negb (forallb is_finite32 query) then Some (throw kInvalidArgument "Query vector components must be finite")
    else if (0 <? expected_dim)%nat && negb (length query =? expected_dim)%nat
    then Some (throw kVectorDimensionMismatch ("Query vector dimension mismatch: expected " +:+ pretty expected_dim +:+
                ", got " +:+ pretty (length query)))
    else if negb (is_finite32 query_norm) || (use_prenorm_ e && f32_leb query_norm f32_zero)
    then Some (throw kInvalidArgument "Query vector norm must be finite and non-zero")
    else
      outcome ← ann_path rd (λ s, u32 (Z.of_nat (GetCompactCount s))) e None query f metadata top_k
                  (u32 (fetch_count f metadata top_k e));
      match outcome with
      | AnnResults results => Some (Ok results)
      | AnnStale =>
        let snap := at_flat rd in
        if snapshot_empty snap then Some (Ok [])
        else Some (Ok (flat_search (at_rng rd) None query query_norm (Z.to_nat top_k) f metadata snap e))
      end
  end.
End vectors.

(** ** Fusion *)

(** [std::min(a, b)] on floats. *)
Definition f32_min (a b : Z) : Z := if f32_ltb b a then b else a.
Definition f64_min (a b : Z) : Z := if f64_ltb b a then b else a.

Definition clamp01 (v : Z) : Z := f32_max f32_zero (f32_min f32_one v).
(** [1e-4F] *)
Definition kMinRange : Z := 0x38D1B717.

Definition with_score (g : Z → Z) (r : SimilarityResult) : SimilarityResult := MkResult (item_id r) (g (score r)).

Definition NormalizeScores (results : list SimilarityResult) : list SimilarityResult :=
  match results with
  | [] | [_] => with_score clamp01 <$> results
  | r0 :: _ =>
    let min_score := fold_left (λ m r, f32_min m (score r)) results (score r0) in
    let max_score := fold_left (λ m r, f32_max m (score r)) results (score r0) in
    let range := f32_sub max_score min_score in
    if f32_ltb range kMinRange then with_score clamp01 <$> results
    else with_score (λ s, f32_div (f32_sub s min_score) range) <$> results
  end.

Definition MergeAndSelectTopK (results : list SimilarityResult) (top_k : nat) : list SimilarityResult :=
  if (length results <=? top_k)%nat then std_sort result_before results
  else take top_k (std_sort result_before results).

(** [fusion_scores[result.item_id] += weight * result.score] *)
Definition add_score (weight : Z) (m : gmap string Z) (r : SimilarityResult) : gmap string Z :=
  <[item_id r := f32_add (default f32_zero (m !! item_id r)) (f32_mul weight (score r))]> m.

(** [std::map] in key order. *)
Definition map_entries (m : gmap string Z) : list (string * Z) :=
  std_sort (λ p q, string_ltb p.1 q.1) (map_to_list m).

Section fusion.
Context {order : IterOrder} {impl : DistanceFunctions} {heap : MinHeap} {I : Type} {ann : AnnIndex I}.
Implicit Types e : SimilarityEngine I.

(** The weights of vectors and events for an item with [neighbor_count] neighbors. *)
Definition ComputeAdaptiveWeights (neighbor_count : Z) e : Z * Z :=
  let cfg := config_ e in
  let threshold := f64_of_Z (adaptive_maturity_threshold cfg) in
  let ratio := f64_min f64_one (f64_div (f64_of_Z neighbor_count) threshold) in
  let alpha := f32_of_f64 (f64_sub (adaptive_max_alpha cfg)
                 (f64_mul ratio (f64_sub (adaptive_max_alpha cfg) (adaptive_min_alpha cfg)))) in
  (alpha, f32_sub f32_one alpha).

Definition fusion_weights (adaptive : option bool) (neighbor_count : Z) e : Z * Z :=
  if default (adaptive_fusion (config_ e)) adaptive then ComputeAdaptiveWeights neighbor_count e
  else (f32_of_f64 (fusion_alpha (config_ e)), f32_of_f64 (fusion_beta (config_ e))).

(** The weights of the events and of the vectors that contribute; [None]: neither does. *)
Definition contributing_weights (has_events has_vectors : bool) (alpha beta : Z) : option (Z * Z) :=
  if negb (Bool.eqb has_events has_vectors) then
    Some (if has_events then f32_one else f32_zero, if has_vectors then f32_one else f32_zero)
  else
    let event_weight := if has_events then beta else f32_zero in
    let vector_weight := if has_vectors then alpha else f32_zero in
    let contributing_weight := f32_add event_weight vector_weight in
    if f32_ltb f32_zero contributing_weight
    then Some (f32_div event_weight contributing_weight, f32_div vector_weight contributing_weight)
    else None.

Definition candidates (r : Expected (list SimilarityResult)) : list SimilarityResult :=
  match r with Ok l => l | Unexpected _ => [] end.
Definition has_candidates (r : Expected (list SimilarityResult)) : bool := negb (bool_decide (candidates r = [])).

(** The weighted sum of the normalized scores, and its best [top_k]. *)
Definition fuse_scores (f : MetadataFilter) (metadata : option MetadataStore) (top_k : Z) (has_events has_vectors : bool)
    (alpha beta : Z) (events vectors : list SimilarityResult) : list SimilarityResult :=
  match contributing_weights has_events has_vectors alpha beta with
  | None => []
  | Some (event_weight, vector_weight) =>
    let scores := fold_left (add_score vector_weight) (NormalizeScores vectors)
                    (fold_left (add_score event_weight) (NormalizeScores events) ∅) in
    MergeAndSelectTopK ((λ p, MkResult p.1 p.2) <$> filter (λ p, passes f metadata p.1 = true) (map_entries scores))
      (Z.to_nat top_k)
  end.

Definition error_of (r : Expected (list SimilarityResult)) : option Error :=
  match r with Ok _ => None | Unexpected err => Some err end.

(** The fusion of the results of the two searches. *)
Definition fuse (f : MetadataFilter) (metadata : option MetadataStore) (item : string) (top_k : Z) (alpha beta : Z)
    (event_results vector_results : Expected (list SimilarityResult)) : Expected (list SimilarityResult) :=
  let has_events := has_candidates event_results in
  let has_vectors := has_candidates vector_results in
  match error_of vector_results with
  | Some err =>
    if negb has_events && negb has_vectors then Unexpected err
    else if bool_decide (is_Some (error_of event_results))
    then throw kSimilaritySearchFailed ("Both event and vector searches failed for ID: " +:+ item)
    else Ok (fuse_scores f metadata top_k has_events has_vectors alpha beta (candidates event_results) [])
  | None =>
    Ok (fuse_scores f metadata top_k has_events has_vectors alpha beta (candidates event_results) (candidates vector_results))
  end.
(** SIM in fusion mode.  [fetch_k] fits [int]: the limit on [top_k] does. *)
Definition SearchByIdFusion (rd : SearchReads) (co : CoOccurrenceIndex) (metadata : option MetadataStore) (item : string)
    (top_k : Z) (adaptive : option bool) (f : MetadataFilter) e : option (Expected (list SimilarityResult)) :=
  match ValidateTopK top_k e with
  | Unexpected err => Some (Unexpected err)
  | Ok top_k =>
    let fetch_k := i32 (Z.min (top_k * 3) (max_top_k (config_ e))) in
    event_results ← SearchByIdEvents co metadata item fetch_k f e;
    let '(alpha, beta) := fusion_weights adaptive (GetNeighborCount item co) e in
    vector_results ← SearchByIdVectors rd metadata item fetch_k f e;
    Some (fuse f metadata item top_k alpha beta event_results vector_results)
  end.
End fusion.

(** ** Publication of the approximate index *)

Section publication.
Context {I : Type} {ann : AnnIndex I}.
Implicit Types (vs : VectorStore) (e : SimilarityEngine I).

Definition EnsureAnnDimension vs e : SimilarityEngine I :=
  match ann_index_ e with
  | None => e
  | Some index =>
    if ann_dimension_bound_ e then e
    else
      let real_dim := u32 (Z.of_nat (GetDimension vs)) in
      if real_dim =? 0 then e
      else if negb (real_dim =? ann_dimension_ e)
      then with_index (Some (ann_rebuild [] 0 real_dim index)) (ann_generation_ e) real_dim true e
      else with_index (Some index) (ann_generation_ e) (ann_dimension_ e) true e
  end.

(** The background thread runs its job to the end. *)
Definition run_job (job : Job) (index : I) : I :=
  match job with
  | TrainAndSeal sample count dim => ivf_seal_buffer (ivf_train sample count dim index)
  | SealOnly => ivf_seal_buffer index
  end.
Definition JoinTrainThread e : SimilarityEngine I :=
  match ivf_train_thread_ e, ann_index_ e with
  | Some job, Some index =>
      with_thread false None (with_index (Some (run_job job index)) (ann_generation_ e) (ann_dimension_ e) (ann_dimension_bound_ e) e)
  | _, _ => e
  end.

Definition RebuildAnnFromStore vs e : SimilarityEngine I :=
  match ann_index_ e with
  | None => e
  | Some _ =>
    let e := JoinTrainThread e in
    match ann_index_ e with
    | None => e
    | Some index =>
      (* an empty snapshot has count and dimension 0 *)
      let dim := if bool_decide (matrix_ vs = []) then 0 else u32 (Z.of_nat (GetDimension vs)) in
      let count := if bool_decide (matrix_ vs = []) then 0 else u32 (Z.of_nat (GetCompactCount vs)) in
      let index := ann_rebuild (matrix_ vs) count (if dim =? 0 then ann_dimension_ e else dim) index in
      if dim =? 0 then with_index (Some index) (generation_ vs) (ann_dimension_ e) false e
      else with_index (Some index) (generation_ vs) dim true e
    end
  end.

Definition kMaxCopyForTrain : nat := Z.to_nat 50000.
Definition kMaxAutoNlist : Z := 1024.

Definition live_rows vs : list nat := filter (λ i, IsDeleted i vs = false) (seq 0 (GetCompactCount vs)).

(** The rows a training run copies; [rng]: [std::mt19937] seeded with 42. *)
Definition train_indices (rng : nat → Z) (valid : list nat) : list nat :=
  if (length valid <=? kMaxCopyForTrain)%nat then valid
  else fold_left (reservoir_step rng kMaxCopyForTrain (λ i, default 0%nat (valid !! i)))
         (seq kMaxCopyForTrain (length valid - kMaxCopyForTrain)) (take kMaxCopyForTrain valid).

(** Launches the background training; [vs] is the store at the count and at the
    snapshot. *)
Definition MaybeTrainIvfIndex (rng : nat → Z) vs e : SimilarityEngine I :=
  match ann_index_ e with
  | Some index =>
    if negb (bool_decide (index_type (config_ e) = "ivf")) || ivf_is_trained index || ivf_training_ e then e
    else if Z.of_nat (GetVectorCount vs) <? ivf_train_threshold (config_ e) then e
    else if snapshot_empty vs then e
    else
      let valid := live_rows vs in
      if bool_decide (valid = []) then e
      else
        let rows := train_indices rng valid in
        let sample := rows ≫= λ i, GetMatrixRow i vs in
        let index :=
          if ivf_nlist (config_ e) =? 0
          then ivf_set_nlist (Z.min (Z.max 1 (Z.sqrt (Z.of_nat (length valid)))) kMaxAutoNlist) index else index in
        let e := JoinTrainThread (with_index (Some index) (ann_generation_ e) (ann_dimension_ e) (ann_dimension_bound_ e) e) in
        with_thread true (Some (TrainAndSeal sample (Z.of_nat (length rows)) (u32 (Z.of_nat (GetDimension vs))))) e
  | None => e
  end.

(** After the row of a vector was written. *)
Definition NotifyVectorAdded (rng : nat → Z) (compact_index : nat) vs e : SimilarityEngine I :=
  match ann_index_ e with
  | None => e
  | Some _ =>
    if snapshot_empty vs || (GetCompactCount vs <=? compact_index)%nat || IsDeleted compact_index vs then e
    else
      let e := EnsureAnnDimension vs e in
      match ann_index_ e with
      | None => e
      | Some index =>
        let published_generation := ann_generation_ e in
        if (published_generation =? u64_max) || negb (published_generation + 1 =? generation_ vs)
        then
          with_index (Some (ann_rebuild (matrix_ vs) (u32 (Z.of_nat (GetCompactCount vs))) (u32 (Z.of_nat (GetDimension vs))) index))
            (generation_ vs) (u32 (Z.of_nat (GetDimension vs))) true e
        else
          let type := index_type (config_ e) in
          let known := bool_decide (type = "hnsw") || bool_decide (type = "ivf") in
          let index := if known then ann_add (u32 (Z.of_nat compact_index)) (drop (compact_index * GetDimension vs) (matrix_ vs)) index else index in
          let is_ivf := bool_decide (type = "ivf") in
          let start_training := is_ivf && negb (ivf_is_trained index) in
          let start_seal := is_ivf && negb start_training && ivf_needs_seal index in
          let e := with_index (Some index) (generation_ vs) (ann_dimension_ e) (ann_dimension_bound_ e) e in
          if start_training then MaybeTrainIvfIndex rng vs e
          else if start_seal && negb (ivf_training_ e) then with_thread true (Some SealOnly) (JoinTrainThread e)
          else e
      end
  end.

Definition NotifyVectorRemoved (compact_index : nat) e : SimilarityEngine I :=
  match ann_index_ e with
  | None => e
  | Some index =>
      with_index (Some (ann_mark_deleted (u32 (Z.of_nat compact_index)) index)) (ann_generation_ e) (ann_dimension_ e)
        (ann_dimension_bound_ e) e
  end.

Definition ForceIvfTrain (rng : nat → Z) vs e : SimilarityEngine I :=
  match ann_index_ e with
  | Some index =>
    if bool_decide (index_type (config_ e) = "ivf")
    then MaybeTrainIvfIndex rng vs
           (if ivf_is_trained index
            then with_index (Some (ivf_reset_trained index)) (ann_generation_ e) (ann_dimension_ e) (ann_dimension_bound_ e) e else e)
    else e
  | None => e
  end.
End publication.
