(* ===== verification/EngineTheorems.v ===== *)
(** * The searches are right

    Theorems about [SimilarityEngine]: the doubling fetch of the event search,
    the exact vector searches, the publication of the approximate index, and the
    fusion of two rankings. *)

From S2P Require Import Prelude StringLib Floats CoOccurrence Metadata Distance VectorStore SimilarityResult Selection.
From S2P Require Import SimilarityEngine.
#[local] Open Scope Z_scope.

(** ** Search by events: one pass over the ranked neighbors *)

Section events_spec.
Context {order : IterOrder} {I : Type}.

(** The neighbors with a positive score, best first. *)
Definition ranked (item : string) (co : CoOccurrenceIndex) : list (string * Z) :=
  match co_scores_ co !! item with
  | None => []
  | Some r => std_sort by_score_desc (filter (λ p, f32_ltb f32_zero p.2 = true) (iter_order r))
  end.

Lemma GetSimilar_ranked item k co : 0 < k → GetSimilar item k co = take (Z.to_nat k) (ranked item co).
Proof.
  intros Hk. unfold GetSimilar, ranked. destruct (Z.leb_spec k 0); [lia|].
  by destruct (co_scores_ co !! item); rewrite ?take_nil.
Qed.

Lemma length_ranked item co : Z.of_nat (length (ranked item co)) ≤ GetNeighborCount item co.
Proof.
  unfold ranked, GetNeighborCount. destruct (co_scores_ co !! item) as [r|]; [|done].
  rewrite std_sort_perm. pose proof (length_filter (λ p, f32_ltb f32_zero p.2 = true) (iter_order r)).
  rewrite length_iter_order in *. lia.
Qed.

Lemma collect_take {A} (g : A → option SimilarityResult) k l :
  (0 < k)%nat → collect g k l = take k (omap g l).
Proof.
  revert k. induction l as [|x l IH]; intros k Hk; cbn [collect omap list_omap]; [by rewrite take_nil|].
  destruct (g x) as [r|]; [|by apply IH]. destruct k as [|k]; [lia|]. cbn [take]. f_equal.
  destruct (Nat.leb_spec (S k) 1) as [Hle|Hgt].
  - assert (k = 0%nat) as -> by lia. by rewrite take_0.
  - rewrite IH by (cbn; lia). done.
Qed.

Lemma omap_take_prefix {A B} (g : A → option B) n l : ∃ rest, omap g l = omap g (take n l) ++ rest.
Proof. exists (omap g (drop n l)). by rewrite <- omap_app, take_drop. Qed.

Lemma omap_unfiltered f metadata (l : list (string * Z)) :
  filtering f metadata = false → omap (event_result f metadata) l = (λ p, MkResult p.1 p.2) <$> l.
Proof.
  intros E. induction l as [|p l IHl]; [done|]. cbn. unfold event_result at 1.
  assert (passes f metadata p.1 = true) as ->; [|by rewrite IHl].
  unfold passes, filtering in *. destruct metadata; [|done]. rewrite bool_decide_eq_true_2, andb_true_r in E by done.
  by apply negb_false_iff in E as ->.
Qed.

Lemma event_rounds_S fuel co metadata f item top_k nc fetch_k :
  event_rounds (S fuel) co metadata f item top_k nc fetch_k =
  let co_results := GetSimilar item fetch_k co in
  let results := collect (event_result f metadata) (Z.to_nat top_k) co_results in
  if negb (filtering f metadata) || (top_k <=? Z.of_nat (length results)) ||
     (Z.of_nat (length co_results) <? fetch_k) || (nc <=? fetch_k)
  then Some results
  else event_rounds fuel co metadata f item top_k nc (Z.min nc (Z.min (fetch_k * 2) int_max)).
Proof. done. Qed.

Lemma event_rounds_spec fuel co metadata f item top_k nc : ∀ fetch_k,
  0 < top_k → 0 < fetch_k → nc = GetNeighborCount item co → nc ≤ int_max → nc ≤ fetch_k * 2 ^ Z.of_nat fuel →
  (filtering f metadata = false → top_k ≤ fetch_k) →
  event_rounds (S fuel) co metadata f item top_k nc fetch_k =
    Some (take (Z.to_nat top_k) (omap (event_result f metadata) (ranked item co))).
Proof.
  induction fuel as [|fuel IH]; intros fetch_k Htop Hfetch Hnc Hmax Hfuel Hfilt; rewrite event_rounds_S; cbv zeta;
    rewrite collect_take, GetSimilar_ranked by lia.
  all: set (R := ranked item co) in *; pose proof (length_ranked item co) as HR; fold R in HR.
  all: destruct (omap_take_prefix (event_result f metadata) (Z.to_nat fetch_k) R) as [rest Hrest].
  all: destruct (negb (filtering f metadata) || _ || _ || _) eqn:E.
  all: try (f_equal; rewrite !orb_true_iff in E; destruct E as [[[E|E]|E]|E];
    [|apply Z.leb_le in E; rewrite length_take in E; rewrite Hrest; rewrite take_app_le by lia; done
     |apply Z.ltb_lt in E; rewrite length_take in E; by rewrite (take_ge R) by lia
     |apply Z.leb_le in E; by rewrite (take_ge R) by lia]).
  1, 3: apply negb_true_iff in E; specialize (Hfilt E); rewrite !(omap_unfiltered _ _ _ E), <- !fmap_take, take_take;
    do 2 f_equal; lia.
  - rewrite !orb_false_iff in E. destruct E as [_ E%Z.leb_gt]. cbn in Hfuel. lia.
  - rewrite !orb_false_iff in E. destruct E as [[[E1 _] _] E%Z.leb_gt]. apply negb_false_iff in E1.
    apply IH; try done; [..|rewrite E1; done].
    + unfold int_max in *. lia.
    + rewrite Nat2Z.inj_succ, Z.pow_succ_r in Hfuel by lia.
      pose proof (Z.pow_pos_nonneg 2 (Z.of_nat fuel) ltac:(lia) ltac:(lia)).
      destruct (Z.min_spec nc (Z.min (fetch_k * 2) int_max)) as [[? ->]|[? ->]]; [nia|].
      destruct (Z.min_spec (fetch_k * 2) int_max) as [[? ->]|[? ->]]; nia.
Qed.

(** C17: the search by events.  However many rounds the filter costs, the
    doubling fetch ends and gives what one pass over all neighbors would: the
    first [top_k] neighbors, by descending score, that pass the filter. *)
Theorem search_by_events_spec co metadata item top_k f (e : SimilarityEngine I) :
  0 < top_k ≤ i32 (max_top_k (config_ e)) → GetNeighborCount item co ≤ int_max →
  SearchByIdEvents co metadata item top_k f e =
    Some (Ok (take (Z.to_nat top_k) (omap (event_result f metadata) (ranked item co)))).
Proof.
  intros Hk Hn. unfold SearchByIdEvents, ValidateTopK.
  rewrite (proj2 (Z.leb_gt _ _)), (proj2 (Z.ltb_ge _ _)) by lia. unfold kRounds.
  rewrite event_rounds_spec by (try done; try lia; unfold int_max in *; change (Z.of_nat 32) with 32; nia). done.
Qed.
End events_spec.

(** ** Exact search: the [k] best of the abstract map *)

(** [r] ranks [k] best of the entries of [m] that are [ok], by their similarity. *)
Record exact_top_k (sim : list Z → Z) (m : gmap string Vector) (ok : string → bool) (k : nat) (r : list SimilarityResult)
    : Prop := MkExact {
  exact_sorted : StronglySorted (comp_le result_before) r;
  exact_nodup : NoDup (item_id <$> r);
  exact_bound : (length r ≤ k)%nat;
  exact_sound x : x ∈ r → ∃ v, m !! item_id x = Some v ∧ ok (item_id x) = true ∧ score x = sim (v_data v);
  exact_best id v : m !! id = Some v → ok id = true → id ∉ item_id <$> r →
    length r = k ∧ ∀ x, x ∈ r → f32_ltb (score x) (sim (v_data v)) = false
}.

Section exact.
Context {impl : DistanceFunctions} {heap : MinHeap} {I : Type}.
Implicit Types (vs : VectorStore) (e : SimilarityEngine I).

Definition similarity e (query : list Z) (query_norm : Z) (v : list Z) : Z :=
  if use_prenorm_ e then CosineSimilarityPreNorm query v query_norm (l2_norm v)
  else SelectDistanceFunction (distance_metric e) query v.

Lemma score_row_similarity query qn vs e idx :
  vs_ok vs → (idx < GetCompactCount vs)%nat → score_row query qn vs e idx = similarity e query qn (GetMatrixRow idx vs).
Proof.
  intros Hok Hi. unfold score_row, similarity, norm_at, GetNorm. by rewrite norms_lookup by done.
Qed.

(** A live row is the vector of its id. *)
Lemma live_row vs idx :
  vs_ok vs → (idx < GetCompactCount vs)%nat → IsDeleted idx vs = false →
  id_to_idx_ vs !! id_at vs idx = Some idx ∧ vs_abs vs !! id_at vs idx = Some (vector_at vs idx).
Proof.
  intros Hok Hi Hd. unfold id_at, GetIdByIndex.
  destruct (lookup_lt_is_Some_2 (idx_to_id_ vs) idx Hi) as [id Hid]. rewrite Hid. cbn [default from_option]. unfold Datatypes.id.
  assert (Hl : id_to_idx_ vs !! id = Some idx).
  { apply (ok_index vs Hok). split; [done|]. unfold IsDeleted in Hd. rewrite (ok_deleted vs Hok) in Hd.
    unfold GetCompactCount in Hi. rewrite (proj2 (Nat.ltb_lt _ _)) in Hd by done. cbn [andb] in Hd.
    destruct (lookup_lt_is_Some_2 (deleted_ vs) idx) as [b Hb]; [by rewrite (ok_deleted vs Hok)|].
    rewrite Hb in Hd. cbn in Hd. by rewrite Hd in Hb. }
  split; [done|]. unfold vs_abs. by rewrite lookup_fmap, Hl.
Qed.

Lemma abs_live_row vs id v :
  vs_ok vs → vs_abs vs !! id = Some v →
  ∃ idx, (idx < GetCompactCount vs)%nat ∧ IsDeleted idx vs = false ∧ id_at vs idx = id ∧ id_to_idx_ vs !! id = Some idx ∧
    v_data v = GetMatrixRow idx vs.
Proof.
  intros Hok. unfold vs_abs. rewrite lookup_fmap. destruct (id_to_idx_ vs !! id) as [idx|] eqn:E; [|done].
  intros [= <-]. exists idx. pose proof E as E'. apply (ok_index vs Hok) in E as [Hid Hd].
  unfold id_at, GetIdByIndex, IsDeleted. rewrite Hid, Hd. cbn [default from_option]. unfold Datatypes.id. split_and!; try done.
  - by apply lookup_lt_Some in Hid.
  - by rewrite andb_false_r.
Qed.

Definition not_self (self : option string) (f : MetadataFilter) (metadata : option MetadataStore) (id : string) : bool :=
  negb (bool_decide (self = Some id)) && passes f metadata id.

Lemma admitted_spec vs self f metadata idx :
  vs_ok vs → (idx < GetCompactCount vs)%nat → (∀ id, self = Some id → is_Some (id_to_idx_ vs !! id)) →
  admitted (self ≫= λ id, GetCompactIndex id vs) f metadata vs idx =
  negb (IsDeleted idx vs) && not_self self f metadata (id_at vs idx).
Proof.
  intros Hok Hi Hself. unfold admitted, not_self. destruct (IsDeleted idx vs) eqn:Hd; [by rewrite andb_false_r|].
  change (negb false) with true. rewrite andb_true_r, andb_true_l. f_equal. f_equal. apply bool_decide_ext.
  destruct (live_row vs idx Hok Hi Hd) as [Hl _]. destruct self as [id|]; [|done]. cbn [mbind option_bind]. unfold GetCompactIndex.
  split; [|by intros [= ->]]. intros E. f_equal. apply (ok_index vs Hok) in E as [E _]. apply (ok_index vs Hok) in Hl as [Hl _].
  congruence.
Qed.

(** The rows a scan offers to its heap. *)
Definition candidate_rows (self : option string) (f : MetadataFilter) (metadata : option MetadataStore) vs : list nat :=
  filter (λ i, admitted (self ≫= λ id, GetCompactIndex id vs) f metadata vs i = true) (seq 0 (GetCompactCount vs)).

Lemma elem_of_candidates self f metadata vs i :
  vs_ok vs → (∀ id, self = Some id → is_Some (id_to_idx_ vs !! id)) →
  i ∈ candidate_rows self f metadata vs ↔
    (i < GetCompactCount vs)%nat ∧ IsDeleted i vs = false ∧ not_self self f metadata (id_at vs i) = true.
Proof.
  intros Hok Hself. unfold candidate_rows. rewrite list_elem_of_filter, elem_of_seq. split.
  - intros [Ha Hi]. rewrite admitted_spec in Ha by (done || lia). apply andb_true_iff in Ha as [Ha%negb_true_iff ?].
    split_and!; [lia|done..].
  - intros (Hi & Hd & Hn). rewrite admitted_spec by done. rewrite Hd, Hn. split; [done|lia].
Qed.

(** What the heap holds after a scan. *)
Lemma scan_best self query qn k f metadata vs e :
  vs_ok vs → (0 < k)%nat → (∀ id, self = Some id → is_Some (id_to_idx_ vs !! id)) →
  (∀ id v, vs_abs vs !! id = Some v → not_nan (similarity e query qn (v_data v))) →
  let score_of := λ i, similarity e query qn (v_data (vector_at vs i)) in
  let h := fold_left (push_candidate k (admitted (self ≫= λ id, GetCompactIndex id vs) f metadata vs) (score_row query qn vs e))
             (seq 0 (GetCompactCount vs)) [] in
  best k ((λ i, (score_of i, i)) <$> candidate_rows self f metadata vs) h ∧ Forall (λ p, not_nan p.1) h.
Proof.
  intros Hok Hk Hself Hnn score_of h.
  assert (Hc : ∀ i, i ∈ candidate_rows self f metadata vs → not_nan (score_of i) ∧ score_row query qn vs e i = score_of i).
  { intros i (Hi & Hd & _)%elem_of_candidates; [|done..]. rewrite score_row_similarity by done.
    destruct (live_row vs i Hok Hi Hd) as [_ Habs]. split; [|done]. by apply (Hnn _ _ Habs). }
  assert (Hb : best k ((λ i, (score_of i, i)) <$> candidate_rows self f metadata vs) h).
  { rewrite (list_fmap_ext _ (λ i, (score_row query qn vs e i, i))).
    - unfold h, candidate_rows. apply (best_scan k _ _ (seq 0 (GetCompactCount vs)) [] []); [done| |constructor|apply best_nil].
      intros i Hi Ha. assert (Hin : i ∈ candidate_rows self f metadata vs) by (by apply list_elem_of_filter).
      destruct (Hc i Hin) as [? ->]. done.
    - intros j i Hi%list_elem_of_lookup_2. f_equal. symmetry. by apply Hc. }
  split; [done|]. destruct Hb as (rest & Hp & _). apply Forall_forall. intros p Hin.
  assert (Hin' : p ∈ h ++ rest) by (apply elem_of_app; by left). rewrite Hp in Hin'.
  apply list_elem_of_fmap in Hin' as (i & -> & Hi). by apply Hc.
Qed.

Lemma flat_search_exact rng self query qn k f metadata vs e :
  vs_ok vs → use_sampling vs e = false → (0 < k)%nat → (∀ id, self = Some id → is_Some (id_to_idx_ vs !! id)) →
  (∀ id v, vs_abs vs !! id = Some v → not_nan (similarity e query qn (v_data v))) →
  exact_top_k (similarity e query qn) (vs_abs vs) (not_self self f metadata) k
    (flat_search rng (self ≫= λ id, GetCompactIndex id vs) query qn k f metadata vs e).
Proof.
  intros Hok Hs Hk Hself Hnn. unfold flat_search, scan_indices. rewrite Hs.
  destruct (scan_best self query qn k f metadata vs e Hok Hk Hself Hnn) as [Hbest Hhn].
  set (h := fold_left _ _ []) in *. clearbody h. destruct Hbest as (rest & Hperm & Hlen & Hbest). rewrite length_fmap in Hlen.
  set (sc := λ i, similarity e query qn (v_data (vector_at vs i))) in *.
  set (mk := λ p : Z * nat, MkResult (id_at vs p.2) p.1).
  pose proof (elem_of_candidates self f metadata vs) as Hc.
  assert (Hh : ∀ p, p ∈ h → p.2 ∈ candidate_rows self f metadata vs ∧ p.1 = sc p.2).
  { intros p Hp. assert (Hin : p ∈ h ++ rest) by (apply elem_of_app; by left). rewrite Hperm in Hin.
    by apply list_elem_of_fmap in Hin as (i & -> & Hi). }
  assert (Hr : std_sort result_before (mk <$> heap_drain (length h) h) ≡ₚ mk <$> h) by (by rewrite std_sort_perm, heap_drain_perm).
  assert (Hlive : ∀ p, p ∈ h → id_to_idx_ vs !! id_at vs p.2 = Some p.2).
  { intros p [(Hi & Hd & _)%Hc _]%Hh; [|done..]. by apply live_row. }
  constructor.
  - apply std_sort_results. rewrite heap_drain_perm by done. apply Forall_fmap. by eapply Forall_impl.
  - rewrite Hr, <- list_fmap_compose. apply NoDup_fmap_2_strong.
    + intros p q Hp Hq E. cbn in E. pose proof (Hlive p Hp) as Hlp. rewrite E, (Hlive q Hq) in Hlp. injection Hlp as Hlp.
      destruct (Hh p Hp) as [_ Ep], (Hh q Hq) as [_ Eq]. destruct p, q. cbn in *. congruence.
    + apply (NoDup_fmap_1 snd), (sublist_NoDup _ ((h ++ rest).*2)); [|rewrite fmap_app; by apply sublist_inserts_r].
      rewrite Hperm, <- list_fmap_compose. cbn. rewrite list_fmap_id. apply NoDup_filter, NoDup_seq.
  - rewrite Hr, length_fmap. lia.
  - intros x Hx. rewrite Hr in Hx. apply list_elem_of_fmap in Hx as (p & -> & Hp). destruct (Hh p Hp) as [Hi Hs'].
    apply Hc in Hi as (Hlt & Hd & Hn); [|done..]. exists (vector_at vs p.2). split_and!; [by apply live_row|done|done].
  - intros id v Hv Hokid Hni. destruct (abs_live_row vs id v Hok Hv) as (i & Hlt & Hd & Hid & _ & Hvd).
    assert (Hi : i ∈ candidate_rows self f metadata vs) by (apply Hc; [done..|by rewrite Hid]).
    assert (Hin : (sc i, i) ∈ h ++ rest) by (rewrite Hperm; apply list_elem_of_fmap; by exists i).
    assert (Hrest : (sc i, i) ∈ rest).
    { apply elem_of_app in Hin as [Hin|?]; [|done]. destruct Hni. rewrite Hr, <- list_fmap_compose.
      apply list_elem_of_fmap. by exists (sc i, i). }
    split.
    + rewrite Hr, length_fmap. apply Permutation_length in Hperm. rewrite length_app, length_fmap in Hperm.
      assert (0 < length rest)%nat by (destruct rest; [set_solver|cbn; lia]). lia.
    + intros x Hx. rewrite Hr in Hx. apply list_elem_of_fmap in Hx as (p & -> & Hp). rewrite Hvd.
      by apply (Hbest p (sc i, i)).
Qed.

Lemma snapshot_empty_abs vs : vs_ok vs → snapshot_empty vs = true → vs_abs vs = ∅.
Proof.
  intros Hok He. assert (Hc : GetCompactCount vs = 0%nat).
  { unfold snapshot_empty, GetCompactCount in *. apply orb_true_iff in He as [He|He]; [|by apply Nat.eqb_eq].
    apply bool_decide_eq_true in He. pose proof (ok_matrix vs Hok) as Hm. rewrite He in Hm. cbn in Hm.
    destruct (idx_to_id_ vs) eqn:E; [done|]. pose proof (ok_dim vs Hok) as Hd. rewrite E in Hd. specialize (Hd ltac:(done)).
    cbn in Hm. lia. }
  apply map_eq. intros id. rewrite lookup_empty. destruct (vs_abs vs !! id) as [v|] eqn:E; [|done].
  apply abs_live_row in E as (i & Hi & _); [lia|done].
Qed.

Lemma exact_empty sim ok k : exact_top_k sim ∅ ok k [].
Proof. constructor; [constructor|constructor|cbn; lia|set_solver|]. intros id v Hv. by rewrite lookup_empty in Hv. Qed.

Lemma exact_top_k_ext sim m ok ok' k r :
  (∀ id, ok id = ok' id) → exact_top_k sim m ok k r → exact_top_k sim m ok' k r.
Proof.
  intros Hext [Hs Hn Hb Hso Hbe]. constructor; [done..| |].
  - intros x Hx. destruct (Hso x Hx) as (v & ? & ? & ?). exists v. by rewrite <- Hext.
  - intros id v Hv Hok. apply Hbe; [done|by rewrite Hext].
Qed.

Lemma present_snapshot vs id v :
  vs_ok vs → vs_abs vs !! id = Some v →
  ∃ idx, (if snapshot_empty vs then None else GetCompactIndex id vs) = Some idx ∧ GetCompactIndex id vs = Some idx ∧
    GetMatrixRow idx vs = v_data v ∧ norm_at vs idx = l2_norm (v_data v).
Proof.
  intros Hok Hv. destruct (snapshot_empty vs) eqn:E; [by rewrite snapshot_empty_abs, lookup_empty in Hv|].
  destruct (abs_live_row vs id v Hok Hv) as (i & Hi & Hd & Hid & Hl & Hrow). exists i. unfold GetCompactIndex.
  split_and!; [done..|]. unfold norm_at, GetNorm. rewrite norms_lookup by done. by rewrite Hrow.
Qed.

Context {ann : AnnIndex I}.

Lemma ann_path_unready rd total e self query f metadata k fetch :
  IsAnnIndexReady e = false → ann_path rd total e self query f metadata k fetch = Some AnnStale.
Proof. intros Hr. unfold ann_path. rewrite Hr. by destruct (ann_index_ e). Qed.

Lemma ValidateTopK_Ok k e : 0 < k ≤ i32 (max_top_k (config_ e)) → ValidateTopK k e = Ok k.
Proof. intros Hk. unfold ValidateTopK. by rewrite (proj2 (Z.leb_gt _ _)), (proj2 (Z.ltb_ge _ _)) by lia. Qed.

(** What [SearchByVector] asks of its query. *)
Definition query_ok (rd : SearchReads) (query : list Z) e : Prop :=
  query ≠ [] ∧ forallb is_finite32 query = true ∧
  (GetDimension (at_first rd) = 0%nat ∨ GetDimension (at_first rd) = length query) ∧
  is_finite32 (l2_norm query) = true ∧ (use_prenorm_ e = true → f32_leb (l2_norm query) f32_zero = false).

(** C14: without an approximate index and without sampling, both vector searches
    are exact: they return, ranked by similarity and then by id, [top_k] best of
    the vectors that pass the filter, each with its similarity to the query (and
    never the queried item itself).  The stores at the first read and at the
    scan may differ: what counts is the store scanned. *)
Theorem vector_search_exact rd metadata top_k f e :
  let vs := at_flat rd in
  IsAnnIndexReady e = false → vs_ok vs → use_sampling vs e = false → 0 < top_k ≤ i32 (max_top_k (config_ e)) →
  (vs_ok (at_first rd) → ∀ item v0 v, vs_abs (at_first rd) !! item = Some v0 → vs_abs vs !! item = Some v →
    (∀ id w, vs_abs vs !! id = Some w → not_nan (similarity e (v_data v) (l2_norm (v_data v)) (v_data w))) →
    ∃ r, SearchByIdVectors rd metadata item top_k f e = Some (Ok r) ∧
      exact_top_k (similarity e (v_data v) (l2_norm (v_data v))) (vs_abs vs)
        (λ id, negb (bool_decide (id = item)) && passes f metadata id) (Z.to_nat top_k) r) ∧
  (∀ query, query_ok rd query e →
    (∀ id w, vs_abs vs !! id = Some w → not_nan (similarity e query (l2_norm query) (v_data w))) →
    ∃ r, SearchByVector rd metadata query top_k f e = Some (Ok r) ∧
      exact_top_k (similarity e query (l2_norm query)) (vs_abs vs) (passes f metadata) (Z.to_nat top_k) r).
Proof.
  intros vs Hann Hok Hs Hk. split.
  - intros Hok0 item v0 v Hv0 Hv Hnn. unfold SearchByIdVectors. rewrite ValidateTopK_Ok by done.
    destruct (present_snapshot _ item v0 Hok0 Hv0) as (i0 & -> & _). rewrite ann_path_unready by done. cbn [mbind option_bind].
    fold vs. destruct (present_snapshot vs item v Hok Hv) as (i & -> & Hi & -> & ->). eexists. split; [done|].
    eapply exact_top_k_ext; [|replace (Some i) with (Some item ≫= λ id, GetCompactIndex id vs) by done].
    2: { apply flat_search_exact; try done; [lia|]. intros id [= <-]. exists i. exact Hi. }
    intros id. unfold not_self. do 2 f_equal. apply bool_decide_ext. split; [by intros [= ->]|by intros ->].
  - intros query (Hne & Hfin & Hdim & Hnorm & Hpos) Hnn. unfold SearchByVector. rewrite ValidateTopK_Ok by done.
    rewrite bool_decide_eq_false_2 by done. rewrite Hfin.
    assert (((0 <? GetDimension (at_first rd))%nat && negb (length query =? GetDimension (at_first rd))%nat) = false) as ->.
    { destruct Hdim as [->| ->]; [done|]. by rewrite Nat.eqb_refl, andb_false_r. }
    rewrite Hnorm. cbn [negb orb]. assert ((use_prenorm_ e && f32_leb (l2_norm query) f32_zero) = false) as ->.
    { destruct (use_prenorm_ e); [by apply Hpos|done]. }
    rewrite ann_path_unready by done. cbn [mbind option_bind]. fold vs. destruct (snapshot_empty vs) eqn:E.
    + exists []. rewrite snapshot_empty_abs by done. split; [done|apply exact_empty].
    + eexists. split; [done|]. apply (exact_top_k_ext _ _ (not_self None f metadata)); [done|].
      apply (flat_search_exact _ None); try done. lia.
Qed.
End exact.

(** ** The approximate index follows the store *)

(** What the engine relies on of the HNSW index: it holds vectors by label,
    returns labels it holds, and a rebuild leaves exactly the rows of the
    matrix.  [ann_view] is its contents, [ann_dim] its dimension; [ann_ok] is its
    own invariant and [ann_room] says that it can take another vector. *)
Class AnnContract (I : Type) {ann : AnnIndex I} : Type := {
  ann_view : I → gmap Z (list Z);
  ann_dim : I → Z;
  ann_ok : I → Prop;
  ann_room : I → Prop;
  ann_dim_law i : ann_ok i → 0 ≤ ann_dim i;
  ann_add_law l v i :
    ann_ok i → ann_room i → 0 ≤ l < u32_max → (Z.to_nat (ann_dim i) ≤ length v)%nat →
    ann_ok (ann_add l v i) ∧ ann_dim (ann_add l v i) = ann_dim i ∧
    ann_view (ann_add l v i) = <[l := take (Z.to_nat (ann_dim i)) v]> (ann_view i);
  ann_mark_law l i : ann_ok i → 0 ≤ l → ann_ok (ann_mark_deleted l i) ∧ ann_dim (ann_mark_deleted l i) = ann_dim i;
  ann_rebuild_law m count dim i :
    ann_ok i → 0 ≤ count ≤ u32_max → 0 ≤ dim → (Z.to_nat count * Z.to_nat dim ≤ length m)%nat →
    let i' := ann_rebuild m count dim i in
    ann_ok i' ∧ ann_dim i' = dim ∧ (count = 0 → ann_room i') ∧
    ∀ l v, ann_view i' !! l = Some v ↔ 0 ≤ l < count ∧ v = VectorStore.row (Z.to_nat dim) m (Z.to_nat l);
  ann_search_view vs i q k l s : ann_ok i → (l, s) ∈ ann_search vs i q k → is_Some (ann_view i !! l)
}.

Section coherence.
Context {impl : DistanceFunctions} {I : Type} {ann : AnnIndex I} {contract : AnnContract I}.
Implicit Types (vs : VectorStore) (e : SimilarityEngine I).

(** The index holds, under its row, every vector of the store and nothing beyond
    the rows. *)
Definition in_step vs e (index : I) : Prop :=
  (∀ l v, ann_view index !! l = Some v → 0 ≤ l < Z.of_nat (GetCompactCount vs)) ∧
  (∀ id idx, id_to_idx_ vs !! id = Some idx → ann_view index !! Z.of_nat idx = Some (GetMatrixRow idx vs)) ∧
  (ann_dimension_bound_ e = true → ann_dimension_ e = Z.of_nat (GetDimension vs) ∧ GetCompactCount vs ≠ 0%nat) ∧
  (ann_dimension_bound_ e = false → GetCompactCount vs = 0%nat).

(** A writer's phases, under the lock that serializes writers: after a vector
    was written; after one was removed; after the rows were renumbered or
    replaced. *)
Inductive Phase : Type := Idle | Added (idx : nat) | Removed (idx : nat) | Renumbered (idx : nat).

Definition small vs : Prop := (GetDimension vs ≤ kMaxVectorDimension)%nat ∧ Z.of_nat (GetCompactCount vs) < 2 ^ 32.

(** The reachable states of store and engine; searches run in every one. *)
Inductive reachable (rng : nat → Z) : Phase → VectorStore → SimilarityEngine I → Prop :=
| reach_start cfg metric dim factory :
    effective_type cfg = "hnsw" → in_u 32 dim →
    (∀ type index, factory type = Some index → ann_ok index ∧ ann_dim index = dim ∧ ann_view index = ∅) →
    reachable rng Idle VectorStore.new (new_engine cfg metric dim factory)
| reach_store vs e id data nz vs' idx :
    reachable rng Idle vs e → data ≠ [] → StoreVector id data nz vs = (Ok tt, vs') → GetCompactIndex id vs' = Some idx → small vs' →
    reachable rng (Added idx) vs' e
| reach_notify idx vs e :
    reachable rng (Added idx) vs e → (∀ index, ann_index_ e = Some index → ann_room index) →
    reachable rng Idle vs (NotifyVectorAdded rng idx vs e)
| reach_delete vs e id idx vs' :
    reachable rng Idle vs e → GetCompactIndex id vs = Some idx → DeleteVector id vs = (true, vs') → reachable rng (Removed idx) vs' e
| reach_defragment idx vs e : reachable rng (Removed idx) vs e → reachable rng (Renumbered idx) (Defragment vs) e
| reach_swap vs e other : reachable rng Idle vs e → vs_ok other → reachable rng (Renumbered 0) (SwapState vs other).1 e
| reach_mark idx vs e : reachable rng (Renumbered idx) vs e → reachable rng (Renumbered idx) vs (NotifyVectorRemoved idx e)
| reach_rebuild idx vs e : reachable rng (Renumbered idx) vs e → small vs → reachable rng Idle vs (RebuildAnnFromStore vs e).

(** What writing the row [idx] leaves of the others. *)
Definition wrote (idx : nat) vs0 vs : Prop :=
  (GetCompactCount vs0 ≤ GetCompactCount vs)%nat ∧ (GetCompactCount vs0 ≠ 0%nat → GetDimension vs = GetDimension vs0) ∧
  ∀ id i, i ≠ idx → id_to_idx_ vs !! id = Some i → id_to_idx_ vs0 !! id = Some i ∧ GetMatrixRow i vs = GetMatrixRow i vs0.

Lemma StoreVector_wrote vs id data nz vs' idx :
  vs_ok vs → data ≠ [] → StoreVector id data nz vs = (Ok tt, vs') → GetCompactIndex id vs' = Some idx →
  vs_ok vs' ∧ wrote idx vs vs' ∧ generation_ vs' = u64 (generation_ vs + 1).
Proof.
  intros Hok Hne Hst Hidx. destruct (StoreVector_ok vs vs' id data nz Hok Hne Hst) as (Hok' & Habs & _).
  assert (Hshape : id_to_idx_ vs' = <[id := idx]> (id_to_idx_ vs) ∧ (GetCompactCount vs ≤ GetCompactCount vs')%nat ∧
    generation_ vs' = u64 (generation_ vs + 1) ∧ (dimension_ vs ≠ 0%nat → dimension_ vs' = dimension_ vs)).
  { unfold GetCompactIndex in Hidx. unfold StoreVector in Hst. case_match; [done|]. injection Hst as <-.
    unfold GetCompactCount. destruct (id_to_idx_ vs !! id) as [i|] eqn:E; [|destruct (free_slots_ vs) as [|i rest]]; cbn in *;
      rewrite ?length_insert, ?length_app; cbn.
    - rewrite E in Hidx. injection Hidx as ->. split_and!; [by rewrite insert_id|done..|].
      intros Hd. by rewrite (proj2 (Nat.eqb_neq _ _)) by done.
    - rewrite lookup_insert_eq in Hidx. injection Hidx as ->. split_and!; [done|lia|done|].
      intros Hd. by rewrite (proj2 (Nat.eqb_neq _ _)) by done.
    - rewrite lookup_insert_eq in Hidx. injection Hidx as ->. split_and!; [done|done|done|].
      intros Hd. by rewrite (proj2 (Nat.eqb_neq _ _)) by done. }
  destruct Hshape as (Hmap & Hcount & Hgen & Hdim). split_and!; [done| |done]. split_and!; [done| |].
  - intros Hc. apply Hdim, (ok_dim vs Hok). intros E. unfold GetCompactCount in Hc. by rewrite E in Hc.
  - intros id' i Hi Hid'. rewrite Hmap in Hid'. apply lookup_insert_Some in Hid' as [[<- ->]|[Hn Hid']]; [done|]. split; [done|].
    assert (Hv : vs_abs vs' !! id' = vs_abs vs !! id') by (by rewrite Habs, lookup_insert_ne).
    unfold vs_abs in Hv. rewrite !lookup_fmap, Hid', Hmap, lookup_insert_ne, Hid' in Hv by done. cbn in Hv.
    injection Hv as Hv _. exact Hv.
Qed.

(** The invariant of the phases. *)
Definition phase_ok (p : Phase) vs e : Prop :=
  vs_ok vs ∧ in_u 64 (generation_ vs) ∧
  ∀ index, ann_index_ e = Some index →
    index_type (config_ e) = "hnsw" ∧ (ann_ok index ∧ ann_dim index = ann_dimension_ e) ∧ ivf_train_thread_ e = None ∧ in_u 64 (ann_generation_ e) ∧
    match p with
    | Idle => ann_generation_ e = generation_ vs ∧ in_step vs e index
    | Added idx => generation_ vs = u64 (ann_generation_ e + 1) ∧ small vs ∧ (∃ id, id_to_idx_ vs !! id = Some idx) ∧
        ∃ vs0, in_step vs0 e index ∧ vs_ok vs0 ∧ wrote idx vs0 vs
    | Removed _ => generation_ vs = u64 (ann_generation_ e + 1)
    | Renumbered _ => ∃ k, 1 ≤ k ≤ 2 ∧ generation_ vs = u64 (ann_generation_ e + k)
    end.

Lemma live_snapshot vs id idx :
  vs_ok vs → id_to_idx_ vs !! id = Some idx →
  snapshot_empty vs = false ∧ (idx < GetCompactCount vs)%nat ∧ IsDeleted idx vs = false ∧ GetDimension vs ≠ 0%nat.
Proof.
  intros Hok Hid. assert (Hv : vs_abs vs !! id = Some (vector_at vs idx)) by (unfold vs_abs; by rewrite lookup_fmap, Hid).
  split_and!.
  - destruct (snapshot_empty vs) eqn:E; [|done]. by rewrite snapshot_empty_abs, lookup_empty in Hv.
  - apply (ok_index vs Hok) in Hid as [Hid _]. by apply lookup_lt_Some in Hid.
  - apply (ok_index vs Hok) in Hid as [_ Hd]. unfold IsDeleted. rewrite Hd. apply andb_false_r.
  - apply (ok_dim vs Hok). intros E. apply (ok_index vs Hok) in Hid as [Hid _]. by rewrite E in Hid.
Qed.

(** A rebuild is in step with the store it read. *)
Lemma rebuild_matrix vs index :
  vs_ok vs → small vs → ann_ok index →
  let index' := ann_rebuild (matrix_ vs) (u32 (Z.of_nat (GetCompactCount vs))) (u32 (Z.of_nat (GetDimension vs))) index in
  ann_ok index' ∧ ann_dim index' = Z.of_nat (GetDimension vs) ∧
  ∀ l v, ann_view index' !! l = Some v ↔
    0 ≤ l < Z.of_nat (GetCompactCount vs) ∧ v = VectorStore.row (GetDimension vs) (matrix_ vs) (Z.to_nat l).
Proof.
  intros Hok [Hd Hc] Hi. unfold kMaxVectorDimension in Hd. unfold u32. rewrite !wrap_small by (unfold in_u; lia). cbv zeta.
  destruct (ann_rebuild_law (matrix_ vs) (Z.of_nat (GetCompactCount vs)) (Z.of_nat (GetDimension vs)) index Hi) as (? & ? & _ & Hv).
  - unfold u32_max. lia.
  - lia.
  - rewrite !Nat2Z.id, (ok_matrix vs Hok). done.
  - rewrite Nat2Z.id in Hv. done.
Qed.

Lemma rebuilt_in_step vs e index index' :
  vs_ok vs → small vs → GetDimension vs ≠ 0%nat → GetCompactCount vs ≠ 0%nat → ann_ok index →
  index' = ann_rebuild (matrix_ vs) (u32 (Z.of_nat (GetCompactCount vs))) (u32 (Z.of_nat (GetDimension vs))) index →
  ann_dimension_ e = Z.of_nat (GetDimension vs) → ann_dimension_bound_ e = true → in_step vs e index'.
Proof.
  intros Hok Hsm Hdim Hcount Hi -> He Hb. destruct (rebuild_matrix vs index Hok Hsm Hi) as (_ & _ & Hview). split_and!.
  - intros l v Hl. apply Hview in Hl. tauto.
  - intros id idx Hid. apply Hview. destruct (live_snapshot vs id idx Hok Hid) as (_ & Hlt & _). split; [lia|].
    by rewrite !Nat2Z.id.
  - done.
  - by rewrite Hb.
Qed.

Lemma in_step_empty vs e index : vs_ok vs → ann_view index = ∅ → GetCompactCount vs = 0%nat → ann_dimension_bound_ e = false → in_step vs e index.
Proof.
  intros Hok Hv Hc Hb. split_and!.
  - intros l v. by rewrite Hv, lookup_empty.
  - intros id idx Hid. destruct (live_snapshot vs id idx Hok Hid) as (_ & Hlt & _). lia.
  - by rewrite Hb.
  - done.
Qed.

Lemma rebuild_none m dim index :
  ann_ok index → 0 ≤ dim →
  let index' := ann_rebuild m 0 dim index in ann_ok index' ∧ ann_dim index' = dim ∧ ann_room index' ∧ ann_view index' = ∅.
Proof.
  intros Hi Hd. cbv zeta. destruct (ann_rebuild_law m 0 dim index Hi) as (? & ? & Hroom & Hv); [unfold u32_max; lia|done|cbn; lia|].
  split_and!; [done|done|by apply Hroom|]. apply map_eq. intros l. rewrite lookup_empty.
  destruct (ann_view _ !! l) as [v|] eqn:E; [|done]. apply Hv in E. lia.
Qed.

(** Binding the dimension before the first insertion keeps what is indexed. *)
Lemma EnsureAnnDimension_ok vs0 vs e index idx id :
  vs_ok vs0 → vs_ok vs → small vs → wrote idx vs0 vs → id_to_idx_ vs !! id = Some idx →
  ann_index_ e = Some index → ann_ok index → ann_room index → ann_dim index = ann_dimension_ e → in_step vs0 e index →
  ∃ index', EnsureAnnDimension vs e = with_index (Some index') (ann_generation_ e) (Z.of_nat (GetDimension vs)) true e ∧
    ann_ok index' ∧ ann_room index' ∧ ann_dim index' = Z.of_nat (GetDimension vs) ∧
    (∀ l v, ann_view index' !! l = Some v → 0 ≤ l < Z.of_nat (GetCompactCount vs0)) ∧
    (∀ id i, id_to_idx_ vs0 !! id = Some i → ann_view index' !! Z.of_nat i = Some (GetMatrixRow i vs0)).
Proof.
  intros Hok0 Hok [Hd Hc] (Hle & Hdims & _) Hid He Hiok Hroom Hdim (Hr & Hrows & Hb & Hnb). unfold EnsureAnnDimension. rewrite He.
  destruct (live_snapshot vs id idx Hok Hid) as (_ & _ & _ & Hdne). unfold kMaxVectorDimension in Hd.
  unfold u32. rewrite wrap_small by (unfold in_u; lia). rewrite (proj2 (Z.eqb_neq _ 0)) by lia.
  destruct (ann_dimension_bound_ e) eqn:Ebound.
  - destruct (Hb eq_refl) as [Had Hcne]. rewrite <- (Hdims Hcne) in Had. exists index. rewrite <- Had. split_and!; [|done..].
    destruct e as [? ? ? ? ? ? ? ?]. cbn in *. by subst.
  - specialize (Hnb eq_refl).
    assert (Hnone : ∀ id i, id_to_idx_ vs0 !! id = Some i → False).
    { intros id' i Hi. destruct (live_snapshot vs0 id' i Hok0 Hi) as (_ & Hlt & _). lia. }
    destruct (Z.eqb_spec (Z.of_nat (GetDimension vs)) (ann_dimension_ e)) as [E|E]; cbn [negb].
    + exists index. rewrite <- E. split_and!; [done|done|done|congruence|done|]. intros id' i Hi. by destruct (Hnone id' i).
    + destruct (rebuild_none [] (Z.of_nat (GetDimension vs)) index Hiok) as (? & ? & ? & Hv); [lia|].
      exists (ann_rebuild [] 0 (Z.of_nat (GetDimension vs)) index). split_and!; [done..| |].
      * intros l v. by rewrite Hv, lookup_empty.
      * intros id' i Hi. by destruct (Hnone id' i).
Qed.

Lemma NotifyVectorAdded_ok rng idx vs e :
  phase_ok (Added idx) vs e → (∀ index, ann_index_ e = Some index → ann_room index) → phase_ok Idle vs (NotifyVectorAdded rng idx vs e).
Proof.
  intros (Hok & Hgen & Hp) Hroom. split_and!; [done..|]. unfold NotifyVectorAdded.
  destruct (ann_index_ e) as [index0|] eqn:He; [|intros index; by rewrite He].
  destruct (Hp index0 eq_refl) as (Hty & [Hi0 Hdim] & Hth & Hg & Hgv & Hsm & (id & Hid) & vs0 & Hstep & Hok0 & Hwrote).
  destruct (live_snapshot vs id idx Hok Hid) as (-> & Hlt & -> & Hdne).
  rewrite (proj2 (Nat.leb_gt _ _)) by done. cbn [orb].
  destruct (EnsureAnnDimension_ok vs0 vs e index0 idx id) as (index1 & -> & Hi1 & Hroom1 & Hdim1 & Hr1 & Hrows1); [done|done|done|done|done|done|done|by apply Hroom|done|done|]. cbv zeta.
  cbn [ann_index_ with_index ann_generation_ config_ ann_dimension_ ann_dimension_bound_].
  destruct (Z.eqb_spec (ann_generation_ e) u64_max) as [Hmax|Hmax]; cbn [orb].
  - destruct (rebuild_matrix vs index1 Hok Hsm Hi1) as (Hi2 & Hdim2 & _).
    assert (Hud : u32 (Z.of_nat (GetDimension vs)) = Z.of_nat (GetDimension vs)).
    { destruct Hsm. unfold kMaxVectorDimension, u32 in *. rewrite wrap_small by (unfold in_u; lia). done. }
    intros index [= <-]. cbn. rewrite Hud in *. split_and!; [done|done|done|done|done|done|].
    apply (rebuilt_in_step vs _ index1); cbn; try done; [lia|]. by rewrite Hud.
  - unfold u64 in Hgv. rewrite wrap_small in Hgv by (unfold in_u, u64_max in *; lia). rewrite Hgv, Z.eqb_refl. cbn [negb].
    rewrite Hty. rewrite !(bool_decide_eq_true_2 ("hnsw" = "hnsw")), (bool_decide_eq_false_2 ("hnsw" = "ivf")) by done. cbn [orb andb].
    destruct Hsm as [Hd Hc]. unfold u32. rewrite wrap_small by (unfold in_u; lia).
    destruct (ann_add_law (Z.of_nat idx) (drop (idx * GetDimension vs) (matrix_ vs)) index1 Hi1 Hroom1) as (Hi2 & Hdim2 & Hview2).
    { unfold u32_max. lia. }
    { rewrite Hdim1, Nat2Z.id, length_drop, (ok_matrix vs Hok). pose proof (row_end idx (GetCompactCount vs) (GetDimension vs) Hlt).
      unfold GetCompactCount, GetDimension in *. lia. }
    intros index [= <-]. cbn. split_and!; [done|done|by rewrite Hdim2|done|unfold in_u, u64_max in *; lia|done|].
    destruct Hwrote as (Hle & _ & Hother). split_and!; cbn.
    + intros l v. rewrite Hview2. intros [[<- _]|[_ Hl]]%lookup_insert_Some; [lia|]. apply Hr1 in Hl. lia.
    + intros id' i Hi. rewrite Hview2, Hdim1, Nat2Z.id. destruct (decide (i = idx)) as [->|Hne].
      * by rewrite lookup_insert_eq.
      * rewrite lookup_insert_ne by lia. destruct (Hother id' i Hne Hi) as [Hid0 ->]. by apply (Hrows1 id').
    + intros _. split; [done|lia].
    + done.
Qed.

Lemma RebuildAnnFromStore_ok vs e idx :
  phase_ok (Renumbered idx) vs e → small vs → phase_ok Idle vs (RebuildAnnFromStore vs e).
Proof.
  intros (Hok & Hgen & Hp) Hsm. split_and!; [done..|]. unfold RebuildAnnFromStore.
  destruct (ann_index_ e) as [index0|] eqn:He; [|intros index; by rewrite He].
  destruct (Hp index0 eq_refl) as (Hty & [Hi0 Hdim] & Hth & Hg & _).
  assert (HJ : JoinTrainThread e = e) by (unfold JoinTrainThread; by rewrite Hth). rewrite HJ, He.
  pose proof (ok_matrix vs Hok) as Hm. pose proof (ok_dim vs Hok) as Hd.
  pose proof Hsm as [Hs1 Hs2]. unfold kMaxVectorDimension in Hs1.
  case_bool_decide as Hempty; cbv zeta.
  - rewrite Z.eqb_refl. pose proof (ann_dim_law index0 Hi0) as Hpos. rewrite Hdim in Hpos.
    destruct (rebuild_none (matrix_ vs) (ann_dimension_ e) index0 Hi0 Hpos) as (? & ? & _ & Hv).
    intros index [= <-]. cbn. split_and!; [done|done|done|done|done|done|].
    apply in_step_empty; [done|done| |done]. rewrite Hempty in Hm. cbn in Hm. unfold GetCompactCount.
    destruct (idx_to_id_ vs); [done|]. specialize (Hd ltac:(done)). cbn in Hm. lia.
  - assert (Hc : GetCompactCount vs ≠ 0%nat ∧ GetDimension vs ≠ 0%nat).
    { unfold GetCompactCount, GetDimension. destruct (matrix_ vs); [done|]. cbn in Hm. split; intros E; rewrite E in Hm; lia. }
    destruct Hc as [Hc Hdne]. assert (Hu : u32 (Z.of_nat (GetDimension vs)) = Z.of_nat (GetDimension vs)).
    { unfold u32. apply wrap_small. unfold in_u. lia. }
    destruct (rebuild_matrix vs index0 Hok Hsm Hi0) as (? & ? & _). rewrite Hu in *.
    rewrite (proj2 (Z.eqb_neq _ 0)) by lia. intros index [= <-]. cbn. split_and!; [done|done|done|done|done|done|].
    by apply (rebuilt_in_step vs _ index0); rewrite ?Hu.
Qed.

Lemma reachable_ok rng p vs e : reachable rng p vs e → phase_ok p vs e.
Proof.
  induction 1 as [cfg metric dim factory Hty Hdim Hf|vs e id data nz vs' idx _ IH Hne Hst Hidx Hsm|idx vs e _ IH Hroom|
    vs e id idx vs' _ IH Hidx Hdel|idx vs e _ IH|vs e other _ IH Hok|idx vs e _ IH|idx vs e _ IH Hsm].
  - split_and!; [exact (clear_rows_ok VectorStore.new)|by cbn|]. unfold new_engine. rewrite Hty. cbn. intros index Hi. rewrite Hi. destruct (Hf _ _ Hi) as (? & Hd & Hv).
    unfold u32. rewrite wrap_small by done. split_and!; [done|done|done|done|by cbn|done|]. apply in_step_empty; [exact (clear_rows_ok VectorStore.new)|done..].
  - destruct IH as (Hok & Hg & IH). destruct (StoreVector_wrote vs id data nz vs' idx Hok Hne Hst Hidx) as (Hok' & Hw & Hgen).
    split_and!; [done|rewrite Hgen; by apply wrap_in_u|]. intros index Hi. destruct (IH index Hi) as (? & [? ?] & ? & ? & Heq & Hstep).
    split_and!; [done..|by rewrite Hgen, Heq|done|by exists id|by exists vs].
  - by apply NotifyVectorAdded_ok.
  - destruct IH as (Hok & Hg & IH). destruct (DeleteVector_ok vs vs' id true Hok Hdel) as (Hok' & _).
    assert (Hgen : generation_ vs' = u64 (generation_ vs + 1)).
    { unfold DeleteVector in Hdel. destruct (id_to_idx_ vs !! id); [|done]. injection Hdel as <-. cbn. unfold auto_defragment, DefragmentLocked.
      by repeat case_match. }
    split_and!; [done|rewrite Hgen; by apply wrap_in_u|]. intros index Hi. destruct (IH index Hi) as (? & [? ?] & ? & ? & Heq & _).
    split_and!; [done..|]. by rewrite Hgen, Heq.
  - destruct IH as (Hok & Hg & IH). destruct (DefragmentLocked_ok vs Hok) as [Hok' _].
    assert (Hgen : generation_ (Defragment vs) = u64 (generation_ vs + 1)).
    { unfold Defragment, DefragmentLocked. cbn. by case_match. }
    split_and!; [by apply bump_ok|rewrite Hgen; by apply wrap_in_u|]. intros index Hi. destruct (IH index Hi) as (? & [? ?] & ? & ? & Heq).
    split_and!; [done..|]. exists 2. split; [lia|]. rewrite Hgen, Heq. unfold u64, wrap. rewrite Zplus_mod_idemp_l. f_equal. lia.
  - destruct IH as (Hok' & Hg & IH). split_and!; [by apply with_contents_ok|cbn; by apply wrap_in_u|].
    intros index Hi. destruct (IH index Hi) as (? & [? ?] & ? & ? & Heq & _). split_and!; [done..|]. exists 1. split; [lia|]. cbn. by rewrite Heq.
  - destruct IH as (Hok & Hg & IH). split_and!; [done..|]. unfold NotifyVectorRemoved.
    destruct (ann_index_ e) as [index0|] eqn:He; [|intros index; by rewrite He]. intros index [= <-]. cbn.
    destruct (IH index0 eq_refl) as (? & [Hi0 ?] & ? & ? & ?).
    destruct (ann_mark_law (u32 (Z.of_nat idx)) index0 Hi0) as [? Hdim]; [by apply wrap_in_u|]. split_and!; try done. by rewrite Hdim.
  - by apply (RebuildAnnFromStore_ok vs e idx).
Qed.

(** Equal generations: in step. *)
Lemma reachable_in_step rng p vs e index :
  reachable rng p vs e → ann_index_ e = Some index → ann_generation_ e = generation_ vs → in_step vs e index.
Proof.
  intros (Hok & Hg & Hp)%reachable_ok Hi Heq. destruct (Hp index Hi) as (_ & _ & _ & Hga & Hph). unfold in_u in *.
  assert (Hne : ∀ k, 1 ≤ k ≤ 2 → ann_generation_ e ≠ u64 (ann_generation_ e + k)).
  { intros k Hk E. unfold u64, wrap in E. rewrite <- (Z.mod_small (ann_generation_ e) (2 ^ 64)) in E at 1 by lia.
    assert (Hz : ((ann_generation_ e + k) - ann_generation_ e) mod 2 ^ 64 = 0) by (rewrite Zminus_mod, <- E, Z.sub_diag; done).
    rewrite Z.add_simpl_l, Z.mod_small in Hz by lia. lia. }
  destruct p as [|idx|idx|idx]; [by destruct Hph|..].
  - destruct Hph as (Hgv & _). rewrite <- Heq in Hgv. by destruct (Hne 1 ltac:(lia)).
  - rewrite <- Heq in Hph. by destruct (Hne 1 ltac:(lia)).
  - destruct Hph as (k & Hk & Hgv). rewrite <- Heq in Hgv. by destruct (Hne k Hk).
Qed.

(** A result of a round: a live row, its label, and the checks it passed. *)
Definition current (self : option string) (f : MetadataFilter) (metadata : option MetadataStore) vs (labels : list (Z * Z)) (index : I)
    (r : SimilarityResult) : Prop :=
  ∃ idx, id_to_idx_ vs !! item_id r = Some idx ∧ (Z.of_nat idx, score r) ∈ labels ∧
    ann_view index !! Z.of_nat idx = Some (GetMatrixRow idx vs) ∧
    self ≠ Some (item_id r) ∧ passes f metadata (item_id r) = true.

Lemma ann_result_current self f metadata vs e index labels p r :
  vs_ok vs → in_step vs e index → p ∈ labels → (∀ q, q ∈ labels → is_Some (ann_view index !! q.1)) →
  ann_result self f metadata vs p = Some r → current self f metadata vs labels index r.
Proof.
  intros Hok (Hrange & Hrows & _) Hp Hview. unfold ann_result. destruct (Hview p Hp) as [v Hv]. apply Hrange in Hv as Hlt.
  destruct (Z.leb_spec (Z.of_nat (GetCompactCount vs)) p.1); [lia|]. cbn [orb].
  destruct (IsDeleted _ vs) eqn:Hd; [done|]. case_bool_decide as Hself; [done|]. case_match eqn:Hf; [done|]. intros [= <-].
  destruct (live_row vs (Z.to_nat p.1) Hok ltac:(lia) Hd) as [Hl _]. exists (Z.to_nat p.1). cbn.
  split_and!; [done| |by apply (Hrows (id_at vs (Z.to_nat p.1)))|done|].
  - rewrite Z2Nat.id by lia. by destruct p.
  - unfold filtering in Hf. unfold passes in *. destruct metadata as [m|]; [|done]. rewrite bool_decide_eq_true_2 in Hf by done.
    by destruct (FilterEmpty f), (Matches _ f m).
Qed.


(** The rounds of the approximate search end. *)
Lemma ann_rounds_total fuel searched maps total index e self query f metadata top_k : ∀ round fetch,
  (∀ vs, 0 ≤ total vs < 2 ^ 31) → 0 < fetch → 2 ^ 31 ≤ fetch * 2 ^ Z.of_nat fuel →
  ∃ o, ann_rounds (S fuel) round searched maps total index e self query f metadata top_k fetch = Some o.
Proof.
  induction fuel as [|fuel IH]; intros round fetch Ht Hf Hfuel; cbn [ann_rounds]; destruct (snapshot_empty _); try by eexists.
  all: destruct (negb (_ =? _)); [by eexists|]; cbv zeta; specialize (Ht (maps round)) as Htr.
  all: destruct (filtering f metadata && _ && _ && _) eqn:E; [|by eexists].
  all: rewrite !andb_true_iff in E; destruct E as [[_ E%Z.ltb_lt] _].
  - cbn in Hfuel. lia.
  - rewrite Nat2Z.inj_succ, Z.pow_succ_r in Hfuel by lia. unfold u32. rewrite wrap_small by (unfold in_u; lia).
    apply IH; [done|lia|nia].
Qed.
End coherence.

(** ** Fusion *)

Lemma NormalizeScores_ids l : item_id <$> NormalizeScores l = item_id <$> l.
Proof.
  unfold NormalizeScores. destruct l as [|r0 [|r1 l]]; [done..|]. cbv zeta.
  case_match; rewrite <- list_fmap_compose; by apply list_fmap_ext.
Qed.

(** The score of an id in a list of results. *)
Definition score_in (l : list SimilarityResult) (id : string) : option Z :=
  (list_to_map ((λ r, (item_id r, score r)) <$> l) : gmap string Z) !! id.

(** What the fusion gives an id: the weighted sum of its scores in the sources
    that have it. *)
Definition fused_score (event_weight vector_weight : Z) (events vectors : list SimilarityResult) (id : string) : option Z :=
  let event_part := (λ s, f32_add f32_zero (f32_mul event_weight s)) <$> score_in events id in
  match score_in vectors id with
  | Some s => Some (f32_add (default f32_zero event_part) (f32_mul vector_weight s))
  | None => event_part
  end.

Lemma score_in_cons r l id : score_in (r :: l) id = if bool_decide (item_id r = id) then Some (score r) else score_in l id.
Proof.
  unfold score_in. rewrite fmap_cons, list_to_map_cons. case_bool_decide as E; [by rewrite E, lookup_insert_eq|].
  by rewrite lookup_insert_ne.
Qed.

Lemma score_in_None l id : id ∉ item_id <$> l → score_in l id = None.
Proof.
  induction l as [|r l IH]; intros Hn; [done|]. rewrite score_in_cons, bool_decide_eq_false_2 by set_solver. apply IH. set_solver.
Qed.

(** Accumulating one source, whose ids are distinct. *)
Lemma fold_add_score weight l id : ∀ m,
  NoDup (item_id <$> l) →
  fold_left (add_score weight) l m !! id =
    match score_in l id with Some s => Some (f32_add (default f32_zero (m !! id)) (f32_mul weight s)) | None => m !! id end.
Proof.
  induction l as [|r l IH]; intros m Hn; [done|]. cbn [fold_left]. cbn in Hn. apply NoDup_cons in Hn as [Hr Hn].
  rewrite IH by done. rewrite score_in_cons. unfold add_score. case_bool_decide as E.
  - subst id. rewrite score_in_None by done. by rewrite lookup_insert_eq.
  - by rewrite lookup_insert_ne.
Qed.

Lemma MergeAndSelectTopK_take l k : MergeAndSelectTopK l k = take k (std_sort result_before l).
Proof.
  unfold MergeAndSelectTopK. destruct (Nat.leb_spec (length l) k); [|done].
  rewrite take_ge; [done|]. by rewrite std_sort_perm.
Qed.

(** The best [k] of sorted results. *)
Lemma select_best k l :
  Forall (λ r, not_nan (score r)) l →
  let r := take k (std_sort result_before l) in
  StronglySorted (comp_le result_before) r ∧ (length r ≤ k)%nat ∧ r ⊆+ l ∧
  (∀ x, x ∈ l → x ∉ r → length r = k ∧ ∀ y, y ∈ r → result_before x y = false).
Proof.
  intros Hnn. cbv zeta. pose proof (std_sort_results l Hnn) as Hs. split_and!.
  - by apply StronglySorted_take.
  - rewrite length_take. lia.
  - rewrite <- (std_sort_perm result_before l) at 2. apply sublist_submseteq, sublist_take.
  - intros x Hx Hn. rewrite <- (std_sort_perm result_before l) in Hx. set (s := std_sort result_before l) in *.
    rewrite <- (take_drop k s) in Hx, Hs. apply elem_of_app in Hx as [?|Hx]; [done|]. split.
    + rewrite length_take. assert (0 < length (drop k s))%nat as Hl by (destruct (drop k s); [set_solver|cbn; lia]).
      rewrite length_drop in Hl. lia.
    + intros y Hy. by apply (StronglySorted_app_1_elem_of (comp_le result_before) (take k s) (drop k s) y x).
Qed.

Section fusion_spec.
Context {order : IterOrder} {impl : DistanceFunctions} {heap : MinHeap} {I : Type} {ann : AnnIndex I}.
Implicit Types e : SimilarityEngine I.

(** C18: the fusion of two rankings.  With contributing weights, the result is
    the best [top_k] of the union of both sources that pass the filter, each id
    once, with the weighted sum of its normalized scores (a source that lacks
    the id contributes nothing), sorted by score and then by id; nothing left
    out would come before anything returned. *)
Theorem fusion_exact f metadata top_k has_events has_vectors alpha beta events vectors ew vw :
  contributing_weights has_events has_vectors alpha beta = Some (ew, vw) →
  NoDup (item_id <$> events) → NoDup (item_id <$> vectors) →
  let fused := fused_score ew vw (NormalizeScores events) (NormalizeScores vectors) in
  (∀ id s, fused id = Some s → not_nan s) →
  let r := fuse_scores f metadata top_k has_events has_vectors alpha beta events vectors in
  StronglySorted (comp_le result_before) r ∧ NoDup (item_id <$> r) ∧ (length r ≤ Z.to_nat top_k)%nat ∧
  (∀ x, x ∈ r → fused (item_id x) = Some (score x) ∧ passes f metadata (item_id x) = true) ∧
  (∀ id s, fused id = Some s → passes f metadata id = true → id ∉ item_id <$> r →
    length r = Z.to_nat top_k ∧ ∀ x, x ∈ r → result_before (MkResult id s) x = false).
Proof.
  intros Hw Hne Hnv fused Hnn. unfold fuse_scores. rewrite Hw. cbv zeta.
  set (m := fold_left _ (NormalizeScores vectors) _).
  assert (Hm : ∀ id, m !! id = fused id).
  { intros id. unfold m, fused, fused_score. rewrite !fold_add_score by (by rewrite NormalizeScores_ids). rewrite lookup_empty.
    destruct (score_in (NormalizeScores vectors) id), (score_in (NormalizeScores events) id); done. }
  set (l := (λ p : string * Z, MkResult p.1 p.2) <$> filter (λ p, passes f metadata p.1 = true) (map_entries m)).
  assert (Hl : ∀ x, x ∈ l ↔ fused (item_id x) = Some (score x) ∧ passes f metadata (item_id x) = true).
  { intros x. unfold l, map_entries. split.
    - intros ([id s] & -> & [Hp Hin]%list_elem_of_filter)%list_elem_of_fmap. rewrite std_sort_perm in Hin.
      apply elem_of_map_to_list in Hin. by rewrite <- Hm.
    - intros [Hf Hp]. apply list_elem_of_fmap. exists (item_id x, score x). split; [by destruct x|].
      apply list_elem_of_filter. split; [done|]. rewrite std_sort_perm. apply elem_of_map_to_list. by rewrite Hm. }
  assert (Hnd : NoDup (item_id <$> l)).
  { unfold l, map_entries. rewrite <- list_fmap_compose. change (item_id ∘ (λ p : string * Z, MkResult p.1 p.2)) with (fst : string * Z → string).
    eapply sublist_NoDup; [|apply fmap_sublist, sublist_filter]. rewrite std_sort_perm. apply NoDup_fst_map_to_list. }
  assert (Hln : Forall (λ r, not_nan (score r)) l).
  { apply Forall_forall. intros x [Hf _]%Hl. by eapply Hnn. }
  rewrite MergeAndSelectTopK_take. destruct (select_best (Z.to_nat top_k) l Hln) as (H1 & H2 & H3 & H4).
  set (r := take (Z.to_nat top_k) (std_sort result_before l)) in *. clearbody r. split_and!; [done| |done| |].
  - destruct (submseteq_Permutation _ _ H3) as [rest Hrest]. rewrite Hrest, fmap_app in Hnd. by apply NoDup_app in Hnd as (? & _).
  - intros x Hx. apply Hl. by eapply elem_of_submseteq.
  - intros id s Hf Hp Hni. apply (H4 (MkResult id s)); [by apply Hl|]. intros Hin. destruct Hni. apply list_elem_of_fmap.
    by exists (MkResult id s).
Qed.

Lemma SearchByIdVectors_total rd metadata item top_k f e :
  Z.of_nat (GetCompactCount (at_first rd)) < 2 ^ 31 → 0 < max_top_k (config_ e) < 2 ^ 31 →
  ∃ r, SearchByIdVectors rd metadata item top_k f e = Some r.
Proof.
  intros Hc Hm. unfold SearchByIdVectors, ValidateTopK. destruct (Z.leb_spec top_k 0); [by eexists|].
  destruct (i32 (max_top_k (config_ e)) <? top_k); [by eexists|]. cbv zeta. destruct (if snapshot_empty _ then None else _) as [qi|]; [|by eexists].
  assert (Hf : 0 < u32 (fetch_count f metadata top_k e + 1)).
  { unfold u32, fetch_count, kOversamplingFactor. rewrite wrap_small; [destruct (filtering f metadata); lia|].
    unfold in_u. destruct (filtering f metadata); lia. }
  assert (∃ o, ann_path rd (λ _, u32 (Z.of_nat (GetCompactCount (at_first rd)))) e (Some item) (GetMatrixRow qi (at_first rd)) f metadata top_k
    (u32 (fetch_count f metadata top_k e + 1)) = Some o) as [o ->].
  { unfold ann_path. destruct (ann_index_ e); [|by eexists]. destruct (IsAnnIndexReady e); [|by eexists].
    apply ann_rounds_total; [|done|change (Z.of_nat 32) with 32; lia]. intros _. unfold u32. rewrite wrap_small by (unfold in_u; lia). lia. }
  cbn [mbind option_bind]. destruct o as [rs|]; [by eexists|]. destruct (if snapshot_empty _ then None else _); by eexists.
Qed.

End fusion_spec.
