(* ===== verification/HnswAdapter.v ===== *)
(** * The HNSW index behind the engine

    [HnswIndex] as an [AnnIndex] (src/vectors/ann_index.h) and the proof that it
    keeps the contract the engine relies on. *)

From S2P Require Import Prelude Floats Distance VectorStore Selection SimilarityEngine EngineTheorems HnswIndex HnswTheorems.
#[local] Open Scope Z_scope.

Section adapter.
Context {impl : DistanceFunctions} {heap : MinHeap} {max_heap : MaxHeap} {random : LevelRandom}.

(** The loops end ([hnsw_refines]), so the defaults are never used.  The last six
    operations are those of the IVF adapter, which the engine only calls for the
    index type "ivf". *)
#[export] Instance HnswAnnIndex : AnnIndex HnswIndex := {|
  ann_add l v h := default h (Add (Z.to_nat l) v h);
  ann_mark_deleted l h := default h (MarkDeleted (Z.to_nat l) h);
  ann_search _ h q k := (λ p, (Z.of_nat p.1, p.2)) <$> default [] (Search q k h);
  ann_rebuild m count dim h := default h (Rebuild m (Z.to_nat count) (Z.to_nat dim) h);
  ann_size := Size;
  ivf_is_trained _ := false;
  ivf_needs_seal _ := false;
  ivf_reset_trained h := h;
  ivf_set_nlist _ h := h;
  ivf_train _ _ _ h := h;
  ivf_seal_buffer h := h
|}.

Lemma good_after h h' :
  hnsw_ok h' → Z.of_nat (length (nodes_ h')) ≤ u32_max → hnsw_config h' = hnsw_config h → in_u 32 (ef_search (hnsw_config h)) → hnsw_good h'.
Proof. intros Hok Hlen Hcfg Hef. split; [done|]. split; [done|]. by rewrite Hcfg. Qed.

#[export] Instance hnsw_contract : AnnContract HnswIndex.
Proof.
  refine {| ann_view := hnsw_view; ann_dim h := Z.of_nat (dimension_ h); ann_ok := hnsw_good; ann_room := hnsw_room |}.
  - intros h _. lia.
  - intros l v h (Hok & Hlen & Hef) Hroom Hl Hv. rewrite Nat2Z.id in *. cbn -[Add].
    destruct (Add_ok (Z.to_nat l) v h Hok Hroom Hv) as (h' & -> & ? & Hview & (Hcfg & Hdim & _) & ?). cbn [default from_option id].
    rewrite Hview, Z2Nat.id by lia. split_and!; [by eapply good_after|by rewrite Hdim|done].
  - intros l h (Hok & Hlen & Hef) Hl. cbn -[MarkDeleted].
    destruct (MarkDeleted_ok (Z.to_nat l) h Hok Hlen) as (h' & -> & ? & _ & (Hcfg & Hdim & _) & ?). cbn [default from_option id].
    split_and!; [by eapply good_after|by rewrite Hdim].
  - intros m count dim h (_ & _ & Hef) Hc Hd Hm. cbn -[Rebuild].
    destruct (Rebuild_ok m (Z.to_nat count) (Z.to_nat dim) h) as (h' & -> & ? & Hdim & Hview & (Hcfg & _) & Hlen); [lia|done|]. cbn [default from_option id].
    rewrite Z2Nat.id in Hview by lia. split_and!; [eapply good_after; [done|rewrite Hlen; lia|exact Hcfg|exact Hef]|rewrite Hdim; lia| |done].
    intros ->. unfold hnsw_room. by rewrite Hlen.
  - intros vs h q k l s (Hok & Hlen & Hef) Hin. cbn -[Search] in Hin.
    destruct (Search_ok q k h Hok Hlen (proj1 Hef)) as (rs & Hrs & _ & _ & Hv & _). rewrite Hrs in Hin.
    apply list_elem_of_fmap in Hin as ([label sc] & [= -> _] & Hin). destruct (Hv label sc Hin) as (v & ? & _). by exists v.
Defined.

(** A fresh index may start an engine. *)
Lemma fresh_hnsw dim metric cfg :
  in_u 32 dim → in_u 32 (ef_search cfg) →
  ann_ok (new_hnsw (Z.to_nat dim) metric cfg) ∧ ann_dim (new_hnsw (Z.to_nat dim) metric cfg) = dim ∧
  ann_view (new_hnsw (Z.to_nat dim) metric cfg) = ∅.
Proof.
  intros Hd Hef. split_and!; [|cbn; destruct Hd; lia|done]. split_and!; [apply new_hnsw_ok|done|apply Hef..].
Qed.
End adapter.
