(* ===== verification/IvfAdapter.v ===== *)
(** * The engine at work

    [vectors::IvfAnnAdapter] (src/vectors/ivf_ann_adapter.h), the engine as the
    dispatcher sees it, and concrete runs of both. *)

From S2P Require Import Prelude StringLib RingBuffer Lru DedupCache StateCache EventStore Floats CoOccurrence Wal Metadata FilterParser.
From S2P Require Import Command WalCodec Distance VectorStore SimilarityResult ResultCompressor Md5 CacheKeys SimilarityCache QueryResults.
From S2P Require Import Dispatcher.
From S2P Require Import Selection HnswIndex HnswTheorems SimilarityEngine EngineTheorems HnswAdapter IvfIndex.
#[local] Open Scope Z_scope.

(** ** The IVF adapter *)

Section adapter.
Context {impl : DistanceFunctions} {order : IterOrder} {heap : MinHeap} (rnd : TrainRandom).

Definition adapter_search (vs : VectorStore) (x : IvfIndex) (query : list Z) (top_k : Z) : list (Z * Z) :=
  let count := if bool_decide (matrix_ vs = []) then 0%nat else GetCompactCount vs in
  if (count =? 0)%nat then []
  else
    let query_norm := l2_norm (take (GetDimension vs) query) in
    (λ p, (u32 (Z.of_nat p.2), p.1)) <$>
      Search query query_norm (matrix_ vs) (norms_ vs) count (GetDimension vs) (Z.to_nat top_k) x.

Definition adapter_rebuild (matrix : list Z) (count dimension : Z) (x : IvfIndex) : IvfIndex :=
  let x := ResetTrained x in
  if (count =? 0) || bool_decide (matrix = []) then x
  else Train rnd (Some matrix) (seq 0 (Z.to_nat count)) (Z.to_nat dimension) true x.

Definition IvfAnnAdapter : AnnIndex IvfIndex := {|
  ann_add l v x := AppendToBuffer (Z.to_nat l) (Some v) x;
  ann_mark_deleted l x := RemoveVector (Z.to_nat l) x;
  ann_search := adapter_search;
  ann_rebuild := adapter_rebuild;
  ann_size x := u32 (Z.of_nat (GetIndexedCount x + GetBufferSize x));
  ivf_is_trained := trained_;
  ivf_needs_seal := NeedsSeal;
  ivf_reset_trained := ResetTrained;
  ivf_set_nlist := SetNlist;
  ivf_train sample count dim x := Train rnd (Some sample) (seq 0 (Z.to_nat count)) (Z.to_nat dim) false x;
  ivf_seal_buffer := SealBuffer
|}.
End adapter.

(** ** The engine of the dispatcher *)

Section dispatcher.
Context {order : IterOrder} {impl : DistanceFunctions} {heap : MinHeap} {I : Type} {ann : AnnIndex I}
  (scan_rng train_rng : nat → Z).

(** The rounds of a search end (theorem [search_by_fusion_spec]). *)
Definition returned {A} (r : option (Expected A)) : Expected A := default (throw kInternalError "") r.

Definition with_vector_store {A} (s : Stores) (k : VectorStore → Expected A) : Expected A :=
  match vector_store s with Some vs => k vs | None => throw kInternalError "" end.

#[export] Instance dispatcher_engine : Engine (SimilarityEngine I) := {|
  Dispatcher.NotifyVectorAdded idx vs e := NotifyVectorAdded train_rng idx vs e;
  Dispatcher.NotifyVectorRemoved := NotifyVectorRemoved;
  Dispatcher.RebuildAnnFromStore := RebuildAnnFromStore;
  Dispatcher.SearchByIdEvents s e item top_k f :=
    match co_index s with
    | Some co => returned (SearchByIdEvents co (metadata_store s) item top_k f e)
    | None => throw kInternalError ""
    end;
  Dispatcher.SearchByIdVectors s e item top_k f :=
    with_vector_store s (λ vs, returned (SearchByIdVectors (quiet_reads vs scan_rng) (metadata_store s) item top_k f e));
  Dispatcher.SearchByIdFusion s e item top_k adaptive f :=
    match co_index s with
    | Some co => with_vector_store s (λ vs,
        returned (SearchByIdFusion (quiet_reads vs scan_rng) co (metadata_store s) item top_k adaptive f e))
    | None => throw kInternalError ""
    end;
  Dispatcher.SearchByVector s e query top_k f :=
    with_vector_store s (λ vs, returned (SearchByVector (quiet_reads vs scan_rng) (metadata_store s) query top_k f e))
|}.
End dispatcher.

(** ** Concrete runs *)

Module Examples.
#[local] Existing Instance tree_order.
#[local] Existing Instance Distance.Scalar.
#[local] Existing Instance first_heap.
#[local] Existing Instance HnswTheorems.Examples.last_heap.
#[local] Existing Instance HnswTheorems.Examples.two_levels.

Definition no_random : TrainRandom := MkTrainRandom (λ _, 0) (λ l, l) (λ _ _, 0).
Definition one : Z := f32_one.
Definition two : Z := f32_of_Z 2.

Definition config (type : string) : SimilarityConfig :=
  MkSimConfig 100 (f64_of_Z 1) (f64_of_Z 1) 0 false f64_one f64_one 50 type false 256 10000.
Definition ivf_index (dim : nat) : IvfIndex := new_ivf dim (MkIvfConfig 256 8 10 (f32_of_Z 0) 100000 IvfIndex.kCosine).

Definition hnsw_index (dim : nat) : HnswIndex := new_hnsw dim "cosine" (MkHnswConfig 16 200 50 (f32_of_Z 1) 64).

Section run.
Context {I : Type} {ann : AnnIndex I}.

Definition vecset (id : string) (vec : list Z) (s : VectorStore * SimilarityEngine I) : VectorStore * SimilarityEngine I :=
  let vs := (SetVector id vec false s.1).2 in
  (vs, match GetCompactIndex id vs with Some idx => NotifyVectorAdded (λ _, 0) idx vs s.2 | None => s.2 end).
Definition vecdel (id : string) (s : VectorStore * SimilarityEngine I) : VectorStore * SimilarityEngine I :=
  match GetCompactIndex id s.1 with
  | None => s
  | Some idx => let vs := Defragment (DeleteVector id s.1).2 in (vs, RebuildAnnFromStore vs (NotifyVectorRemoved idx s.2))
  end.
Definition simv (query : list Z) (k : Z) (s : VectorStore * SimilarityEngine I) : option (Expected (list SimilarityResult)) :=
  SearchByVector (quiet_reads s.1 (λ _, 0)) None query k [] s.2.
End run.

Definition three {I : Type} {ann : AnnIndex I} (type : string) (dim : Z) (index : I) : VectorStore * SimilarityEngine I :=
  vecset "c" [one; one] (vecset "b" [f32_zero; one] (vecset "a" [one; f32_zero]
    (VectorStore.new, new_engine (config type) "cosine" dim (λ _, Some index)))).

Definition ivf_three := three (ann := IvfAnnAdapter no_random) "ivf" 2 (ivf_index 2).
Definition ivf_two := vecdel (ann := IvfAnnAdapter no_random) "a" ivf_three.

(** A VECDEL renumbers the rows and rebuilds the index, but the rebuild keeps the
    write buffer with its old labels: the nearest vector to [b] is then "c". *)
Example stale_buffer_after_vecdel :
  simv (ann := IvfAnnAdapter no_random) [f32_zero; one] 1 ivf_three = Some (Ok [MkResult "b" one]) ∧
  simv (ann := IvfAnnAdapter no_random) [f32_zero; one] 1 ivf_two = Some (Ok [MkResult "c" one]) ∧
  (buffer_indices_ <$> ann_index_ ivf_two.2) = Some [2; 1]%nat ∧ idx_to_id_ ivf_two.1 = ["b"; "c"].
Proof. vm_compute. done. Qed.

(** The rebuild also trains the index, far below its threshold. *)
Example vecdel_trains_early :
  (trained_ <$> ann_index_ ivf_three.2) = Some false ∧ (trained_ <$> ann_index_ ivf_two.2) = Some true.
Proof. vm_compute. done. Qed.

(** An index configured for four dimensions and a first vector of two: the index
    keeps its dimension, and the buffer lacks the two floats read past the end
    of the matrix. *)
Definition short_vector := vecset (ann := IvfAnnAdapter no_random) "a" [one; two]
  (VectorStore.new, new_engine (config "ivf") "cosine" 4 (λ _, Some (ivf_index 4))).
Example append_reads_past_the_vector :
  (ivf_dimension <$> ann_index_ short_vector.2) = Some 4%nat ∧ matrix_ short_vector.1 = [one; two] ∧
  (buffer_vectors_ <$> ann_index_ short_vector.2) = Some [one; two].
Proof. vm_compute. done. Qed.

(** The same session with the graph index, which keeps the contract. *)
Example hnsw_after_vecdel :
  simv (ann := HnswAnnIndex) [f32_zero; one] 1 (vecdel (ann := HnswAnnIndex) "a" (three (ann := HnswAnnIndex) "hnsw" 2 (hnsw_index 2))) =
    Some (Ok [MkResult "b" one]).
Proof. vm_compute. done. Qed.

(** ** Witnesses *)

Definition flat_engine : SimilarityEngine HnswIndex := new_engine (config "flat") "cosine" 2 (λ _, None).
Definition no_rng (_ : nat) : Z := 0.

Definition store_of (l : list (string * list Z)) : VectorStore :=
  fold_left (λ s p, (StoreVector p.1 p.2 false s).2) l VectorStore.new.
Definition three_vectors : VectorStore := store_of [("a", [one; f32_zero]); ("b", [f32_zero; one]); ("c", [one; one])].

Lemma store_of_ok l : Forall (λ p, length p.2 = 2%nat) l → vs_ok (store_of l) ∧ (VectorStore.dimension_ (store_of l) = 0 ∨ VectorStore.dimension_ (store_of l) = 2)%nat.
Proof.
  unfold store_of. assert (H0 : vs_ok VectorStore.new ∧ (VectorStore.dimension_ VectorStore.new = 0 ∨ VectorStore.dimension_ VectorStore.new = 2)%nat)
    by (split; [exact (clear_rows_ok VectorStore.new)|by left]).
  revert H0. generalize VectorStore.new as vs. induction l as [|[id v] l IH]; intros vs [Hok Hd] Hl; [done|]. cbn [fold_left].
  apply Forall_cons in Hl as [Hv Hl]. cbn in Hv. apply IH; [|done].
  assert (Hst : (StoreVector id v false vs).1 = Ok tt).
  { unfold StoreVector. destruct Hd as [->| ->]; [by rewrite Nat.eqb_refl|]. by rewrite Hv. }
  destruct (StoreVector id v false vs) as [r vs'] eqn:E. cbn in Hst. subst r.
  destruct (StoreVector_ok vs vs' id v false Hok) as (Hok' & _ & Hd'); [by destruct v|done|].
  cbn [fst snd]. rewrite E. cbn [snd]. split; [done|]. right. congruence.
Qed.

Lemma three_vectors_ok : vs_ok three_vectors.
Proof. apply store_of_ok. repeat constructor. Qed.

Lemma three_not_nan (sim : list Z → Z) :
  bool_decide (map_Forall (λ _ w, not_nan (sim (v_data w))) (vs_abs three_vectors)) = true →
  ∀ id w, vs_abs three_vectors !! id = Some w → not_nan (sim (v_data w)).
Proof. intros H%bool_decide_eq_true id w. apply H. Qed.

Lemma search_by_events_spec_witness :
  SearchByIdEvents CoOccurrence.three_neighbors None "a" 2 [] flat_engine =
    Some (Ok [MkResult "c" (f32_of_Z 5); MkResult "b" two]).
Proof.
  rewrite (search_by_events_spec CoOccurrence.three_neighbors None "a" 2 [] flat_engine); vm_compute; try done.
Defined.

Lemma vector_search_exact_witness :
  SearchByIdVectors (quiet_reads three_vectors no_rng) None "b" 1 [] flat_engine = Some (Ok [MkResult "c" 0x3F3504F3]) ∧
  ∃ r, SearchByVector (quiet_reads three_vectors no_rng) None [two; one] 2 [] flat_engine = Some (Ok r) ∧
    exact_top_k (similarity flat_engine [two; one] (l2_norm [two; one])) (vs_abs three_vectors) (passes [] None) 2 r.
Proof.
  split; [vm_compute; reflexivity|].
  destruct (vector_search_exact (quiet_reads three_vectors no_rng) None 2 [] flat_engine) as [_ Hv];
    [reflexivity|exact three_vectors_ok|reflexivity|vm_compute; split; [reflexivity|discriminate]|].
  apply Hv.
  - repeat split; try discriminate; try reflexivity. by right.
  - apply (three_not_nan (similarity flat_engine [two; one] (l2_norm [two; one]))). vm_compute. reflexivity.
Defined.

(** One vector stored and published. *)
Definition published_store : VectorStore := store_of [("a", [one; two])].
Definition published_engine : SimilarityEngine HnswIndex :=
  NotifyVectorAdded no_rng 0 published_store (new_engine (config "hnsw") "cosine" 2 (λ _, Some (hnsw_index 2))).
Definition published_index : HnswIndex := default (hnsw_index 2) (ann_index_ published_engine).

Lemma published_reachable : reachable no_rng Idle published_store published_engine.
Proof.
  apply reach_notify.
  - apply (reach_store no_rng VectorStore.new _ "a" [one; two] false); [|done|reflexivity|reflexivity|].
    + apply reach_start; [reflexivity|split; [discriminate|reflexivity]|]. intros type index [= <-].
      apply (fresh_hnsw 2 "cosine"); (split; [discriminate|reflexivity]).
    + split; vm_compute; [|reflexivity]. repeat constructor.
  - intros index [= <-]. vm_compute. reflexivity.
Qed.


Definition liked : list SimilarityResult := [MkResult "c" (f32_of_Z 5); MkResult "b" two].
Definition near : list SimilarityResult := [MkResult "c" one; MkResult "d" f32_zero].

Lemma fused_checked ids ew vw events vectors id s :
  forallb (λ id, negb (is_nan32 (default f32_zero (fused_score ew vw events vectors id)))) ids = true → id ∈ ids →
  fused_score ew vw events vectors id = Some s → not_nan s.
Proof.
  intros Hall Hid Hf. rewrite forallb_forall in Hall. specialize (Hall id (proj1 (list_elem_of_In _ _) Hid)).
  rewrite Hf in Hall. by apply negb_true_iff in Hall.
Qed.

Lemma fusion_exact_witness :
  let r := fuse_scores [] None 2 true true one one liked near in
  r = [MkResult "c" one; MkResult "b" f32_zero] ∧ StronglySorted (comp_le result_before) r ∧ NoDup (item_id <$> r).
Proof.
  split; [vm_compute; reflexivity|].
  destruct (fusion_exact [] None 2 true true one one liked near 0x3F000000 0x3F000000) as (Hs & Hn & _); [| | | |by split].
  - vm_compute. reflexivity.
  - apply (bool_decide_unpack _). vm_compute. constructor.
  - apply (bool_decide_unpack _). vm_compute. constructor.
  - intros id s. destruct (decide (id ∈ ["b"; "c"; "d"])) as [Hid|Hid].
    + apply (fused_checked ["b"; "c"; "d"]); [vm_compute; reflexivity|done].
    + unfold fused_score. rewrite !score_in_None; [done|rewrite NormalizeScores_ids; cbn; set_solver..].
Defined.


Definition plane : list Z := [one; f32_zero; f32_zero; one; one; one].
Definition probe_all_ivf : IvfIndex := new_ivf 2 (MkIvfConfig 2 2 10 (f32_of_Z 0) 100000 IvfIndex.kCosine).

Lemma ivf_exhaustive_exact_witness :
  let x' := Train no_random (Some plane) [0; 1; 2]%nat 2 true probe_all_ivf in
  let r := Search [two; one] (l2_norm [two; one]) plane [one; one; l2_norm [one; one]] 3 2 2 x' in
  trained_ x' = true ∧ r.*2 = [2; 0]%nat ∧ StronglySorted (comp_le by_score) r.
Proof.
  split_and!; [vm_compute; reflexivity..|].
  apply (ivf_exhaustive_exact no_random plane [one; one; l2_norm [one; one]] [0; 1; 2]%nat 2 probe_all_ivf [two; one] (l2_norm [two; one]) 3 2).
  - split; [vm_compute; discriminate|intros [=]].
  - reflexivity.
  - reflexivity.
  - discriminate.
  - apply (bool_decide_unpack _). vm_compute. constructor.
  - intros i Hi. repeat (apply elem_of_cons in Hi as [->|Hi]; [vm_compute; split; [lia|reflexivity]|]). by apply elem_of_nil in Hi.
  - vm_compute. discriminate.
  - lia.
Defined.

Definition buffered : IvfIndex :=
  AppendToBuffer 3 (Some [two; one]) (Train no_random (Some plane) [0; 1; 2]%nat 2 true probe_all_ivf).

Lemma sealing_keeps_entries_witness :
  buffer_indices_ buffered = [3]%nat ∧ buffer_indices_ (SealBuffer buffered) = [] ∧ entries (SealBuffer buffered) = entries buffered.
Proof.
  destruct (sealing_keeps_entries buffered) as (He & _ & Hb & _).
  - split; [vm_compute; discriminate|]. intros _. vm_compute. split; reflexivity.
  - split_and!; [vm_compute; reflexivity| |exact He]. apply Hb; vm_compute; reflexivity.
Defined.
End Examples.
