(* ===== verification/ThreadPool.v ===== *)
(** * [server::ThreadPool] (src/server/thread_pool.h, thread_pool.cpp)

    A bounded queue of tasks, the workers that empty it, and the shutdown.
    Every critical section under [queue_mutex] is one step, and the end of a
    task, which is outside the lock, another; the theorems quantify over every
    interleaving.  The condition variables wait on predicates, so a worker that
    waits is one whose step is not enabled. *)

From S2P Require Import Prelude.
#[local] Open Scope nat_scope.

Section pool.
Context {Job : Type}.

(** [std::function<void()>], which may be empty. *)
Definition Task : Type := option Job.

Inductive Worker : Type := Waiting | Executing (job : Job) | Returned.

Record ThreadPool : Type := MkPool {
  tasks : list Task;
  shutdown : bool;
  active_workers : nat;
  max_queue_size : nat;
  workers_ : list Worker
}.

(** [ThreadPool(num_threads, queue_size)] on a machine that reports [hardware]
    threads. *)
Definition thread_count (hardware num_threads : nat) : nat :=
  if num_threads =? 0 then (if hardware =? 0 then 4 else hardware) else num_threads.
Definition new_pool (hardware num_threads queue_size : nat) : ThreadPool :=
  MkPool [] false 0 queue_size (replicate (thread_count hardware num_threads) Waiting).

Definition with_tasks (ts : list Task) (s : ThreadPool) : ThreadPool :=
  MkPool ts (shutdown s) (active_workers s) (max_queue_size s) (workers_ s).
Definition with_worker (i : nat) (w : Worker) (active : nat) (s : ThreadPool) : ThreadPool :=
  MkPool (tasks s) (shutdown s) active (max_queue_size s) (<[i := w]> (workers_ s)).

Definition Submit (task : Task) (s : ThreadPool) : bool * ThreadPool :=
  if shutdown s then (false, s)
  else if (0 <? max_queue_size s) && (max_queue_size s <=? length (tasks s)) then (false, s)
  else (true, with_tasks (tasks s ++ [task]) s).

Definition GetQueueSize (s : ThreadPool) : nat := length (tasks s).
Definition IsShutdown (s : ThreadPool) : bool := shutdown s.
Definition GetThreadCount (s : ThreadPool) : nat := length (workers_ s).

(** The critical section of [WorkerThread]: [None] while the condition
    variable keeps the worker waiting. *)
Definition TakeTask (i : nat) (s : ThreadPool) : option ThreadPool :=
  match tasks s with
  | [] => if shutdown s then Some (with_worker i Returned (active_workers s) s) else None
  | task :: rest =>
      let w := match task with Some job => Executing job | None => Waiting end in
      Some (with_worker i w (S (active_workers s)) (with_tasks rest s))
  end.

(** The end of the task, whether it returned or threw. *)
Definition FinishTask (i : nat) (s : ThreadPool) : ThreadPool := with_worker i Waiting (active_workers s - 1) s.

(** [Shutdown] up to the wait: whether this call is the first one decides what
    happens to the queue. *)
Definition BeginShutdown (graceful : bool) (s : ThreadPool) : ThreadPool :=
  MkPool (if negb (shutdown s) && negb graceful then [] else tasks s) true (active_workers s) (max_queue_size s) (workers_ s).

(** What the bounded wait of [Shutdown] waits for. *)
Definition Completed (s : ThreadPool) : bool := (GetQueueSize s =? 0) && (active_workers s =? 0).

(** The wait timed out: the queue is dropped, the workers are detached. *)
Definition TimedOut (s : ThreadPool) : ThreadPool := with_tasks [] s.

(** ** Interleavings *)

Inductive Label : Type :=
| LSubmit (task : Task)
| LTake (i : nat)
| LFinish (i : nat)
| LShutdown (graceful : bool)
| LTimeout.

Inductive step (s : ThreadPool) : Label → ThreadPool → Prop :=
| step_submit task : step s (LSubmit task) (Submit task s).2
| step_take i s' : workers_ s !! i = Some Waiting → TakeTask i s = Some s' → step s (LTake i) s'
| step_finish i job : workers_ s !! i = Some (Executing job) → step s (LFinish i) (FinishTask i s)
| step_shutdown graceful : step s (LShutdown graceful) (BeginShutdown graceful s)
| step_timeout : shutdown s = true → Completed s = false → step s LTimeout (TimedOut s).

(** What an interleaving has done: tasks accepted, taken by a worker, finished,
    and dropped, in order. *)
Record History : Type := MkHistory {
  accepted : list Task;
  taken : list Task;
  finished : list Job;
  dropped : list Task
}.
Definition record (s : ThreadPool) (l : Label) (h : History) : History :=
  match l with
  | LSubmit task => if (Submit task s).1 then MkHistory (accepted h ++ [task]) (taken h) (finished h) (dropped h) else h
  | LTake _ => MkHistory (accepted h) (taken h ++ take 1 (tasks s)) (finished h) (dropped h)
  | LFinish i =>
      match workers_ s !! i with
      | Some (Executing job) => MkHistory (accepted h) (taken h) (finished h ++ [job]) (dropped h)
      | _ => h
      end
  | LShutdown graceful => MkHistory (accepted h) (taken h) (finished h) (dropped h ++ (if shutdown s || graceful then [] else tasks s))
  | LTimeout => MkHistory (accepted h) (taken h) (finished h) (dropped h ++ tasks s)
  end.

Definition no_history : History := MkHistory [] [] [] [].

Inductive run (s0 : ThreadPool) (h0 : History) : list Label → ThreadPool → History → Prop :=
| run_nil : run s0 h0 [] s0 h0
| run_step ls l s s' h : run s0 h0 ls s h → step s l s' → run s0 h0 (ls ++ [l]) s' (record s l h).

(** The steps of the workers, as opposed to those of the callers. *)
Definition of_worker (l : Label) : Prop := match l with LTake _ | LFinish _ => True | _ => False end.
End pool.
Arguments ThreadPool : clear implicits.
Arguments Worker : clear implicits.
Arguments Task : clear implicits.
Arguments Label : clear implicits.
Arguments History : clear implicits.

(** ** Every task is run once *)

Section facts.
Context {Job : Type}.
Implicit Types (s : ThreadPool Job) (h : History Job).

Definition executing (ws : list (Worker Job)) : list Job :=
  omap (λ w, match w with Executing job => Some job | _ => None end) ws.

Definition is_empty (t : Task Job) : bool := match t with Some _ => false | None => true end.

(** The queue, the counters and the history agree. *)
Record pool_ok s h : Prop := {
  po_fifo : accepted h = taken h ++ dropped h ++ tasks s;
  po_dropped : dropped h ≠ [] → tasks s = [] ∧ shutdown s = true;
  po_finished : finished h ++ executing (workers_ s) ≡ₚ omap id (taken h);
  po_active : active_workers s = length (executing (workers_ s)) + length (base.filter is_empty (taken h));
  po_bound : max_queue_size s ≠ 0 → length (tasks s) ≤ max_queue_size s;
  po_returned : Returned ∈ workers_ s → shutdown s = true ∧ tasks s = []
}.

Definition jobs (w : Worker Job) : list Job := match w with Executing job => [job] | _ => [] end.

Lemma executing_app ws ws' : executing (ws ++ ws') = executing ws ++ executing ws'.
Proof. apply omap_app. Qed.

Lemma executing_cons w ws : executing (w :: ws) = jobs w ++ executing ws.
Proof. by destruct w. Qed.

(** A worker changes its state. *)
Lemma executing_insert ws i w w' :
  ws !! i = Some w → ∃ l, executing (<[i := w']> ws) ≡ₚ jobs w' ++ l ∧ executing ws ≡ₚ jobs w ++ l.
Proof.
  intros Hi. pose proof (lookup_lt_Some _ _ _ Hi). exists (executing (take i ws) ++ executing (drop (S i) ws)). split.
  - rewrite insert_take_drop by done. rewrite executing_app, executing_cons. solve_Permutation.
  - rewrite <- (take_drop_middle ws i w Hi) at 1. rewrite executing_app, executing_cons. solve_Permutation.
Qed.

Lemma elem_of_insert_worker (ws : list (Worker Job)) i (w x : Worker Job) : x ∈ <[i := w]> ws → x = w ∨ x ∈ ws.
Proof.
  intros [j Hj]%list_elem_of_lookup. apply list_lookup_insert_Some in Hj as [(_ & -> & _)|[_ Hj]]; [by left|right].
  by eapply list_elem_of_lookup_2.
Qed.

Lemma pool_ok_new hw n q : pool_ok (new_pool hw n q) no_history.
Proof.
  assert (He : executing (replicate (thread_count hw n) (@Waiting Job)) = []) by (induction (thread_count hw n); done).
  split; cbn [no_history new_pool accepted taken dropped finished tasks workers_ active_workers max_queue_size]; rewrite ?He; try done; [cbn; lia|].
  intros Hr. by apply elem_of_replicate in Hr as [? _].
Qed.

Lemma pool_ok_submit s h task : pool_ok s h → pool_ok (Submit task s).2 (record s (LSubmit task) h).
Proof.
  intros Hok. unfold record, Submit. destruct (shutdown s) eqn:Hsd; [done|].
  destruct ((0 <? max_queue_size s) && (max_queue_size s <=? length (tasks s))) eqn:Hfull; [done|]. cbn [fst snd].
  destruct Hok as [H1 H2 H3 H4 H5 H6]. split; cbn [with_tasks accepted taken dropped finished tasks workers_ active_workers max_queue_size shutdown]; try done.
  - rewrite H1. by rewrite <- !(assoc_L (++)).
  - intros [_ ?]%H2. congruence.
  - intros Hm. rewrite length_app. cbn. apply andb_false_iff in Hfull as [Hf%Nat.ltb_ge|Hf%Nat.leb_gt]; lia.
  - intros [? _]%H6. congruence.
Qed.

Lemma pool_ok_take s h i s' : pool_ok s h → workers_ s !! i = Some Waiting → TakeTask i s = Some s' → pool_ok s' (record s (LTake i) h).
Proof.
  intros [H1 H2 H3 H4 H5 H6] Hi. unfold TakeTask, record. destruct (tasks s) as [|task rest] eqn:Ht.
  - destruct (shutdown s) eqn:Hsd; [|done]. intros [= <-]. destruct (executing_insert _ _ _ Returned Hi) as (l & Hl & Hl'). cbn [jobs app] in *.
    split; cbn [with_worker accepted taken dropped finished tasks workers_ active_workers max_queue_size shutdown take]; rewrite ?app_nil_r, ?Ht; try done.
    + rewrite Hl, <- Hl'. exact H3.
    + by rewrite H4, Hl, <- Hl'.
  - intros [= <-]. set (w := match task with Some job => Executing job | None => Waiting end).
    destruct (executing_insert _ _ _ w Hi) as (l & Hl & Hl'). cbn [jobs app] in Hl'.
    assert (Hd : dropped h = []) by (destruct (dropped h); [done|]; by destruct H2).
    split; cbn [with_worker with_tasks accepted taken dropped finished tasks workers_ active_workers max_queue_size shutdown take].
    + rewrite H1, Hd. cbn [app]. by rewrite <- (assoc_L (++)).
    + by rewrite Hd.
    + rewrite Hl, omap_app, <- H3, Hl'. unfold w. destruct task; cbn; solve_Permutation.
    + rewrite filter_app, filter_cons, take_0, filter_nil, length_app, Hl, length_app, H4, Hl'. unfold w.
      destruct task; [rewrite decide_False by auto|rewrite decide_True by done]; cbn; lia.
    + intros Hm. specialize (H5 Hm). cbn in H5. lia.
    + intros [Hw|Hr]%elem_of_insert_worker; [unfold w in Hw; by destruct task|]. by destruct (H6 Hr).
Qed.

Lemma pool_ok_finish s h i job : pool_ok s h → workers_ s !! i = Some (Executing job) → pool_ok (FinishTask i s) (record s (LFinish i) h).
Proof.
  intros [H1 H2 H3 H4 H5 H6] Hi. unfold record. rewrite Hi. destruct (executing_insert _ _ _ Waiting Hi) as (l & Hl & Hl'). cbn [jobs app] in *.
  split; cbn [FinishTask with_worker accepted taken dropped finished tasks workers_ active_workers max_queue_size shutdown]; try done.
  - rewrite Hl, <- H3, Hl'. solve_Permutation.
  - rewrite H4, Hl, Hl'. cbn. lia.
  - intros [?|Hr]%elem_of_insert_worker; [done|auto].
Qed.

Lemma pool_ok_step s h l s' : pool_ok s h → step s l s' → pool_ok s' (record s l h).
Proof.
  intros Hok Hstep. destruct Hstep as [task|i s' Hi Ht|i job Hi|graceful|Hsd Hc].
  - by apply pool_ok_submit.
  - by apply pool_ok_take.
  - by eapply pool_ok_finish.
  - destruct Hok as [H1 H2 H3 H4 H5 H6]. unfold BeginShutdown, record.
    destruct (shutdown s) eqn:Hsd; destruct graceful; cbn [negb andb orb];
      split; cbn [accepted taken dropped finished tasks workers_ active_workers max_queue_size shutdown]; rewrite ?app_nil_r; try done.
    all: try (intros Hd; by destruct (H2 Hd)).
    all: try (intros Hr; by destruct (H6 Hr)).
    intros _. cbn. lia.
  - destruct Hok as [H1 H2 H3 H4 H5 H6].
    split; cbn [TimedOut with_tasks record accepted taken dropped finished tasks workers_ active_workers max_queue_size shutdown]; rewrite ?app_nil_r; try done.
    cbn. lia.
Qed.

Lemma run_ok s0 h0 ls s h : pool_ok s0 h0 → run s0 h0 ls s h → pool_ok s h.
Proof. intros H0. induction 1 as [|ls l s s' h _ IH Hstep]; [done|by eapply pool_ok_step]. Qed.

(** C30: in every interleaving of submissions, workers and shutdowns, no task is
    lost, run twice or overtaken: the tasks accepted are, in order, those that a
    worker has taken, then those dropped by a shutdown, then the queue; the
    tasks taken are those finished and those a worker is executing; nothing is
    accepted or queued once a shutdown has dropped tasks; the queue stays within
    its limit; and [active_workers] counts the executing workers, and the empty
    functions that were taken. *)
Theorem thread_pool_exactly_once hw n q ls s h :
  run (new_pool hw n q) no_history ls s h →
  accepted h = taken h ++ dropped h ++ tasks s ∧
  finished h ++ executing (workers_ s) ≡ₚ omap id (taken h) ∧
  (dropped h ≠ [] → tasks s = [] ∧ shutdown s = true) ∧
  (q ≠ 0 → length (tasks s) ≤ q) ∧
  active_workers s = length (executing (workers_ s)) + length (base.filter is_empty (taken h)).
Proof.
  intros Hrun. assert (Hq : max_queue_size s = q).
  { induction Hrun as [|ls l s s' h _ IH Hstep]; [done|]. rewrite <- IH. destruct Hstep as [task|i s' _ Ht|i job _|graceful|]; try done.
    - unfold Submit. by repeat case_match.
    - unfold TakeTask in Ht. destruct (tasks s); [destruct (shutdown s); [|done]|]; by injection Ht as <-. }
  apply run_ok in Hrun as [H1 H2 H3 H4 H5 _]; [|apply pool_ok_new]. rewrite <- Hq. done.
Qed.

(** ** The workers empty the queue *)

Definition alive (w : Worker Job) : nat := match w with Returned => 0 | Waiting => 1 | Executing _ => 3 end.

(** What the workers have left to do. *)
Definition work s : nat := 3 * length (tasks s) + sum_list_with alive (workers_ s).

Lemma sum_alive_insert ws i w w' :
  ws !! i = Some w → sum_list_with alive (<[i := w']> ws) + alive w = sum_list_with alive ws + alive w'.
Proof.
  intros Hi. pose proof (lookup_lt_Some _ _ _ Hi). rewrite insert_take_drop by done.
  rewrite <- (take_drop_middle ws i w Hi) at 3. rewrite !sum_list_with_app. cbn. lia.
Qed.

Lemma work_decreases s l s' : of_worker l → step s l s' → work s' < work s ∧ (shutdown s = true → shutdown s' = true).
Proof.
  intros Hl Hstep. destruct Hstep as [task|i s' Hi Ht|i job Hi|graceful|]; try done; unfold work.
  - unfold TakeTask in Ht. destruct (tasks s) as [|task rest] eqn:Hts.
    + destruct (shutdown s) eqn:Hsd; [|done]. injection Ht as <-. cbn [with_worker workers_ tasks shutdown].
      pose proof (sum_alive_insert _ _ _ Returned Hi) as Hsum. rewrite Hts. cbn in *. split; [lia|done].
    + injection Ht as <-. cbn [with_worker with_tasks workers_ tasks shutdown].
      pose proof (sum_alive_insert _ _ _ (match task with Some job => Executing job | None => Waiting end) Hi) as Hsum.
      cbn [length]. destruct task; cbn in *; (split; [lia|done]).
  - cbn [FinishTask with_worker workers_ tasks shutdown]. pose proof (sum_alive_insert _ _ _ Waiting Hi) as Hsum. cbn in *. split; [lia|done].
Qed.

Lemma worker_runs_end s h ls s' h' :
  run s h ls s' h' → Forall of_worker ls → length ls + work s' ≤ work s ∧ (shutdown s = true → shutdown s' = true) ∧ dropped h' = dropped h ∧ accepted h' = accepted h.
Proof.
  induction 1 as [|ls l s' s'' h' _ IH Hstep]; intros HF; [done|].
  apply Forall_app in HF as [HF Hl]. apply (proj1 (Forall_singleton _ _)) in Hl. destruct (IH HF) as (H1 & H2 & H3 & H4).
  destruct (work_decreases _ _ _ Hl Hstep) as [H5 H6]. rewrite length_app. cbn [length].
  destruct l; try done; cbn [record]; [|case_match; [case_match|]]; cbn [dropped accepted]; (split_and!; [lia|auto|done|done]).
Qed.

Lemma step_workers s l s' : step s l s' → length (workers_ s') = length (workers_ s).
Proof.
  destruct 1 as [task|i s' _ Ht|i job _|graceful|]; try done.
  - unfold Submit. by repeat case_match.
  - unfold TakeTask in Ht. destruct (tasks s); [destruct (shutdown s); [|done]|]; injection Ht as <-; apply length_insert.
  - apply length_insert.
Qed.

Lemma run_workers s h ls s' h' : run s h ls s' h' → length (workers_ s') = length (workers_ s).
Proof. induction 1 as [|ls l s' s'' h' _ IH Hstep]; [done|]. by rewrite (step_workers _ _ _ Hstep). Qed.

Lemma thread_count_pos hw n q : length (workers_ (new_pool (Job := Job) hw n q)) ≠ 0.
Proof. cbn. rewrite length_replicate. unfold thread_count. destruct (Nat.eqb_spec n 0); [destruct (Nat.eqb_spec hw 0)|]; lia. Qed.

(** C31: once the pool is shut down its workers finish: however they are
    interleaved, they take at most [work s] steps, and when none of them can
    take another one all have returned and the queue is empty; so if no shutdown
    dropped tasks, every task that was ever accepted has been run, exactly once.
    And while the pool runs, a waiting worker and a task are enough for a step. *)
Theorem thread_pool_drains hw n q ls s h :
  run (new_pool hw n q) no_history ls s h →
  (shutdown s = true → ∀ ls' s' h', run s h ls' s' h' → Forall of_worker ls' →
    length ls' ≤ work s ∧
    ((∀ l s'', of_worker l → ¬ step s' l s'') →
     Forall (λ w, w = Returned) (workers_ s') ∧ tasks s' = [] ∧ (dropped h = [] → finished h' ≡ₚ omap id (accepted h)))) ∧
  (∀ i, workers_ s !! i = Some Waiting → tasks s ≠ [] ∨ shutdown s = true → ∃ s', step s (LTake i) s').
Proof.
  intros Hrun. split.
  - intros Hsd ls' s' h' Hrun' HF. destruct (worker_runs_end _ _ _ _ _ Hrun' HF) as (Hlen & Hsd' & Hd & Ha). split; [lia|]. intros Hstuck.
    assert (Hok : pool_ok s' h') by (eapply run_ok; [|exact Hrun']; eapply run_ok; [apply pool_ok_new|exact Hrun]).
    assert (Hall : Forall (λ w, w = Returned) (workers_ s')).
    { apply Forall_lookup. intros i w Hi. destruct w as [|job|]; [|exfalso; by eapply (Hstuck (LFinish i)), step_finish|done].
      exfalso. destruct (TakeTask i s') as [s''|] eqn:E; [by eapply (Hstuck (LTake i)), step_take|].
      unfold TakeTask in E. rewrite (Hsd' Hsd) in E. by destruct (tasks s'). }
    assert (He : executing (workers_ s') = []) by (clear -Hall; induction Hall as [|w ws -> _ IH]; [done|exact IH]).
    destruct Hok as [H1 H2 H3 _ _ H6].
    assert (Ht : tasks s' = []).
    { assert (Hpos : length (workers_ s') ≠ 0) by (rewrite (run_workers _ _ _ _ _ Hrun'), (run_workers _ _ _ _ _ Hrun); apply thread_count_pos).
      destruct (workers_ s') as [|w ws] eqn:Hws; [done|]. apply Forall_cons in Hall as [-> _]. apply H6. by left. }
    split_and!; [done|done|]. intros Hdn. rewrite <- Ha, H1, Hd, Hdn, Ht. cbn [app]. rewrite app_nil_r. by rewrite <- H3, He, app_nil_r.
  - intros i Hi Hor. unfold TakeTask. destruct (TakeTask i s) as [s'|] eqn:E; [exists s'; by apply step_take|].
    unfold TakeTask in E. destruct (tasks s); [|done]. destruct (shutdown s); [done|]. by destruct Hor.
Qed.
End facts.

(** ** Witnesses *)

Module Examples.

Definition pool : ThreadPool nat := new_pool 8 1 2.
Definition submitted : ThreadPool nat := (Submit (Some 7) pool).2.
Definition stopped : ThreadPool nat := BeginShutdown true submitted.
Definition seven : History nat := MkHistory [Some 7] [] [] [].

Lemma run_snoc (s0 : ThreadPool nat) h0 ls l s s' h h' :
  run s0 h0 ls s h → step s l s' → record s l h = h' → run s0 h0 (ls ++ [l]) s' h'.
Proof. intros ?? <-. by eapply run_step. Qed.

Lemma stopped_run : run pool no_history [LSubmit (Some 7); LShutdown true] stopped seven.
Proof.
  apply (run_snoc pool no_history [LSubmit (Some 7)] (LShutdown true) submitted stopped seven seven); [|apply step_shutdown|done].
  apply (run_snoc pool no_history [] (LSubmit (Some 7)) pool submitted no_history seven); [apply run_nil|apply step_submit|done].
Qed.

(** The worker takes the task, ends it and returns. *)
Definition ran (w : Worker nat) (active : nat) : ThreadPool nat := MkPool [] true active 2 [w].
Lemma drained_run :
  run stopped seven [LTake 0; LFinish 0; LTake 0] (ran Returned 0) (MkHistory [Some 7] [Some 7] [7] []).
Proof.
  apply (run_snoc _ _ [LTake 0; LFinish 0] (LTake 0) (ran Waiting 0) _ (MkHistory [Some 7] [Some 7] [7] [])); [|by apply step_take|done].
  apply (run_snoc _ _ [LTake 0] (LFinish 0) (ran (Executing 7) 1) _ (MkHistory [Some 7] [Some 7] [] [])); [|exact (step_finish (ran (Executing 7) 1) 0 7 eq_refl)|done].
  apply (run_snoc _ _ [] (LTake 0) stopped _ seven); [apply run_nil|by apply step_take|done].
Qed.

Lemma thread_pool_exactly_once_witness : accepted seven = taken seven ++ dropped seven ++ tasks stopped ∧ length (tasks stopped) ≤ 2.
Proof.
  destruct (thread_pool_exactly_once 8 1 2 _ stopped seven stopped_run) as (H1 & _ & _ & H2 & _). split; [exact H1|by apply H2].
Defined.

Lemma thread_pool_drains_witness : length [LTake (Job := nat) 0; LFinish 0; LTake 0] ≤ work stopped.
Proof.
  exact (proj1 (proj1 (thread_pool_drains 8 1 2 _ stopped seven stopped_run) eq_refl _ _ _ drained_run
    ltac:(repeat constructor))).
Defined.
End Examples.
