(* ===== verification/ConnectionIo.v ===== *)
(** * Framing (src/server/connection_io_handler.h, connection_io_handler.cpp)

    How a stream of bytes becomes requests and how responses become bytes:
    the search for a delimiter, [NormalizeResponse], and the blocking
    [ConnectionIOHandler], whose receives and sends consume the outcomes of two
    oracles.  The request processor is a parameter: it sees and changes a state
    of its own (the connection's context and the server). *)

From S2P Require Import Prelude.
From Stdlib Require Import Ascii.
#[local] Open Scope nat_scope.

Notation bytes := (list ascii).
Definition CR : ascii := ascii_of_nat 13.
Definition LF : ascii := ascii_of_nat 10.

(** A literal. *)
Definition chars (s : string) : bytes := String.list_ascii_of_string s.

(** ** Delimiters *)

(** [find("\r\n")] and [find('\n')]. *)
Fixpoint find_crlf (l : bytes) : option nat :=
  match l with
  | [] => None
  | c :: l => if bool_decide (c = CR) && bool_decide (head l = Some LF) then Some 0 else S <$> find_crlf l
  end.
Fixpoint find_lf (l : bytes) : option nat :=
  match l with
  | [] => None
  | c :: l => if bool_decide (c = LF) then Some 0 else S <$> find_lf l
  end.

(** Where the first request of the buffer ends, and the length of what ends it. *)
Definition find_delimiter (l : bytes) : option (nat * nat) :=
  match find_crlf l with
  | Some pos => Some (pos, 2)
  | None => pos ← find_lf l; Some (pos, 1)
  end.

(** ** Responses *)

Definition is_newline (c : ascii) : bool := bool_decide (c = CR) || bool_decide (c = LF).

(** [while (end > 0 && response[end - 1] is a newline) --end;] *)
Fixpoint content_end (response : bytes) (e : nat) : nat :=
  match e with
  | O => O
  | S e' => if default false (is_newline <$> response !! e') then content_end response e' else e
  end.

Definition normalize_char (c : ascii) : bytes :=
  if bool_decide (c = CR) then [] else if bool_decide (c = LF) then [CR; LF] else [c].

Definition NormalizeResponse (response : bytes) : bytes :=
  concat (normalize_char <$> take (content_end response (length response)) response) ++ [CR; LF].

(** ** The blocking handler *)

Record IOConfig : Type := MkIOConfig {
  recv_buffer_size : nat;
  max_query_length : nat;
  max_accumulated_bytes : nat;
  recv_timeout_sec : Z
}.

(** What [recv] returns, and what a [send] takes of the bytes it is offered. *)
Inductive RecvOutcome : Type := RecvData (chunk : bytes) | RecvClosed | RecvTimeout | RecvError.
Inductive SendOutcome : Type := SendSome (n : nat) | SendEintr | SendAgain | SendError.

(** The send loop: what was sent, success, what is left of the oracle. *)
Fixpoint send_loop (outcomes : list SendOutcome) (data : bytes) : bytes * bool * list SendOutcome :=
  match data with
  | [] => ([], true, outcomes)
  | _ =>
    match outcomes with
    | [] => (data, true, [])
    | SendEintr :: rest => send_loop rest data
    | SendAgain :: rest | SendError :: rest => ([], false, rest)
    | SendSome n :: rest =>
        if n =? 0 then ([], false, rest)
        else let '(data', ok, rest) := send_loop rest (drop n data) in (take n data ++ data', ok, rest)
    end
  end.

Section handler.
Context {P : Type} (processor_ : bytes → P → bytes * P).

Record IO : Type := MkIO { outcomes : list SendOutcome; sent : bytes; state : P }.

Definition SendResponse (response : bytes) (io : IO) : bool * IO :=
  let '(data, ok, rest) := send_loop (outcomes io) (NormalizeResponse response) in
  (ok, MkIO rest (sent io ++ data) (state io)).

(** The loop of [ProcessBuffer].  Every round takes a byte at least, so [fuel]
    above the size of the buffer is enough. *)
Fixpoint process_loop (config : IOConfig) (fuel : nat) (accumulated : bytes) (io : IO) : bool * bytes * IO :=
  match fuel with
  | O => (true, accumulated, io)
  | S fuel =>
    match find_delimiter accumulated with
    | None => (true, accumulated, io)
    | Some (pos, delimiter_len) =>
        if max_query_length config <? pos then
          (false, accumulated, (SendResponse (chars "ERROR Request too large") io).2)
        else
          let request := take pos accumulated in
          let accumulated := drop (pos + delimiter_len) accumulated in
          if bool_decide (request = []) then process_loop config fuel accumulated io
          else
            let '(response, s) := processor_ request (state io) in
            let '(ok, io) := SendResponse response (MkIO (outcomes io) (sent io) s) in
            if ok then process_loop config fuel accumulated io else (false, accumulated, io)
    end
  end.
Definition ProcessBuffer (config : IOConfig) (accumulated : bytes) (io : IO) : bool * bytes * IO :=
  process_loop config (S (length accumulated)) accumulated io.

(** The receive loop: a round reads the shutdown flag and receives.  After the
    last round the client has closed. *)
Fixpoint receive_loop (config : IOConfig) (rounds : list (bool * RecvOutcome)) (accumulated : bytes) (io : IO) : IO :=
  match rounds with
  | [] => io
  | (shutdown_flag, received) :: rounds =>
      if shutdown_flag then io
      else
        match received with
        | RecvData chunk =>
            if max_accumulated_bytes config <? length accumulated + length chunk then
              (SendResponse (chars "ERROR Request too large (no newline detected)") io).2
            else
              let '(continue, accumulated, io) := ProcessBuffer config (accumulated ++ chunk) io in
              if continue then receive_loop config rounds accumulated io else io
        | RecvClosed | RecvTimeout | RecvError => io
        end
  end.
Definition HandleConnection (config : IOConfig) (rounds : list (bool * RecvOutcome)) (io : IO) : IO :=
  receive_loop config rounds [] io.
End handler.
Arguments IO : clear implicits.

(** ** The reference: lines *)

(** The lines of a stream, without the [LF] that ends them, and the last,
    unfinished one. *)
Fixpoint split_lines (l : bytes) : list bytes * bytes :=
  match l with
  | [] => ([], [])
  | c :: l =>
      let '(ls, rest) := split_lines l in
      if bool_decide (c = LF) then ([] :: ls, rest)
      else match ls with [] => ([], c :: rest) | x :: ls => ((c :: x) :: ls, rest) end
  end.

(** A line without the [CR] before its [LF]. *)
Definition chomp (x : bytes) : bytes :=
  match last x with Some c => if bool_decide (c = CR) then take (length x - 1) x else x | None => x end.

Definition requests_of (stream : bytes) : list bytes := chomp <$> (split_lines stream).1.

(** A client ends its lines in one way: all with [CR LF], or all with [LF]. *)
Definition crlf_only (s : bytes) : Prop := ∀ i, s !! i = Some LF → ∃ j, i = S j ∧ s !! j = Some CR.
Definition lf_only (s : bytes) : Prop := ∀ j, s !! j = Some CR → s !! S j ≠ Some LF.
Definition uniform (s : bytes) : Prop := crlf_only s ∨ lf_only s.

(** No line is longer than [w]. *)
Definition bounded (w : nat) (s : bytes) : Prop :=
  Forall (λ x, length x ≤ w) (split_lines s).1 ∧ length (split_lines s).2 ≤ w.

(** Requests are processed and answered in order until a send fails. *)
Section reference.
Context {P : Type} (processor_ : bytes → P → bytes * P).

Fixpoint serve (requests : list bytes) (io : IO P) : bool * IO P :=
  match requests with
  | [] => (true, io)
  | request :: requests =>
      if bool_decide (request = []) then serve requests io
      else
        let '(response, s) := processor_ request (state io) in
        let '(ok, io) := SendResponse response (MkIO (outcomes io) (sent io) s) in
        if ok then serve requests io else (false, io)
  end.

Lemma serve_app rs rs' io :
  serve (rs ++ rs') io = let '(ok, io') := serve rs io in if ok then serve rs' io' else (false, io').
Proof.
  revert io. induction rs as [|r rs IH]; intros io; [done|]. cbn. case_bool_decide; [apply IH|].
  destruct (processor_ r (state io)) as [resp s]. destruct (SendResponse resp _) as [[] io1]; [apply IH|done].
Qed.
End reference.

(** ** Lines *)

Lemma CR_ne_LF : CR ≠ LF.
Proof. done. Qed.

Lemma split_lines_none x : LF ∉ x → split_lines x = ([], x).
Proof.
  induction x as [|c x IH]; [done|]. intros [Hc Hx]%not_elem_of_cons. cbn. rewrite IH by done. by rewrite bool_decide_eq_false_2.
Qed.

Lemma split_lines_line x s : LF ∉ x → split_lines (x ++ LF :: s) = (x :: (split_lines s).1, (split_lines s).2).
Proof.
  induction x as [|c x IH]; intros Hx; cbn; [by destruct (split_lines s)|]. apply not_elem_of_cons in Hx as [Hc Hx].
  rewrite IH by done. by rewrite bool_decide_eq_false_2.
Qed.

(** Either there is no complete line, or there is a first one. *)
Lemma first_line s : LF ∉ s ∨ ∃ x s', s = x ++ LF :: s' ∧ LF ∉ x.
Proof.
  induction s as [|c s IH]; [left; apply not_elem_of_nil|]. destruct (decide (c = LF)) as [->|Hc].
  - right. exists [], s. split; [done|apply not_elem_of_nil].
  - destruct IH as [IH|(x & s' & -> & Hx)]; [left|right; exists (c :: x), s'; split; [done|]]; by apply not_elem_of_cons.
Qed.

Lemma split_lines_rest s : LF ∉ (split_lines s).2.
Proof.
  induction s as [s IH] using (induction_ltof1 _ length). destruct (first_line s) as [Hs|(x & s' & -> & Hx)].
  - by rewrite split_lines_none.
  - rewrite split_lines_line by done. apply IH. unfold ltof. rewrite length_app. cbn. lia.
Qed.

Lemma split_lines_app s t :
  split_lines (s ++ t) =
    ((split_lines s).1 ++ (split_lines ((split_lines s).2 ++ t)).1, (split_lines ((split_lines s).2 ++ t)).2).
Proof.
  induction s as [s IH] using (induction_ltof1 _ length). destruct (first_line s) as [Hs|(x & s' & -> & Hx)].
  - rewrite (split_lines_none s) by done. apply surjective_pairing.
  - rewrite <- (assoc_L (++)). cbn [app]. rewrite !split_lines_line by done. rewrite IH; [done|].
    unfold ltof. rewrite length_app. cbn. lia.
Qed.

Lemma bounded_app w s t : bounded w (s ++ t) → bounded w s ∧ bounded w ((split_lines s).2 ++ t).
Proof.
  unfold bounded. rewrite split_lines_app. cbn [fst snd]. intros [[H1 H2]%Forall_app H3]. split; [split; [done|]|done].
  pose proof (split_lines_rest s) as Hr. set (r := (split_lines s).2) in *. destruct (first_line t) as [Ht|(x & t' & -> & Hx)].
  - rewrite split_lines_none in H3 by (rewrite elem_of_app; tauto). cbn in H3. rewrite length_app in H3. lia.
  - rewrite (assoc_L (++)), split_lines_line in H2 by (rewrite elem_of_app; tauto). apply Forall_cons in H2 as [H2 _].
    rewrite length_app in H2. lia.
Qed.

(** ** Delimiters of uniform streams *)

Lemma find_lf_none s : LF ∉ s → find_lf s = None.
Proof.
  induction s as [|c s IH]; [done|]. intros [Hc Hs]%not_elem_of_cons. cbn. by rewrite bool_decide_eq_false_2, IH.
Qed.

Lemma find_lf_line x s : LF ∉ x → find_lf (x ++ LF :: s) = Some (length x).
Proof.
  induction x as [|c x IH]; [done|]. intros [Hc Hx]%not_elem_of_cons. cbn. by rewrite bool_decide_eq_false_2, IH.
Qed.

Lemma find_crlf_none s : LF ∉ s → find_crlf s = None.
Proof.
  induction s as [|c s IH]; [done|]. intros [_ Hs]%not_elem_of_cons. cbn. rewrite IH by done.
  rewrite (bool_decide_eq_false_2 (head s = _)), andb_false_r; [done|]. intros Hh. apply Hs. destruct s; [done|]. injection Hh as ->. by left.
Qed.

Lemma find_crlf_lf_only s : lf_only s → find_crlf s = None.
Proof.
  induction s as [|c s IH]; [done|]. intros Hs. cbn. rewrite IH by (intros j Hj; exact (Hs (S j) Hj)).
  destruct (decide (c = CR)) as [->|Hc]; [|by rewrite bool_decide_eq_false_2].
  rewrite (bool_decide_eq_false_2 (head s = _)), andb_false_r; [done|]. rewrite head_lookup. exact (Hs 0 eq_refl).
Qed.

Lemma find_crlf_line y s : LF ∉ y → find_crlf (y ++ CR :: LF :: s) = Some (length y).
Proof.
  induction y as [|c y IH]; [done|]. intros [_ Hy]%not_elem_of_cons. cbn [app find_crlf]. rewrite IH by done.
  rewrite (bool_decide_eq_false_2 (head _ = _)), andb_false_r; [done|]. destruct y as [|d y]; [done|].
  intros [= ->]. apply Hy. by left.
Qed.

Lemma crlf_only_rest x s : crlf_only (x ++ LF :: s) → crlf_only s.
Proof.
  intros H i Hi. destruct (H (length x + S i)) as (j & Hj & Hcr).
  - by rewrite lookup_app_r, Nat.add_comm, Nat.add_sub by lia.
  - assert (j = length x + i) as -> by lia. rewrite lookup_app_r, Nat.add_comm, Nat.add_sub in Hcr by lia.
    destruct i as [|i]; [done|]. by exists i.
Qed.

Lemma crlf_only_line x s : crlf_only (x ++ LF :: s) → ∃ y, x = y ++ [CR].
Proof.
  intros H. destruct (H (length x)) as (j & Hj & Hcr); [by rewrite lookup_app_r, Nat.sub_diag by lia|].
  exists (take j x). rewrite lookup_app_l in Hcr by lia. rewrite <- (firstn_all x) at 1. rewrite Hj. by apply take_S_r.
Qed.

Lemma lf_only_rest x s : lf_only (x ++ s) → lf_only s.
Proof.
  intros H j Hj Hl. apply (H (length x + j)); rewrite lookup_app_r by lia; [|rewrite <- Nat.add_succ_r];
    by rewrite Nat.add_comm, Nat.add_sub.
Qed.

Lemma lf_only_line x s : lf_only (x ++ LF :: s) → chomp x = x.
Proof.
  intros H. unfold chomp. destruct (last x) as [c|] eqn:Hl; [|done]. case_bool_decide as Hc; [|done]. subst c. exfalso.
  apply last_Some in Hl as [y ->]. apply (H (length y)).
  - rewrite lookup_app_l, lookup_app_r, Nat.sub_diag by (rewrite ?length_app; cbn; lia). done.
  - rewrite lookup_app_r by (rewrite length_app; cbn; lia). rewrite length_app. cbn. by rewrite Nat.add_1_r, Nat.sub_diag.
Qed.

Lemma chomp_snoc y : chomp (y ++ [CR]) = y.
Proof.
  unfold chomp. rewrite last_snoc, bool_decide_eq_true_2, length_app by done. cbn. by rewrite Nat.add_sub, take_app_length.
Qed.

(** The first request of a uniform buffer is its first line. *)
Lemma delimiter_line x s :
  uniform (x ++ LF :: s) → LF ∉ x →
  uniform s ∧ ∃ len, find_delimiter (x ++ LF :: s) = Some (length (chomp x), len) ∧
    take (length (chomp x)) (x ++ LF :: s) = chomp x ∧ drop (length (chomp x) + len) (x ++ LF :: s) = s.
Proof.
  intros [H|H] Hx; unfold find_delimiter.
  - destruct (crlf_only_line _ _ H) as [y ->]. split; [left; by eapply crlf_only_rest|]. exists 2. rewrite chomp_snoc.
    rewrite <- (assoc_L (++)). cbn [app]. rewrite find_crlf_line by (intros Hy; apply Hx, elem_of_app; by left).
    split_and!; [done|apply take_app_length|by rewrite drop_app_add].
  - split; [right; by eapply (lf_only_rest (x ++ [LF])); rewrite <- (assoc_L (++))|]. exists 1.
    rewrite (lf_only_line _ _ H), find_crlf_lf_only, find_lf_line by done.
    split_and!; [done|apply take_app_length|by rewrite drop_app_add].
Qed.

Lemma uniform_prefix s t : uniform (s ++ t) → uniform s.
Proof.
  intros [H|H]; [left|right].
  - intros i Hi. destruct (H i) as (j & -> & Hj); [by apply lookup_app_l_Some|]. exists j. split; [done|].
    apply lookup_lt_Some in Hi. rewrite lookup_app_l in Hj by lia. done.
  - intros j Hj Hl. apply (H j); by apply lookup_app_l_Some.
Qed.

(** What is left of a uniform stream after its complete lines. *)
Lemma uniform_rest s t : uniform (s ++ t) → uniform ((split_lines s).2 ++ t).
Proof.
  induction s as [s IH] using (induction_ltof1 _ length). intros H. destruct (first_line s) as [Hs|(x & s' & -> & Hx)].
  - by rewrite split_lines_none.
  - rewrite split_lines_line by done. rewrite <- (assoc_L (++)) in H. cbn [app] in H. apply delimiter_line in H as [H _]; [|done].
    apply IH; [|done]. unfold ltof. rewrite length_app. cbn. lia.
Qed.

(** ** The handler serves the lines *)

Section facts.
Context {P : Type} (processor_ : bytes → P → bytes * P).
Implicit Types (io : IO P).

Lemma chomp_length x : length (chomp x) ≤ length x.
Proof. unfold chomp. destruct (last x); [|done]. case_bool_decide; [rewrite length_take; lia|done]. Qed.

(** A round of the loop on a buffer that starts with a line. *)
Lemma process_loop_line config fuel x s io :
  uniform (x ++ LF :: s) → LF ∉ x → length x ≤ max_query_length config →
  process_loop processor_ config (S fuel) (x ++ LF :: s) io =
    let '(ok, io') := serve processor_ [chomp x] io in if ok then process_loop processor_ config fuel s io' else (false, s, io').
Proof.
  intros Hu Hx Hlen. destruct (delimiter_line _ _ Hu Hx) as (_ & len & Hdel & Htake & Hdrop).
  cbn [process_loop serve]. rewrite Hdel, Htake, Hdrop. pose proof (chomp_length x).
  rewrite (proj2 (Nat.ltb_ge _ _)) by lia. case_bool_decide; [done|].
  destruct (processor_ (chomp x) (state io)) as [resp s']. by destruct (SendResponse resp _) as [[] io'].
Qed.

Lemma ProcessBuffer_serves config s io :
  uniform s → bounded (max_query_length config) s →
  let '(ok, io') := serve processor_ (requests_of s) io in
  ∃ rest, ProcessBuffer processor_ config s io = (ok, rest, io') ∧ (ok = true → rest = (split_lines s).2).
Proof.
  unfold ProcessBuffer. intros Hu Hb.
  assert (Hfuel : length s < S (length s)) by lia. revert Hfuel. generalize (S (length s)) as fuel.
  revert io Hu Hb. induction s as [s IH] using (induction_ltof1 _ length). intros io Hu [Hb1 Hb2] [|fuel] Hfuel; [lia|].
  unfold requests_of. destruct (first_line s) as [Hs|(x & s' & -> & Hx)].
  - rewrite (split_lines_none s) by done. cbn [fst snd fmap list_fmap serve process_loop]. exists s.
    unfold find_delimiter. by rewrite find_crlf_none, find_lf_none.
  - rewrite split_lines_line in Hb1, Hb2 |- * by done. cbn [fst snd] in Hb1, Hb2 |- *. apply Forall_cons in Hb1 as [Hlen Hb1].
    rewrite process_loop_line by done.
    change (chomp <$> x :: (split_lines s').1) with ([chomp x] ++ (chomp <$> (split_lines s').1)). rewrite serve_app.
    destruct (serve processor_ [chomp x] io) as [[] io1]; [|by exists s'].
    destruct (delimiter_line _ _ Hu Hx) as [Hu' _]. rewrite length_app in Hfuel. cbn in Hfuel.
    apply IH; [unfold ltof; rewrite length_app; cbn; lia|done|done|lia].
Qed.

Lemma receive_loop_serves config w chunks : ∀ buffer io,
  LF ∉ buffer → uniform (buffer ++ concat chunks) → bounded w (buffer ++ concat chunks) →
  Forall (λ c, length c ≤ recv_buffer_size config) chunks →
  w ≤ max_query_length config → w + recv_buffer_size config ≤ max_accumulated_bytes config →
  receive_loop processor_ config ((λ c, (false, RecvData c)) <$> chunks) buffer io =
    (serve processor_ (requests_of (buffer ++ concat chunks)) io).2.
Proof.
  induction chunks as [|c chunks IH]; intros buffer io Hbuf Hu Hb Hc Hw Hacc; cbn [concat fmap list_fmap receive_loop].
  - unfold requests_of. by rewrite app_nil_r, split_lines_none.
  - apply Forall_cons in Hc as [Hc Hcs]. cbn [concat] in Hu, Hb. rewrite (assoc_L (++)) in Hu, Hb |- *.
    destruct (bounded_app w _ _ Hb) as [Hb1 Hb2].
    assert (Hlen : length buffer ≤ w) by (apply bounded_app in Hb1 as [[_ Hb1] _]; by rewrite split_lines_none in Hb1).
    rewrite (proj2 (Nat.ltb_ge _ _)) by lia.
    pose proof (ProcessBuffer_serves config (buffer ++ c) io (uniform_prefix _ _ Hu)) as Hp.
    unfold requests_of in *. rewrite split_lines_app. cbn [fst]. rewrite fmap_app, serve_app.
    destruct (serve processor_ (chomp <$> (split_lines (buffer ++ c)).1) io) as [ok io1].
    destruct Hp as (rest & -> & Hrest).
    { destruct Hb1 as [Hb1 Hb1']. split; [eapply Forall_impl; [exact Hb1|cbn; lia]|lia]. }
    destruct ok; [|done]. rewrite Hrest by done. apply IH; [apply split_lines_rest|by apply uniform_rest|done..].
Qed.

(** C32: the reads do not matter.  However the network cuts a stream into
    chunks, the handler serves exactly the stream's lines: it hands the
    processor every line that is not empty, in order and without its ending, and
    sends the normalized answers, until a send fails.  The client ends all lines
    alike ([CR LF] or [LF]), and a line and one read fit the buffer. *)
Theorem framing_independent config w chunks io :
  uniform (concat chunks) → bounded w (concat chunks) → Forall (λ c, length c ≤ recv_buffer_size config) chunks →
  w ≤ max_query_length config → w + recv_buffer_size config ≤ max_accumulated_bytes config →
  HandleConnection processor_ config ((λ c, (false, RecvData c)) <$> chunks) io =
    (serve processor_ (requests_of (concat chunks)) io).2.
Proof. intros Hu Hb Hc Hw Hacc. eapply receive_loop_serves; try done. apply not_elem_of_nil. Qed.

(** ** Normalized responses *)

Lemma content_end_le r e : content_end r e ≤ e.
Proof. induction e as [|e IH]; cbn; [done|]. destruct (default _ _); lia. Qed.

(** A response without its trailing newlines. *)
Definition content (r : bytes) : bytes := take (content_end r (length r)) r.

Lemma content_app r nl : Forall (λ c, is_newline c = true) nl → content (r ++ nl) = content r.
Proof.
  intros Hnl. unfold content.
  assert (E : ∀ k, k ≤ length nl → content_end (r ++ nl) (length r + k) = content_end (r ++ nl) (length r)).
  { induction k as [|k IH]; intros Hk; [by rewrite Nat.add_0_r|]. rewrite Nat.add_succ_r. cbn [content_end].
    rewrite lookup_app_r, Nat.add_comm, Nat.add_sub by lia. destruct (nl !! k) as [c|] eqn:Hc; [|apply lookup_ge_None in Hc; lia].
    cbn [fmap option_fmap option_map default from_option id]. rewrite (proj1 (Forall_lookup _ _) Hnl k c Hc). rewrite Nat.add_comm. apply IH. lia. }
  rewrite length_app, E by lia.
  assert (Hpre : ∀ e, e ≤ length r → content_end (r ++ nl) e = content_end r e).
  { induction e as [|e IH]; intros He; [done|]. cbn [content_end]. rewrite lookup_app_l by lia.
    destruct (default false _); [apply IH; lia|done]. }
  rewrite Hpre by done. apply take_app_le, content_end_le.
Qed.

Lemma content_id r c : last r = Some c → is_newline c = false → content r = r.
Proof.
  intros [r' ->]%last_Some Hc. unfold content. rewrite length_app, Nat.add_1_r. cbn [content_end].
  rewrite lookup_app_r, Nat.sub_diag by lia. cbn. rewrite Hc. apply take_ge. rewrite length_app. cbn. lia.
Qed.

Lemma content_last r : content r = [] ∨ ∃ c, last (content r) = Some c ∧ is_newline c = false.
Proof.
  unfold content. enough (Hgen : ∀ e, e ≤ length r → take (content_end r e) r = [] ∨
    ∃ c, last (take (content_end r e) r) = Some c ∧ is_newline c = false) by auto.
  induction e as [|e IH]; intros He; [by left|]. cbn [content_end]. destruct (r !! e) as [c|] eqn:Hc; [|apply lookup_ge_None in Hc; lia].
  cbn [fmap option_fmap option_map default from_option id]. destruct (is_newline c) eqn:Hn; [apply IH; lia|].
  right. exists c. split; [|done]. by rewrite (take_S_r _ _ _ Hc), last_snoc.
Qed.

Lemma normalize_no_lf c : c ≠ LF → LF ∉ normalize_char c.
Proof.
  intros Hc. unfold normalize_char. case_bool_decide; [apply not_elem_of_nil|]. rewrite bool_decide_eq_false_2 by done.
  intros ?%list_elem_of_singleton. congruence.
Qed.

(** The lines of a text, without carriage returns. *)
Definition text_lines (r : bytes) : list bytes :=
  let '(ls, rest) := split_lines r in base.filter (.≠ CR) <$> ls ++ [rest].

Lemma normalize_line x : LF ∉ x → concat (normalize_char <$> x) = base.filter (.≠ CR) x.
Proof.
  induction x as [|c x IH]; [done|]. intros [Hc Hx]%not_elem_of_cons. cbn [fmap list_fmap concat]. rewrite IH by done.
  unfold normalize_char. destruct (decide (c = CR)) as [->|Hcr].
  - rewrite bool_decide_eq_true_2 by done. by rewrite filter_cons_False by naive_solver.
  - rewrite !bool_decide_eq_false_2 by done. by rewrite filter_cons_True.
Qed.

(** [x1 CR LF x2 CR LF ...]. *)
Definition frame_lines (ls : list bytes) : bytes := concat ((λ x, x ++ [CR; LF]) <$> ls).

Lemma normalize_lines r : concat (normalize_char <$> r) ++ [CR; LF] = frame_lines (text_lines r).
Proof.
  unfold text_lines. induction r as [r IH] using (induction_ltof1 _ length). destruct (first_line r) as [Hs|(x & s & -> & Hx)].
  - rewrite split_lines_none, normalize_line by done. unfold frame_lines. cbn. by rewrite app_nil_r.
  - rewrite split_lines_line by done. specialize (IH s). destruct (split_lines s) as [ls rest]. cbn [fst snd].
    rewrite fmap_app, concat_app, normalize_line, fmap_cons by done. cbn [concat app]. unfold frame_lines in *. cbn [fmap list_fmap concat].
    rewrite <- IH by (unfold ltof; rewrite length_app; cbn; lia). unfold normalize_char at 1.
    rewrite bool_decide_eq_false_2, bool_decide_eq_true_2 by done. by rewrite <- !(assoc_L (++)).
Qed.

Lemma text_lines_no_newline r x : x ∈ text_lines r → LF ∉ x ∧ CR ∉ x.
Proof.
  unfold text_lines. intros Hx. assert (H : ∃ y, x = base.filter (.≠ CR) y ∧ LF ∉ y).
  { revert Hx. induction r as [r IH] using (induction_ltof1 _ length). destruct (first_line r) as [Hs|(y & s & -> & Hy)].
    - rewrite split_lines_none by done. cbn. intros ->%list_elem_of_singleton. eauto.
    - rewrite split_lines_line by done. specialize (IH s). destruct (split_lines s) as [ls rest]. cbn [fst snd app].
      rewrite fmap_cons, elem_of_cons. intros [->|Hin]; [eauto|]. apply IH; [|done]. unfold ltof. rewrite length_app. cbn. lia. }
  destruct H as (y & -> & Hy). split; rewrite list_elem_of_filter; naive_solver.
Qed.

Lemma split_frame ls s : Forall (λ x, LF ∉ x) ls →
  split_lines (frame_lines ls ++ s) = (((λ x, x ++ [CR]) <$> ls) ++ (split_lines s).1, (split_lines s).2).
Proof.
  unfold frame_lines. induction 1 as [|x ls Hx _ IH]; cbn [fmap list_fmap concat app]; [by destruct (split_lines s)|].
  rewrite <- !(assoc_L (++)). cbn [app]. change (x ++ CR :: LF :: ?l) with (x ++ [CR] ++ LF :: l). rewrite (assoc_L (++)).
  rewrite split_lines_line by (rewrite elem_of_app, list_elem_of_singleton; intros [?|?]; by try congruence).
  by rewrite IH.
Qed.

Lemma normalize_idempotent y : concat (normalize_char <$> concat (normalize_char <$> y)) = concat (normalize_char <$> y).
Proof.
  induction y as [|c y IH]; [done|]. cbn [fmap list_fmap concat]. rewrite fmap_app, concat_app. f_equal; [|exact IH].
  unfold normalize_char at 2 3. case_bool_decide as Hc; [done|]. case_bool_decide as Hl; [done|]. cbn. unfold normalize_char.
  by rewrite !bool_decide_eq_false_2.
Qed.

Lemma content_normalized r : content (NormalizeResponse r) = concat (normalize_char <$> content r).
Proof.
  unfold NormalizeResponse. fold (content r). rewrite content_app by (by repeat constructor).
  destruct (content_last r) as [->|(c & Hl & Hc)]; [done|]. apply last_Some in Hl as [y Hy]. rewrite Hy.
  apply (content_id _ c); [|done]. rewrite fmap_app, concat_app. cbn. unfold normalize_char at 2.
  unfold is_newline in Hc. apply orb_false_iff in Hc as [-> ->]. cbn. by rewrite last_snoc.
Qed.

(** C33: responses are framed.  Whatever a handler returns, what is sent is the
    lines of its text - trailing newlines dropped, carriage returns removed -
    each ended by [CR LF] and free of both inside; so a client that splits the
    stream at its line endings finds exactly these lines, responses one after
    the other, and sending an already framed response changes nothing. *)
Theorem responses_framed r stream :
  let lines := text_lines (content r) in
  NormalizeResponse r = frame_lines lines ∧ Forall (λ x, LF ∉ x ∧ CR ∉ x) lines ∧
  requests_of (NormalizeResponse r ++ stream) = lines ++ requests_of stream ∧
  NormalizeResponse (NormalizeResponse r) = NormalizeResponse r.
Proof.
  assert (Hn : ∀ r, NormalizeResponse r = frame_lines (text_lines (content r))) by (intros r'; apply normalize_lines).
  assert (Hl : ∀ r, Forall (λ x, LF ∉ x ∧ CR ∉ x) (text_lines (content r))) by (intros r'; apply Forall_forall, text_lines_no_newline).
  cbv zeta. split_and!; [done|done| |].
  - unfold requests_of. rewrite Hn, split_frame by (eapply Forall_impl; [apply Hl|naive_solver]). cbn [fst].
    rewrite fmap_app, <- list_fmap_compose. f_equal. rewrite <- (list_fmap_id (text_lines _)) at 2. apply list_fmap_ext. intros _ x _. apply chomp_snoc.
  - unfold NormalizeResponse at 1. fold (content (NormalizeResponse r)). by rewrite content_normalized, normalize_idempotent.
Qed.
End facts.

(** ** A connection *)

Module Examples.

(** Answers with the request, and keeps what it saw. *)
Definition echo (request : bytes) (seen : list bytes) : bytes * list bytes := (chars "OK " ++ request, seen ++ [request]).
Definition config : IOConfig := MkIOConfig 8 16 32 60.
Definition start (outcomes : list SendOutcome) : IO (list bytes) := MkIO outcomes [] [].
Definition reads (chunks : list bytes) : list (bool * RecvOutcome) := (λ c, (false, RecvData c)) <$> chunks.
Definition crlf : bytes := [CR; LF].

(** The read boundary falls inside a delimiter; a send is cut short. *)
Definition chunks : list bytes := [chars "SIM a 1" ++ [CR]; LF :: crlf ++ chars "IN"; chars "FO" ++ crlf ++ chars "x"].

Example served :
  state (HandleConnection echo config (reads chunks) (start [SendSome 3; SendEintr])) = [chars "SIM a 1"; chars "INFO"] ∧
  sent (HandleConnection echo config (reads chunks) (start [SendSome 3; SendEintr])) =
    chars "OK SIM a 1" ++ crlf ++ chars "OK INFO" ++ crlf.
Proof. vm_compute. done. Qed.

Lemma chunks_uniform : uniform (concat chunks).
Proof.
  left. intros i Hi. assert (Hlt : i < 18) by (apply lookup_lt_Some in Hi; exact Hi).
  do 18 (destruct i as [|i]; [first [discriminate Hi|eexists; split; reflexivity]|]). lia.
Qed.

Lemma framing_independent_witness :
  HandleConnection echo config (reads chunks) (start []) = HandleConnection echo config (reads ((λ c, [c]) <$> concat chunks)) (start []).
Proof.
  assert (Hb : bounded 8 (concat chunks)) by (split; [repeat constructor; vm_compute; lia|vm_compute; lia]).
  assert (E : concat ((λ c, [c]) <$> concat chunks) = concat chunks) by (vm_compute; reflexivity).
  assert (H8 : 8 ≤ max_query_length config) by (vm_compute; lia).
  assert (H16 : 8 + recv_buffer_size config ≤ max_accumulated_bytes config) by (vm_compute; lia).
  transitivity (serve echo (requests_of (concat chunks)) (start [])).2.
  - apply (framing_independent echo config 8); [exact chunks_uniform|exact Hb|repeat constructor; vm_compute; lia|exact H8|exact H16].
  - symmetry. rewrite <- E at 2.
    apply (framing_independent echo config 8); rewrite ?E; [exact chunks_uniform|exact Hb|repeat constructor; vm_compute; lia|exact H8|exact H16].
Defined.

(** A client that mixes both endings is at the mercy of the reads: the search
    for [CR LF] goes first, over the whole buffer. *)
Example mixed_endings :
  state (HandleConnection echo config (reads [chars "a" ++ [LF] ++ chars "b" ++ crlf]) (start [])) = [chars "a" ++ [LF] ++ chars "b"] ∧
  state (HandleConnection echo config (reads [chars "a" ++ [LF]; chars "b" ++ crlf]) (start [])) = [chars "a"; chars "b"].
Proof. vm_compute. done. Qed.

Example too_long :
  sent (HandleConnection echo config (reads [chars "0123456"; chars "89abcdef"; LF :: chars "x"]) (start [])) =
    chars "OK 0123456" ++ chars "89abcdef" ++ crlf ∧
  sent (HandleConnection echo config (reads [chars "0123456"; chars "89abcdef"; chars "ghi" ++ [LF]]) (start [])) =
    chars "ERROR Request too large" ++ crlf.
Proof. vm_compute. done. Qed.
End Examples.
