(* ===== verification/ReactorConnection.v ===== *)
(** * [server::ReactorConnection] (src/server/reactor_connection.h, .cpp; io_reactor.h, .cpp)

    One connection of the non-blocking server: the event loop reads, frames and
    writes, a task of the thread pool answers the queued requests, and both
    share the queues, the flags, the interest set of the reactor and the
    process-wide byte budget.  A step is a critical section or an atomic access
    with what follows it and touches no other shared data; the theorems
    quantify over every interleaving of the loop, the tasks and the other
    connections.  What the processor answers is arbitrary. *)

From S2P Require Import Prelude ConnectionIo.
#[local] Open Scope Z_scope.

Definition kReadChunkBytes : Z := 4096.
Definition kReadEventByteBudget : Z := 64 * 1024.
Definition kMaxPendingFrames : Z := 1024.
Definition kPendingFramesHighWatermark : Z := 768.
Definition kPendingFramesLowWatermark : Z := 512.
Definition kMaxWriteQueueBytes : Z := 16 * 1024 * 1024.

Definition size (l : bytes) : Z := Z.of_nat (length l).

(** ** [ReactorMemoryBudget] *)

(** [TryAcquire]; the difference is unsigned. *)
Definition TryAcquire (limit_bytes n used : Z) : option Z :=
  if n <=? u64 (limit_bytes - used) then Some (used + n) else None.
Definition Release (n used : Z) : Z := u64 (used - n).

(** ** What the two mutexes guard *)

Record ReadSide : Type := MkRead {
  accumulated_ : bytes;
  requests_ : list bytes;
  request_bytes_ : Z;
  read_paused_ : bool;
  received_frame_ : bool
}.

Record WriteSide : Type := MkWrite {
  responses_ : list bytes;
  response_offset_ : nat;
  response_bytes_ : Z
}.

(** The framing loop: overflow, whether a request was queued, the state, the
    budget.  Every round takes a byte at least. *)
Fixpoint frame_loop (config : IOConfig) (fuel : nat) (queued : bool) (rs : ReadSide) (used : Z) : bool * bool * ReadSide * Z :=
  match fuel with
  | O => (false, queued, rs, used)
  | S fuel =>
    match find_delimiter (accumulated_ rs) with
    | None => (false, queued, rs, used)
    | Some (pos, delimiter) =>
        if (max_query_length config <? pos)%nat || (kMaxPendingFrames <=? Z.of_nat (length (requests_ rs)))
           || (Z.of_nat (max_accumulated_bytes config) <? request_bytes_ rs + Z.of_nat pos)
        then (true, queued, rs, used)
        else
          let request := take pos (accumulated_ rs) in
          let rest := drop (pos + delimiter) (accumulated_ rs) in
          let used := Release (Z.of_nat delimiter) used in
          if bool_decide (request = []) then
            frame_loop config fuel queued (MkRead rest (requests_ rs) (request_bytes_ rs) (read_paused_ rs) (received_frame_ rs)) used
          else
            frame_loop config fuel true
              (MkRead rest (requests_ rs ++ [request]) (request_bytes_ rs + size request) (read_paused_ rs) true) used
    end
  end.

(** The critical section of [OnReadable]: overflow, queued, pause. *)
Definition ReadChunk (config : IOConfig) (limit : Z) (chunk : bytes) (queued : bool) (rs : ReadSide) (used : Z)
    : bool * bool * bool * ReadSide * Z :=
  if Z.of_nat (max_accumulated_bytes config) <? size (accumulated_ rs) + size chunk then (true, queued, false, rs, used)
  else
    match TryAcquire limit (size chunk) used with
    | None => (true, queued, false, rs, used)
    | Some used =>
        let buffer := accumulated_ rs ++ chunk in
        let '(overflow, queued, rs, used) := frame_loop config (S (length buffer)) queued
          (MkRead buffer (requests_ rs) (request_bytes_ rs) (read_paused_ rs) (received_frame_ rs)) used in
        let pause := kPendingFramesHighWatermark <=? Z.of_nat (length (requests_ rs)) in
        (overflow, queued, pause,
         MkRead (accumulated_ rs) (requests_ rs) (request_bytes_ rs) (read_paused_ rs || pause) (received_frame_ rs), used)
    end.

(** The critical section of [DrainRequests]: the request, whether reading
    resumes. *)
Definition TakeRequest (rs : ReadSide) (used : Z) : option (bytes * bool * ReadSide * Z) :=
  match requests_ rs with
  | [] => None
  | request :: rest =>
      let resume := read_paused_ rs && (Z.of_nat (length rest) <=? kPendingFramesLowWatermark) in
      Some (request, resume,
        MkRead (accumulated_ rs) rest (request_bytes_ rs - size request) (read_paused_ rs && negb resume) (received_frame_ rs),
        Release (size request) used)
  end.

(** The critical section of [EnqueueResponse]. *)
Definition Enqueue (limit : Z) (response : bytes) (ws : WriteSide) (used : Z) : option (WriteSide * Z) :=
  let framed := NormalizeResponse response in
  if kMaxWriteQueueBytes <? response_bytes_ ws + size framed then None
  else
    used ← TryAcquire limit (size framed) used;
    Some (MkWrite (responses_ ws ++ [framed]) (response_offset_ ws) (response_bytes_ ws + size framed), used).

Inductive Written : Type := WDrained | WBlocked | WFailed.

(** The critical section of [OnWritable]; after the last outcome the socket
    would block. *)
Fixpoint write_loop (outs : list SendOutcome) (ws : WriteSide) (used : Z) : Written * bytes * WriteSide * Z :=
  match responses_ ws with
  | [] => (WDrained, [], ws, used)
  | response :: rest =>
    match outs with
    | [] | SendAgain :: _ => (WBlocked, [], ws, used)
    | SendError :: _ => (WFailed, [], ws, used)
    | SendEintr :: outs => write_loop outs ws used
    | SendSome n :: outs =>
        let data := take n (drop (response_offset_ ws) response) in
        if bool_decide (data = []) then (WFailed, [], ws, used)
        else
          let offset := (response_offset_ ws + length data)%nat in
          let finished := (offset =? length response)%nat in
          let '(result, sent, ws, used) := write_loop outs
            (MkWrite (if finished then rest else response :: rest) (if finished then O else offset) (response_bytes_ ws - size data))
            (Release (size data) used) in
          (result, data ++ sent, ws, used)
    end
  end.

(** ** The threads *)

(** Where the event loop is: between events, in the receive loop of
    [OnReadable], and at its later accesses; after the loop of [OnWritable]. *)
Inductive Loop : Type :=
| Idle
| Reading (queued : bool) (read_bytes : Z)
| Overflowing
| Pausing (queued : bool)
| Leaving (queued : bool)
| Finishing
| Disarming.

(** Where a task of [DrainRequests] is. *)
Inductive Job : Type :=
| Taking
| Taken (request : bytes) (resume : bool)
| Answering (response : bytes)
| Arming
| Closing
| Ending
| Done.

Record Conn : Type := MkConn {
  read_side : ReadSide;
  write_side : WriteSide;
  used_bytes_ : Z;
  drain_scheduled_ : bool;
  read_eof_ : bool;
  close_after_flush_ : bool;
  registered : bool;
  read_interest : bool;
  write_interest : bool;
  ready_read : bool;
  ready_write : bool;
  loop : Loop;
  jobs : list Job
}.

Definition set_read (rs : ReadSide) (used : Z) (s : Conn) : Conn :=
  MkConn rs (write_side s) used (drain_scheduled_ s) (read_eof_ s) (close_after_flush_ s) (registered s) (read_interest s)
    (write_interest s) (ready_read s) (ready_write s) (loop s) (jobs s).
Definition set_write (ws : WriteSide) (used : Z) (s : Conn) : Conn :=
  MkConn (read_side s) ws used (drain_scheduled_ s) (read_eof_ s) (close_after_flush_ s) (registered s) (read_interest s)
    (write_interest s) (ready_read s) (ready_write s) (loop s) (jobs s).
Definition set_drain (b : bool) (s : Conn) : Conn :=
  MkConn (read_side s) (write_side s) (used_bytes_ s) b (read_eof_ s) (close_after_flush_ s) (registered s) (read_interest s)
    (write_interest s) (ready_read s) (ready_write s) (loop s) (jobs s).
Definition set_eof (s : Conn) : Conn :=
  MkConn (read_side s) (write_side s) (used_bytes_ s) (drain_scheduled_ s) true (close_after_flush_ s) (registered s)
    (read_interest s) (write_interest s) (ready_read s) (ready_write s) (loop s) (jobs s).
Definition set_closing (s : Conn) : Conn :=
  MkConn (read_side s) (write_side s) (used_bytes_ s) (drain_scheduled_ s) (read_eof_ s) true (registered s) (read_interest s)
    (write_interest s) (ready_read s) (ready_write s) (loop s) (jobs s).
Definition set_loop (l : Loop) (s : Conn) : Conn :=
  MkConn (read_side s) (write_side s) (used_bytes_ s) (drain_scheduled_ s) (read_eof_ s) (close_after_flush_ s) (registered s)
    (read_interest s) (write_interest s) (ready_read s) (ready_write s) l (jobs s).
Definition set_jobs (js : list Job) (s : Conn) : Conn :=
  MkConn (read_side s) (write_side s) (used_bytes_ s) (drain_scheduled_ s) (read_eof_ s) (close_after_flush_ s) (registered s)
    (read_interest s) (write_interest s) (ready_read s) (ready_write s) (loop s) js.
Definition set_used (used : Z) (s : Conn) : Conn := set_read (read_side s) used s.
Definition set_job (i : nat) (j : Job) (s : Conn) : Conn := set_jobs (<[i := j]> (jobs s)) s.

(** The events of the last poll that the loop has not handled yet. *)
Definition set_ready (r w : bool) (s : Conn) : Conn :=
  MkConn (read_side s) (write_side s) (used_bytes_ s) (drain_scheduled_ s) (read_eof_ s) (close_after_flush_ s) (registered s)
    (read_interest s) (write_interest s) r w (loop s) (jobs s).

(** [IoReactor::SetReadEnabled], [ArmWrite], [DisarmWrite], [Unregister]: the
    poller's interest, while the connection is registered. *)
Definition SetReadEnabled (enabled : bool) (s : Conn) : Conn :=
  MkConn (read_side s) (write_side s) (used_bytes_ s) (drain_scheduled_ s) (read_eof_ s) (close_after_flush_ s) (registered s)
    (if registered s then enabled else read_interest s) (write_interest s) (ready_read s) (ready_write s) (loop s) (jobs s).
Definition SetWriteEnabled (enabled : bool) (s : Conn) : Conn :=
  MkConn (read_side s) (write_side s) (used_bytes_ s) (drain_scheduled_ s) (read_eof_ s) (close_after_flush_ s) (registered s)
    (read_interest s) (if registered s then enabled else write_interest s) (ready_read s)
    (ready_write s) (loop s) (jobs s).
Definition Unregister (s : Conn) : Conn :=
  MkConn (read_side s) (write_side s) (used_bytes_ s) (drain_scheduled_ s) (read_eof_ s) (close_after_flush_ s) false
    (read_interest s) (write_interest s) (ready_read s) (ready_write s) (loop s) (jobs s).

(** A handler returned false: the loop drops the connection and the rest of its
    event. *)
Definition drop_event (s : Conn) : Conn := Unregister (set_ready false false s).

Definition CloseAfterFlush (s : Conn) : Conn := SetWriteEnabled true (SetReadEnabled false (set_closing s)).

Definition HasPendingOutput (s : Conn) : bool := negb (bool_decide (responses_ (write_side s) = [])).
Definition HasPendingRequests (s : Conn) : bool := negb (bool_decide (requests_ (read_side s) = [])).

(** An error line of the event loop, when it fits. *)
Definition report (limit : Z) (message : bytes) (s : Conn) : Conn * option bytes :=
  match Enqueue limit message (write_side s) (used_bytes_ s) with
  | Some (ws, used) => (SetWriteEnabled true (set_write ws used s), Some (NormalizeResponse message))
  | None => (s, None)
  end.

(** ** Steps *)

(** What a step shows: bytes received, requests queued, a limit exceeded, an
    answer, a line put into the write queue by a task or by the loop, bytes sent. *)
Inductive Obs : Type :=
| Received (chunk : bytes)
| Queued (requests : list bytes)
| Rejected
| Answered (request response : bytes)
| Enqueued (by_task : bool) (line : bytes)
| Sent (data : bytes).

Definition too_large : bytes := chars "ERROR Request too large".
Definition busy : bytes := chars "ERROR Server busy".
Definition shown (by_task : bool) (line : option bytes) : list Obs := match line with Some l => [Enqueued by_task l] | None => [] end.

Section steps.
Context (config : IOConfig) (limit : Z).

Inductive step (s : Conn) : list Obs → Conn → Prop :=
(* the event loop *)
| loop_poll r w :
    loop s = Idle → registered s = true → ready_read s = false → ready_write s = false →
    (r = true → read_interest s = true) → (w = true → write_interest s = true) → step s [] (set_ready r w s)
| loop_reap : loop s = Idle → step s [] (drop_event s)
| loop_readable :
    loop s = Idle → ready_read s = true →
    step s [] (set_loop (if read_eof_ s then Leaving false else Reading false 0) (set_ready false (ready_write s) s))
| loop_recv queued n chunk overflow queued' pause rs used :
    loop s = Reading queued n → chunk ≠ [] → size chunk ≤ kReadChunkBytes →
    ReadChunk config limit chunk queued (read_side s) (used_bytes_ s) = (overflow, queued', pause, rs, used) →
    step s (Received chunk :: Queued (drop (length (requests_ (read_side s))) (requests_ rs)) :: (if overflow then [Rejected] else []))
      (set_loop (if overflow then Overflowing else if pause then Pausing queued'
                 else if kReadEventByteBudget <=? n + size chunk then Leaving queued' else Reading queued' (n + size chunk))
        (set_read rs used s))
| loop_closed queued n :
    loop s = Reading queued n → step s [] (set_loop (Leaving queued) (SetReadEnabled false (set_eof s)))
| loop_blocked queued n : loop s = Reading queued n → step s [] (set_loop (Leaving queued) s)
| loop_failed queued n : loop s = Reading queued n → step s [] (set_loop Idle (drop_event s))
| loop_overflow s' line :
    loop s = Overflowing → report limit too_large s = (s', line) →
    step s (shown false line) (set_loop Idle (CloseAfterFlush s'))
| loop_pause queued : loop s = Pausing queued → step s [] (set_loop (Leaving queued) (SetReadEnabled false s))
| loop_schedule :
    loop s = Leaving true → drain_scheduled_ s = false →
    step s [] (set_loop Finishing (set_jobs (jobs s ++ [Taking]) (set_drain true s)))
| loop_busy s' line :
    loop s = Leaving true → drain_scheduled_ s = false → report limit busy s = (s', line) →
    step s (shown false line) (set_loop Idle (drop_event (CloseAfterFlush s')))
| loop_leave queued :
    loop s = Leaving queued → queued = false ∨ drain_scheduled_ s = true → step s [] (set_loop Finishing s)
| loop_finish :
    loop s = Finishing →
    step s [] (set_loop Idle
      (if read_eof_ s && negb (HasPendingRequests s) && negb (drain_scheduled_ s)
       then (if HasPendingOutput s then CloseAfterFlush s else drop_event s) else s))
| loop_write outs result data ws used :
    loop s = Idle → ready_read s = false → ready_write s = true →
    write_loop outs (write_side s) (used_bytes_ s) = (result, data, ws, used) →
    step s [Sent data]
      (match result with
       | WDrained => set_loop Disarming (set_ready false false (set_write ws used s))
       | WBlocked => set_ready false false (set_write ws used s)
       | WFailed => drop_event (set_write ws used s)
       end)
| loop_disarm :
    loop s = Disarming →
    step s [] (set_loop Idle (if close_after_flush_ s then drop_event (SetWriteEnabled false s) else SetWriteEnabled false s))
(* a task *)
| job_take i request resume rs used :
    jobs s !! i = Some Taking → TakeRequest (read_side s) (used_bytes_ s) = Some (request, resume, rs, used) →
    step s [] (set_job i (Taken request resume) (set_read rs used s))
| job_stop i :
    jobs s !! i = Some Taking → TakeRequest (read_side s) (used_bytes_ s) = None →
    step s [] (set_job i Ending (set_drain false s))
| job_resume i request :
    jobs s !! i = Some (Taken request true) → step s [] (set_job i (Taken request false) (SetReadEnabled true s))
| job_process i request response :
    jobs s !! i = Some (Taken request false) → step s [Answered request response] (set_job i (Answering response) s)
| job_enqueue i response ws used :
    jobs s !! i = Some (Answering response) → Enqueue limit response (write_side s) (used_bytes_ s) = Some (ws, used) →
    step s [Enqueued true (NormalizeResponse response)] (set_job i Arming (set_write ws used s))
| job_full i response :
    jobs s !! i = Some (Answering response) → Enqueue limit response (write_side s) (used_bytes_ s) = None →
    step s [] (set_job i Closing s)
| job_arm i : jobs s !! i = Some Arming → step s [] (set_job i Taking (SetWriteEnabled true s))
| job_close i : jobs s !! i = Some Closing → step s [] (set_job i Ending (CloseAfterFlush s))
| job_end i :
    jobs s !! i = Some Ending →
    step s [] (set_job i Done
      (if read_eof_ s && negb (HasPendingRequests s)
       then (let s := CloseAfterFlush s in if HasPendingOutput s then s else Unregister s) else s))
(* other connections, within the budget *)
| others used :
    size (accumulated_ (read_side s)) + request_bytes_ (read_side s) + response_bytes_ (write_side s) ≤ used ≤ limit →
    step s [] (set_used used s).

Inductive run (s0 : Conn) : list Obs → Conn → Prop :=
| run_nil : run s0 [] s0
| run_step os o s s' : run s0 os s → step s o s' → run s0 (os ++ o) s'.
End steps.

(** [ReactorConnection::Create] and [Register]: [used] bytes are in use
    elsewhere. *)
Definition new_connection (used : Z) : Conn :=
  MkConn (MkRead [] [] 0 false false) (MkWrite [] O 0) used false false false true true false false false Idle [].

(** ** Histories *)

Definition received (os : list Obs) : bytes := concat (omap (λ o, match o with Received c => Some c | _ => None end) os).
Definition framed (os : list Obs) : list bytes := concat (omap (λ o, match o with Queued rs => Some rs | _ => None end) os).
Definition answered (os : list Obs) : list (bytes * bytes) := omap (λ o, match o with Answered q r => Some (q, r) | _ => None end) os.
Definition task_lines (os : list Obs) : list bytes := omap (λ o, match o with Enqueued true l => Some l | _ => None end) os.
Definition lines (os : list Obs) : list bytes := omap (λ o, match o with Enqueued _ l => Some l | _ => None end) os.
Definition sent_bytes (os : list Obs) : bytes := concat (omap (λ o, match o with Sent d => Some d | _ => None end) os).

Lemma received_app os os' : received (os ++ os') = received os ++ received os'.
Proof. unfold received. by rewrite omap_app, concat_app. Qed.
Lemma framed_app os os' : framed (os ++ os') = framed os ++ framed os'.
Proof. unfold framed. by rewrite omap_app, concat_app. Qed.
Lemma answered_app os os' : answered (os ++ os') = answered os ++ answered os'.
Proof. apply omap_app. Qed.
Lemma task_lines_app os os' : task_lines (os ++ os') = task_lines os ++ task_lines os'.
Proof. apply omap_app. Qed.
Lemma lines_app os os' : lines (os ++ os') = lines os ++ lines os'.
Proof. apply omap_app. Qed.
Lemma sent_bytes_app os os' : sent_bytes (os ++ os') = sent_bytes os ++ sent_bytes os'.
Proof. unfold sent_bytes. by rewrite omap_app, concat_app. Qed.

(** Requests and responses in the hands of the tasks. *)
Definition taken (js : list Job) : list bytes := omap (λ j, match j with Taken r _ => Some r | _ => None end) js.
Definition answering (js : list Job) : list bytes := omap (λ j, match j with Answering r => Some r | _ => None end) js.
(** A task that has not left its loop. *)
Definition active (j : Job) : bool := match j with Ending | Done => false | _ => true end.
Definition active_jobs (js : list Job) : nat := length (base.filter (λ j, active j = true) js).

Definition total (ls : list bytes) : Z := size (concat ls).
Definition unsent (ws : WriteSide) : bytes := drop (response_offset_ ws) (concat (responses_ ws)).
Definition own (s : Conn) : Z := size (accumulated_ (read_side s)) + request_bytes_ (read_side s) + response_bytes_ (write_side s).

Lemma size_app l l' : size (l ++ l') = size l + size l'.
Proof. unfold size. rewrite length_app. lia. Qed.
Lemma size_nonneg l : 0 ≤ size l.
Proof. unfold size. lia. Qed.
Lemma total_app ls ls' : total (ls ++ ls') = total ls + total ls'.
Proof. unfold total. by rewrite concat_app, size_app. Qed.
Lemma total_single l : total [l] = size l.
Proof. unfold total. cbn. by rewrite app_nil_r. Qed.
Lemma total_nonneg ls : 0 ≤ total ls.
Proof. apply size_nonneg. Qed.

(** ** The critical sections *)

Lemma find_crlf_bound l pos : find_crlf l = Some pos → (pos + 2 ≤ length l)%nat.
Proof.
  revert pos. induction l as [|c l IH]; intros pos; [done|]. cbn. destruct (_ && _) eqn:E.
  - intros [= <-]. apply andb_true_iff in E as [_ E%bool_decide_eq_true]. destruct l; [done|]. cbn. lia.
  - destruct (find_crlf l) as [p|]; [|done]. intros [= <-]. specialize (IH p eq_refl). lia.
Qed.

Lemma find_lf_bound l pos : find_lf l = Some pos → (pos + 1 ≤ length l)%nat.
Proof.
  revert pos. induction l as [|c l IH]; intros pos; [done|]. cbn. case_bool_decide; [intros [= <-]; lia|].
  destruct (find_lf l) as [p|]; [|done]. intros [= <-]. specialize (IH p eq_refl). lia.
Qed.

Lemma find_delimiter_bound l pos d : find_delimiter l = Some (pos, d) → (pos + d ≤ length l)%nat ∧ (1 ≤ d)%nat.
Proof.
  unfold find_delimiter. destruct (find_crlf l) as [p|] eqn:E; [intros [= <- <-]; apply find_crlf_bound in E; lia|].
  destruct (find_lf l) as [p|] eqn:E'; [|done]. intros [= <- <-]. apply find_lf_bound in E'. lia.
Qed.

Section sections.
Context (config : IOConfig) (limit : Z) (Hlimit : 0 ≤ limit ≤ u64_max).

Definition max_bytes : Z := Z.of_nat (max_accumulated_bytes config).

Record read_ok (rs : ReadSide) : Prop := {
  ro_bytes : request_bytes_ rs = total (requests_ rs);
  ro_count : Z.of_nat (length (requests_ rs)) ≤ kMaxPendingFrames;
  ro_queue : request_bytes_ rs ≤ max_bytes;
  ro_buffer : size (accumulated_ rs) ≤ max_bytes
}.
Definition held (rs : ReadSide) : Z := size (accumulated_ rs) + request_bytes_ rs.

Definition nonempty (ls : list bytes) : list bytes := base.filter (λ l, l ≠ []) ls.

Lemma Release_exact n used : 0 ≤ n ≤ used → used ≤ limit → Release n used = used - n.
Proof. intros Hn Hu. unfold Release, u64. apply wrap_small. unfold in_u, u64_max in *. lia. Qed.

Lemma TryAcquire_exact n used : 0 ≤ n → 0 ≤ used ≤ limit →
  TryAcquire limit n used = (if used + n <=? limit then Some (used + n) else None).
Proof.
  intros Hn Hu. unfold TryAcquire, u64. rewrite wrap_small by (unfold in_u, u64_max in *; lia).
  destruct (Z.leb_spec n (limit - used)), (Z.leb_spec (used + n) limit); done || lia.
Qed.

(** A round of the framing loop takes a request and its delimiter. *)
Lemma frame_loop_inv fuel : ∀ queued rs used ovf queued' rs' used',
  frame_loop config fuel queued rs used = (ovf, queued', rs', used') → read_ok rs → held rs ≤ used → used ≤ limit →
  read_ok rs' ∧ read_paused_ rs' = read_paused_ rs ∧ used' - held rs' = used - held rs ∧ used' ≤ used ∧
  ∃ new, requests_ rs' = requests_ rs ++ new ∧ queued' = queued || negb (bool_decide (new = [])) ∧
    (uniform (accumulated_ rs) → (length (accumulated_ rs) < fuel)%nat → ovf = false →
     new = nonempty (requests_of (accumulated_ rs)) ∧ accumulated_ rs' = (split_lines (accumulated_ rs)).2).
Proof.
  induction fuel as [|fuel IH]; intros queued rs used ovf queued' rs' used'; cbn [frame_loop].
  { intros [= <- <- <- <-] Hrs Hle Hl. split_and!; [done..|lia|lia|]. exists []. rewrite app_nil_r, orb_false_r. split_and!; [done..|lia]. }
  destruct (find_delimiter (accumulated_ rs)) as [[pos d]|] eqn:Hfind.
  2: { intros [= <- <- <- <-] Hrs Hle Hl. split_and!; [done..|lia|lia|]. exists []. rewrite app_nil_r, orb_false_r. split_and!; [done..|].
       intros Hu _ _. destruct (first_line (accumulated_ rs)) as [Hs|(x & s & Hs & Hx)].
       - unfold requests_of. by rewrite split_lines_none.
       - exfalso. rewrite Hs in Hfind, Hu. destruct (delimiter_line _ _ Hu Hx) as (_ & len & Hdel & _). congruence. }
  destruct (find_delimiter_bound _ _ _ Hfind) as [Hpos Hd].
  destruct (_ || _ || _) eqn:Hover.
  { intros [= <- <- <- <-] Hrs Hle Hl. split_and!; [done..|lia|lia|]. exists []. rewrite app_nil_r, orb_false_r. by split_and!. }
  apply orb_false_iff in Hover as [[Hlen%Nat.ltb_ge Hcount%Z.leb_gt]%orb_false_iff Hbytes%Z.ltb_ge].
  set (request := take pos (accumulated_ rs)) in *. set (rest := drop (pos + d) (accumulated_ rs)) in *.
  assert (Hrest : size rest = size (accumulated_ rs) - Z.of_nat pos - Z.of_nat d) by (unfold size, rest; rewrite length_drop; lia).
  assert (Hreq : size request = Z.of_nat pos) by (unfold size, request; rewrite length_take; lia).
  intros Hloop Hrs Hle Hl. destruct Hrs as [Hb Hc Hq Ha]. pose proof (total_nonneg (requests_ rs)).
  rewrite Release_exact in Hloop by (unfold held in Hle; pose proof (size_nonneg rest); lia).
  (* what the first line gives, on a uniform buffer *)
  assert (Hline : uniform (accumulated_ rs) → ∃ s, uniform s ∧ rest = s ∧ requests_of (accumulated_ rs) = request :: requests_of s ∧
    (split_lines (accumulated_ rs)).2 = (split_lines s).2).
  { intros Hu. destruct (first_line (accumulated_ rs)) as [Hs|(x & s & Hs & Hx)].
    - unfold find_delimiter in Hfind. by rewrite find_crlf_none, find_lf_none in Hfind.
    - exists s. unfold request, rest. rewrite Hs in Hfind, Hu |- *. destruct (delimiter_line _ _ Hu Hx) as (Hu' & len & Hdel & Htake & Hdrop).
      rewrite Hdel in Hfind. injection Hfind as <- <-. rewrite Htake, Hdrop. unfold requests_of. by rewrite split_lines_line. }
  assert (Hlt : (length (accumulated_ rs) < S fuel → length rest < fuel)%nat) by (unfold size in Hrest; lia).
  case_bool_decide as Hempty.
  - apply IH in Hloop; [|split; cbn; [done|done|done|lia]|unfold held in *; cbn; lia|lia].
    destruct Hloop as (Hok & Hp & Hu & Hle' & new & Hnew & Hq' & Huni). cbn in *. unfold held in Hu |- *. cbn in Hu.
    rewrite Hempty in Hreq. change (size []) with 0 in Hreq. split_and!; [done..|lia|lia|]. exists new. split_and!; [done..|]. intros Hun Hfuel Hovf.
    destruct (Hline Hun) as (s & Hs1 & Hs2 & Hs3 & Hs4). rewrite Hs3, Hs4, Hempty. unfold nonempty. rewrite filter_cons_False by auto.
    rewrite <- Hs2. apply Huni; [by rewrite Hs2|by apply Hlt|done].
  - apply IH in Hloop; [|split; cbn; [rewrite total_app, total_single; lia|rewrite length_app; cbn; lia|unfold max_bytes; lia|lia]|unfold held in *; cbn; lia|lia].
    destruct Hloop as (Hok & Hp & Hu & Hle' & new & Hnew & Hq' & Huni). cbn in *. unfold held in Hu |- *. cbn in Hu.
    split_and!; [done..|lia|lia|]. exists (request :: new). rewrite Hnew, <- (assoc_L (++)). split_and!; [done|by rewrite Hq', orb_true_r|].
    intros Hun Hfuel Hovf. destruct (Hline Hun) as (s & Hs1 & Hs2 & Hs3 & Hs4). rewrite Hs3, Hs4. unfold nonempty. rewrite filter_cons_True by done.
    rewrite <- Hs2. destruct (Huni) as [-> ->]; [by rewrite Hs2|by apply Hlt|done|done].
Qed.

Lemma ReadChunk_inv chunk queued rs used ovf queued' pause rs' used' :
  ReadChunk config limit chunk queued rs used = (ovf, queued', pause, rs', used') → read_ok rs → held rs ≤ used ≤ limit →
  read_ok rs' ∧ used' - held rs' = used - held rs ∧ used' ≤ limit ∧
  ∃ new, requests_ rs' = requests_ rs ++ new ∧ queued' = queued || negb (bool_decide (new = [])) ∧
    (uniform (accumulated_ rs ++ chunk) → ovf = false →
     new = nonempty (requests_of (accumulated_ rs ++ chunk)) ∧ accumulated_ rs' = (split_lines (accumulated_ rs ++ chunk)).2).
Proof.
  unfold ReadChunk. intros H Hrs Hu. assert (Hheld : 0 ≤ held rs).
  { unfold held. rewrite (ro_bytes _ Hrs). pose proof (size_nonneg (accumulated_ rs)). pose proof (total_nonneg (requests_ rs)). lia. }
  assert (Hsame : (ovf, queued', pause, rs', used') = (true, queued, false, rs, used) →
    read_ok rs' ∧ used' - held rs' = used - held rs ∧ used' ≤ limit ∧
    ∃ new, requests_ rs' = requests_ rs ++ new ∧ queued' = queued || negb (bool_decide (new = [])) ∧
      (uniform (accumulated_ rs ++ chunk) → ovf = false →
       new = nonempty (requests_of (accumulated_ rs ++ chunk)) ∧ accumulated_ rs' = (split_lines (accumulated_ rs ++ chunk)).2)).
  { intros [= -> -> _ -> ->]. split_and!; [done|lia|lia|]. exists []. rewrite app_nil_r, orb_false_r. by split_and!. }
  destruct (_ <? _) eqn:Hsize; [by apply Hsame|]. apply Z.ltb_ge in Hsize.
  rewrite TryAcquire_exact in H by (try apply size_nonneg; lia). destruct (_ <=? limit) eqn:Hacq; [|by apply Hsame].
  apply Z.leb_le in Hacq. clear Hsame. destruct (frame_loop _ _ _ _ _) as [[[ovf1 q1] rs1] used1] eqn:Hloop.
  injection H as <- <- _ <- <-. destruct Hrs as [Hb Hc Hq Ha].
  apply frame_loop_inv in Hloop;
    [|split; cbn; [done..|rewrite size_app; unfold max_bytes; lia]|unfold held in *; cbn; rewrite size_app; lia|done].
  destruct Hloop as ([Hb1 Hc1 Hq1 Ha1] & Hp & Hu1 & Hle & new & Hnew & Hq' & Huni). unfold held in *. cbn in *. rewrite size_app in Hu1.
  split_and!; [split; cbn; done|lia|lia|]. exists new. split_and!; [done..|]. intros Hun Hovf. apply Huni; [done|lia|done].
Qed.

Lemma TakeRequest_inv rs used request resume rs' used' :
  TakeRequest rs used = Some (request, resume, rs', used') → read_ok rs → held rs ≤ used ≤ limit →
  read_ok rs' ∧ used' - held rs' = used - held rs ∧ used' ≤ limit ∧ requests_ rs = request :: requests_ rs' ∧ accumulated_ rs' = accumulated_ rs.
Proof.
  unfold TakeRequest. destruct (requests_ rs) as [|r rest] eqn:Hr; [done|]. intros [= -> _ <- <-] [Hb Hc Hq Ha] Hu.
  rewrite Hr in Hb, Hc. change (request :: rest) with ([request] ++ rest) in Hb. rewrite total_app, total_single in Hb. cbn in Hc.
  pose proof (size_nonneg request). pose proof (total_nonneg rest). unfold held in *. cbn. pose proof (size_nonneg (accumulated_ rs)).
  rewrite Release_exact by lia. split_and!; [split; cbn; lia|lia|lia|done|done].
Qed.

Record write_ok (ws : WriteSide) : Prop := {
  wo_bytes : response_bytes_ ws = total (responses_ ws) - Z.of_nat (response_offset_ ws);
  wo_offset : match responses_ ws with [] => response_offset_ ws = O | r :: _ => (response_offset_ ws < length r)%nat end;
  wo_queue : response_bytes_ ws ≤ kMaxWriteQueueBytes;
  wo_lines : Forall (λ r, (0 < length r)%nat) (responses_ ws)
}.

Lemma write_ok_nonneg ws : write_ok ws → 0 ≤ response_bytes_ ws.
Proof.
  intros [-> Ho _ _]. destruct (responses_ ws) as [|r rest]; [by rewrite Ho|].
  change (r :: rest) with ([r] ++ rest). rewrite total_app, total_single. pose proof (total_nonneg rest). unfold size. lia.
Qed.

Lemma NormalizeResponse_nonempty r : (2 ≤ length (NormalizeResponse r))%nat.
Proof. unfold NormalizeResponse. rewrite length_app. cbn. lia. Qed.

Lemma Enqueue_inv response ws used ws' used' :
  Enqueue limit response ws used = Some (ws', used') → write_ok ws → response_bytes_ ws ≤ used ≤ limit →
  write_ok ws' ∧ used' - response_bytes_ ws' = used - response_bytes_ ws ∧ used' ≤ limit ∧
  unsent ws' = unsent ws ++ NormalizeResponse response.
Proof.
  intros H Hws Hu. pose proof (write_ok_nonneg _ Hws). destruct Hws as [Hb Ho Hq Hl]. unfold Enqueue in H.
  destruct (_ <? _) eqn:Hsize; [done|]. apply Z.ltb_ge in Hsize. pose proof (NormalizeResponse_nonempty response) as Hlen.
  rewrite TryAcquire_exact in H by (try apply size_nonneg; lia). destruct (_ <=? limit) eqn:Hacq; [|done]. apply Z.leb_le in Hacq.
  injection H as <- <-. cbn. split_and!; [|lia|done|].
  - split; cbn; [rewrite total_app, total_single; lia| |done|apply Forall_app; split; [done|repeat constructor; lia]].
    destruct (responses_ ws); cbn; lia.
  - unfold unsent. cbn. rewrite concat_app. cbn. rewrite app_nil_r. apply drop_app_le.
    destruct (responses_ ws) as [|r rest]; [rewrite Ho; cbn; lia|]. cbn. rewrite length_app. lia.
Qed.

Lemma write_loop_inv outs : ∀ ws used result data ws' used',
  write_loop outs ws used = (result, data, ws', used') → write_ok ws → response_bytes_ ws ≤ used ≤ limit →
  write_ok ws' ∧ used' - response_bytes_ ws' = used - response_bytes_ ws ∧ used' ≤ used ∧ unsent ws = data ++ unsent ws' ∧
  (result = WDrained → responses_ ws' = []).
Proof.
  induction outs as [|out outs IH]; intros ws used result data ws' used' H Hws Hu; cbn [write_loop] in H.
  { destruct (responses_ ws) eqn:Hr; injection H as <- <- <- <-; by split_and!. }
  destruct (responses_ ws) as [|r rest] eqn:Hr; [injection H as <- <- <- <-; by split_and!|].
  destruct out as [n| | |]; [|by eapply IH|injection H as <- <- <- <-; by split_and!..].
  case_bool_decide as Hd; [injection H as <- <- <- <-; by split_and!|].
  set (d := take n (drop (response_offset_ ws) r)) in *. set (off := (response_offset_ ws + length d)%nat) in *.
  destruct (write_loop _ _ _) as [[[res1 data1] ws1] used1] eqn:Hloop. injection H as <- <- <- <-.
  destruct Hws as [Hb Ho Hq Hl]. rewrite Hr in Hb, Ho, Hl. change (r :: rest) with ([r] ++ rest) in Hb. rewrite total_app, total_single in Hb.
  pose proof (total_nonneg rest). assert (Hoff : (off ≤ length r)%nat) by (unfold off, d; rewrite length_take, length_drop; lia).
  assert (Hsd : size d = Z.of_nat off - Z.of_nat (response_offset_ ws)) by (unfold size, off; lia). pose proof (size_nonneg d).
  assert (Hrb : size d ≤ response_bytes_ ws) by (unfold size in *; lia).
  rewrite Release_exact in Hloop by lia.
  assert (Hsplit : drop (response_offset_ ws) r = d ++ drop off r).
  { unfold off, d. rewrite <- drop_drop. rewrite length_take.
    destruct (Nat.le_gt_cases n (length (drop (response_offset_ ws) r))).
    - rewrite Nat.min_l by done. by rewrite take_drop.
    - rewrite (take_ge (drop _ r)), Nat.min_r, drop_all, app_nil_r by lia. done. }
  apply IH in Hloop.
  - destruct Hloop as (Hok & Hu1 & Hle & Hun & Hdr). cbn in Hu1. split_and!; [done|lia|lia| |done].
    unfold unsent in Hun |- *. cbn in Hun. rewrite Hr. cbn [concat]. rewrite drop_app_le by lia. rewrite Hsplit, <- !(assoc_L (++)).
    f_equal. rewrite <- Hun. destruct (Nat.eqb_spec off (length r)) as [->|]; [by rewrite drop_all|]. cbn [concat]. by rewrite drop_app_le by lia.
  - apply Forall_cons in Hl as [Hl1 Hl2]. split; cbn [responses_ response_offset_ response_bytes_]; [| |lia|by case_match; [|constructor]].
    + destruct (Nat.eqb_spec off (length r)); [unfold size in *; cbn; lia|]. change (r :: rest) with ([r] ++ rest).
      rewrite total_app, total_single. lia.
    + destruct (Nat.eqb_spec off (length r)); [|lia]. destruct rest as [|r2 rest]; [done|]. by apply Forall_cons in Hl2 as [Hl2 _].
  - cbn. lia.
Qed.

(** ** The invariant *)

(** What the tasks hold when one of them is in its loop. *)
Lemma inactive_nothing js : active_jobs js = O → taken js = [] ∧ answering js = [].
Proof.
  unfold active_jobs. induction js as [|j js IH]; [done|]. rewrite filter_cons. destruct j; cbn; try done; apply IH.
Qed.

Lemma active_jobs_app js js' : active_jobs (js ++ js') = (active_jobs js + active_jobs js')%nat.
Proof. unfold active_jobs. by rewrite filter_app, length_app. Qed.

Lemma only_active js i j j' :
  js !! i = Some j → active j = true → (active_jobs js ≤ 1)%nat →
  taken (<[i := j']> js) = taken [j'] ∧ answering (<[i := j']> js) = answering [j'] ∧ active_jobs (<[i := j']> js) = active_jobs [j'].
Proof.
  intros Hi Ha Hle. pose proof (take_drop_middle js i j Hi) as Hjs. rewrite insert_take_drop by (by eapply lookup_lt_Some).
  rewrite <- Hjs in Hle. change (j :: drop (S i) js) with ([j] ++ drop (S i) js) in Hle. rewrite !active_jobs_app in Hle.
  assert (Hj : active_jobs [j] = 1%nat) by (unfold active_jobs; rewrite filter_cons, decide_True by done; done).
  destruct (inactive_nothing (take i js)) as [Ht1 Ha1]; [lia|]. destruct (inactive_nothing (drop (S i) js)) as [Ht2 Ha2]; [lia|].
  change (j' :: drop (S i) js) with ([j'] ++ drop (S i) js). unfold taken, answering in *. rewrite !omap_app, !active_jobs_app, Ht1, Ht2, Ha1, Ha2.
  cbn [app]. rewrite !app_nil_r. split_and!; [done|done|lia].
Qed.

Lemma inactive_insert js i j j' :
  js !! i = Some j → active j = false → active j' = false →
  taken (<[i := j']> js) = taken js ∧ answering (<[i := j']> js) = answering js ∧ active_jobs (<[i := j']> js) = active_jobs js.
Proof.
  intros Hi Ha Ha'. pose proof (take_drop_middle js i j Hi) as Hjs. rewrite insert_take_drop by (by eapply lookup_lt_Some).
  rewrite <- Hjs at 3 6 9. unfold taken, answering, active_jobs. rewrite !omap_app, !filter_app, !length_app.
  by destruct j, j'.
Qed.

Lemma no_active js k j : active_jobs js = O → js !! k = Some j → active j = false.
Proof.
  unfold active_jobs. intros Hz Hk. destruct (active j) eqn:Ha; [|done].
  assert (Hin : j ∈ base.filter (λ j, active j = true) js) by (apply list_elem_of_filter; split; [done|by eapply list_elem_of_lookup_2]).
  destruct (base.filter _ _); [by apply not_elem_of_nil in Hin|done].
Qed.

Lemma active_unique js i k j j' :
  js !! i = Some j → active j = true → js !! k = Some j' → active j' = true → (active_jobs js ≤ 1)%nat → k = i.
Proof.
  intros Hi Ha Hk Ha' Hle. destruct (decide (k = i)) as [|Hne]; [done|]. exfalso.
  destruct (only_active js i j Done Hi Ha Hle) as (_ & _ & Hz). rewrite (no_active (<[i := Done]> js) k j') in Ha'; [done|done|].
  by rewrite list_lookup_insert_ne.
Qed.

(** Answers are queued in order; one can be dropped, and is the last. *)
Definition answers_queued (drain : bool) (js : list Job) (os : list Obs) : Prop :=
  task_lines os ++ (NormalizeResponse <$> answering js) = NormalizeResponse <$> (answered os).*2 ∨
  drain = true ∧ (∃ x, task_lines os ++ [x] = NormalizeResponse <$> (answered os).*2) ∧
  (∀ i j, js !! i = Some j → active j = true → j = Closing).

Record data_ok (rs : ReadSide) (ws : WriteSide) (used : Z) (drain : bool) (js : list Job) (os : list Obs) : Prop := {
  do_read : read_ok rs;
  do_write : write_ok ws;
  do_used : held rs + response_bytes_ ws ≤ used ≤ limit;
  do_active : (active_jobs js ≤ if drain then 1 else 0)%nat;
  do_framed : framed os = (answered os).*1 ++ taken js ++ requests_ rs;
  do_stream : Rejected ∉ os → uniform (received os) →
    framed os = nonempty (requests_of (received os)) ∧ accumulated_ rs = (split_lines (received os)).2;
  do_answers : answers_queued drain js os;
  do_sent : sent_bytes os ++ unsent ws = concat (lines os)
}.
Definition conn_data (s : Conn) (os : list Obs) : Prop :=
  data_ok (read_side s) (write_side s) (used_bytes_ s) (drain_scheduled_ s) (jobs s) os.

(** The loop will schedule a task, or close. *)
Definition will_schedule (l : Loop) : bool :=
  match l with Reading q _ | Pausing q | Leaving q => q | Overflowing => true | _ => false end.

Definition conn_progress (s : Conn) : Prop :=
  (requests_ (read_side s) ≠ [] →
   drain_scheduled_ s = true ∨ will_schedule (loop s) = true ∨ close_after_flush_ s = true ∨ registered s = false) ∧
  (drain_scheduled_ s = true → active_jobs (jobs s) = 1%nat ∨ close_after_flush_ s = true).

Section preservation.
Context (rs : ReadSide) (ws : WriteSide) (used : Z) (drain : bool) (js : list Job) (os : list Obs).
Hypothesis Hok : data_ok rs ws used drain js os.

Lemma read_used : held rs ≤ used ≤ limit.
Proof. destruct Hok as [_ Hw Hu _ _ _ _ _]. pose proof (write_ok_nonneg _ Hw). lia. Qed.

Lemma held_nonneg : 0 ≤ held rs.
Proof.
  unfold held. rewrite (ro_bytes _ (do_read _ _ _ _ _ _ Hok)). pose proof (size_nonneg (accumulated_ rs)).
  pose proof (total_nonneg (requests_ rs)). lia.
Qed.

Lemma data_recv chunk queued ovf queued' pause rs' used' :
  ReadChunk config limit chunk queued rs used = (ovf, queued', pause, rs', used') →
  data_ok rs' ws used' drain js (os ++ Received chunk :: Queued (drop (length (requests_ rs)) (requests_ rs')) :: (if ovf then [Rejected] else [])) ∧
  (queued = true → queued' = true) ∧ (requests_ rs' ≠ [] → requests_ rs = [] → queued' = true).
Proof.
  intros H. apply ReadChunk_inv in H as (Hrs' & Hu' & Hl' & new & Hnew & Hq & Huni); [|by destruct Hok|apply read_used].
  rewrite Hnew, drop_app_length. destruct Hok as [Hr Hw Hu Ha Hf Hs Hans Hsent]. split; [split|].
  - done.
  - done.
  - lia.
  - done.
  - rewrite framed_app, answered_app, Hf, Hnew. unfold framed at 1, answered at 2. cbn.
    destruct ovf; cbn; by rewrite !app_nil_r, <- !(assoc_L (++)).
  - intros Hrej Hun. destruct ovf; [exfalso; apply Hrej; set_solver|].
    assert (Hrec : received (os ++ [Received chunk; Queued new]) = received os ++ chunk)
      by (rewrite received_app; unfold received at 2; cbn; by rewrite app_nil_r).
    assert (Hfr : framed (os ++ [Received chunk; Queued new]) = framed os ++ new)
      by (rewrite framed_app; unfold framed at 2; cbn; by rewrite app_nil_r).
    rewrite Hrec in Hun |- *. rewrite Hfr. destruct Hs as [Hs1 Hs2]; [set_solver|by eapply uniform_prefix|].
    destruct (Huni) as [Hn1 Hn2]; [rewrite Hs2; by apply uniform_rest|done|]. rewrite Hn1, Hn2, Hs1, Hs2.
    unfold requests_of. rewrite (split_lines_app (received os) chunk). cbn [fst snd]. unfold nonempty. by rewrite fmap_app, filter_app.
  - unfold answers_queued in *. rewrite task_lines_app, answered_app. by destruct ovf; cbn; rewrite !app_nil_r.
  - rewrite sent_bytes_app, lines_app. unfold sent_bytes at 2. by destruct ovf; cbn; rewrite !app_nil_r.
  - rewrite Hq. split; [by intros ->|]. intros Hne Hnil. rewrite Hnil in Hne. cbn in Hne.
    by rewrite (bool_decide_eq_false_2 (new = [])), orb_true_r by done.
Qed.

Lemma data_enqueue_loop message ws' used' :
  Enqueue limit message ws used = Some (ws', used') →
  data_ok rs ws' used' drain js (os ++ [Enqueued false (NormalizeResponse message)]).
Proof.
  intros H. pose proof held_nonneg. destruct Hok as [Hr Hw Hu Ha Hf Hs Hans Hsent].
  apply Enqueue_inv in H as (Hw' & Hu' & Hl' & Hun); [|done|lia]. split; try done.
  - lia.
  - rewrite framed_app, answered_app. cbn. by rewrite !app_nil_r.
  - intros Hrej. rewrite framed_app, received_app. unfold framed at 2, received at 2 3 4. cbn. rewrite !app_nil_r. apply Hs. set_solver.
  - unfold answers_queued in *. rewrite task_lines_app, answered_app. cbn. by rewrite !app_nil_r.
  - rewrite sent_bytes_app, lines_app, Hun, concat_app. unfold sent_bytes at 2. cbn. by rewrite !app_nil_r, (assoc_L (++)), Hsent.
Qed.

Lemma data_write outs result data ws' used' :
  write_loop outs ws used = (result, data, ws', used') → data_ok rs ws' used' drain js (os ++ [Sent data]).
Proof.
  intros H. pose proof held_nonneg. destruct Hok as [Hr Hw Hu Ha Hf Hs Hans Hsent].
  apply write_loop_inv in H as (Hw' & Hu' & Hl' & Hun & _); [|done|lia]. split; try done.
  - lia.
  - rewrite framed_app, answered_app. cbn. by rewrite !app_nil_r.
  - intros Hrej. rewrite framed_app, received_app. unfold framed at 2, received at 2 3 4. cbn. rewrite !app_nil_r. apply Hs. set_solver.
  - unfold answers_queued in *. rewrite task_lines_app, answered_app. cbn. by rewrite !app_nil_r.
  - rewrite sent_bytes_app, lines_app. unfold sent_bytes at 2. cbn. by rewrite !app_nil_r, <- (assoc_L (++)), <- Hun.
Qed.

Lemma data_others used' : held rs + response_bytes_ ws ≤ used' ≤ limit → data_ok rs ws used' drain js os.
Proof. intros Hu. by destruct Hok. Qed.

Lemma data_schedule : drain = false → data_ok rs ws used true (js ++ [Taking]) os ∧ active_jobs (js ++ [Taking]) = 1%nat.
Proof.
  intros ->. destruct Hok as [Hr Hw Hu Ha Hf Hs Hans Hsent]. rewrite active_jobs_app. change (active_jobs [Taking]) with 1%nat.
  split; [|lia]. split; try done.
  - rewrite active_jobs_app. change (active_jobs [Taking]) with 1%nat. lia.
  - rewrite Hf. unfold taken. rewrite omap_app. cbn. by rewrite app_nil_r.
  - left. destruct Hans as [Hans|[[=] _]]. unfold answering. rewrite omap_app. cbn. by rewrite app_nil_r.
Qed.

(** The active task, when there is one. *)
Lemma active_task i j :
  js !! i = Some j → active j = true →
  drain = true ∧ taken js = taken [j] ∧ answering js = answering [j] ∧ active_jobs js = 1%nat ∧
  (j = Closing ∨ task_lines os ++ (NormalizeResponse <$> answering [j]) = NormalizeResponse <$> (answered os).*2).
Proof.
  intros Hi Ha. pose proof (do_active _ _ _ _ _ _ Hok) as Hle.
  assert (Hle1 : (active_jobs js ≤ 1)%nat) by (destruct drain; lia).
  destruct (only_active js i j j Hi Ha Hle1) as (Ht & Han & Hac). rewrite list_insert_id in Ht, Han, Hac by done.
  assert (Hone : active_jobs [j] = 1%nat) by (unfold active_jobs; by rewrite filter_cons, decide_True by done).
  split_and!; [destruct drain; [done|lia]|done|done|lia|].
  destruct (do_answers _ _ _ _ _ _ Hok) as [H|(_ & _ & H)]; [right; by rewrite <- Han|left; by eapply H].
Qed.

(** The active task moves on. *)
Lemma data_task i j j' rs' ws' used' o :
  js !! i = Some j → active j = true → active j' = true → j ≠ Closing →
  read_ok rs' → write_ok ws' → held rs' + response_bytes_ ws' ≤ used' ≤ limit → accumulated_ rs' = accumulated_ rs →
  framed o = [] → received o = [] →
  taken [j] ++ requests_ rs = (answered o).*1 ++ taken [j'] ++ requests_ rs' →
  task_lines o ++ (NormalizeResponse <$> answering [j']) = (NormalizeResponse <$> answering [j]) ++ (NormalizeResponse <$> (answered o).*2) →
  sent_bytes o = [] → unsent ws' = unsent ws ++ concat (lines o) →
  data_ok rs' ws' used' drain (<[i := j']> js) (os ++ o).
Proof.
  intros Hi Ha Ha' Hne Hr' Hw' Hu' Hacc Hfo Hro Hreq Hans' Hso Hun.
  destruct (active_task i j Hi Ha) as (Hd & Ht & Han & Hone & [?|Hq]); [done|].
  destruct (only_active js i j j' Hi Ha) as (Ht' & Han' & Hac'); [lia|].
  assert (Hone' : active_jobs [j'] = 1%nat) by (unfold active_jobs; by rewrite filter_cons, decide_True by done).
  destruct Hok as [Hr Hw Hu Hle Hf Hs Hans Hsent]. split; try done.
  - rewrite Hac', Hone', Hd. done.
  - rewrite framed_app, answered_app, Hf, Hfo, Ht, Ht', app_nil_r, fmap_app, <- (assoc_L (++)). by f_equal.
  - intros Hrej. rewrite framed_app, received_app, Hfo, Hro, !app_nil_r, Hacc. apply Hs. set_solver.
  - left. by rewrite task_lines_app, answered_app, Han', !fmap_app, <- (assoc_L (++)), Hans', (assoc_L (++)), Hq.
  - by rewrite sent_bytes_app, lines_app, Hso, app_nil_r, Hun, (assoc_L (++)), Hsent, concat_app.
Qed.

(** A task leaves its loop, or drops its answer. *)
Lemma data_leave i j j' drain' :
  js !! i = Some j → active j = true → active j' = false → taken [j] = [] → answering [j] = [] → (drain' = false → j ≠ Closing) →
  drain' = false ∨ drain' = drain →
  data_ok rs ws used drain' (<[i := j']> js) os.
Proof.
  intros Hi Ha Ha' Htj Haj Hd' Hdd. destruct (active_task i j Hi Ha) as (Hd & Ht & Han & Hone & Hq).
  destruct (only_active js i j j' Hi Ha) as (Ht' & Han' & Hac'); [lia|].
  assert (Hnone : active_jobs [j'] = O) by (unfold active_jobs; by rewrite filter_cons, decide_False by (by rewrite Ha')).
  destruct (inactive_nothing [j'] Hnone) as [Htj' Haj']. destruct Hok as [Hr Hw Hu Hle Hf Hs Hans Hsent]. split; try done.
  - rewrite Hac', Hnone. lia.
  - by rewrite Hf, Ht, Ht', Htj, Htj'.
  - unfold answers_queued. rewrite Han', Haj'. destruct Hans as [Hans|(_ & Hx & _)].
    + left. by rewrite <- Hans, Han, Haj.
    + destruct Hdd as [->| ->].
      * left. destruct Hq as [Hc|Hq]; [by destruct (Hd' eq_refl)|]. by rewrite Haj in Hq.
      * right. split_and!; [done|done|]. intros k jk Hk Hak. rewrite (no_active (<[i := j']> js) k jk) in Hak; [done|lia|done].
Qed.

Lemma data_full i response : js !! i = Some (Answering response) → data_ok rs ws used drain (<[i := Closing]> js) os.
Proof.
  intros Hi. destruct (active_task i _ Hi eq_refl) as (Hd & Ht & Han & Hone & [[=]|Hq]).
  destruct (only_active js i _ Closing Hi eq_refl) as (Ht' & Han' & Hac'); [lia|].
  destruct Hok as [Hr Hw Hu Hle Hf Hs Hans Hsent]. split; try done.
  - by rewrite Hac', Hd.
  - by rewrite Hf, Ht, Ht'.
  - right. split_and!; [done|eexists; exact Hq|]. intros k jk Hk Hak.
    assert (Hc : <[i := Closing]> js !! i = Some Closing) by (apply list_lookup_insert_eq; by eapply lookup_lt_Some).
    assert (k = i) as -> by (eapply (active_unique (<[i := Closing]> js)); [exact Hc|done|done|done|by rewrite Hac']). congruence.
Qed.

Lemma data_done i : js !! i = Some Ending → data_ok rs ws used drain (<[i := Done]> js) os.
Proof.
  intros Hi. destruct (inactive_insert js i Ending Done Hi eq_refl eq_refl) as (Ht & Ha & Hac).
  destruct Hok as [Hr Hw Hu Hle Hf Hs Hans Hsent]. split; try done.
  - by rewrite Hac.
  - by rewrite Hf, Ht.
  - unfold answers_queued. rewrite Ha. destruct Hans as [Hans|(Hd & Hx & Hall)]; [by left|right]. split_and!; [done|done|].
    intros k jk Hk Hak. apply list_lookup_insert_Some in Hk as [(<- & <- & _)|[_ Hk]]; [done|by eapply Hall].
Qed.
End preservation.

(** ** Every step keeps it *)

Lemma conn_report message s os s' line :
  report limit message s = (s', line) → conn_data s os →
  conn_data s' (os ++ shown false line) ∧ requests_ (read_side s') = requests_ (read_side s) ∧
  drain_scheduled_ s' = drain_scheduled_ s ∧ jobs s' = jobs s.
Proof.
  unfold report. destruct (Enqueue _ _ _ _) as [[ws used]|] eqn:E; intros [= <- <-] Hok.
  - split; [|done]. by eapply data_enqueue_loop.
  - cbn [shown]. by rewrite app_nil_r.
Qed.

Lemma data_step s os o s' : conn_data s os → step config limit s o s' → conn_data s' (os ++ o).
Proof.
  intros Hok Hstep. unfold conn_data in *. destruct Hstep; rewrite ?app_nil_r; try exact Hok.
  all: try (match goal with H : report _ _ _ = _ |- _ => destruct (conn_report _ _ _ _ _ H Hok) as [Hr _]; exact Hr end).
  - by eapply data_recv.
  - exact (proj1 (data_schedule _ _ _ _ _ _ Hok ltac:(assumption))).
  - by repeat case_match.
  - destruct result; by eapply data_write.
  - by case_match.
  - destruct (TakeRequest_inv _ _ _ _ _ _ H0 (do_read _ _ _ _ _ _ Hok) (read_used _ _ _ _ _ _ Hok)) as (Hr & Hu & Hl & Hreq & Hacc).
    rewrite <- (app_nil_r os). eapply (data_task _ _ _ _ _ _ Hok); try done.
    + apply (do_write _ _ _ _ _ _ Hok).
    + pose proof (do_used _ _ _ _ _ _ Hok). cbn. lia.
    + cbn. by rewrite app_nil_r.
  - eapply (data_leave _ _ _ _ _ _ Hok); [done..| |by left]. done.
  - rewrite <- (app_nil_r os). eapply (data_task _ _ _ _ _ _ Hok); try done;
      [apply (do_read _ _ _ _ _ _ Hok)|apply (do_write _ _ _ _ _ _ Hok)|apply (do_used _ _ _ _ _ _ Hok)|cbn; by rewrite app_nil_r].
  - eapply (data_task _ _ _ _ _ _ Hok); try done;
      [apply (do_read _ _ _ _ _ _ Hok)|apply (do_write _ _ _ _ _ _ Hok)|apply (do_used _ _ _ _ _ _ Hok)|cbn; by rewrite app_nil_r].
  - destruct (Enqueue_inv _ _ _ _ _ H0 (do_write _ _ _ _ _ _ Hok)) as (Hw & Hu & Hl & Hun).
    { pose proof (do_used _ _ _ _ _ _ Hok). pose proof (held_nonneg _ _ _ _ _ _ Hok). lia. }
    eapply (data_task _ _ _ _ _ _ Hok); try done;
      [apply (do_read _ _ _ _ _ _ Hok)|pose proof (do_used _ _ _ _ _ _ Hok); cbn; lia|cbn; by rewrite Hun, app_nil_r].
  - by eapply data_full.
  - rewrite <- (app_nil_r os). eapply (data_task _ _ _ _ _ _ Hok); try done;
      [apply (do_read _ _ _ _ _ _ Hok)|apply (do_write _ _ _ _ _ _ Hok)|apply (do_used _ _ _ _ _ _ Hok)|cbn; by rewrite app_nil_r].
  - match goal with H : jobs s !! _ = _ |- _ => destruct (active_task _ _ _ _ _ _ Hok _ _ H eq_refl) as (Hd & _) end.
    eapply (data_leave _ _ _ _ _ _ Hok); [done..|cbn; congruence|by right].
  - assert (Hd : data_ok (read_side s) (write_side s) (used_bytes_ s) (drain_scheduled_ s) (<[i:=Done]> (jobs s)) os) by (by eapply data_done).
    cbv zeta. destruct (read_eof_ s && _); [destruct (HasPendingOutput _)|]; exact Hd.
  - eapply data_others; [exact Hok|]. cbn. unfold held. cbn. lia.
Qed.

Lemma still_active s os i j j' :
  conn_data s os → jobs s !! i = Some j → active j = true → active j' = true →
  drain_scheduled_ s = true ∧ active_jobs (<[i := j']> (jobs s)) = 1%nat.
Proof.
  intros Hok Hi Ha Ha'. destruct (active_task _ _ _ _ _ _ Hok i j Hi Ha) as (Hd & _ & _ & Hone & _).
  destruct (only_active (jobs s) i j j' Hi Ha) as (_ & _ & ->); [lia|]. split; [done|].
  unfold active_jobs. by rewrite filter_cons, decide_True by done.
Qed.

(** One of the four ways in which queued requests are taken care of. *)
Ltac pick := cbn in *; solve [left; done | right; done | right; left; done | right; right; left; done | right; right; right; done | done | congruence | lia].
Ltac keep Hp1 Hp2 :=
  split;
  [ intros Hne; destruct (Hp1 Hne) as [?|[Hl|[?|?]]];
    try (match goal with H : loop _ = _ |- _ => rewrite H in Hl; cbn in Hl end; try subst); pick
  | intros Hdr; destruct (Hp2 Hdr); pick ].

Lemma progress_step s os o s' : conn_data s os → conn_progress s → step config limit s o s' → conn_progress s'.
Proof.
  intros Hok Hp Hstep. unfold conn_progress in *. destruct Hp as [Hp1 Hp2]. pose proof (do_active _ _ _ _ _ _ Hok) as Hact.
  destruct Hstep.
  all: try (match goal with H : report _ _ _ = _ |- _ => destruct (conn_report _ _ _ _ _ H Hok) as (_ & Hr1 & Hr2 & Hr3) end).
  all: cbn [set_loop set_read set_write set_drain set_eof set_closing set_jobs set_used set_job set_ready SetReadEnabled
    SetWriteEnabled Unregister drop_event CloseAfterFlush read_side write_side loop drain_scheduled_ close_after_flush_ registered
    jobs will_schedule].
  all: try solve [keep Hp1 Hp2].
  all: try (match goal with H : jobs ?c !! ?i = Some ?j |- context [<[?i := ?j']> (jobs ?c)] =>
    destruct (still_active c os i j j' Hok H eq_refl eq_refl) as [Hds ->]; split; [|by left]; intros _; by left end).
  - match goal with H : ReadChunk _ _ _ _ _ _ = _ |- _ => destruct (data_recv _ _ _ _ _ _ Hok _ _ _ _ _ _ _ H) as (_ & Hq1 & Hq2) end.
    split; [|exact Hp2]. intros Hne.
    assert (Hw : ∀ l : Loop, will_schedule (if overflow then Overflowing else if pause then Pausing queued' else
      if kReadEventByteBudget <=? n + size chunk then Leaving queued' else Reading queued' (n + size chunk)) = overflow || queued')
      by (intros _; by repeat case_match).
    rewrite (Hw Idle). destruct (decide (requests_ (read_side s) = [])) as [He|He]; [rewrite (Hq2 Hne He), orb_true_r; auto|].
    destruct (Hp1 He) as [?|[Hl|[?|?]]]; auto. match goal with H : loop s = _ |- _ => rewrite H in Hl end.
    rewrite (Hq1 Hl), orb_true_r. auto.
  - rewrite Hr1, Hr2, Hr3. auto.
  - destruct (data_schedule _ _ _ _ _ _ Hok ltac:(assumption)) as [_ ->]. auto.
  - rewrite Hr1, Hr2, Hr3. auto.
  - split; [|exact Hp2]. intros Hne. destruct (Hp1 Hne) as [?|[Hl|[?|?]]]; auto.
    match goal with H : loop s = _ |- _ => rewrite H in Hl end. cbn in Hl. subst. by destruct H0 as [?|?]; [|left].
  - destruct (read_eof_ s && _ && _); [destruct (HasPendingOutput s)|]; keep Hp1 Hp2.
  - destruct result; keep Hp1 Hp2.
  - destruct (close_after_flush_ s) eqn:Hc; cbn; rewrite ?Hc; keep Hp1 Hp2.
  - split; [|done]. intros Hne. exfalso. apply Hne.
    match goal with H : TakeRequest _ _ = None |- _ => unfold TakeRequest in H; by destruct (requests_ (read_side s)) end.
  - cbv zeta. destruct (inactive_insert (jobs s) i Ending Done) as (_ & _ & Hj); [done..|].
    destruct (read_eof_ s && _); [destruct (HasPendingOutput _)|]; cbn; rewrite Hj; keep Hp1 Hp2.
Qed.
End sections.

(** ** The contract *)

Section contract.
Context (config : IOConfig) (limit used0 : Z) (Hlimit : 0 ≤ limit ≤ u64_max) (Hused : 0 ≤ used0 ≤ limit).

Lemma conn_data_new : conn_data config limit (new_connection used0) [].
Proof.
  assert (Hr : read_ok config (read_side (new_connection used0))).
  { split; [done|..]; cbn; unfold max_bytes, kMaxPendingFrames, size; cbn; lia. }
  assert (Hw : write_ok (write_side (new_connection used0))) by (split; [done|done|by vm_compute|constructor]).
  split; try done. by left.
Qed.

Lemma run_data os s : run config limit (new_connection used0) os s → conn_data config limit s os ∧ conn_progress s.
Proof.
  induction 1 as [|os o s s' _ [IH1 IH2] Hstep]; [split; [apply conn_data_new|done]|].
  split; [by eapply data_step|by eapply (progress_step config limit)].
Qed.

(** C34: a connection answers in order.  Whatever the interleaving of the event
    loop, the tasks of the pool and the other connections, the requests framed
    so far are those answered, the one a task holds and those queued, in this
    order and each once; they are the lines of what was received, until a limit
    rejects some; the answers enter the write queue in the same order, only the
    last possibly missing (when the queue is full); and what was sent, followed
    by what is left to send, is exactly the queued lines. *)
Theorem connection_in_order os s :
  run config limit (new_connection used0) os s →
  framed os = (answered os).*1 ++ taken (jobs s) ++ requests_ (read_side s) ∧ (length (taken (jobs s)) ≤ 1)%nat ∧
  (Rejected ∉ os → uniform (received os) → framed os = nonempty (requests_of (received os))) ∧
  (∃ n, (length (answered os) ≤ S n)%nat ∧ task_lines os = NormalizeResponse <$> take n (answered os).*2) ∧
  sent_bytes os ++ unsent (write_side s) = concat (lines os).
Proof.
  intros [[Hr Hw Hu Ha Hf Hs Hans Hsent] _]%run_data.
  assert (Htk : (length (taken (jobs s)) + length (answering (jobs s)) ≤ active_jobs (jobs s))%nat).
  { unfold active_jobs, taken, answering. clear. induction (jobs s) as [|j js IH]; [done|]. rewrite filter_cons. destruct j; cbn in *; case_decide; cbn in *; done || lia. }
  assert (Hle : (active_jobs (jobs s) ≤ 1)%nat) by (destruct (drain_scheduled_ s); lia).
  split_and!; [done|lia|intros; by apply Hs| |done].
  destruct Hans as [Hq|(_ & [x Hq] & _)]; exists (length (task_lines os)).
  - apply (f_equal length) in Hq as Hlen. rewrite length_app, !length_fmap in Hlen. split; [lia|].
    by rewrite fmap_take, <- Hq, take_app_length.
  - apply (f_equal length) in Hq as Hlen. rewrite length_app, !length_fmap in Hlen. cbn in Hlen. split; [lia|].
    by rewrite fmap_take, <- Hq, take_app_length.
Qed.

(** C35: no queued request is stranded: in every reachable state a queued request
    means that a task is in its loop, or the event loop is about to schedule one
    or to report an error, or the connection is closing or gone; and a task in
    its loop can always take its next step. *)
Theorem connection_not_stranded os s :
  run config limit (new_connection used0) os s →
  (requests_ (read_side s) ≠ [] →
   (∃ i j, jobs s !! i = Some j ∧ active j = true) ∨ will_schedule (loop s) = true ∨ close_after_flush_ s = true ∨ registered s = false) ∧
  (∀ i j, jobs s !! i = Some j → active j = true → ∃ o s', step config limit s o s' ∧ jobs s' !! i ≠ Some j) ∧
  (will_schedule (loop s) = true → ∃ o s', step config limit s o s' ∧ loop s' ≠ loop s).
Proof.
  intros [Hok [Hp1 Hp2]]%run_data. split_and!.
  - intros Hne. destruct (Hp1 Hne) as [Hd|?]; [|by right]. destruct (Hp2 Hd) as [Hone|?]; [left|by auto].
    unfold active_jobs in Hone. destruct (base.filter _ (jobs s)) as [|j l] eqn:E; [done|].
    assert (Hin : j ∈ base.filter (λ j, active j = true) (jobs s)) by (rewrite E; by left).
    apply list_elem_of_filter in Hin as [Ha Hin]. apply list_elem_of_lookup in Hin as [i Hi]. eauto.
  - intros i j Hi Ha. assert (Hlt : (i < length (jobs s))%nat) by (by eapply lookup_lt_Some).
    assert (Hset : ∀ j' c, jobs c = jobs s → j' ≠ j → jobs (set_job i j' c) !! i ≠ Some j).
    { intros j' c Hc Hne. cbn. rewrite Hc, list_lookup_insert_eq by done. congruence. }
    destruct j as [|r []|response| | | |]; try done.
    + destruct (TakeRequest (read_side s) (used_bytes_ s)) as [[[[r resume] rs] used]|] eqn:E.
      * eexists _, _. split; [by eapply job_take|by apply Hset].
      * eexists _, _. split; [by eapply job_stop|by apply Hset].
    + eexists _, _. split; [by eapply job_resume|by apply Hset].
    + eexists _, _. split; [eapply (job_process _ _ _ _ _ []); exact Hi|by apply Hset].
    + destruct (Enqueue limit response (write_side s) (used_bytes_ s)) as [[ws used]|] eqn:E.
      * eexists _, _. split; [by eapply job_enqueue|by apply Hset].
      * eexists _, _. split; [by eapply job_full|by apply Hset].
    + eexists _, _. split; [by eapply job_arm|by apply Hset].
    + eexists _, _. split; [by eapply job_close|by apply Hset].
  - intros Hw. destruct (loop s) as [|q n| |q|q| |] eqn:Hl; try done.
    + eexists _, _. split; [by eapply loop_blocked|done].
    + destruct (report limit too_large s) as [s' line] eqn:E. eexists _, _. split; [by eapply loop_overflow|done].
    + eexists _, _. split; [by eapply loop_pause|done].
    + cbn in Hw. subst q. destruct (drain_scheduled_ s) eqn:Hd.
      * eexists _, _. split; [eapply loop_leave; [exact Hl|by right]|done].
      * eexists _, _. split; [by eapply loop_schedule|done].
Qed.

(** C36: buffers are bounded and accounted for: the queues hold at most 1024
    requests, the configured bytes of requests and of unframed input, and 16 MiB
    of responses, the counters are the sizes of what they count, and the shared
    budget covers all of it and never exceeds its limit. *)
Theorem connection_bounded os s :
  run config limit (new_connection used0) os s →
  Z.of_nat (length (requests_ (read_side s))) ≤ 1024 ∧
  request_bytes_ (read_side s) = total (requests_ (read_side s)) ∧ request_bytes_ (read_side s) ≤ max_bytes config ∧
  size (accumulated_ (read_side s)) ≤ max_bytes config ∧
  response_bytes_ (write_side s) = size (unsent (write_side s)) ∧ response_bytes_ (write_side s) ≤ 16 * 1024 * 1024 ∧
  size (accumulated_ (read_side s)) + request_bytes_ (read_side s) + response_bytes_ (write_side s) ≤ used_bytes_ s ≤ limit.
Proof.
  intros [[[Hb Hc Hq Hacc] [Hwb Hwo Hwq Hwl] Hu _ _ _ _ _] _]%run_data. unfold kMaxPendingFrames, kMaxWriteQueueBytes, held in *.
  split_and!; [done|done|lia|done| |lia|lia|lia].
  rewrite Hwb. unfold unsent, total, size. rewrite length_drop.
  destruct (responses_ (write_side s)) as [|r rest]; [rewrite Hwo; cbn; lia|]. cbn [concat]. rewrite length_app. lia.
Qed.
End contract.

(** ** Running an interleaving *)

Inductive Label : Type :=
| Poll (r w : bool) | Readable | Recv (chunk : bytes) | RecvEnd | RecvAgain | Overflow | Pause | Schedule | Leave | Finish
| Writable (outs : list SendOutcome) | Disarm
| Take (i : nat) | Stop (i : nat) | Resume (i : nat) | Process (i : nat) (response : bytes) | Enter (i : nat) | Arm (i : nat) | End (i : nat).

Section exec.
Context (config : IOConfig) (limit : Z).

(** One choice of the step relation. *)
Definition exec (l : Label) (s : Conn) : option (list Obs * Conn) :=
  match l, loop s with
  | Poll r w, Idle =>
      if registered s && negb (ready_read s) && negb (ready_write s) && implb r (read_interest s) && implb w (write_interest s)
      then Some ([], set_ready r w s) else None
  | Readable, Idle =>
      if ready_read s then Some ([], set_loop (if read_eof_ s then Leaving false else Reading false 0) (set_ready false (ready_write s) s))
      else None
  | Recv chunk, Reading queued n =>
      if bool_decide (chunk ≠ []) && (size chunk <=? kReadChunkBytes) then
        let '(overflow, queued', pause, rs, used) := ReadChunk config limit chunk queued (read_side s) (used_bytes_ s) in
        Some (Received chunk :: Queued (drop (length (requests_ (read_side s))) (requests_ rs)) :: (if overflow then [Rejected] else []),
          set_loop (if overflow then Overflowing else if pause then Pausing queued'
                    else if kReadEventByteBudget <=? n + size chunk then Leaving queued' else Reading queued' (n + size chunk))
            (set_read rs used s))
      else None
  | RecvEnd, Reading queued n => Some ([], set_loop (Leaving queued) (SetReadEnabled false (set_eof s)))
  | RecvAgain, Reading queued n => Some ([], set_loop (Leaving queued) s)
  | Overflow, Overflowing =>
      let '(s', line) := report limit too_large s in Some (shown false line, set_loop Idle (CloseAfterFlush s'))
  | Pause, Pausing queued => Some ([], set_loop (Leaving queued) (SetReadEnabled false s))
  | Schedule, Leaving true =>
      if drain_scheduled_ s then None else Some ([], set_loop Finishing (set_jobs (jobs s ++ [Taking]) (set_drain true s)))
  | Leave, Leaving queued => if negb queued || drain_scheduled_ s then Some ([], set_loop Finishing s) else None
  | Finish, Finishing =>
      Some ([], set_loop Idle
        (if read_eof_ s && negb (HasPendingRequests s) && negb (drain_scheduled_ s)
         then (if HasPendingOutput s then CloseAfterFlush s else drop_event s) else s))
  | Writable outs, Idle =>
      if negb (ready_read s) && ready_write s then
        let '(result, data, ws, used) := write_loop outs (write_side s) (used_bytes_ s) in
        Some ([Sent data],
          match result with
          | WDrained => set_loop Disarming (set_ready false false (set_write ws used s))
          | WBlocked => set_ready false false (set_write ws used s)
          | WFailed => drop_event (set_write ws used s)
          end)
      else None
  | Disarm, Disarming =>
      Some ([], set_loop Idle (if close_after_flush_ s then drop_event (SetWriteEnabled false s) else SetWriteEnabled false s))
  | Take i, _ =>
      match jobs s !! i, TakeRequest (read_side s) (used_bytes_ s) with
      | Some Taking, Some (request, resume, rs, used) => Some ([], set_job i (Taken request resume) (set_read rs used s))
      | _, _ => None
      end
  | Stop i, _ =>
      match jobs s !! i, TakeRequest (read_side s) (used_bytes_ s) with
      | Some Taking, None => Some ([], set_job i Ending (set_drain false s))
      | _, _ => None
      end
  | Resume i, _ =>
      match jobs s !! i with
      | Some (Taken request true) => Some ([], set_job i (Taken request false) (SetReadEnabled true s))
      | _ => None
      end
  | Process i response, _ =>
      match jobs s !! i with
      | Some (Taken request false) => Some ([Answered request response], set_job i (Answering response) s)
      | _ => None
      end
  | Enter i, _ =>
      match jobs s !! i with
      | Some (Answering response) =>
          match Enqueue limit response (write_side s) (used_bytes_ s) with
          | Some (ws, used) => Some ([Enqueued true (NormalizeResponse response)], set_job i Arming (set_write ws used s))
          | None => None
          end
      | _ => None
      end
  | Arm i, _ => match jobs s !! i with Some Arming => Some ([], set_job i Taking (SetWriteEnabled true s)) | _ => None end
  | End i, _ =>
      match jobs s !! i with
      | Some Ending =>
          Some ([], set_job i Done
            (if read_eof_ s && negb (HasPendingRequests s)
             then (let s := CloseAfterFlush s in if HasPendingOutput s then s else Unregister s) else s))
      | _ => None
      end
  | _, _ => None
  end.

Fixpoint exec_all (ls : list Label) (s : Conn) : option (list Obs * Conn) :=
  match ls with
  | [] => Some ([], s)
  | l :: ls =>
      match exec l s with
      | Some (o, s') => match exec_all ls s' with Some (os, s'') => Some (o ++ os, s'') | None => None end
      | None => None
      end
  end.

Lemma exec_step l s o s' : exec l s = Some (o, s') → step config limit s o s'.
Proof.
  destruct l as [r w| |chunk| | | | | | | |outs| |i|i|i|i response|i|i|i]; unfold exec;
    destruct (loop s) as [|queued n| |queued|queued| |] eqn:Hl; try done;
    try (by intros [= <- <-]; econstructor);
    try (destruct (jobs s !! i) as [j|] eqn:Hi; [destruct j as [|request resume|resp| | | |]; try done|done]);
    try (by intros [= <- <-]; econstructor);
    try (destruct resume; try done; by intros [= <- <-]; econstructor);
    try (destruct (TakeRequest _ _) as [[[[request resume] rs] used]|] eqn:Ht; try done; by intros [= <- <-]; econstructor);
    try (destruct (Enqueue _ _ _ _) as [[ws used]|] eqn:He; [by intros [= <- <-]; eapply job_enqueue|done]).
  - destruct (_ && _) eqn:E; [|done]. rewrite !andb_true_iff, !negb_true_iff in E. destruct E as [[[[E1 E2] E3] E4] E5].
    intros [= <- <-]. apply loop_poll; try done; intros ->; [exact E4|exact E5].
  - destruct (ready_read s) eqn:E; [|done]. intros [= <- <-]. by apply loop_readable.
  - destruct (bool_decide _ && _) eqn:E; [|done]. apply andb_true_iff in E as [E1%bool_decide_eq_true E2%Z.leb_le].
    destruct (ReadChunk _ _ _ _ _ _) as [[[[overflow queued'] pause] rs] used] eqn:E3. intros [= <- <-]. by eapply loop_recv.
  - destruct (report _ _ _) as [s1 line] eqn:E. intros [= <- <-]. by apply loop_overflow.
  - destruct queued; [|done]. destruct (drain_scheduled_ s) eqn:E; [done|]. intros [= <- <-]. by apply loop_schedule.
  - destruct (negb queued || _) eqn:E; [|done]. intros [= <- <-]. eapply loop_leave; [done|].
    apply orb_true_iff in E as [E%negb_true_iff|E]; auto.
  - destruct (_ && _) eqn:E; [|done]. apply andb_true_iff in E as [E1%negb_true_iff E2].
    destruct (write_loop _ _ _) as [[[result data] ws] used] eqn:E3. intros [= <- <-]. by eapply loop_write.
Qed.

Lemma exec_run ls : ∀ s os s' s0 os0,
  run config limit s0 os0 s → exec_all ls s = Some (os, s') → run config limit s0 (os0 ++ os) s'.
Proof.
  induction ls as [|l ls IH]; intros s os s' s0 os0 Hrun; cbn [exec_all]; [intros [= <- <-]; by rewrite app_nil_r|].
  destruct (exec l s) as [[o s1]|] eqn:E; [|done]. destruct (exec_all ls s1) as [[os1 s2]|] eqn:E2; [|done]. intros [= <- <-].
  rewrite (assoc_L (++)). eapply IH; [|exact E2]. eapply run_step; [exact Hrun|by eapply exec_step].
Qed.
End exec.

(** ** Two lost wake-ups *)

Module Examples.

Definition config : IOConfig := MkIOConfig 4096 100 8192 60.
Definition limit : Z := 268435456.
Definition start : Conn := new_connection 0.

Lemma start_run ls os s : exec_all config limit ls start = Some (os, s) → run config limit start os s.
Proof. intros H. apply (exec_run config limit ls start os s start []); [constructor|exact H]. Qed.

(** Read [text] in one turn of the loop, and schedule a task. *)
Definition read_turn (text : bytes) : list Label := [Poll true false; Readable; Recv text; RecvAgain; Schedule; Finish].
Definition answer (i : nat) (response : bytes) : list Label := [Take i; Process i response; Enter i; Arm i].
Definition outcome (ls : list Label) : Conn := match exec_all config limit ls start with Some (_, s) => s | None => start end.
Definition history (ls : list Label) : list Obs := match exec_all config limit ls start with Some (os, _) => os | None => [] end.

(** The second answer is queued while the loop, having sent the first, is about
    to disarm the write interest: nothing arms it again. *)
Definition lost_response : list Label :=
  read_turn (chars "A" ++ [LF] ++ chars "B" ++ [LF]) ++ answer 0 (chars "1") ++ [Take 0; Process 0 (chars "2")] ++
  [Poll false true; Writable [SendSome 3]] ++ [Enter 0; Arm 0] ++ [Disarm] ++ [Stop 0; End 0].

Example lost_response_run :
  run config limit start (history lost_response) (outcome lost_response) ∧
  responses_ (write_side (outcome lost_response)) = [chars "2" ++ [CR; LF]] ∧
  sent_bytes (history lost_response) = chars "1" ++ [CR; LF] ∧
  write_interest (outcome lost_response) = false ∧ loop (outcome lost_response) = Idle ∧ jobs (outcome lost_response) = [Done] ∧
  registered (outcome lost_response) = true ∧ close_after_flush_ (outcome lost_response) = false.
Proof.
  assert (H : exec_all config limit lost_response start = Some (history lost_response, outcome lost_response)) by (vm_compute; reflexivity).
  split; [by apply start_run in H|]. clear H. vm_compute. done.
Qed.

(** The loop has paused reading, but the task resumes it before the loop disarms
    the read interest: nothing arms it again. *)
Definition many : bytes := concat (replicate 768 (chars "A" ++ [LF])).
Definition lost_resume : list Label :=
  [Poll true false; Readable; Recv (chars "A" ++ [LF]); RecvAgain; Schedule; Finish; Poll true false; Readable; Recv many] ++
  concat (replicate 256 (answer 0 (chars "1"))) ++ [Take 0; Resume 0] ++ [Pause; Leave; Finish] ++ [Process 0 (chars "1"); Enter 0; Arm 0] ++
  concat (replicate 512 (answer 0 (chars "1"))) ++ [Stop 0; End 0].

(** Interest in reading, paused, requests, loop, tasks; registered, closing, end
    of input. *)
Definition reading_state (s : Conn) : bool * bool * list bytes * Loop * list Job * (bool * bool * bool) :=
  (read_interest s, read_paused_ (read_side s), requests_ (read_side s), loop s, jobs s,
   (registered s, close_after_flush_ s, read_eof_ s)).

Lemma reached {A} (f : Conn → A) ls a :
  option_map (λ r, f r.2) (exec_all config limit ls start) = Some a → ∃ os s, run config limit start os s ∧ f s = a.
Proof.
  destruct (exec_all config limit ls start) as [[os s]|] eqn:E; [|discriminate]. intros [= H].
  exists os, s. split; [exact (start_run _ _ _ E)|exact H].
Qed.

Example lost_resume_run :
  ∃ os s, run config limit start os s ∧ reading_state s = (false, false, [], Idle, [Done], (true, false, false)).
Proof. apply (reached reading_state lost_resume). vm_compute. reflexivity. Qed.

(** ** Witnesses *)

Definition final : Conn := outcome lost_response.
Definition seen : list Obs := history lost_response.

Lemma final_run : run config limit start seen final.
Proof. apply start_run with (ls := lost_response). vm_compute. reflexivity. Qed.
Lemma limit_ok : 0 ≤ limit ≤ u64_max.
Proof. by vm_compute. Qed.
Lemma start_ok : 0 ≤ 0 ≤ limit.
Proof. by vm_compute. Qed.

Lemma connection_in_order_witness :
  framed seen = [chars "A"; chars "B"] ∧ sent_bytes seen ++ unsent (write_side final) = concat (lines seen).
Proof.
  destruct (connection_in_order config limit 0 limit_ok start_ok seen final final_run) as (Hf & _ & _ & _ & Hs).
  split; [|exact Hs]. rewrite Hf. vm_compute. reflexivity.
Defined.

Lemma connection_not_stranded_witness :
  ∃ s, run config limit start (history (read_turn (chars "A" ++ [LF]))) s ∧ requests_ (read_side s) ≠ [] ∧
    ∃ o s', step config limit s o s' ∧ jobs s' !! 0%nat ≠ Some Taking.
Proof.
  exists (outcome (read_turn (chars "A" ++ [LF]))).
  assert (Hrun : run config limit start (history (read_turn (chars "A" ++ [LF]))) (outcome (read_turn (chars "A" ++ [LF]))))
    by (apply start_run with (ls := read_turn (chars "A" ++ [LF])); vm_compute; reflexivity).
  split; [exact Hrun|]. split; [vm_compute; discriminate|].
  apply (proj1 (proj2 (connection_not_stranded config limit 0 limit_ok start_ok _ _ Hrun)) 0%nat Taking); vm_compute; reflexivity.
Defined.

Lemma connection_bounded_witness : response_bytes_ (write_side final) = 3 ∧ used_bytes_ final ≤ limit.
Proof.
  destruct (connection_bounded config limit 0 limit_ok start_ok seen final final_run) as (_ & _ & _ & _ & Hr & _ & _ & Hl).
  split; [|exact Hl]. rewrite Hr. vm_compute. reflexivity.
Defined.
End Examples.
