(* ===== verification/SnapshotFormat.v ===== *)
(** * The snapshot format (src/storage/snapshot_format.h, snapshot_format_v1.cpp)

    What a snapshot file holds and how it is written and read: the header, the
    configuration, the statistics and the sections of the four stores.  An
    output stream is the list of bytes written; an input stream is the list of
    bytes from its position on, which a read that fails leaves alone (every
    caller returns at once).  The stores that the readers fill are returned: on
    an error the code leaves them half filled, and its callers drop them. *)

From S2P Require Import Prelude RingBuffer Lru DedupCache StateCache EventStore Floats CoOccurrence Wal WalCheckpoint Metadata Distance.
From S2P Require VectorStore WalCodec.
#[local] Open Scope Z_scope.

(** ** Constants and records *)

Definition kMaxConfigSize : Z := 16 * 1024 * 1024.
Definition kMaxStatsSize : Z := 16 * 1024 * 1024.
Definition kMaxStoreDataSize : Z := 512 * 1024 * 1024.
Definition kMaxStoreStatsSize : Z := 16 * 1024 * 1024.
Definition kMaxStringLength : Z := 256 * 1024 * 1024.
Definition kMaxSnapshotFileSize : Z := 3 * 1024 * 1024 * 1024.
Definition kMaxVectorDimension : Z := 4096.
Definition kMagicNumber : list byte := bytes_of_string "NVEC".
Definition kCurrentVersion : Z := 1.
Definition kFixedHeaderSize : nat := 8.
Definition kFileCRC32Offset : nat := kFixedHeaderSize + 24.
Definition kWithStatistics : Z := 0x8.
Definition kWithCRC : Z := 0x10.

Record HeaderV1 : Type := MkHeader {
  header_size : Z;
  flags : Z;
  snapshot_timestamp : Z;
  total_file_size : Z;
  file_crc32 : Z;
  reserved : string
}.

Record SnapshotStatistics : Type := MkStats {
  total_contexts : Z;
  total_events : Z;
  total_co_occurrences : Z;
  total_vectors : Z;
  total_bytes : Z;
  snapshot_time_ms : Z
}.

Record StoreStatistics : Type := MkStoreStats { item_count : Z; memory_bytes : Z; last_update_time : Z }.

(** The fields of [config::Config] that a snapshot keeps. *)
Record SavedConfig : Type := MkSaved {
  s_ctx_buffer_size : Z;
  s_decay_interval_sec : Z;
  s_decay_alpha : Z;
  s_default_dimension : Z;
  s_distance_metric : string;
  s_default_top_k : Z;
  s_max_top_k : Z;
  s_fusion_alpha : Z;
  s_fusion_beta : Z
}.

(** ** Streams *)

Definition WriteBinary (w : nat) (value : Z) : list byte := le_bytes w value.

Definition read_error {A} (m : string) : SE (list byte) A := se_throw kStorageDumpReadError m.

(** [if (!ReadBinary(stream, value)) return error;] *)
Definition ReadBinary (w : nat) (m : string) : SE (list byte) Z := λ s,
  if (length s <? w)%nat then read_error m s else (Ok (le_value (take w s)), drop w s).

Definition HasRemainingBytes (s : list byte) (required : Z) : bool := required <=? Z.of_nat (length s).

(** [if (!HasRemainingBytes(stream, required)) return error;] *)
Definition require_bytes (required : Z) (m : string) : SE (list byte) unit := λ s,
  if HasRemainingBytes s required then (Ok tt, s) else read_error m s.

Definition WriteString (m : string) (str : string) : Expected (list byte) :=
  let len := Z.of_nat (String.length str) in
  if kMaxStringLength <? len then throw kStorageDumpWriteError m
  else Ok (WriteBinary 4 (u32 len) ++ bytes_of_string str).

(** [stream.read(data, n)], all of it. *)
Definition read_bytes (n : nat) (m : string) : SE (list byte) (list byte) := λ s,
  if (length s <? n)%nat then read_error m s else (Ok (take n s), drop n s).

Definition ReadString (m : string) : SE (list byte) string :=
  let! len := ReadBinary 4 m in
  if kMaxStringLength <? len then read_error m
  else
    require_bytes len m ;!
    let! bs := read_bytes (Z.to_nat len) m in
    se_ret (string_of_bytes bs).

Definition CheckedSizeToU32 (size limit : Z) (label : string) : Expected Z :=
  if (limit <? size) || (u32_max <? size)
  then throw kStorageDumpWriteError (label +:+ " size exceeds maximum: " +:+ pretty size)
  else Ok (u32 size).

Definition IsFullyConsumed (s : list byte) : bool := bool_decide (s = []).

(** [for (uint32_t i = 0; i < n; ++i) a = body(a);] *)
Fixpoint repeat_body {S A} (n : nat) (body : A → SE S A) (a : A) : SE S A :=
  match n with O => se_ret a | S n => let! a := body a in repeat_body n body a end.

(** A count, the check that that many entries of at least [min_size] bytes can
    follow, and the entries. *)
Definition read_entries {A} (count_msg check_msg : string) (min_size : Z) (body : A → SE (list byte) A) (a : A)
    : SE (list byte) A :=
  let! n := ReadBinary 4 count_msg in
  require_bytes (n * min_size) check_msg ;!
  repeat_body (Z.to_nat n) body a.

(** The entries of a container, one after the other, after their number. *)
Fixpoint write_all {A} (f : A → Expected (list byte)) (l : list A) : Expected (list byte) :=
  match l with
  | [] => Ok []
  | x :: l => let? b := f x in let? bs := write_all f l in Ok (b ++ bs)
  end.
Definition write_entries {A} (label : string) (f : A → Expected (list byte)) (l : list A) : Expected (list byte) :=
  let? n := CheckedSizeToU32 (Z.of_nat (length l)) u32_max label in
  let? bs := write_all f l in
  Ok (WriteBinary 4 n ++ bs).

(** ** Header, statistics and configuration *)

Definition WriteHeaderV1 (h : HeaderV1) : Expected (list byte) :=
  let? res := WriteString "Failed to write reserved field" (reserved h) in
  Ok (WriteBinary 4 (header_size h) ++ WriteBinary 4 (flags h) ++ WriteBinary 8 (snapshot_timestamp h) ++
      WriteBinary 8 (total_file_size h) ++ WriteBinary 4 (file_crc32 h) ++ res).

Definition ReadHeaderV1 : SE (list byte) HeaderV1 :=
  let! size := ReadBinary 4 "Failed to read header size" in
  let! fl := ReadBinary 4 "Failed to read header flags" in
  let! ts := ReadBinary 8 "Failed to read snapshot timestamp" in
  let! total := ReadBinary 8 "Failed to read total file size" in
  let! crc := ReadBinary 4 "Failed to read file CRC32" in
  let! res := ReadString "Failed to read reserved field" in
  se_ret (MkHeader size fl ts total crc res).

Definition SerializeStatistics (st : SnapshotStatistics) : list byte :=
  WriteBinary 8 (total_contexts st) ++ WriteBinary 8 (total_events st) ++ WriteBinary 8 (total_co_occurrences st) ++
  WriteBinary 8 (total_vectors st) ++ WriteBinary 8 (total_bytes st) ++ WriteBinary 8 (snapshot_time_ms st).

Definition DeserializeStatistics : SE (list byte) SnapshotStatistics :=
  let! a := ReadBinary 8 "Failed to read total_contexts" in
  let! b := ReadBinary 8 "Failed to read total_events" in
  let! c := ReadBinary 8 "Failed to read total_co_occurrences" in
  let! d := ReadBinary 8 "Failed to read total_vectors" in
  let! e := ReadBinary 8 "Failed to read total_bytes" in
  let! f := ReadBinary 8 "Failed to read snapshot_time_ms" in
  se_ret (MkStats a b c d e f).

Definition SerializeStoreStatistics (st : StoreStatistics) : list byte :=
  WriteBinary 8 (item_count st) ++ WriteBinary 8 (memory_bytes st) ++ WriteBinary 8 (last_update_time st).

Definition DeserializeStoreStatistics : SE (list byte) StoreStatistics :=
  let! a := ReadBinary 8 "Failed to read item_count" in
  let! b := ReadBinary 8 "Failed to read memory_bytes" in
  let! c := ReadBinary 8 "Failed to read last_update_time" in
  se_ret (MkStoreStats a b c).

Definition SerializeConfig (c : SavedConfig) : Expected (list byte) :=
  let? metric := WriteString "Failed to write distance_metric" (s_distance_metric c) in
  Ok (WriteBinary 4 (s_ctx_buffer_size c) ++ WriteBinary 4 (s_decay_interval_sec c) ++ WriteBinary 8 (s_decay_alpha c) ++
      WriteBinary 4 (s_default_dimension c) ++ metric ++ WriteBinary 4 (s_default_top_k c) ++
      WriteBinary 4 (s_max_top_k c) ++ WriteBinary 8 (s_fusion_alpha c) ++ WriteBinary 8 (s_fusion_beta c)).

Definition DeserializeConfig : SE (list byte) SavedConfig :=
  let! a := ReadBinary 4 "Failed to read ctx_buffer_size" in
  let! b := ReadBinary 4 "Failed to read decay_interval_sec" in
  let! c := ReadBinary 8 "Failed to read decay_alpha" in
  let! d := ReadBinary 4 "Failed to read default_dimension" in
  let! m := ReadString "Failed to read distance_metric" in
  let! k := ReadBinary 4 "Failed to read default_top_k" in
  let! mk := ReadBinary 4 "Failed to read max_top_k" in
  let! fa := ReadBinary 8 "Failed to read fusion_alpha" in
  let! fb := ReadBinary 8 "Failed to read fusion_beta" in
  se_ret (MkSaved a b c d m k mk fa fb).

(** ** The stores *)

Section stores.
Context {order : IterOrder} {impl : DistanceFunctions}.

(** *** Events *)

Definition write_event (e : Event) : Expected (list byte) :=
  let? id := WriteString "Failed to write event id" (item_id e) in
  Ok (id ++ WriteBinary 4 (score e) ++ [WalCodec.event_type_byte (type e)] ++ WriteBinary 8 (ev_timestamp e)).

Definition write_context (es : EventStore) (ctx : string) : Expected (list byte) :=
  let? name := WriteString ("Failed to write context name: " +:+ ctx) ctx in
  let? events := write_entries "event count" write_event (GetEvents ctx es) in
  Ok (name ++ events).

Definition SerializeEventStore (es : EventStore) : Expected (list byte) :=
  write_entries "event context count" (write_context es) (GetAllContexts es).

Definition kMinSerializedEventSize : Z := 4 + 4 + 1 + 8.

Definition read_event (ctx : string) (es : EventStore) : SE (list byte) EventStore :=
  let! id := ReadString "Failed to read event id" in
  let! sc := ReadBinary 4 "Failed to read event score" in
  let! ty := ReadBinary 1 "Failed to read event type" in
  let! ts := ReadBinary 8 "Failed to read event timestamp" in
  if 2 <? ty then read_error ("Invalid event type: " +:+ pretty ty)
  else
    match RestoreEvent ctx (MkEvent id (i32 sc) ts (WalCodec.event_type_of ty)) es with
    | (Ok _, es) => se_ret es
    | (Unexpected e, _) => read_error ("Failed to restore event: " +:+ message e)
    end.

Definition read_context (es : EventStore) : SE (list byte) EventStore :=
  let! ctx := ReadString "Failed to read context name" in
  read_entries ("Failed to read event count for context: " +:+ ctx) ("Event count exceeds remaining data for context: " +:+ ctx)
    kMinSerializedEventSize (read_event ctx) es.

Definition DeserializeEventStore (es : EventStore) : SE (list byte) EventStore :=
  read_entries "Failed to read context count" "Context count exceeds remaining store data" (4 * 2) read_context (ClearStore es).

(** *** Co-occurrences *)

Definition write_neighbor (p : string * Z) : Expected (list byte) :=
  let? name := WriteString "Failed to write co-item name" p.1 in
  Ok (name ++ WriteBinary 4 p.2).

Definition write_item (co : CoOccurrenceIndex) (item1 : string) : Expected (list byte) :=
  let? name := WriteString ("Failed to write item name: " +:+ item1) item1 in
  let? neighbors := write_entries "co-occurrence neighbor count" write_neighbor (GetAllNeighbors item1 co) in
  Ok (name ++ neighbors).

Definition SerializeCoOccurrenceIndex (co : CoOccurrenceIndex) : Expected (list byte) :=
  write_entries "co-occurrence item count" (write_item co) (GetAllItems co).

Definition kMinSerializedNeighborSize : Z := 4 + 4.

Definition read_neighbor (item1 : string) (co : CoOccurrenceIndex) : SE (list byte) CoOccurrenceIndex :=
  let! item2 := ReadString "Failed to read co-item name" in
  let! sc := ReadBinary 4 "Failed to read co-occurrence score" in
  se_ret (SetScore item1 item2 sc co).

Definition read_item (co : CoOccurrenceIndex) : SE (list byte) CoOccurrenceIndex :=
  let! item1 := ReadString "Failed to read item name" in
  read_entries ("Failed to read co-item count for: " +:+ item1) ("Neighbor count exceeds remaining data for: " +:+ item1)
    kMinSerializedNeighborSize (read_neighbor item1) co.

Definition DeserializeCoOccurrenceIndex (co : CoOccurrenceIndex) : SE (list byte) CoOccurrenceIndex :=
  read_entries "Failed to read item count" "Item count exceeds remaining store data" (4 * 2) read_item (ClearIndex co).

(** *** Vectors *)

Definition write_vector (vs : VectorStore.VectorStore) (vector_id : string) : Expected (list byte) :=
  let? name := WriteString ("Failed to write vector ID: " +:+ vector_id) vector_id in
  match VectorStore.GetVector vector_id vs with
  | None => throw kStorageDumpWriteError ("Vector not found during serialization: " +:+ vector_id)
  | Some vec => Ok (name ++ concat (WriteBinary 4 <$> VectorStore.v_data vec))
  end.

Definition SerializeVectorStore (vs : VectorStore.VectorStore) : Expected (list byte) :=
  let? vectors := write_entries "vector count" (write_vector vs) (VectorStore.GetAllIds vs) in
  Ok (WriteBinary 8 (Z.of_nat (VectorStore.GetDimension vs)) ++ vectors).

(** [for (uint64_t i = 0; i < dimension; ++i) ReadBinary(stream, data[i])] *)
Fixpoint read_components (n : nat) : SE (list byte) (list Z) :=
  match n with
  | O => se_ret []
  | S n =>
      let! x := ReadBinary 4 "Failed to read vector component" in
      let! xs := read_components n in
      se_ret (x :: xs)
  end.

(** The ids seen so far and the store. *)
Definition read_vector (dimension : Z) (a : gset string * VectorStore.VectorStore)
    : SE (list byte) (gset string * VectorStore.VectorStore) :=
  let! vector_id := ReadString "Failed to read vector ID" in
  if bool_decide (vector_id ∈ a.1) then read_error ("Duplicate vector ID: " +:+ vector_id)
  else
    require_bytes (dimension * 4) "Vector exceeds remaining store data" ;!
    let! data := read_components (Z.to_nat dimension) in
    match VectorStore.SetVector vector_id data false a.2 with
    | (Ok _, vs) => se_ret ({[vector_id]} ∪ a.1, vs)
    | (Unexpected e, _) => read_error ("Failed to add vector: " +:+ message e)
    end.

Definition DeserializeVectorStore (vs : VectorStore.VectorStore) : SE (list byte) VectorStore.VectorStore :=
  let vs := VectorStore.Clear vs in
  let! dimension := ReadBinary 8 "Failed to read dimension" in
  if kMaxVectorDimension <? dimension then read_error ("Vector dimension exceeds maximum: " +:+ pretty dimension)
  else
    let! n := ReadBinary 4 "Failed to read vector count" in
    if (0 <? n) && (dimension =? 0) then read_error "Non-empty vector store has zero dimension"
    else
      require_bytes (n * (4 + dimension * 4)) "Vector count exceeds remaining store data" ;!
      let! a := repeat_body (Z.to_nat n) (read_vector dimension) (∅, vs) in
      se_ret a.2.

(** *** Metadata *)

Definition write_value (v : MetadataValue) : Expected (list byte) :=
  match v with
  | MString s => let? bs := WriteString "Failed to write string metadata" s in Ok (WriteBinary 1 1 ++ bs)
  | MInt64 z => Ok (WriteBinary 1 2 ++ WriteBinary 8 z)
  | MDouble bits => Ok (WriteBinary 1 3 ++ WriteBinary 8 bits)
  | MBool b => Ok (WriteBinary 1 4 ++ WriteBinary 1 (if b then 1 else 0))
  end.

Definition write_field (p : string * MetadataValue) : Expected (list byte) :=
  let? key := WriteString "Failed to write metadata key" p.1 in
  let? v := write_value p.2 in
  Ok (key ++ v).

Definition write_metadata (p : string * Metadata) : Expected (list byte) :=
  let? id := WriteString ("Failed to write metadata item ID: " +:+ p.1) p.1 in
  let? fields := write_entries "metadata field count" write_field (iter_order p.2) in
  Ok (id ++ fields).

Definition SerializeMetadataStore (ms : MetadataStore) : Expected (list byte) :=
  write_entries "metadata item count" write_metadata (base.filter (λ p, p.2 ≠ ∅) (iter_order ms)).

Definition read_value (type : Z) : SE (list byte) MetadataValue :=
  if type =? 1 then let! s := ReadString "Failed to read string metadata" in se_ret (MString s)
  else if type =? 2 then let! z := ReadBinary 8 "Failed to read integer metadata" in se_ret (MInt64 (i64 z))
  else if type =? 3 then let! b := ReadBinary 8 "Failed to read double metadata" in se_ret (MDouble b)
  else if type =? 4 then let! b := ReadBinary 1 "Failed to read bool metadata" in se_ret (MBool (negb (b =? 0)))
  else read_error ("Unknown metadata value type: " +:+ pretty type).

Definition read_field (metadata : Metadata) : SE (list byte) Metadata :=
  let! key := ReadString "Failed to read metadata key" in
  let! type := ReadBinary 1 "Failed to read metadata value type" in
  let! v := read_value type in
  se_ret (<[key := v]> metadata).

Definition kMinSerializedMetadataFieldSize : Z := 4 + 1 + 1.

Definition read_metadata (ms : MetadataStore) : SE (list byte) MetadataStore :=
  let! id := ReadString "Failed to read metadata item ID" in
  let! metadata := read_entries "Failed to read metadata field count" ("Metadata field count exceeds remaining data for: " +:+ id)
    kMinSerializedMetadataFieldSize read_field ∅ in
  se_ret (if bool_decide (metadata = ∅) then ms else MetaSet id metadata ms).

Definition DeserializeMetadataStore (ms : MetadataStore) : SE (list byte) MetadataStore :=
  read_entries "Failed to read metadata item count" "Metadata item count exceeds remaining data" (4 * 2)
    read_metadata (MetaClear ms).
End stores.

(** ** The file *)

Record SnapshotWriteLimits : Type := MkLimits {
  max_config_size : Z;
  max_stats_size : Z;
  max_store_data_size : Z;
  max_store_stats_size : Z
}.
Definition default_limits : SnapshotWriteLimits :=
  MkLimits (16 * 1024 * 1024) (16 * 1024 * 1024) (512 * 1024 * 1024) (16 * 1024 * 1024).

(** The four stores; a snapshot without metadata has none. *)
Record Contents : Type := MkContents {
  c_events : EventStore;
  c_co : CoOccurrenceIndex;
  c_vectors : VectorStore.VectorStore;
  c_metadata : option MetadataStore
}.

Section file.
Context {order : IterOrder} {impl : DistanceFunctions} {zlib : Zlib} {stream : ZlibStream}.

Definition CalculateCRC32 (data : list byte) : Z := crc32 data.

Definition WriteSizedPayload (data : list byte) (limit : Z) (label : string) : Expected (list byte) :=
  let? size := CheckedSizeToU32 (Z.of_nat (length data)) limit label in
  Ok (WriteBinary 4 size ++ WriteBinary 4 (CalculateCRC32 data) ++ data).

(** [std::fill] of the bytes of [chunk], which starts at [offset] in the file,
    that belong to the field [file_crc32]. *)
Definition zero_crc_field (offset : nat) (chunk : list byte) : list byte :=
  let crc_begin := kFileCRC32Offset in
  let crc_end := (crc_begin + 4)%nat in
  let chunk_end := (offset + length chunk)%nat in
  if (offset <? crc_end)%nat && (crc_begin <? chunk_end)%nat then
    let zero_begin := (crc_begin `max` offset - offset)%nat in
    let zero_end := (chunk_end `min` crc_end - offset)%nat in
    take zero_begin chunk ++ replicate (zero_end - zero_begin) Byte.x00 ++ drop zero_end chunk
  else chunk.

(** The loop over chunks of 64 KiB: each round consumes at least a byte, so
    [fuel] above the size is enough. *)
Fixpoint crc_chunks (fuel : nat) (offset : nat) (rest : list byte) (crc : Z) : Z :=
  match fuel, rest with
  | S fuel, _ :: _ =>
      let chunk := take (Z.to_nat kChunk) rest in
      crc_chunks fuel (offset + length chunk) (drop (Z.to_nat kChunk) rest) (crc32_update crc (zero_crc_field offset chunk))
  | _, _ => crc
  end.

Definition CalculateFileCRC32Streaming (file : list byte) (file_size : Z) : Expected Z :=
  if kMaxSnapshotFileSize <? file_size then throw kStorageDumpReadError "Snapshot exceeds maximum total file size"
  else if Z.of_nat (length file) <? file_size then throw kStorageDumpReadError "Failed to stream snapshot CRC32"
  else let bytes := take (Z.to_nat file_size) file in Ok (crc_chunks (length bytes) 0 bytes (crc32 [])).

(** *** Writing *)

(** The section of one store. *)
Definition write_store (limits : SnapshotWriteLimits) (name stats_label data_label : string) (stats : option StoreStatistics)
    (data : Expected (list byte)) : Expected (list byte) :=
  let? stats_bytes :=
    match stats with
    | Some st => WriteSizedPayload (SerializeStoreStatistics st) (Z.min kMaxStoreStatsSize (max_store_stats_size limits)) stats_label
    | None => Ok (WriteBinary 4 0)
    end in
  let? bytes := data in
  let? section := WriteSizedPayload bytes (Z.min kMaxStoreDataSize (max_store_data_size limits)) data_label in
  Ok (WriteBinary 4 (Z.of_nat (String.length name)) ++ bytes_of_string name ++ stats_bytes ++ section).

Definition stats_of (store_stats : option (gmap string StoreStatistics)) (name : string) : option StoreStatistics :=
  m ← store_stats; m !! name.

(** Everything after the header. *)
Definition write_sections (limits : SnapshotWriteLimits) (cfg : SavedConfig) (stats : option SnapshotStatistics)
    (store_stats : option (gmap string StoreStatistics)) (c : Contents) : Expected (list byte) :=
  let? config_data := SerializeConfig cfg in
  let? config_bytes := WriteSizedPayload config_data (Z.min kMaxConfigSize (max_config_size limits)) "config section" in
  let? stats_bytes :=
    match stats with
    | Some st => WriteSizedPayload (SerializeStatistics st) (Z.min kMaxStatsSize (max_stats_size limits)) "statistics section"
    | None => Ok []
    end in
  let? events := write_store limits "events" "events store statistics" "events store" (stats_of store_stats "events")
                   (SerializeEventStore (c_events c)) in
  let? co := write_store limits "co_occurrence" "co-occurrence store statistics" "co-occurrence store"
               (stats_of store_stats "co_occurrence") (SerializeCoOccurrenceIndex (c_co c)) in
  let? vectors := write_store limits "vectors" "vectors store statistics" "vectors store" (stats_of store_stats "vectors")
                    (SerializeVectorStore (c_vectors c)) in
  let? metadata :=
    match c_metadata c with
    | Some ms => write_store limits "metadata" "" "metadata store" None (SerializeMetadataStore ms)
    | None => Ok []
    end in
  Ok (config_bytes ++ stats_bytes ++ WriteBinary 4 (if c_metadata c then 4 else 3) ++ events ++ co ++ vectors ++ metadata).

(** The file with the given header. *)
Definition with_header (h : HeaderV1) (sections : list byte) : Expected (list byte) :=
  let? header := WriteHeaderV1 h in
  Ok (kMagicNumber ++ WriteBinary 4 kCurrentVersion ++ header ++ sections).

(** [seekp(kFileCRC32Offset)] and the checksum. *)
Definition patch_crc (crc : Z) (file : list byte) : list byte :=
  take kFileCRC32Offset file ++ WriteBinary 4 crc ++ drop (kFileCRC32Offset + 4) file.

(** The bytes of a complete snapshot taken at the time [now]. *)
Definition snapshot_image (limits : SnapshotWriteLimits) (now : Z) (cfg : SavedConfig) (stats : option SnapshotStatistics)
    (store_stats : option (gmap string StoreStatistics)) (c : Contents) : Expected (list byte) :=
  let fl := match stats with Some _ => Z.lor kWithCRC kWithStatistics | None => kWithCRC end in
  let? header := WriteHeaderV1 (MkHeader 0 fl (u64 now) 0 0 "") in
  let? size := CheckedSizeToU32 (Z.of_nat (length header)) kMaxConfigSize "snapshot header" in
  let? sections := write_sections limits cfg stats store_stats c in
  let total := Z.of_nat (length kMagicNumber + 4 + length header + length sections) in
  if kMaxSnapshotFileSize <? total then throw kStorageDumpWriteError "Snapshot exceeds maximum total file size"
  else
    let? file := with_header (MkHeader size fl (u64 now) total 0 "") sections in
    match CalculateFileCRC32Streaming file total with
    | Unexpected e => throw kStorageDumpWriteError (message e)
    | Ok crc => Ok (patch_crc crc file)
    end.

(** *** Reading *)

(** Size, checksum and bytes of a section. *)
Definition read_sized (size : Z) (limit : Z) (limit_msg remaining_msg data_msg crc_msg : string) (crc : Z)
    : SE (list byte) (list byte) :=
  if limit <? size then read_error (limit_msg +:+ pretty size)
  else
    require_bytes size remaining_msg ;!
    let! data := read_bytes (Z.to_nat size) data_msg in
    let actual := CalculateCRC32 data in
    if negb (actual =? crc) then read_error (crc_msg +:+ ": expected " +:+ pretty crc +:+ ", got " +:+ pretty actual)
    else se_ret data.

(** Run a reader over the whole of a section. *)
Definition read_all {A} (p : SE (list byte) A) (data : list byte) (trailing_msg : string) : Expected A :=
  match p data with
  | (Ok a, rest) => if IsFullyConsumed rest then Ok a else throw kStorageDumpReadError trailing_msg
  | (Unexpected e, _) => Unexpected e
  end.

Definition VerifyFileLevelIntegrity (file : list byte) (h : HeaderV1) : Expected unit :=
  let actual := Z.of_nat (length file) in
  if (kMaxSnapshotFileSize <? actual) || (kMaxSnapshotFileSize <? total_file_size h)
  then throw kStorageDumpReadError "Snapshot exceeds maximum total file size"
  else if negb (actual =? total_file_size h)
  then throw kStorageDumpReadError ("File size mismatch: expected " +:+ pretty (total_file_size h) +:+ ", got " +:+ pretty actual)
  else if Z.land (flags h) kWithCRC =? 0
  then throw kStorageDumpReadError "Snapshot does not declare required CRC32 protection"
  else if file_crc32 h =? 0 then throw kStorageDumpReadError "Snapshot file CRC32 is missing"
  else
    let? crc := CalculateFileCRC32Streaming file actual in
    if negb (crc =? file_crc32 h)
    then throw kStorageDumpReadError ("File CRC32 mismatch: expected " +:+ pretty (file_crc32 h) +:+ ", got " +:+ pretty crc)
    else Ok tt.

(** Magic, version and header: where [ReadSnapshotV1], [VerifySnapshotIntegrity]
    and [GetSnapshotInfo] begin. *)
Definition read_preamble : SE (list byte) HeaderV1 :=
  let! magic := read_bytes 4 "Failed to read magic number" in
  if negb (bool_decide (magic = kMagicNumber)) then read_error "Invalid magic number"
  else
    let! version := ReadBinary 4 "Failed to read version" in
    if negb (version =? 1) then read_error ("Unsupported version: " +:+ pretty version)
    else ReadHeaderV1.

Definition store_names : list string := ["events"; "co_occurrence"; "vectors"; "metadata"].

(** What the sections read so far have given. *)
Record Loaded : Type := MkLoaded {
  l_contents : Contents;
  l_stats : gmap string StoreStatistics;
  l_seen : gset string
}.

(** One store section: name, statistics, data. *)
Definition read_store_stats (wanted : bool) (store_name : string) (stats : gmap string StoreStatistics)
    : SE (list byte) (gmap string StoreStatistics) :=
  let! size := ReadBinary 4 ("Failed to read store statistics size for '" +:+ store_name +:+ "'") in
  if 0 <? size then
    let! crc := ReadBinary 4 ("Failed to read store statistics CRC for '" +:+ store_name +:+ "'") in
    let! data := read_sized size kMaxStoreStatsSize "Store statistics size exceeds maximum: " "Store statistics exceed remaining file"
        ("Failed to read store statistics data for '" +:+ store_name +:+ "'")
        ("CRC32 mismatch in store statistics for '" +:+ store_name +:+ "'") crc in
    if wanted then
      let! st := se_lift (read_all DeserializeStoreStatistics data ("Trailing bytes in store statistics for '" +:+ store_name +:+ "'")) in
      se_ret (<[store_name := st]> stats)
    else se_ret stats
  else se_ret stats.

Definition deserialize_store (store_name : string) (data : list byte) (c : Contents) : Expected Contents :=
  let trailing := "Trailing bytes in store data for '" +:+ store_name +:+ "'" in
  if bool_decide (store_name = "events") then
    let? es := read_all (DeserializeEventStore (c_events c)) data trailing in
    Ok (MkContents es (c_co c) (c_vectors c) (c_metadata c))
  else if bool_decide (store_name = "co_occurrence") then
    let? co := read_all (DeserializeCoOccurrenceIndex (c_co c)) data trailing in
    Ok (MkContents (c_events c) co (c_vectors c) (c_metadata c))
  else if bool_decide (store_name = "vectors") then
    let? vs := read_all (DeserializeVectorStore (c_vectors c)) data trailing in
    Ok (MkContents (c_events c) (c_co c) vs (c_metadata c))
  else
    let? ms := read_all (DeserializeMetadataStore (default ∅ (c_metadata c))) data trailing in
    Ok (MkContents (c_events c) (c_co c) (c_vectors c) (Some ms)).

Definition read_store (wanted : bool) (l : Loaded) : SE (list byte) Loaded :=
  let! store_name := ReadString "Failed to read store name" in
  if negb (bool_decide (store_name ∈ store_names)) then read_error ("Unknown store name: '" +:+ store_name +:+ "'")
  else if bool_decide (store_name ∈ l_seen l) then read_error ("Duplicate store section: '" +:+ store_name +:+ "'")
  else
    let! stats := read_store_stats wanted store_name (l_stats l) in
    let! size := ReadBinary 4 ("Failed to read store data size for '" +:+ store_name +:+ "'") in
    let! crc := ReadBinary 4 ("Failed to read store data CRC for '" +:+ store_name +:+ "'") in
    let! data := read_sized size kMaxStoreDataSize "Store data size exceeds maximum: " "Store data exceeds remaining file"
        ("Failed to read store data for '" +:+ store_name +:+ "'")
        ("CRC32 mismatch in store data for '" +:+ store_name +:+ "'") crc in
    let! c := se_lift (deserialize_store store_name data (l_contents l)) in
    se_ret (MkLoaded c stats ({[store_name]} ∪ l_seen l)).

Fixpoint missing_store (required : list string) (seen : gset string) : option string :=
  match required with
  | [] => None
  | name :: required => if bool_decide (name ∈ seen) then missing_store required seen else Some name
  end.

(** A metadata entry whose vector is not in the snapshot. *)
Definition dangling (ms : MetadataStore) (vs : VectorStore.VectorStore) : option string :=
  head (base.filter (λ id, VectorStore.HasVector id vs = false) (iter_order ms).*1).

Record Snapshot : Type := MkSnapshot {
  sn_config : SavedConfig;
  sn_stats : option SnapshotStatistics;
  sn_store_stats : gmap string StoreStatistics;
  sn_contents : Contents
}.

(** From the configuration section to the end of the file. *)
Definition read_sections (want_stats want_store_stats : bool) (h : HeaderV1) (c : Contents) : SE (list byte) Snapshot :=
  let! config_size := ReadBinary 4 "Failed to read config size" in
  let! config_crc := ReadBinary 4 "Failed to read config CRC" in
  let! config_data := read_sized config_size kMaxConfigSize "Config size exceeds maximum: " "Config section exceeds remaining file"
      "Failed to read config data" "CRC32 mismatch in config section" config_crc in
  let! cfg := se_lift (read_all DeserializeConfig config_data "Trailing bytes in config section") in
  let! stats :=
    if negb (Z.land (flags h) kWithStatistics =? 0) then
      let! size := ReadBinary 4 "Failed to read statistics size" in
      let! crc := ReadBinary 4 "Failed to read statistics CRC" in
      let! data := read_sized size kMaxStatsSize "Statistics size exceeds maximum: " "Statistics section exceeds remaining file"
          "Failed to read statistics data" "CRC32 mismatch in statistics section" crc in
      if want_stats then
        let! st := se_lift (read_all DeserializeStatistics data "Trailing bytes in statistics section") in
        se_ret (Some st)
      else se_ret None
    else se_ret None in
  let! store_count := ReadBinary 4 "Failed to read store count" in
  if (store_count <? 3) || (4 <? store_count) then read_error "Snapshot store count must be between 3 and 4"
  else
    let! l := repeat_body (Z.to_nat store_count) (read_store want_store_stats) (MkLoaded c ∅ ∅) in
    match missing_store ["events"; "co_occurrence"; "vectors"] (l_seen l) with
    | Some name => read_error ("Missing required store: '" +:+ name +:+ "'")
    | None =>
        let c := l_contents l in
        match (if bool_decide ("metadata" ∈ l_seen l) then dangling (default ∅ (c_metadata c)) (c_vectors c) else None) with
        | Some id => read_error ("Metadata references missing vector: '" +:+ id +:+ "'")
        | None => se_ret (MkSnapshot cfg stats (l_stats l) c)
        end
    end.

(** [ReadSnapshotV1] on the contents of the opened file, into the staged stores
    [c]; the two flags tell whether the caller asks for the statistics.  A
    caller without a metadata store drops the one of the result. *)
Definition read_snapshot (want_stats want_store_stats : bool) (file : list byte) (c : Contents) : Expected Snapshot :=
  match read_preamble file with
  | (Unexpected e, _) => Unexpected e
  | (Ok h, sections) =>
      let? _ := VerifyFileLevelIntegrity file h in
      read_all (read_sections want_stats want_store_stats h c) sections "Trailing bytes after final store section"
  end.

(** [VerifySnapshotIntegrity], likewise. *)
Definition verify_snapshot (file : list byte) : Expected unit :=
  match read_preamble file with
  | (Unexpected e, _) => Unexpected e
  | (Ok h, _) => VerifyFileLevelIntegrity file h
  end.

Record SnapshotInfo : Type := MkInfo {
  i_version : Z;
  i_store_count : Z;
  i_flags : Z;
  i_file_size : Z;
  i_timestamp : Z;
  i_has_statistics : bool
}.

(** [seekg(n, cur)]: past the end, the next read fails. *)
Definition skip (n : Z) : SE (list byte) unit := λ s, (Ok tt, drop (Z.to_nat n) s).

Definition snapshot_info : SE (list byte) SnapshotInfo :=
  let! h := read_preamble in
  let has_statistics := negb (Z.land (flags h) kWithStatistics =? 0) in
  let! config_size := ReadBinary 4 "Failed to read config section header" in
  let! _crc := ReadBinary 4 "Failed to read config section header" in
  skip config_size ;!
  let! _ :=
    if has_statistics then
      let! stats_size := ReadBinary 4 "Failed to read statistics section header" in
      let! _crc := ReadBinary 4 "Failed to read statistics section header" in
      skip stats_size
    else se_ret tt in
  let! store_count := ReadBinary 4 "Failed to read store count" in
  se_ret (MkInfo 1 store_count (flags h) (total_file_size h) (snapshot_timestamp h) has_statistics).
End file.
