(* ===== verification/SnapshotReaders.v ===== *)
(** * Reading back what a snapshot section holds

    Lemmas about [SnapshotFormat]: each reader takes exactly the bytes that the
    matching writer produces, and reading the entries of a store into an empty
    one rebuilds it. *)

From S2P Require Import Prelude RingBuffer Lru DedupCache StateCache EventStore Floats CoOccurrence Wal WalCheckpoint Metadata Distance.
From S2P Require Import SnapshotFormat.
From S2P Require VectorStore WalCodec.
#[local] Open Scope Z_scope.

#[local] Arguments WriteBinary : simpl never.

(** ** Readers that undo writers *)

(** Unlike [injection], it leaves the bytes folded. *)
Lemma Ok_inj {A} (a b : A) : Ok a = Ok b → a = b.
Proof. congruence. Qed.

Lemma length_WriteBinary w v : length (WriteBinary w v) = w.
Proof. apply length_le_bytes. Qed.

(** [p] reads exactly [bs] and returns [a], whatever follows. *)
Definition parses {A} (p : SE (list byte) A) (bs : list byte) (a : A) : Prop :=
  ∀ rest, p (bs ++ rest) = (Ok a, rest).

(** More input after a successful read changes nothing. *)
Definition extends {A} (p : SE (list byte) A) : Prop :=
  ∀ s a r t, p s = (Ok a, r) → p (s ++ t) = (Ok a, r ++ t).

Lemma parses_ret {A} (a : A) : parses (se_ret a) [] a.
Proof. done. Qed.

Lemma parses_bind {A B} (p : SE (list byte) A) (k : A → SE (list byte) B) b1 b2 a b :
  parses p b1 a → parses (k a) b2 b → parses (se_bind p k) (b1 ++ b2) b.
Proof. intros Hp Hk rest. unfold se_bind. by rewrite <- (assoc_L (++)), Hp. Qed.

Lemma parses_bind_last {A B} (p : SE (list byte) A) (k : A → SE (list byte) B) b1 a b :
  parses p b1 a → parses (k a) [] b → parses (se_bind p k) b1 b.
Proof. intros. rewrite <- (app_nil_r b1). by eapply parses_bind. Qed.

Lemma parses_ReadBinary_wrap w m v : parses (ReadBinary w m) (WriteBinary w v) (wrap (8 * Z.of_nat w) v).
Proof.
  intros rest. unfold ReadBinary, WriteBinary. rewrite length_app, length_le_bytes.
  rewrite (proj2 (Nat.ltb_ge _ _)) by lia. rewrite take_app_length', drop_app_length' by (by rewrite length_le_bytes).
  by rewrite le_value_bytes.
Qed.

Lemma parses_ReadBinary w m v : in_u (8 * Z.of_nat w) v → parses (ReadBinary w m) (WriteBinary w v) v.
Proof. intros Hv. rewrite <- (wrap_small _ v Hv) at 2. apply parses_ReadBinary_wrap. Qed.

Lemma parses_require n m bs rest : n ≤ Z.of_nat (length bs) → require_bytes n m (bs ++ rest) = (Ok tt, bs ++ rest).
Proof.
  intros Hn. unfold require_bytes, HasRemainingBytes. rewrite (proj2 (Z.leb_le _ _)); [done|]. rewrite length_app. lia.
Qed.

Lemma parses_read_bytes m bs : parses (read_bytes (length bs) m) bs bs.
Proof.
  intros rest. unfold read_bytes. rewrite length_app, (proj2 (Nat.ltb_ge _ _)) by lia. by rewrite take_app_length, drop_app_length.
Qed.

Lemma WriteString_Ok m s bs :
  WriteString m s = Ok bs →
  bs = WriteBinary 4 (Z.of_nat (String.length s)) ++ bytes_of_string s ∧ Z.of_nat (String.length s) ≤ kMaxStringLength.
Proof.
  unfold WriteString. destruct (Z.ltb_spec kMaxStringLength (Z.of_nat (String.length s))) as [|Hle]; [done|]. intros [= <-].
  split; [|done]. unfold u32. rewrite wrap_small; [done|]. unfold in_u, kMaxStringLength in *. lia.
Qed.

Lemma length_WriteString m s bs : WriteString m s = Ok bs → (4 ≤ length bs)%nat.
Proof. intros [-> _]%WriteString_Ok. rewrite length_app, length_WriteBinary. lia. Qed.

Lemma parses_ReadString m m' s bs : WriteString m s = Ok bs → parses (ReadString m') bs s.
Proof.
  intros [-> Hle]%WriteString_Ok. unfold ReadString. eapply parses_bind.
  { apply parses_ReadBinary. unfold in_u, kMaxStringLength in *. lia. }
  intros rest. rewrite (proj2 (Z.ltb_ge _ _)) by done. unfold se_bind at 1.
  rewrite parses_require by (by rewrite length_bytes_of_string). rewrite Nat2Z.id, <- length_bytes_of_string.
  unfold se_bind. rewrite parses_read_bytes. unfold se_ret. by rewrite string_of_bytes_of_string.
Qed.

(** ** Loops *)

Lemma write_all_app {A} (f : A → Expected (list byte)) l1 l2 bs :
  write_all f (l1 ++ l2) = Ok bs → ∃ b1 b2, write_all f l1 = Ok b1 ∧ write_all f l2 = Ok b2 ∧ bs = b1 ++ b2.
Proof.
  revert bs. induction l1 as [|x l1 IH]; intros bs H; cbn in *; [by exists [], bs|].
  destruct (f x) as [b|]; [|done]. cbn in *. destruct (write_all f (l1 ++ l2)) as [b'|] eqn:E; [|done]. cbn in H.
  destruct (IH b' eq_refl) as (b1 & b2 & -> & -> & ->). exists (b ++ b1), b2. split_and!; [done..|].
  injection H as <-. by rewrite (assoc_L (++)).
Qed.

Lemma write_all_cons {A} (f : A → Expected (list byte)) x l bs :
  write_all f (x :: l) = Ok bs → ∃ b bs', f x = Ok b ∧ write_all f l = Ok bs' ∧ bs = b ++ bs'.
Proof.
  cbn. destruct (f x) as [b|]; [|done]. cbn. destruct (write_all f l) as [bs'|]; [|done]. cbn. intros [= <-]. eauto.
Qed.

Lemma length_write_all {A} (f : A → Expected (list byte)) n l bs :
  (∀ x b, x ∈ l → f x = Ok b → (n ≤ length b)%nat) → write_all f l = Ok bs → (length l * n ≤ length bs)%nat.
Proof.
  revert bs. induction l as [|x l IH]; intros bs Hn H; [cbn; lia|].
  apply write_all_cons in H as (b & bs' & Hb & Hbs & ->). rewrite length_app. cbn.
  pose proof (Hn x b (list_elem_of_here _ _) Hb). assert (length l * n ≤ length bs')%nat; [|lia].
  apply IH; [|done]. intros y c Hy. apply Hn. by right.
Qed.

Section loops.
Context {A X : Type} (f : X → Expected (list byte)) (body : A → SE (list byte) A) (step : A → X → A).

Lemma parses_repeat l : ∀ a0 bs,
  (∀ pre x post b, l = pre ++ x :: post → f x = Ok b → parses (body (fold_left step pre a0)) b (step (fold_left step pre a0) x)) →
  write_all f l = Ok bs → parses (repeat_body (length l) body a0) bs (fold_left step l a0).
Proof.
  induction l as [|x l IH]; intros a0 bs Hb Hw; [injection Hw as <-; apply parses_ret|].
  apply write_all_cons in Hw as (b & bs' & Hx & Hw & ->). cbn [length repeat_body fold_left]. eapply parses_bind.
  - by apply (Hb [] x l).
  - apply IH; [|done]. intros pre y post c -> Hy. by apply (Hb (x :: pre) y post).
Qed.

Lemma parses_entries label cm km n l a0 bs :
  (∀ x b, x ∈ l → f x = Ok b → (n ≤ length b)%nat) →
  (∀ pre x post b, l = pre ++ x :: post → f x = Ok b → parses (body (fold_left step pre a0)) b (step (fold_left step pre a0) x)) →
  write_entries label f l = Ok bs →
  parses (read_entries cm km (Z.of_nat n) body a0) bs (fold_left step l a0).
Proof.
  intros Hn Hb. unfold write_entries, CheckedSizeToU32. destruct (_ || _) eqn:E; [done|]. cbn [expected_bind].
  apply orb_false_iff in E as [E _]. apply Z.ltb_ge in E. unfold u32. rewrite wrap_small by (unfold in_u, u32_max in *; lia).
  destruct (write_all f l) as [bs'|] eqn:Hw; [|done]. cbn [expected_bind]. intros <-%Ok_inj. unfold read_entries.
  eapply parses_bind; [apply parses_ReadBinary; unfold in_u, u32_max in *; lia|].
  intros rest. unfold se_bind. rewrite parses_require.
  - rewrite Nat2Z.id. by apply parses_repeat.
  - pose proof (length_write_all f n l bs' Hn Hw). nia.
Qed.
End loops.

(** The entries of a nested container, each with its key, in the order of the
    file. *)
Definition pairs_of {K X} (f : K → list X) (ks : list K) : list (K * X) := concat ((λ k, (k,.) <$> f k) <$> ks).

Lemma fold_pairs_of {A K X} (step : A → K * X → A) (f : K → list X) ks : ∀ a,
  fold_left (λ a k, fold_left (λ a x, step a (k, x)) (f k) a) ks a = fold_left step (pairs_of f ks) a.
Proof.
  induction ks as [|k ks IH]; intros a; [done|]. unfold pairs_of. cbn. rewrite fold_left_app, IH. f_equal.
  generalize (f k). intros l. revert a. induction l as [|x l IHl]; intros a; [done|]. apply IHl.
Qed.

Lemma elem_of_pairs_of {K X} (f : K → list X) ks p : p ∈ pairs_of f ks ↔ p.1 ∈ ks ∧ p.2 ∈ f p.1.
Proof.
  unfold pairs_of. rewrite list_elem_of_In, in_concat. setoid_rewrite <- list_elem_of_In. split.
  - intros (l & (k & -> & Hk)%list_elem_of_fmap & (x & -> & Hx)%list_elem_of_fmap). done.
  - intros [Hk Hx]. exists ((p.1,.) <$> f p.1). split; [apply list_elem_of_fmap; eauto|].
    apply list_elem_of_fmap. exists p.2. by destruct p.
Qed.

Lemma length_write_entries {A} label (f : A → Expected (list byte)) l bs : write_entries label f l = Ok bs → (4 ≤ length bs)%nat.
Proof.
  unfold write_entries. destruct (CheckedSizeToU32 _ _ _); [|done]. cbn [expected_bind]. destruct (write_all f l); [|done]. cbn [expected_bind].
  intros <-%Ok_inj. rewrite length_app, length_WriteBinary. lia.
Qed.

(** One field after another: [parses_field] reads the next one. *)
Ltac parses_field :=
  eapply parses_bind; [first [apply parses_ReadBinary; assumption | eapply parses_ReadString; eassumption]|].
Ltac parses_fields := rewrite <- ?(assoc_L (++)); repeat parses_field.
(** The last field of a record. *)
Ltac parses_end :=
  eapply parses_bind_last; [first [apply parses_ReadBinary; assumption | eapply parses_ReadString; eassumption]|apply parses_ret].

(** Invert the next writer of a hypothesis [H : let? x := e in k = Ok bs]. *)
Tactic Notation "inv_write" hyp(H) ident(x) ident(Hx) :=
  match type of H with
  | (let? _ := ?e in _) = Ok _ => destruct e as [x|] eqn:Hx; [|discriminate H]; cbn [expected_bind] in H
  end.

(** ** Header, statistics and configuration *)

Record header_ok (h : HeaderV1) : Prop := {
  hk_size : in_u 32 (header_size h);
  hk_flags : in_u 32 (flags h);
  hk_time : in_u 64 (snapshot_timestamp h);
  hk_total : in_u 64 (total_file_size h);
  hk_crc : in_u 32 (file_crc32 h)
}.

Lemma parses_header h bs : header_ok h → WriteHeaderV1 h = Ok bs → parses ReadHeaderV1 bs h.
Proof.
  intros [H1 H2 H3 H4 H5] H. unfold WriteHeaderV1 in H. inv_write H res Hres. apply Ok_inj in H as <-.
  unfold ReadHeaderV1. destruct h; cbn in *. do 5 parses_field. parses_end.
Qed.

Record statistics_ok (st : SnapshotStatistics) : Prop := {
  sk_contexts : in_u 64 (total_contexts st);
  sk_events : in_u 64 (total_events st);
  sk_co : in_u 64 (total_co_occurrences st);
  sk_vectors : in_u 64 (total_vectors st);
  sk_bytes : in_u 64 (total_bytes st);
  sk_ms : in_u 64 (snapshot_time_ms st)
}.
Record store_statistics_ok (st : StoreStatistics) : Prop := {
  tk_items : in_u 64 (item_count st);
  tk_bytes : in_u 64 (memory_bytes st);
  tk_time : in_u 64 (last_update_time st)
}.
Record saved_ok (c : SavedConfig) : Prop := {
  vk_buffer : in_u 32 (s_ctx_buffer_size c);
  vk_interval : in_u 32 (s_decay_interval_sec c);
  vk_alpha : in_u 64 (s_decay_alpha c);
  vk_dimension : in_u 32 (s_default_dimension c);
  vk_top_k : in_u 32 (s_default_top_k c);
  vk_max : in_u 32 (s_max_top_k c);
  vk_fa : in_u 64 (s_fusion_alpha c);
  vk_fb : in_u 64 (s_fusion_beta c)
}.

Lemma parses_statistics st : statistics_ok st → parses DeserializeStatistics (SerializeStatistics st) st.
Proof. intros [? ? ? ? ? ?]. unfold DeserializeStatistics, SerializeStatistics. destruct st; cbn in *. do 5 parses_field. parses_end. Qed.

Lemma parses_store_statistics st :
  store_statistics_ok st → parses DeserializeStoreStatistics (SerializeStoreStatistics st) st.
Proof.
  intros [? ? ?]. unfold DeserializeStoreStatistics, SerializeStoreStatistics. destruct st; cbn in *. do 2 parses_field. parses_end.
Qed.

Lemma parses_config c bs : saved_ok c → SerializeConfig c = Ok bs → parses DeserializeConfig bs c.
Proof.
  intros [? ? ? ? ? ? ? ?] H. unfold SerializeConfig in H. inv_write H m Hm. apply Ok_inj in H as <-.
  unfold DeserializeConfig. destruct c; cbn in *. do 8 parses_field. parses_end.
Qed.

(** ** Events *)

Lemma lastn_ge {T} n (l : list T) : (length l ≤ n)%nat → lastn n l = l.
Proof. intros. unfold lastn. by replace (length l - n)%nat with 0%nat by lia. Qed.

Lemma event_type_of_byte t :
  (∀ b, t ≠ Unnamed b) →
  ∃ z, [WalCodec.event_type_byte t] = WriteBinary 1 z ∧ 0 ≤ z ≤ 2 ∧ WalCodec.event_type_of z = t.
Proof.
  intros Ht. destruct t as [| | |b]; [exists 0|exists 1|exists 2|by destruct (Ht b)]; split_and!; by vm_compute.
Qed.

Record event_ok (e : Event) : Prop := {
  ek_id : item_id e ≠ "";
  ek_score : in_s 32 (score e);
  ek_time : in_u 64 (ev_timestamp e);
  ek_type : ∀ b, type e ≠ Unnamed b
}.

Section events.
Context {order : IterOrder}.

Definition restore (s : EventStore) (p : string * Event) : EventStore := (RestoreEvent p.1 p.2 s).2.

Lemma RestoreEvent_Ok ctx e s : ctx ≠ "" → item_id e ≠ "" → RestoreEvent ctx e s = (Ok tt, restore s (ctx, e)).
Proof.
  intros Hc Hi. unfold restore, RestoreEvent. cbn [fst snd]. by rewrite !bool_decide_eq_false_2.
Qed.

Lemma length_write_event e bs : write_event e = Ok bs → (17 ≤ length bs)%nat.
Proof.
  unfold write_event. intros H. inv_write H i Hi. apply Ok_inj in H as <-. apply length_WriteString in Hi.
  rewrite !length_app, !length_WriteBinary. cbn. lia.
Qed.

Lemma parses_event ctx e s bs :
  ctx ≠ "" → event_ok e → write_event e = Ok bs → parses (read_event ctx s) bs (restore s (ctx, e)).
Proof.
  intros Hc [Hi Hs Ht Hn] H. unfold write_event in H. inv_write H i Hi'. apply Ok_inj in H as <-.
  destruct (event_type_of_byte _ Hn) as (z & Hz & Hr & Hof). rewrite Hz. unfold read_event.
  parses_field. eapply parses_bind; [apply parses_ReadBinary_wrap|].
  eapply parses_bind; [apply parses_ReadBinary; unfold in_u; cbn; lia|].
  eapply parses_bind_last; [by apply parses_ReadBinary|]. rewrite (proj2 (Z.ltb_ge 2 z)) by lia. rewrite Hof.
  change (i32 (wrap (8 * Z.of_nat 4) (score e))) with (sint 32 (wrap 32 (score e))). rewrite sint_wrap by done.
  destruct e as [id sc ts ty]. cbn in *. rewrite RestoreEvent_Ok by done. apply parses_ret.
Qed.

Definition event_pairs (es : EventStore) (ctxs : list string) : list (string * Event) :=
  pairs_of (λ ctx, GetEvents ctx es) ctxs.

Definition restore_context (es : EventStore) (s : EventStore) (ctx : string) : EventStore :=
  fold_left (λ s e, restore s (ctx, e)) (GetEvents ctx es) s.

(** Contexts and events that the reader accepts. *)
Definition events_ok (es : EventStore) : Prop :=
  ∀ ctx, ctx ∈ GetAllContexts es → ctx ≠ "" ∧ ∀ e, e ∈ GetEvents ctx es → event_ok e.

Lemma length_write_context es ctx bs : write_context es ctx = Ok bs → (8 ≤ length bs)%nat.
Proof.
  unfold write_context. intros H. inv_write H n Hn. inv_write H evs Hev. apply Ok_inj in H as <-.
  apply length_WriteString in Hn. apply length_write_entries in Hev. rewrite length_app. lia.
Qed.

Lemma parses_context es s ctx bs :
  ctx ≠ "" → (∀ e, e ∈ GetEvents ctx es → event_ok e) → write_context es ctx = Ok bs →
  parses (read_context s) bs (restore_context es s ctx).
Proof.
  intros Hc He H. unfold write_context in H. inv_write H n Hn. inv_write H evs Hev. apply Ok_inj in H as <-.
  unfold read_context. parses_field. change kMinSerializedEventSize with (Z.of_nat 17).
  unfold restore_context. eapply (parses_entries write_event _ (λ s e, restore s (ctx, e))); [| |exact Hev].
  - intros e b _. apply length_write_event.
  - intros pre e post b Hl Hb. apply parses_event; [done| |done]. apply He. rewrite Hl. set_solver.
Qed.

Lemma parses_events es s bs :
  events_ok es → SerializeEventStore es = Ok bs →
  parses (DeserializeEventStore s) bs (fold_left restore (event_pairs es (GetAllContexts es)) (ClearStore s)).
Proof.
  intros Hok H. unfold DeserializeEventStore, event_pairs. rewrite <- fold_pairs_of. change (4 * 2) with (Z.of_nat 8).
  eapply (parses_entries _ _ (restore_context es)); [| |exact H].
  - intros ctx b _. apply length_write_context.
  - intros pre ctx post b Hl Hb. destruct (Hok ctx) as [? ?]; [rewrite Hl; set_solver|]. by apply parses_context.
Qed.

(** Restoring a whole store: nothing is evicted, every context gets its events. *)
Lemma restore_effect ctx e s :
  store_ok s → seq_room s → ctx ≠ "" → item_id e ≠ "" →
  (max_contexts (EventStore.config_ s) = 0 ∨ ctx ∈ dom (ctx_events_ s) ∨ Z.of_nat (size (ctx_events_ s)) < max_contexts (EventStore.config_ s)) →
  let s' := restore s (ctx, e) in
  store_ok s' ∧ EventStore.config_ s' = EventStore.config_ s ∧ context_access_sequence_ s' = context_access_sequence_ s + 1 ∧
  dom (ctx_events_ s') = {[ctx]} ∪ dom (ctx_events_ s) ∧
  GetEvents ctx s' = lastn (Z.to_nat (ctx_buffer_size (EventStore.config_ s))) (GetEvents ctx s ++ [e]) ∧
  ∀ c, c ≠ ctx → GetEvents c s' = GetEvents c s.
Proof.
  intros Hok Hroom Hc Hi Hfit s'. subst s'.
  assert (Hok' : store_ok (EnsureContext ctx (bump_total s))) by (apply store_ok_EnsureContext; [by apply store_ok_bump_total|done]).
  set (s1 := PushEvent ctx e (EnsureContext ctx (bump_total s))).
  assert (Hs' : ∃ st, restore s (ctx, e) = with_state st s1).
  { unfold restore, RestoreEvent. cbn [fst snd]. rewrite !bool_decide_eq_false_2 by done. cbn [snd]. fold s1.
    destruct (state_cache_ s1) as [c|] eqn:Hst; [|exists None; rewrite <- Hst; by destruct s1].
    destruct (type e); eauto; exists (Some c); rewrite <- Hst; by destruct s1. }
  split_and!; [by apply (store_ok_RestoreEvent ctx e s)|destruct Hs' as [st ->]..]; cbn [EventStore.config_ with_state context_access_sequence_ ctx_events_].
  - change (EventStore.config_ s1) with (EventStore.config_ (EnsureContext ctx (bump_total s))). by rewrite config_EnsureContext.
  - change (context_access_sequence_ s1) with (context_access_sequence_ (EnsureContext ctx (bump_total s))).
    rewrite seq_EnsureContext. cbn. unfold u64. rewrite wrap_small; [done|]. pose proof (so_seq_nonneg _ Hok).
    unfold seq_room, u64_max, in_u in *. lia.
  - unfold s1, PushEvent. cbn [ctx_events_ with_contexts]. rewrite dom_insert_L. unfold EnsureContext. cbn [bump_total ctx_events_].
    destruct (ctx_events_ s !! ctx) as [r|] eqn:Hr; cbn [TouchContextLocked with_contexts ctx_events_]; [done|].
    rewrite dom_insert_L. destruct (Evict_cases _ (store_ok_bump_total s Hok)) as [[-> _]|(v & Hv & Hm & Hsz & _)]; [set_solver|].
    cbn in Hm, Hsz. exfalso. destruct Hfit as [|[Hin|]]; [lia| |lia]. apply elem_of_dom in Hin as [r Hr']. congruence.
  - change (GetEvents ctx (with_state st s1)) with (GetEvents ctx s1). unfold s1. rewrite GetEvents_PushEvent by (done || apply EnsureContext_is_Some).
    rewrite config_EnsureContext, GetEvents_EnsureContext. done.
  - intros c Hne. change (GetEvents c (with_state st s1)) with (GetEvents c s1). unfold s1. rewrite GetEvents_PushEvent_other by done.
    destruct (GetEvents_EnsureContext_other ctx c _ (store_ok_bump_total s Hok) Hne) as [->|(H1 & (n & Hn & _) & H3 & _)]; [done|].
    cbn in H1, H3, Hn. exfalso. unfold GetContextCount in H3. cbn in H3. destruct Hfit as [Hz|[Hin|]]; [| |lia].
    + assert (c ∈ dom (ctx_events_ s)) as Hcd by (rewrite (so_dom _ Hok); apply elem_of_dom; eauto).
      rewrite <- size_dom in H3. assert (size (dom (ctx_events_ s)) = 0%nat) as H0 by lia.
      apply size_empty_inv in H0. set_solver.
    + apply elem_of_dom in Hin as [r Hr']. congruence.
Qed.

(** The events of [c] among the pairs. *)
Definition events_of (c : string) (ps : list (string * Event)) : list Event := (base.filter (λ p, p.1 = c) ps).*2.

Lemma events_of_app c ps qs : events_of c (ps ++ qs) = events_of c ps ++ events_of c qs.
Proof. unfold events_of. by rewrite filter_app, fmap_app. Qed.

Lemma lastn_snoc {T} n (l : list T) x : lastn n (lastn n l ++ [x]) = lastn n (l ++ [x]).
Proof.
  destruct (decide (0 < n)%nat); [by apply lastn_lastn_snoc|]. assert (n = 0%nat) as -> by lia.
  unfold lastn. rewrite !Nat.sub_0_r, !drop_all. done.
Qed.

(** What restoring a prefix of the pairs gives, in a store that was empty. *)
Record restored (cfg : EventsConfig) (ps : list (string * Event)) (s : EventStore) : Prop := {
  rs_ok : store_ok s;
  rs_cfg : EventStore.config_ s = cfg;
  rs_seq : context_access_sequence_ s = Z.of_nat (length ps);
  rs_dom : dom (ctx_events_ s) = list_to_set ps.*1;
  rs_events : ∀ c, GetEvents c s = lastn (Z.to_nat (ctx_buffer_size cfg)) (events_of c ps)
}.

Lemma restored_snoc cfg ps s ctx e (D : gset string) :
  restored cfg ps s → Z.of_nat (length ps) < u64_max → ctx ≠ "" → item_id e ≠ "" →
  list_to_set ps.*1 ⊆ D → ctx ∈ D → (max_contexts cfg = 0 ∨ Z.of_nat (size D) ≤ max_contexts cfg) →
  restored cfg (ps ++ [(ctx, e)]) (restore s (ctx, e)).
Proof.
  intros [Hok Hcfg Hseq Hdom Hev] Hlen Hc Hi HD Hin Hmax.
  destruct (restore_effect ctx e s Hok) as (H1 & H2 & H3 & H4 & H5 & H6); [|done..| |].
  - unfold seq_room. lia.
  - rewrite Hcfg. destruct Hmax as [|Hmax]; [by left|]. right.
    destruct (decide (ctx ∈ dom (ctx_events_ s))) as [|Hn]; [by left|right].
    rewrite <- size_dom. pose proof (subseteq_size ({[ctx]} ∪ dom (ctx_events_ s)) D ltac:(set_solver)) as Hs.
    rewrite size_union, size_singleton in Hs by set_solver. lia.
  - split; [done|congruence| | |].
    + rewrite length_app. cbn. lia.
    + rewrite H4, Hdom, fmap_app, list_to_set_app_L. cbn. set_solver.
    + intros c. rewrite events_of_app. unfold events_of at 2. rewrite filter_cons, filter_nil. cbn [fst].
      case_decide as Hd; cbn [fmap list_fmap snd].
      * subst c. by rewrite H5, Hcfg, Hev, lastn_snoc.
      * rewrite app_nil_r, H6 by done. apply Hev.
Qed.

Lemma restored_all cfg ps (D : gset string) s0 :
  restored cfg [] s0 → Z.of_nat (length ps) ≤ u64_max →
  (∀ p, p ∈ ps → p.1 ≠ "" ∧ item_id p.2 ≠ "" ∧ p.1 ∈ D) → (max_contexts cfg = 0 ∨ Z.of_nat (size D) ≤ max_contexts cfg) →
  restored cfg ps (fold_left restore ps s0).
Proof.
  intros H0 Hlen Hps Hmax. induction ps as [|[ctx e] ps IH] using rev_ind; [done|].
  rewrite fold_left_app. cbn [fold_left]. rewrite length_app in Hlen. cbn in Hlen.
  destruct (Hps (ctx, e)) as (? & ? & ?); [set_solver|].
  apply restored_snoc with D; [|lia|done..| |done|done].
  - apply IH; [lia|]. intros p Hp. apply Hps. set_solver.
  - intros c. rewrite elem_of_list_to_set. intros (p & -> & Hp)%list_elem_of_fmap. apply Hps. set_solver.
Qed.

Lemma events_of_pairs es c ctxs :
  NoDup ctxs → events_of c (event_pairs es ctxs) = if decide (c ∈ ctxs) then GetEvents c es else [].
Proof.
  unfold event_pairs, pairs_of. induction 1 as [|ctx ctxs Hn _ IH]; [done|]. cbn [fmap list_fmap concat]. rewrite events_of_app, IH.
  assert (He : events_of c ((ctx,.) <$> GetEvents ctx es) = if decide (ctx = c) then GetEvents ctx es else []).
  { unfold events_of. generalize (GetEvents ctx es). intros l. induction l as [|e l IHl]; [by destruct (decide (ctx = c))|].
    cbn [fmap list_fmap]. rewrite filter_cons. cbn [fst]. destruct (decide (ctx = c)); [|done]. cbn [fmap list_fmap snd].
    by f_equal. }
  rewrite He. destruct (decide (ctx = c)) as [<-|Hne]; destruct (decide (_ ∈ ctxs)), (decide (_ ∈ ctx :: ctxs));
    rewrite ?app_nil_r; set_solver.
Qed.

Lemma elem_of_GetAllContexts es c : c ∈ GetAllContexts es ↔ c ∈ dom (ctx_events_ es).
Proof.
  unfold GetAllContexts. rewrite elem_of_dom, list_elem_of_fmap. split.
  - intros ([k r] & -> & H%elem_of_iter_order). eauto.
  - intros [r H%elem_of_iter_order]. by exists (c, r).
Qed.

(** The room a store needs to take in another one whole. *)
Definition events_fit (es s : EventStore) : Prop :=
  ctx_buffer_size (EventStore.config_ es) ≤ ctx_buffer_size (EventStore.config_ s) ∧
  (max_contexts (EventStore.config_ s) = 0 ∨ GetContextCount es ≤ max_contexts (EventStore.config_ s)).

Lemma restore_events es s :
  store_ok es → store_ok s → events_ok es → events_fit es s → Z.of_nat (length (event_pairs es (GetAllContexts es))) ≤ u64_max →
  let s' := fold_left restore (event_pairs es (GetAllContexts es)) (ClearStore s) in
  store_ok s' ∧ EventStore.config_ s' = EventStore.config_ s ∧ ∀ c, GetEvents c s' = GetEvents c es.
Proof.
  intros Hes Hs Hev [Hbuf Hmax] Hlen s'. subst s'.
  destruct (restored_all (EventStore.config_ s) (event_pairs es (GetAllContexts es)) (dom (ctx_events_ es)) (ClearStore s)) as [H1 H2 _ _ H3].
  - split; [by apply store_ok_Clear|done..].
  - done.
  - intros [ctx e] [Hc He]%elem_of_pairs_of. cbn in *. destruct (Hev ctx Hc) as [? Hok].
    split_and!; [done|by apply Hok|by apply elem_of_GetAllContexts].
  - rewrite size_dom. exact Hmax.
  - split_and!; [done..|]. intros c. rewrite H3, events_of_pairs by apply NoDup_fst_iter_order.
    destruct decide as [|Hn].
    + apply lastn_ge. pose proof (length_GetEvents c es Hes). lia.
    + rewrite elem_of_GetAllContexts, not_elem_of_dom in Hn. unfold GetEvents. rewrite Hn. unfold lastn. by rewrite drop_nil.
Qed.

Lemma length_pairs_written es ctxs bs :
  write_all (write_context es) ctxs = Ok bs → (length (event_pairs es ctxs) ≤ length bs)%nat.
Proof.
  revert bs. induction ctxs as [|ctx ctxs IH]; intros bs H; [cbn; lia|].
  apply write_all_cons in H as (b & bs' & Hb & Hbs & ->). specialize (IH _ Hbs).
  unfold event_pairs, pairs_of in *. cbn [fmap list_fmap concat]. rewrite !length_app, length_fmap.
  unfold write_context in Hb. inv_write Hb n Hn. inv_write Hb evs Hev. apply Ok_inj in Hb as <-.
  unfold write_entries in Hev. inv_write Hev k Hk. inv_write Hev rest Hall. apply Ok_inj in Hev as <-.
  pose proof (length_write_all write_event 17 _ rest (λ e b _, length_write_event e b) Hall). rewrite !length_app. lia.
Qed.

Lemma length_pairs_store es bs :
  SerializeEventStore es = Ok bs → (length (event_pairs es (GetAllContexts es)) ≤ length bs)%nat.
Proof.
  unfold SerializeEventStore, write_entries. intros H. inv_write H k Hk. inv_write H rest Hall. apply Ok_inj in H as <-.
  apply length_pairs_written in Hall. rewrite length_app. lia.
Qed.
End events.

(** ** Co-occurrences *)

Section co_occurrences.
Context {order : IterOrder}.

Definition set_score (i : CoOccurrenceIndex) (p : string * (string * Z)) : CoOccurrenceIndex := SetScore p.1 p.2.1 p.2.2 i.

Lemma length_write_neighbor p bs : write_neighbor p = Ok bs → (8 ≤ length bs)%nat.
Proof.
  unfold write_neighbor. intros H. inv_write H n Hn. apply Ok_inj in H as <-. apply length_WriteString in Hn.
  rewrite length_app, length_WriteBinary. lia.
Qed.

Lemma length_write_item co item bs : write_item co item = Ok bs → (8 ≤ length bs)%nat.
Proof.
  unfold write_item. intros H. inv_write H n Hn. inv_write H ns Hns. apply Ok_inj in H as <-.
  apply length_WriteString in Hn. apply length_write_entries in Hns. rewrite length_app. lia.
Qed.

Definition scores_ok (co : CoOccurrenceIndex) : Prop := ∀ a b v, cell (co_scores_ co) a b = Some v → in_u 32 v.

Lemma elem_of_GetAllNeighbors co a p : p ∈ GetAllNeighbors a co ↔ cell (co_scores_ co) a p.1 = Some p.2.
Proof.
  unfold GetAllNeighbors, cell. destruct (co_scores_ co !! a) as [r|]; cbn; [|set_solver].
  destruct p. by rewrite elem_of_iter_order.
Qed.

Lemma elem_of_GetAllItems co a : a ∈ GetAllItems co ↔ is_Some (co_scores_ co !! a).
Proof.
  unfold GetAllItems. rewrite list_elem_of_fmap. split.
  - intros ([k r] & -> & H%elem_of_iter_order). eauto.
  - intros [r H%elem_of_iter_order]. by exists (a, r).
Qed.

Definition neighbor_pairs (co : CoOccurrenceIndex) : list (string * (string * Z)) :=
  pairs_of (λ a, GetAllNeighbors a co) (GetAllItems co).

Lemma elem_of_neighbor_pairs co a b v : (a, (b, v)) ∈ neighbor_pairs co ↔ cell (co_scores_ co) a b = Some v.
Proof.
  unfold neighbor_pairs. rewrite elem_of_pairs_of. cbn [fst snd]. rewrite elem_of_GetAllNeighbors, elem_of_GetAllItems. cbn.
  split; [tauto|]. intros H. split; [|done]. unfold cell in H. destruct (co_scores_ co !! a); [eauto|done].
Qed.

Lemma parses_neighbor item i p bs :
  in_u 32 p.2 → write_neighbor p = Ok bs → parses (read_neighbor item i) bs (set_score i (item, p)).
Proof.
  intros Hv H. unfold write_neighbor in H. inv_write H n Hn. apply Ok_inj in H as <-. unfold read_neighbor. parses_field. parses_end.
Qed.

Lemma parses_item co i item bs :
  scores_ok co → write_item co item = Ok bs →
  parses (read_item i) bs (fold_left (λ i p, set_score i (item, p)) (GetAllNeighbors item co) i).
Proof.
  intros Hs H. unfold write_item in H. inv_write H n Hn. inv_write H ns Hns. apply Ok_inj in H as <-.
  unfold read_item. parses_field. change kMinSerializedNeighborSize with (Z.of_nat 8).
  eapply (parses_entries write_neighbor _ (λ i p, set_score i (item, p))); [| |exact Hns].
  - intros p b _. apply length_write_neighbor.
  - intros pre p post b Hl Hb. apply parses_neighbor; [|done]. apply (Hs item p.1), elem_of_GetAllNeighbors. rewrite Hl. set_solver.
Qed.

Lemma parses_co i co bs :
  scores_ok co → SerializeCoOccurrenceIndex co = Ok bs →
  parses (DeserializeCoOccurrenceIndex i) bs (fold_left set_score (neighbor_pairs co) (ClearIndex i)).
Proof.
  intros Hok H. unfold DeserializeCoOccurrenceIndex, neighbor_pairs. rewrite <- fold_pairs_of. change (4 * 2) with (Z.of_nat 8).
  eapply (parses_entries _ _ (λ i item, fold_left (λ i p, set_score i (item, p)) (GetAllNeighbors item co) i)); [| |exact H].
  - intros item b _. apply length_write_item.
  - intros pre item post b _ Hb. by apply parses_item.
Qed.

(** Matrices without empty rows are equal when their cells are. *)
Lemma matrix_ext m m' : co_ok m → co_ok m' → (∀ a b, cell m a b = cell m' a b) → m = m'.
Proof.
  intros Hm Hm' Hc.
  assert (Hrow : ∀ a, row m a = row m' a) by (intros a; apply map_eq; intros b; by rewrite !lookup_row).
  apply map_eq. intros a. specialize (Hrow a). unfold row in Hrow.
  pose proof (co_rows _ Hm a). pose proof (co_rows _ Hm' a).
  destruct (m !! a), (m' !! a); cbn in Hrow; congruence.
Qed.

Lemma set_scores_cells M ps i :
  co_ok M → co_ok (co_scores_ i) → (∀ a b v, cell (co_scores_ i) a b = Some v → cell M a b = Some v) →
  (∀ a b v, (a, (b, v)) ∈ ps → cell M a b = Some v) →
  let i' := fold_left set_score ps i in
  co_ok (co_scores_ i') ∧ (∀ a b v, cell (co_scores_ i') a b = Some v → cell M a b = Some v) ∧
  ∀ a b v, (a, (b, v)) ∈ ps → cell (co_scores_ i') a b = Some v.
Proof.
  intros HM Hi Hsub Hps. cbv zeta. induction ps as [|[a [b v]] ps IH] using rev_ind; [split_and!; [done..|set_solver]|].
  destruct IH as (H1 & H2 & H3); [set_solver|].
  rewrite fold_left_app. cbn [fold_left]. set (j := fold_left set_score ps i) in *.
  assert (HMv : cell M a b = Some v) by (apply Hps; set_solver).
  assert (Hne : a ≠ b) by (intros ->; by rewrite (co_irrefl _ HM) in HMv).
  assert (Hcell : ∀ x y, cell (co_scores_ (set_score j (a, (b, v)))) x y =
    if decide (x = a ∧ y = b ∨ x = b ∧ y = a) then Some v else cell (co_scores_ j) x y).
  { intros x y. change (co_scores_ (set_score j (a, (b, v)))) with (pair_update (λ _, v) a b (co_scores_ j)).
    by rewrite cell_pair_update by (done || apply H1). }
  split_and!.
  - by apply co_ok_SetScore.
  - intros x y w. rewrite Hcell. case_decide as Hd; [|apply H2]. intros [= <-].
    destruct Hd as [[-> ->]|[-> ->]]; [done|]. by rewrite (co_sym _ HM).
  - intros x y w Hin. rewrite Hcell. case_decide as Hd.
    + assert (HMw : cell M x y = Some w) by (by apply Hps).
      destruct Hd as [[-> ->]|[-> ->]]; [congruence|]. rewrite (co_sym _ HM) in HMw. congruence.
    + apply elem_of_app in Hin as [?|[= -> -> ->]%list_elem_of_singleton]; [by apply H3|tauto].
Qed.

Lemma restore_scores co i :
  co_ok (co_scores_ co) → co_scores_ (fold_left set_score (neighbor_pairs co) (ClearIndex i)) = co_scores_ co.
Proof.
  intros Hok. destruct (set_scores_cells (co_scores_ co) (neighbor_pairs co) (ClearIndex i)) as (H1 & H2 & H3); [done|apply co_ok_empty|done| |].
  - intros a b v. by rewrite elem_of_neighbor_pairs.
  - apply matrix_ext; [done..|]. intros a b. destruct (cell (co_scores_ co) a b) as [v|] eqn:E.
    + apply H3. by apply elem_of_neighbor_pairs.
    + apply eq_None_not_Some. intros [v Hv%H2]. congruence.
Qed.

Lemma set_scores_config ps : ∀ i, co_config_ (fold_left set_score ps i) = co_config_ i.
Proof. induction ps as [|p ps IH]; intros i; [done|]. cbn. by rewrite IH. Qed.
End co_occurrences.

(** ** Vectors *)

Section vectors.
Context {order : IterOrder} {impl : DistanceFunctions}.
Implicit Types (vs : VectorStore.VectorStore) (id : string).

(** Stored vectors that [SetVector] would accept again. *)
Definition vectors_ok vs : Prop :=
  ∀ id v, VectorStore.vs_abs vs !! id = Some v →
    Forall (in_u 32) (VectorStore.v_data v) ∧ VectorStore.acceptable vs id (VectorStore.v_data v) false.

Definition data_of vs id : list Z :=
  match VectorStore.vs_abs vs !! id with Some v => VectorStore.v_data v | None => [] end.

Definition put_vector vs (a : gset string * VectorStore.VectorStore) id : gset string * VectorStore.VectorStore :=
  ({[id]} ∪ a.1, (VectorStore.SetVector id (data_of vs id) false a.2).2).

Lemma parses_components l bs rest :
  Forall (in_u 32) l → bs = concat (WriteBinary 4 <$> l) → read_components (length l) (bs ++ rest) = (Ok l, rest).
Proof.
  intros Hl ->. revert rest. induction Hl as [|x l Hx _ IH]; intros rest; [done|]. cbn [length read_components fmap list_fmap concat].
  unfold se_bind at 1. rewrite <- (assoc_L (++)), parses_ReadBinary by done. unfold se_bind. by rewrite IH.
Qed.

Lemma length_components l : length (concat (WriteBinary 4 <$> l)) = (4 * length l)%nat.
Proof. apply WalCodec.length_floats. Qed.

Lemma write_vector_Ok vs id bs :
  VectorStore.vs_ok vs → write_vector vs id = Ok bs →
  ∃ n v, WriteString ("Failed to write vector ID: " +:+ id) id = Ok n ∧ VectorStore.vs_abs vs !! id = Some v ∧
    bs = n ++ concat (WriteBinary 4 <$> VectorStore.v_data v).
Proof.
  intros Hok. unfold write_vector. intros H. inv_write H n Hn. rewrite VectorStore.GetVector_abs in H by done.
  destruct (VectorStore.vs_abs vs !! id) as [v|]; [|done]. apply Ok_inj in H as <-. eauto.
Qed.

(** The state of the reader after the vectors [pre]. *)
Record vectors_read vs (pre : list string) (a : gset string * VectorStore.VectorStore) : Prop := {
  vr_seen : a.1 = list_to_set pre;
  vr_ok : VectorStore.vs_ok a.2;
  vr_dim : VectorStore.dimension_ a.2 = 0%nat ∨ VectorStore.dimension_ a.2 = VectorStore.dimension_ vs;
  vr_abs : ∀ id, VectorStore.vs_abs a.2 !! id =
    if decide (id ∈ pre) then Some (VectorStore.MkVector (data_of vs id) false) else None
}.

Lemma acceptable_again vs vs' id data :
  VectorStore.acceptable vs id data false → VectorStore.dimension_ vs ≠ 0%nat →
  VectorStore.dimension_ vs' = 0%nat ∨ VectorStore.dimension_ vs' = VectorStore.dimension_ vs →
  VectorStore.acceptable vs' id data false.
Proof. unfold VectorStore.acceptable. intros (? & ? & ? & ? & ? & Hd & ?) Hne Hdim. split_and!; try done. destruct Hdim as [->| ->], Hd; auto. Qed.

Lemma vectors_read_snoc vs pre a id :
  VectorStore.acceptable vs id (data_of vs id) false → VectorStore.dimension_ vs ≠ 0%nat → vectors_read vs pre a →
  VectorStore.SetVector id (data_of vs id) false a.2 = (Ok tt, (put_vector vs a id).2) ∧
  vectors_read vs (pre ++ [id]) (put_vector vs a id).
Proof.
  intros Hacc Hne [Hseen Hok Hdim Habs].
  assert (Hv : VectorStore.ValidateVector a.2 id (data_of vs id) = Ok tt)
    by (apply VectorStore.ValidateVector_Ok; by eapply acceptable_again).
  pose proof (VectorStore.SetVector_validated _ _ _ Hv) as Hset. split; [done|].
  assert (Hst : VectorStore.StoreVector id (data_of vs id) false a.2 = (Ok tt, (put_vector vs a id).2)).
  { unfold put_vector. cbn [snd]. revert Hset. unfold VectorStore.SetVector, VectorStore.PrepareVector. by rewrite Hv. }
  destruct Hacc as (_ & Hnil & _ & _ & _ & Hd & _).
  destruct (VectorStore.StoreVector_ok _ _ _ _ _ Hok Hnil Hst) as (Hok' & Habs' & Hdim'). split; [|done| |].
  - unfold put_vector. cbn [fst]. rewrite Hseen, list_to_set_app_L. cbn. set_solver.
  - right. rewrite Hdim'. by destruct Hd.
  - intros x. rewrite Habs'. destruct (decide (x = id)) as [->|Hx].
    + rewrite lookup_insert_eq, decide_True by set_solver. done.
    + rewrite lookup_insert_ne, Habs by done. by destruct (decide (x ∈ pre)), (decide (x ∈ pre ++ [id])); set_solver.
Qed.

Lemma vectors_read_all vs pre a0 :
  (∀ id, id ∈ pre → VectorStore.acceptable vs id (data_of vs id) false ∧ VectorStore.dimension_ vs ≠ 0%nat) →
  vectors_read vs [] a0 → vectors_read vs pre (fold_left (put_vector vs) pre a0).
Proof.
  intros Hacc H0. induction pre as [|id pre IH] using rev_ind; [done|]. rewrite fold_left_app.
  destruct (Hacc id) as [? ?]; [set_solver|]. apply vectors_read_snoc; [done..|]. apply IH. intros. apply Hacc. set_solver.
Qed.

Lemma elem_of_GetAllIds vs id : VectorStore.vs_ok vs → id ∈ VectorStore.GetAllIds vs ↔ is_Some (VectorStore.vs_abs vs !! id).
Proof.
  intros Hok. unfold VectorStore.GetAllIds, VectorStore.vs_abs. rewrite lookup_fmap, fmap_is_Some, list_elem_of_fmap. split.
  - intros ([k i] & -> & H%elem_of_iter_order). eauto.
  - intros [i H%elem_of_iter_order]. by exists (id, i).
Qed.

Lemma stored_acceptable vs id :
  VectorStore.vs_ok vs → vectors_ok vs → id ∈ VectorStore.GetAllIds vs →
  Forall (in_u 32) (data_of vs id) ∧ VectorStore.acceptable vs id (data_of vs id) false ∧
  VectorStore.dimension_ vs ≠ 0%nat ∧ length (data_of vs id) = VectorStore.dimension_ vs.
Proof.
  intros Hok Hvs [v Hv]%elem_of_GetAllIds; [|done]. unfold data_of. rewrite Hv. destruct (Hvs id v Hv) as [H1 H2].
  assert (Hne : VectorStore.dimension_ vs ≠ 0%nat).
  { apply VectorStore.ok_dim; [done|]. unfold VectorStore.vs_abs in Hv. rewrite lookup_fmap in Hv.
    destruct (VectorStore.id_to_idx_ vs !! id) as [i|] eqn:Hi; [|done].
    apply VectorStore.index_bound in Hi; [|done]. intros E. rewrite E in Hi. cbn in Hi. lia. }
  split_and!; [done..|]. destruct H2 as (_ & _ & _ & _ & _ & [?|?] & _); done.
Qed.
Lemma parses_vector vs pre a id bs :
  VectorStore.vs_ok vs → vectors_ok vs → id ∈ VectorStore.GetAllIds vs → id ∉ pre → vectors_read vs pre a →
  write_vector vs id = Ok bs →
  parses (read_vector (Z.of_nat (VectorStore.dimension_ vs)) a) bs (put_vector vs a id).
Proof.
  intros Hok Hvs Hin Hn Hread H. destruct (stored_acceptable vs id Hok Hvs Hin) as (Hb & Hacc & Hne & Hlen).
  apply write_vector_Ok in H as (n & v & Hw & Hv & ->); [|done].
  assert (Hd : VectorStore.v_data v = data_of vs id) by (unfold data_of; by rewrite Hv). rewrite Hd.
  destruct (vectors_read_snoc vs pre a id Hacc Hne Hread) as [Hset _].
  unfold read_vector. parses_field. intros rest. rewrite bool_decide_eq_false_2 by (rewrite (vr_seen _ _ _ Hread); set_solver).
  unfold se_bind at 1. rewrite parses_require by (rewrite length_components; lia).
  unfold se_bind. rewrite Nat2Z.id, <- Hlen, (parses_components _ _ _ Hb eq_refl), Hset. unfold put_vector. done.
Qed.

Lemma parses_vectors vs0 vs bs :
  VectorStore.vs_ok vs → vectors_ok vs → VectorStore.vs_bounded vs → SerializeVectorStore vs = Ok bs →
  ∃ vs', parses (DeserializeVectorStore vs0) bs vs' ∧ VectorStore.vs_ok vs' ∧
    VectorStore.vs_abs vs' = (λ v, VectorStore.MkVector (VectorStore.v_data v) false) <$> VectorStore.vs_abs vs.
Proof.
  intros Hok Hvs [_ Hdim] H. unfold SerializeVectorStore in H. inv_write H vecs Hvecs. apply Ok_inj in H as <-.
  set (ids := VectorStore.GetAllIds vs) in *. set (a0 := (∅ : gset string, VectorStore.Clear vs0)).
  assert (H0 : vectors_read vs [] a0).
  { split; [done| |by left|].
    - constructor; cbn; try done; [set_solver|apply NoDup_nil_2|set_solver].
    - intros id. cbn. unfold VectorStore.vs_abs. by rewrite lookup_fmap. }
  assert (Hall : ∀ pre, pre ⊆ ids → vectors_read vs pre (fold_left (put_vector vs) pre a0)).
  { intros pre Hpre. apply vectors_read_all; [|done]. intros id Hid.
    destruct (stored_acceptable vs id Hok Hvs (Hpre _ Hid)) as (_ & ? & ? & _). done. }
  exists (fold_left (put_vector vs) ids a0).2. destruct (Hall ids) as [_ H1 _ H2]; [done|].
  split_and!; [|done|].
  - unfold DeserializeVectorStore. eapply parses_bind.
    { apply parses_ReadBinary. unfold VectorStore.GetDimension, VectorStore.kMaxVectorDimension, in_u in *. cbn. lia. }
    unfold VectorStore.GetDimension, VectorStore.kMaxVectorDimension in *.
    rewrite (proj2 (Z.ltb_ge _ _)) by (unfold kMaxVectorDimension; lia).
    unfold write_entries in Hvecs. inv_write Hvecs k Hk. inv_write Hvecs rows Hrows. apply Ok_inj in Hvecs as <-.
    unfold CheckedSizeToU32 in Hk. destruct (_ || _) eqn:E; [done|]. apply Ok_inj in Hk as <-.
    apply orb_false_iff in E as [E _]. apply Z.ltb_ge in E. unfold u32. rewrite wrap_small by (unfold in_u, u32_max in *; lia).
    eapply parses_bind; [apply parses_ReadBinary; unfold in_u, u32_max in *; lia|]. intros rest.
    destruct (_ && _) eqn:Ez.
    { exfalso. apply andb_true_iff in Ez as [Ez1%Z.ltb_lt Ez2%Z.eqb_eq]. destruct ids as [|id ids'] eqn:Eids; [cbn in Ez1; lia|].
      destruct (stored_acceptable vs id Hok Hvs) as (_ & _ & ? & _); [|lia]. fold ids. rewrite Eids. by left. }
    unfold se_bind at 1. rewrite parses_require.
    + unfold se_bind. rewrite Nat2Z.id.
      rewrite (parses_repeat (write_vector vs) (read_vector (Z.of_nat (VectorStore.dimension_ vs))) (put_vector vs) ids a0 rows); [done| |done].
      intros pre id post b Hl Hb.
      assert (Hnd : NoDup ids) by apply NoDup_fst_iter_order. rewrite Hl in Hnd. apply NoDup_app in Hnd as (_ & Hnd & _).
      apply parses_vector with pre; [done..| | |apply Hall; rewrite Hl; set_solver|done].
      * fold ids. rewrite Hl. set_solver.
      * intros Hin. apply (Hnd _ Hin). by left.
    + pose proof (length_write_all (write_vector vs) (4 + 4 * VectorStore.dimension_ vs) ids rows) as Hlen.
      assert (length ids * (4 + 4 * VectorStore.dimension_ vs) ≤ length rows)%nat; [|nia].
      apply Hlen; [|done]. intros id b Hin Hb. destruct (stored_acceptable vs id Hok Hvs Hin) as (_ & _ & _ & Hl).
      apply write_vector_Ok in Hb as (n & v & Hn & Hv & ->); [|done]. apply length_WriteString in Hn.
      assert (Hd : VectorStore.v_data v = data_of vs id) by (unfold data_of; by rewrite Hv).
      rewrite length_app, length_components, Hd, Hl. lia.
  - apply map_eq. intros id. rewrite H2, lookup_fmap. unfold data_of.
    destruct (decide (id ∈ ids)) as [[v ->]%elem_of_GetAllIds|Hn]; [done|done|].
    destruct (VectorStore.vs_abs vs !! id) as [v|] eqn:Ev; [|done]. destruct Hn. apply elem_of_GetAllIds; [done|]. eauto.
Qed.
End vectors.

(** ** Metadata *)

Section metadata.
Context {order : IterOrder}.

Definition put {A} (m : gmap string A) (p : string * A) : gmap string A := <[p.1 := p.2]> m.

Lemma fold_put {A} (l : list (string * A)) : NoDup l.*1 → fold_left put l ∅ = list_to_map l.
Proof.
  intros Hl. rewrite <- (fold_left_rev_right (λ p m, put m p)).
  change (fold_right (λ p m, put m p) ∅ (rev l)) with (list_to_map (M := gmap string A) (rev l)).
  assert (Hp : rev l ≡ₚ l) by (symmetry; apply Permutation_rev). apply list_to_map_proper; [by rewrite Hp|done].
Qed.

Lemma fold_put_iter {A} (m : gmap string A) : fold_left put (iter_order m) ∅ = m.
Proof.
  rewrite fold_put by apply NoDup_fst_iter_order. rewrite <- (list_to_map_to_list m) at 2.
  apply list_to_map_proper; [apply NoDup_fst_iter_order|apply iter_order_perm].
Qed.

Lemma fold_put_filter {A} (P : string * A → Prop) `{∀ p, Decision (P p)} (m : gmap string A) :
  fold_left put (base.filter P (iter_order m)) ∅ = base.filter P m.
Proof.
  assert (Hnd : NoDup (base.filter P (iter_order m)).*1).
  { apply (sublist_NoDup _ (iter_order m).*1); [apply NoDup_fst_iter_order|apply fmap_sublist, sublist_filter]. }
  rewrite fold_put by done. rewrite map_filter_alt.
  apply list_to_map_proper; [done|]. by rewrite iter_order_perm.
Qed.

Definition value_ok (v : MetadataValue) : Prop :=
  match v with MString _ | MBool _ => True | MInt64 z => in_s 64 z | MDouble bits => in_u 64 bits end.
Definition metadata_ok (ms : MetadataStore) : Prop :=
  ∀ id meta key v, ms !! id = Some meta → meta !! key = Some v → value_ok v.

Lemma parses_value v bs :
  value_ok v → write_value v = Ok bs → ∃ t bs', bs = WriteBinary 1 t ++ bs' ∧ in_u 8 t ∧ (1 ≤ length bs')%nat ∧ parses (read_value t) bs' v.
Proof.
  intros Hv H. destruct v as [s|z|b|b]; unfold write_value in H; [inv_write H n Hn| | |]; apply Ok_inj in H as <-.
  - exists 1, n. split_and!; [done|by vm_compute| |].
    + apply length_WriteString in Hn. lia.
    + unfold read_value. cbn [Z.eqb Pos.eqb]. parses_end.
  - exists 2, (WriteBinary 8 z). split_and!; [done|by vm_compute|rewrite length_WriteBinary; lia|].
    unfold read_value. cbn [Z.eqb Pos.eqb]. eapply parses_bind_last; [apply parses_ReadBinary_wrap|].
    change (i64 (wrap (8 * Z.of_nat 8) z)) with (sint 64 (wrap 64 z)). rewrite sint_wrap by done. apply parses_ret.
  - exists 3, (WriteBinary 8 b). split_and!; [done|by vm_compute|rewrite length_WriteBinary; lia|].
    unfold read_value. cbn [Z.eqb Pos.eqb]. parses_end.
  - exists 4, (WriteBinary 1 (if b then 1 else 0)). split_and!; [done|by vm_compute|rewrite length_WriteBinary; lia|].
    unfold read_value. cbn [Z.eqb Pos.eqb].
    eapply parses_bind_last; [apply parses_ReadBinary; destruct b; by vm_compute|]. destruct b; apply parses_ret.
Qed.

Lemma write_field_Ok p bs :
  value_ok p.2 → write_field p = Ok bs → (6 ≤ length bs)%nat ∧ ∀ m, parses (read_field m) bs (put m p).
Proof.
  intros Hv H. unfold write_field in H. inv_write H k Hk. inv_write H v Hw. apply Ok_inj in H as <-.
  destruct (parses_value _ _ Hv Hw) as (t & bs' & -> & Ht & Hl & Hp). split.
  - apply length_WriteString in Hk. rewrite !length_app, length_WriteBinary. lia.
  - intros m. unfold read_field. do 2 parses_field. eapply parses_bind_last; [exact Hp|]. apply parses_ret.
Qed.

Lemma write_metadata_Ok p bs :
  p.2 ≠ ∅ → (∀ key v, p.2 !! key = Some v → value_ok v) → write_metadata p = Ok bs →
  (8 ≤ length bs)%nat ∧ ∀ ms, parses (read_metadata ms) bs (put ms p).
Proof.
  intros Hne Hv H. unfold write_metadata in H. inv_write H n Hid. inv_write H fields Hf. apply Ok_inj in H as <-. split.
  { apply length_WriteString in Hid. apply length_write_entries in Hf. rewrite length_app. lia. }
  assert (Hval : ∀ q, q ∈ iter_order p.2 → value_ok q.2).
  { intros [k v] Hq%elem_of_iter_order. by apply (Hv k). }
  intros ms. unfold read_metadata. parses_field. eapply parses_bind_last.
  - change kMinSerializedMetadataFieldSize with (Z.of_nat 6).
    eapply (parses_entries write_field read_field put); [| |exact Hf].
    + intros q b Hq Hb. by apply (write_field_Ok q b (Hval q Hq)).
    + intros pre q post b Hl Hb. eapply (write_field_Ok q b); [|done]. apply Hval. rewrite Hl. set_solver.
  - rewrite fold_put_iter, bool_decide_eq_false_2 by done. apply parses_ret.
Qed.

(** Entries without fields are not written. *)
Lemma parses_metadata ms0 ms bs :
  metadata_ok ms → SerializeMetadataStore ms = Ok bs →
  parses (DeserializeMetadataStore ms0) bs (base.filter (λ p, p.2 ≠ ∅) ms).
Proof.
  intros Hok H. unfold SerializeMetadataStore in H.
  assert (Hentry : ∀ p b, p ∈ base.filter (λ p : string * Metadata, p.2 ≠ ∅) (iter_order ms) → write_metadata p = Ok b →
    (8 ≤ length b)%nat ∧ ∀ ms, parses (read_metadata ms) b (put ms p)).
  { intros [id meta] b [Hne Hp%elem_of_iter_order]%list_elem_of_filter. apply write_metadata_Ok; [done|]. intros key v. by apply (Hok id). }
  unfold DeserializeMetadataStore, MetaClear. rewrite <- fold_put_filter. change (4 * 2) with (Z.of_nat 8).
  eapply (parses_entries write_metadata read_metadata put); [| |exact H].
  - intros p b Hp Hb. by apply (Hentry p b).
  - intros pre p post b Hl Hb. apply (Hentry p b); [|done]. rewrite Hl. set_solver.
Qed.
End metadata.
