(* ===== verification/SnapshotTheorems.v ===== *)
(** * Snapshots are faithful

    Theorems about [SnapshotFormat]: what is written is read back, damaged files
    are refused, and whatever is accepted is well-formed. *)

From S2P Require Import Prelude RingBuffer Lru DedupCache StateCache EventStore Floats CoOccurrence Wal WalCheckpoint Metadata Distance.
From S2P Require Import SnapshotFormat SnapshotReaders.
From S2P Require VectorStore WalCodec.
#[local] Open Scope Z_scope.

#[local] Arguments WriteBinary : simpl never.

(** ** The checksum of the file *)

Section checksum.
Context {zlib : Zlib} {stream : ZlibStream}.

Definition zero_at (off i : nat) (b : byte) : byte := if decide (32 ≤ off + i < 36)%nat then Byte.x00 else b.

Lemma zero_crc_field_imap off l : zero_crc_field off l = imap (zero_at off) l.
Proof.
  unfold zero_crc_field, kFileCRC32Offset, kFixedHeaderSize. cbv zeta.
  destruct ((off <? _) && _)%nat eqn:E.
  - apply andb_true_iff in E as [E1%Nat.ltb_lt E2%Nat.ltb_lt].
    set (zb := (_ `max` _ - _)%nat). set (ze := (_ `min` _ - _)%nat).
    rewrite <- (take_drop zb l) at 3. rewrite <- (take_drop (ze - zb) (drop zb l)) at 1. rewrite !imap_app, drop_drop.
    replace (zb + (ze - zb))%nat with ze by lia. f_equal; [|f_equal].
    + apply list_eq. intros i. rewrite list_lookup_imap. destruct (take zb l !! i) as [b|] eqn:Hb; [|done]. cbn.
      apply lookup_lt_Some in Hb. rewrite length_take in Hb. unfold zero_at. by rewrite decide_False by lia.
    + apply list_eq. intros i. rewrite list_lookup_imap, length_take.
      destruct (decide (i < ze - zb)%nat).
      * rewrite lookup_replicate_2 by done. rewrite lookup_take_lt by done. rewrite lookup_drop.
        destruct (lookup_lt_is_Some_2 l (zb + i)) as [b ->]; [lia|]. cbn. unfold zero_at, compose. by rewrite decide_True by lia.
      * rewrite !lookup_ge_None_2; [done| |]; rewrite ?length_replicate, ?length_take, ?length_drop; lia.
    + apply list_eq. intros i. rewrite list_lookup_imap. destruct (drop ze l !! i) as [b|] eqn:Hb; [|done]. cbn.
      unfold zero_at, compose. rewrite decide_False; [done|]. rewrite !length_take, length_drop.
      apply lookup_lt_Some in Hb. rewrite length_drop in Hb. lia.
  - symmetry. apply list_eq. intros i. rewrite list_lookup_imap. destruct (l !! i) as [b|] eqn:Hb; [|done]. cbn.
    apply lookup_lt_Some in Hb. unfold zero_at. rewrite decide_False; [done|].
    apply andb_false_iff in E as [?%Nat.ltb_ge|?%Nat.ltb_ge]; lia.
Qed.

Lemma zero_crc_field_app off a b : zero_crc_field off (a ++ b) = zero_crc_field off a ++ zero_crc_field (off + length a) b.
Proof.
  rewrite !zero_crc_field_imap, imap_app. f_equal. apply imap_ext. intros i x _. unfold compose, zero_at.
  by replace (off + (length a + i))%nat with (off + length a + i)%nat by lia.
Qed.

Lemma length_zero_crc_field off l : length (zero_crc_field off l) = length l.
Proof. rewrite zero_crc_field_imap. apply length_imap. Qed.

(** Feeding the file in chunks gives the checksum of the whole. *)
Lemma crc_chunks_spec fuel : ∀ off rest pre,
  (length rest ≤ fuel)%nat → crc_chunks fuel off rest (crc32 pre) = crc32 (pre ++ zero_crc_field off rest).
Proof.
  induction fuel as [|fuel IH]; intros off rest pre Hlen.
  { destruct rest; [|cbn in Hlen; lia]. by rewrite zero_crc_field_imap, app_nil_r. }
  cbn [crc_chunks]. destruct rest as [|b rest]; [by rewrite zero_crc_field_imap, app_nil_r|].
  set (l := b :: rest) in *. rewrite crc32_append, IH.
  - f_equal. rewrite <- (assoc_L (++)). f_equal. rewrite <- zero_crc_field_app. by rewrite take_drop.
  - rewrite length_drop. unfold l, kChunk in *. cbn [length] in *. lia.
Qed.

Lemma CalculateFileCRC32Streaming_Ok file :
  Z.of_nat (length file) ≤ kMaxSnapshotFileSize →
  CalculateFileCRC32Streaming file (Z.of_nat (length file)) = Ok (crc32 (zero_crc_field 0 file)).
Proof.
  intros Hle. unfold CalculateFileCRC32Streaming. rewrite !(proj2 (Z.ltb_ge _ _)) by lia.
  rewrite Nat2Z.id, take_ge by lia. by rewrite crc_chunks_spec.
Qed.

Lemma zero_field a x rest :
  length a = kFileCRC32Offset → length x = 4%nat → zero_crc_field 0 (a ++ x ++ rest) = a ++ WriteBinary 4 0 ++ rest.
Proof.
  intros Ha Hx. unfold kFileCRC32Offset, kFixedHeaderSize in Ha. unfold zero_crc_field, kFileCRC32Offset, kFixedHeaderSize. cbv zeta.
  rewrite !length_app, (proj2 (Nat.ltb_lt _ _)), (proj2 (Nat.ltb_lt _ _)) by lia. cbn [andb].
  replace (_ `max` _ - _)%nat with (length a) by lia. rewrite take_app_length.
  replace (_ `min` _ - _)%nat with (length a + length x)%nat by lia.
  rewrite (assoc_L (++) a x rest), <- length_app, drop_app_length. f_equal. f_equal.
  rewrite length_app. by replace (length a + length x - length a)%nat with 4%nat by lia.
Qed.

(** The field is where the header writes it. *)
Lemma with_header_split h sections file :
  with_header h sections = Ok file →
  ∃ a rest, length a = kFileCRC32Offset ∧ ∀ crc,
    with_header (MkHeader (header_size h) (flags h) (snapshot_timestamp h) (total_file_size h) crc (reserved h)) sections =
      Ok (a ++ WriteBinary 4 crc ++ rest).
Proof.
  unfold with_header, WriteHeaderV1. cbn [reserved header_size flags snapshot_timestamp total_file_size file_crc32].
  destruct (WriteString _ _) as [res|]; [|done]. cbn [expected_bind]. intros _.
  exists (kMagicNumber ++ WriteBinary 4 kCurrentVersion ++ WriteBinary 4 (header_size h) ++ WriteBinary 4 (flags h) ++
            WriteBinary 8 (snapshot_timestamp h) ++ WriteBinary 8 (total_file_size h)), (res ++ sections).
  split; [by rewrite !length_app, !length_WriteBinary|]. intros crc. by rewrite <- !(assoc_L (++)).
Qed.

Lemma patch_crc_split a v crc rest :
  length a = kFileCRC32Offset → patch_crc crc (a ++ WriteBinary 4 v ++ rest) = a ++ WriteBinary 4 crc ++ rest.
Proof.
  intros Ha. unfold patch_crc. rewrite <- Ha, take_app_length, <- drop_drop, drop_app_length.
  by rewrite drop_app_length' by (by rewrite length_WriteBinary).
Qed.

(** What [snapshot_image] produces. *)
Definition image_header (limits_size total now crc : Z) (stats : option SnapshotStatistics) : HeaderV1 :=
  MkHeader limits_size (match stats with Some _ => Z.lor kWithCRC kWithStatistics | None => kWithCRC end) (u64 now) total crc "".

Lemma snapshot_image_Ok {order : IterOrder} {impl : DistanceFunctions} limits now cfg stats store_stats c file :
  snapshot_image limits now cfg stats store_stats c = Ok file →
  ∃ sections size, write_sections limits cfg stats store_stats c = Ok sections ∧ in_u 32 size ∧
    with_header (image_header size (Z.of_nat (length file)) now (crc32 (zero_crc_field 0 file)) stats) sections = Ok file ∧
    Z.of_nat (length file) ≤ kMaxSnapshotFileSize.
Proof.
  unfold snapshot_image. set (fl := match stats with Some _ => _ | None => _ end). intros H.
  inv_write H hd Hheader. inv_write H hsize Hsize. inv_write H sections Hsec. cbv zeta in H.
  destruct (Z.ltb_spec kMaxSnapshotFileSize (Z.of_nat (length kMagicNumber + 4 + length hd + length sections))) as [|Hmax]; [done|].
  set (total := Z.of_nat (_ + _ + _ + _)%nat) in *. inv_write H file0 Hfile0.
  destruct (CalculateFileCRC32Streaming file0 total) as [crc|] eqn:Hcrc; [|done]. apply Ok_inj in H as <-.
  destruct (with_header_split _ _ _ Hfile0) as (a & rest & Ha & Hw). cbn [header_size flags snapshot_timestamp total_file_size reserved] in Hw.
  assert (file0 = a ++ WriteBinary 4 0 ++ rest) as -> by (apply Ok_inj; rewrite <- Hfile0; apply (Hw 0)).
  assert (Hlen : total = Z.of_nat (length (a ++ WriteBinary 4 0 ++ rest))).
  { pose proof Hfile0 as Hf. unfold with_header in Hf. inv_write Hf hd' Hheader'. apply Ok_inj in Hf. rewrite <- Hf.
    assert (length hd' = length hd) as Hh.
    { revert Hheader Hheader'. unfold WriteHeaderV1. cbn [reserved]. destruct (WriteString _ _) as [res|]; [|done]. cbn [expected_bind].
      intros <-%Ok_inj <-%Ok_inj. by rewrite !length_app, !length_WriteBinary. }
    unfold total. rewrite !length_app, !length_WriteBinary, Hh. lia. }
  rewrite patch_crc_split by done. exists sections, hsize.
  assert (Hlen' : Z.of_nat (length (a ++ WriteBinary 4 crc ++ rest)) = total)
    by (rewrite Hlen, !length_app, !length_WriteBinary; done).
  rewrite Hlen, CalculateFileCRC32Streaming_Ok, zero_field in Hcrc by (rewrite ?length_WriteBinary; lia). apply Ok_inj in Hcrc.
  rewrite Hlen', zero_field, Hcrc by (rewrite ?length_WriteBinary; done). split_and!; [done| |apply Hw|lia].
  unfold CheckedSizeToU32 in Hsize. destruct (_ || _) eqn:E; [done|]. apply Ok_inj in Hsize as <-. unfold u32. apply wrap_in_u. lia.
Qed.
End checksum.

(** ** Sections *)

Section sections.
Context {order : IterOrder} {impl : DistanceFunctions} {zlib : Zlib} {stream : ZlibStream}.

Lemma WriteSizedPayload_Ok data limit label bs :
  WriteSizedPayload data limit label = Ok bs →
  bs = WriteBinary 4 (Z.of_nat (length data)) ++ WriteBinary 4 (crc32 data) ++ data ∧
  Z.of_nat (length data) ≤ limit ∧ in_u 32 (Z.of_nat (length data)).
Proof.
  unfold WriteSizedPayload, CheckedSizeToU32. destruct (_ || _) eqn:E; [done|]. cbn [expected_bind]. intros <-%Ok_inj.
  apply orb_false_iff in E as [E1%Z.ltb_ge E2%Z.ltb_ge]. unfold u32.
  assert (in_u 32 (Z.of_nat (length data))) by (unfold in_u, u32_max in *; lia). by rewrite wrap_small.
Qed.

Lemma parses_sized data limit lm rm dm cm :
  Z.of_nat (length data) ≤ limit →
  parses (read_sized (Z.of_nat (length data)) limit lm rm dm cm (crc32 data)) data data.
Proof.
  intros Hle rest. unfold read_sized. rewrite (proj2 (Z.ltb_ge _ _)) by done. unfold se_bind at 1.
  rewrite parses_require by done. unfold se_bind. rewrite Nat2Z.id, parses_read_bytes. unfold CalculateCRC32. by rewrite Z.eqb_refl.
Qed.

Lemma read_all_parses {A} (p : SE (list byte) A) bs a m : parses p bs a → read_all p bs m = Ok a.
Proof. intros Hp. unfold read_all. specialize (Hp []). rewrite app_nil_r in Hp. by rewrite Hp. Qed.

(** Size, checksum and payload of a section, then the rest. *)
Lemma parses_sized_payload {B} data limit label limit' m1 m2 lm rm dm cm bs bs' (k : list byte → SE (list byte) B) b :
  WriteSizedPayload data limit label = Ok bs → limit ≤ limit' → parses (k data) bs' b →
  parses (let! n := ReadBinary 4 m1 in let! crc := ReadBinary 4 m2 in let! d := read_sized n limit' lm rm dm cm crc in k d) (bs ++ bs') b.
Proof.
  intros (-> & Hl & Hr)%WriteSizedPayload_Ok Hle Hk. rewrite <- !(assoc_L (++)).
  eapply parses_bind; [by apply parses_ReadBinary|]. eapply parses_bind; [apply parses_ReadBinary, crc32_range|].
  eapply parses_bind; [apply parses_sized; lia|done].
Qed.

(** The statistics a reader keeps. *)
Definition kept_stats (wanted : bool) (name : string) (st : option StoreStatistics) (m : gmap string StoreStatistics) :
    gmap string StoreStatistics :=
  match st with Some st => if wanted then <[name := st]> m else m | None => m end.

Lemma parses_store limits name sl dl st data wanted l c' bs :
  write_store limits name sl dl st (Ok data) = Ok bs →
  name ∈ store_names → name ∉ l_seen l → (∀ st', st = Some st' → store_statistics_ok st') →
  deserialize_store name data (l_contents l) = Ok c' →
  parses (read_store wanted l) bs (MkLoaded c' (kept_stats wanted name st (l_stats l)) ({[name]} ∪ l_seen l)).
Proof.
  intros H Hname Hseen Hst Hdes. unfold write_store in H. inv_write H sb Hsb. cbn [expected_bind] in H. inv_write H sec Hsec.
  apply Ok_inj in H as <-. rewrite (assoc_L (++)). unfold read_store. eapply parses_bind.
  { eapply (parses_ReadString "" _ name). unfold WriteString. destruct (Z.ltb_spec kMaxStringLength (Z.of_nat (String.length name))).
    - exfalso. repeat (apply elem_of_cons in Hname as [->|Hname]; [by vm_compute in H|]). by apply elem_of_nil in Hname.
    - unfold u32. rewrite wrap_small; [done|]. unfold in_u, kMaxStringLength in *. lia. }
  rewrite bool_decide_eq_true_2, bool_decide_eq_false_2 by done. cbn [negb]. eapply parses_bind.
  - instantiate (1 := kept_stats wanted name st (l_stats l)). unfold read_store_stats.
    destruct st as [st|]; cbn [kept_stats].
    + pose proof Hsb as (-> & Hl & Hr)%WriteSizedPayload_Ok.
      eapply parses_bind; [by apply parses_ReadBinary|]. cbn [Z.ltb].
      rewrite (proj2 (Z.ltb_lt _ _)) by (unfold SerializeStoreStatistics; rewrite !length_app, !length_WriteBinary; lia).
      eapply parses_bind; [apply parses_ReadBinary, crc32_range|]. eapply parses_bind_last; [apply parses_sized; lia|].
      destruct wanted; [|apply parses_ret]. rewrite (read_all_parses _ _ st) by (apply parses_store_statistics; auto). apply parses_ret.
    + apply Ok_inj in Hsb as <-. eapply parses_bind_last; [apply parses_ReadBinary; by vm_compute|]. apply parses_ret.
  - rewrite <- (app_nil_r sec). eapply parses_sized_payload; [done|lia|]. rewrite Hdes. apply parses_ret.
Qed.
End sections.

(** ** Whole snapshots *)

Section roundtrip.
Context {order : IterOrder} {impl : DistanceFunctions} {zlib : Zlib} {stream : ZlibStream}.

(** Stores whose entries can be read back: the invariants of the stores, and
    values in the ranges of their types. *)
Record persistable (c : Contents) : Prop := {
  pc_events : store_ok (c_events c);
  pc_events_ok : events_ok (c_events c);
  pc_co : co_ok (co_scores_ (c_co c));
  pc_scores : scores_ok (c_co c);
  pc_vs : VectorStore.vs_ok (c_vectors c);
  pc_bounded : VectorStore.vs_bounded (c_vectors c);
  pc_vectors : vectors_ok (c_vectors c);
  pc_metadata : ∀ ms, c_metadata c = Some ms → metadata_ok ms;
  pc_ids : ∀ ms id meta, c_metadata c = Some ms → ms !! id = Some meta → meta ≠ ∅ →
    is_Some (VectorStore.vs_abs (c_vectors c) !! id)
}.

(** What [c0] holds after reading a snapshot of [c]. *)
Record reloaded (c c0 c' : Contents) : Prop := {
  re_store : store_ok (c_events c');
  re_events : ∀ ctx, GetEvents ctx (c_events c') = GetEvents ctx (c_events c);
  re_scores : co_scores_ (c_co c') = co_scores_ (c_co c);
  re_vs : VectorStore.vs_ok (c_vectors c');
  re_vectors : VectorStore.v_data <$> VectorStore.vs_abs (c_vectors c') = VectorStore.v_data <$> VectorStore.vs_abs (c_vectors c);
  re_metadata : c_metadata c' =
    match c_metadata c with Some ms => Some (base.filter (λ p, p.2 ≠ ∅) ms) | None => c_metadata c0 end
}.

Definition store_stats_ok (m : option (gmap string StoreStatistics)) : Prop :=
  ∀ name st, stats_of m name = Some st → store_statistics_ok st.

Definition kept_three (wanted : bool) (sst : option (gmap string StoreStatistics)) (m : gmap string StoreStatistics) :
    gmap string StoreStatistics :=
  let kept name := kept_stats wanted name (stats_of sst name) in kept "vectors" (kept "co_occurrence" (kept "events" m)).

(** The three stores that every snapshot has, one section after the other. *)
Lemma parses_three limits sst c c0 wanted l b1 b2 b3 :
  persistable c → store_ok (c_events c0) → events_fit (c_events c) (c_events c0) → store_stats_ok sst →
  l_contents l = c0 → l_seen l = ∅ →
  write_store limits "events" "events store statistics" "events store" (stats_of sst "events") (SerializeEventStore (c_events c)) = Ok b1 →
  write_store limits "co_occurrence" "co-occurrence store statistics" "co-occurrence store" (stats_of sst "co_occurrence")
    (SerializeCoOccurrenceIndex (c_co c)) = Ok b2 →
  write_store limits "vectors" "vectors store statistics" "vectors store" (stats_of sst "vectors") (SerializeVectorStore (c_vectors c)) = Ok b3 →
  ∃ l1 l2 l3, parses (read_store wanted l) b1 l1 ∧ parses (read_store wanted l1) b2 l2 ∧ parses (read_store wanted l2) b3 l3 ∧
    l_seen l3 = {["vectors"]} ∪ ({["co_occurrence"]} ∪ ({["events"]} ∪ ∅)) ∧
    l_stats l3 = kept_three wanted sst (l_stats l) ∧
    reloaded (MkContents (c_events c) (c_co c) (c_vectors c) None) c0 (l_contents l3) ∧
    VectorStore.vs_abs (c_vectors (l_contents l3)) =
      (λ v, VectorStore.MkVector (VectorStore.v_data v) false) <$> VectorStore.vs_abs (c_vectors c).
Proof.
  intros [] Hs0 Hfit Hst <- Hseen H1 H2 H3.
  destruct (SerializeEventStore (c_events c)) as [d1|] eqn:Hd1;
    [|unfold write_store in H1; inv_write H1 sb Hsb; discriminate H1].
  destruct (SerializeCoOccurrenceIndex (c_co c)) as [d2|] eqn:Hd2;
    [|unfold write_store in H2; inv_write H2 sb Hsb; discriminate H2].
  destruct (SerializeVectorStore (c_vectors c)) as [d3|] eqn:Hd3;
    [|unfold write_store in H3; inv_write H3 sb Hsb; discriminate H3].
  assert (Hlen : Z.of_nat (length (event_pairs (c_events c) (GetAllContexts (c_events c)))) ≤ u64_max).
  { pose proof (length_pairs_store _ _ Hd1). unfold write_store in H1. inv_write H1 sb Hsb. cbn [expected_bind] in H1.
    inv_write H1 sec Hsec. apply WriteSizedPayload_Ok in Hsec as (_ & _ & Hr). unfold in_u, u64_max in *. lia. }
  destruct (restore_events (c_events c) (c_events (l_contents l))) as (He1 & He2 & He3); [done..|].
  set (es' := fold_left restore _ _) in *.
  pose proof (restore_scores (c_co c) (c_co (l_contents l)) pc_co0) as Hco. set (co' := fold_left set_score _ _) in *.
  destruct (parses_vectors (c_vectors (l_contents l)) (c_vectors c) d3) as (vs' & Hp3 & Hvs1 & Hvs2); [done..|].
  eexists _, _, _. split; [|split; [|split]].
  - eapply (parses_store limits "events"); [done|set_solver|rewrite Hseen; set_solver|intros; by eapply Hst|].
    unfold deserialize_store. rewrite bool_decide_eq_true_2 by done. by rewrite (read_all_parses _ _ _ _ (parses_events _ _ _ pc_events_ok0 Hd1)).
  - eapply (parses_store limits "co_occurrence"); [done|set_solver|cbn [l_seen]; rewrite Hseen; set_solver|intros; by eapply Hst|].
    unfold deserialize_store. cbn [l_contents c_co]. rewrite bool_decide_eq_false_2, bool_decide_eq_true_2 by done.
    by rewrite (read_all_parses _ _ _ _ (parses_co _ _ _ pc_scores0 Hd2)).
  - eapply (parses_store limits "vectors"); [done|set_solver|cbn [l_seen]; rewrite Hseen; set_solver|intros; by eapply Hst|].
    unfold deserialize_store. cbn [l_contents c_vectors]. rewrite !bool_decide_eq_false_2, bool_decide_eq_true_2 by done.
    by rewrite (read_all_parses _ _ _ _ Hp3).
  - cbn [l_contents l_seen c_events c_co c_vectors c_metadata]. rewrite Hseen. split_and!; [done|done| |done].
    split; cbn [c_events c_co c_vectors c_metadata]; try done.
    rewrite Hvs2, <- map_fmap_compose. by apply map_fmap_ext.
Qed.

Lemma filter_head_None {A} (P : A → Prop) `{∀ x, Decision (P x)} (l : list A) :
  head (base.filter P l) = None ↔ ∀ x, x ∈ l → ¬ P x.
Proof.
  split.
  - destruct (base.filter P l) eqn:E; [|done]. intros _ x Hx HP. exact (filter_nil_not_elem_of P l x E HP Hx).
  - intros Hn. destruct (base.filter P l) as [|x l'] eqn:E; [done|]. exfalso.
    assert (x ∈ base.filter P l) as [? ?]%list_elem_of_filter by (rewrite E; by left). by eapply Hn.
Qed.

Lemma dangling_None ms vs : dangling ms vs = None ↔ ∀ id meta, ms !! id = Some meta → VectorStore.HasVector id vs = true.
Proof.
  unfold dangling. rewrite filter_head_None. split.
  - intros Hn id meta Hm. apply not_false_iff_true, Hn, list_elem_of_fmap. exists (id, meta). split; [done|]. by apply elem_of_iter_order.
  - intros Hm id ([k meta] & -> & Hin%elem_of_iter_order)%list_elem_of_fmap. cbn. by rewrite (Hm k meta).
Qed.

Lemma HasVector_abs id vs : VectorStore.HasVector id vs = true ↔ is_Some (VectorStore.vs_abs vs !! id).
Proof. unfold VectorStore.HasVector, VectorStore.vs_abs. by rewrite bool_decide_eq_true, lookup_fmap, fmap_is_Some. Qed.

Lemma parses_stores limits sst c c0 wanted b1 b2 b3 b4 :
  persistable c → store_ok (c_events c0) → events_fit (c_events c) (c_events c0) → store_stats_ok sst →
  write_store limits "events" "events store statistics" "events store" (stats_of sst "events") (SerializeEventStore (c_events c)) = Ok b1 →
  write_store limits "co_occurrence" "co-occurrence store statistics" "co-occurrence store" (stats_of sst "co_occurrence")
    (SerializeCoOccurrenceIndex (c_co c)) = Ok b2 →
  write_store limits "vectors" "vectors store statistics" "vectors store" (stats_of sst "vectors") (SerializeVectorStore (c_vectors c)) = Ok b3 →
  match c_metadata c with
  | Some ms => write_store limits "metadata" "" "metadata store" None (SerializeMetadataStore ms)
  | None => Ok []
  end = Ok b4 →
  ∃ l, parses (repeat_body (if c_metadata c then 4 else 3) (read_store wanted) (MkLoaded c0 ∅ ∅)) (b1 ++ b2 ++ b3 ++ b4) l ∧
    missing_store ["events"; "co_occurrence"; "vectors"] (l_seen l) = None ∧
    l_stats l = kept_three wanted sst ∅ ∧ reloaded c c0 (l_contents l) ∧
    (if bool_decide ("metadata" ∈ l_seen l) then dangling (default ∅ (c_metadata (l_contents l))) (c_vectors (l_contents l)) else None) = None.
Proof.
  intros Hc Hs0 Hfit Hst H1 H2 H3 H4.
  destruct (parses_three limits sst c c0 wanted (MkLoaded c0 ∅ ∅) b1 b2 b3) as (l1 & l2 & l3 & P1 & P2 & P3 & Hseen & Hstats & Hre & Habs);
    [done..|]. destruct Hre as [R1 R2 R3 R4 R5 R6]; cbn [c_events c_co c_vectors c_metadata] in *.
  destruct (c_metadata c) as [ms|] eqn:Hms; cbn [repeat_body].
  - destruct (SerializeMetadataStore ms) as [d4|] eqn:Hd4; [|discriminate H4].
    set (c' := MkContents (c_events (l_contents l3)) (c_co (l_contents l3)) (c_vectors (l_contents l3)) (Some (base.filter (λ p, p.2 ≠ ∅) ms))).
    exists (MkLoaded c' (l_stats l3) ({["metadata"]} ∪ l_seen l3)). split_and!.
    + eapply parses_bind; [exact P1|]. eapply parses_bind; [exact P2|]. eapply parses_bind; [exact P3|]. eapply parses_bind_last; [|apply parses_ret].
      eapply (parses_store limits "metadata" "" "metadata store" None d4); [done|set_solver|rewrite Hseen; set_solver|done|].
      unfold deserialize_store. rewrite !bool_decide_eq_false_2 by done.
      by rewrite (read_all_parses _ _ _ _ (parses_metadata _ _ _ (pc_metadata _ Hc _ Hms) Hd4)).
    + cbn [l_seen]. rewrite Hseen. by vm_compute.
    + done.
    + split; cbn [l_contents c' c_events c_co c_vectors c_metadata]; try done. by rewrite Hms.
    + cbn [l_seen l_contents c' c_metadata c_vectors]. case_bool_decide; [|done]. cbn [default from_option].
      apply dangling_None. intros id meta [Hm Hne]%map_lookup_filter_Some. apply HasVector_abs.
      rewrite Habs, lookup_fmap, fmap_is_Some. by apply (pc_ids _ Hc ms id meta).
  - apply Ok_inj in H4 as <-. exists l3. split_and!; [|by rewrite Hseen; vm_compute|done| |].
    + rewrite app_nil_r. eapply parses_bind; [exact P1|]. eapply parses_bind; [exact P2|]. eapply parses_bind_last; [exact P3|apply parses_ret].
    + split; try done. by rewrite Hms.
    + rewrite bool_decide_eq_false_2; [done|]. rewrite Hseen. set_solver.
Qed.

(** The results the caller asks for. *)
Lemma parses_sections limits cfg stats sst c c0 ws wss h bs :
  persistable c → store_ok (c_events c0) → events_fit (c_events c) (c_events c0) → store_stats_ok sst →
  saved_ok cfg → (∀ st, stats = Some st → statistics_ok st) →
  flags h = (match stats with Some _ => Z.lor kWithCRC kWithStatistics | None => kWithCRC end) →
  write_sections limits cfg stats sst c = Ok bs →
  ∃ c', parses (read_sections ws wss h c0) bs
      (MkSnapshot cfg (if ws then stats else None) (kept_three wss sst ∅) c') ∧ reloaded c c0 c'.
Proof.
  intros Hc Hs0 Hfit Hsst Hcfg Hst Hfl H. unfold write_sections in H. inv_write H cd Hcd. inv_write H cb Hcb. inv_write H sb Hsb.
  inv_write H b1 H1. inv_write H b2 H2. inv_write H b3 H3. inv_write H b4 H4. apply Ok_inj in H as <-.
  destruct (parses_stores limits sst c c0 wss b1 b2 b3 b4) as (l & Hl & Hmiss & Hstats & Hre & Hdang); [done..|].
  exists (l_contents l). split; [|done]. unfold read_sections. eapply parses_sized_payload; [exact Hcb|lia|].
  rewrite (read_all_parses _ _ _ _ (parses_config _ _ Hcfg Hcd)). intros rest. unfold se_lift at 1, se_bind at 1. cbn [Prelude.se_ret].
  revert rest. match goal with |- ∀ rest, ?p _ = (Ok ?a, _) => change (parses p (sb ++ WriteBinary 4 (if c_metadata c then 4 else 3) ++ b1 ++ b2 ++ b3 ++ b4) a) end.
  eapply parses_bind.
  - instantiate (1 := if ws then stats else None). rewrite Hfl. destruct stats as [st|]; cbn [negb].
    + rewrite <- (app_nil_r sb). eapply parses_sized_payload; [exact Hsb|lia|]. destruct ws; [|apply parses_ret].
      rewrite (read_all_parses _ _ _ _ (parses_statistics _ (Hst _ eq_refl))). apply parses_ret.
    + apply Ok_inj in Hsb as <-. destruct ws; apply parses_ret.
  - eapply parses_bind; [apply parses_ReadBinary; by destruct (c_metadata c); vm_compute|].
    assert (((if c_metadata c then 4 else 3) <? 3) || (4 <? (if c_metadata c then 4 else 3)) = false) as -> by (by destruct (c_metadata c)).
    eapply parses_bind_last.
    + replace (Z.to_nat (if c_metadata c then 4 else 3)) with (if c_metadata c then 4 else 3)%nat by (by destruct (c_metadata c)). exact Hl.
    + rewrite Hmiss. cbv zeta. rewrite Hdang, Hstats. apply parses_ret.
Qed.

Lemma parses_preamble h sections file :
  header_ok h → with_header h sections = Ok file → read_preamble file = (Ok h, sections).
Proof.
  intros Hh H. unfold with_header in H. inv_write H hd Hhd. apply Ok_inj in H as <-.
  assert (Hp : parses read_preamble (kMagicNumber ++ WriteBinary 4 kCurrentVersion ++ hd) h).
  { unfold read_preamble. eapply parses_bind; [apply (parses_read_bytes _ kMagicNumber)|].
    rewrite bool_decide_eq_true_2 by done. cbn [negb]. eapply parses_bind; [apply parses_ReadBinary; by vm_compute|].
    cbn [negb Z.eqb Pos.eqb kCurrentVersion]. by apply parses_header. }
  specialize (Hp sections). by rewrite <- !(assoc_L (++)) in Hp.
Qed.

Lemma image_header_ok hsize total now crc stats :
  in_u 32 hsize → in_u 64 total → in_u 32 crc → header_ok (image_header hsize total now crc stats).
Proof.
  intros ? ? ?. split; cbn; try done; [destruct stats; by vm_compute|]. apply wrap_in_u. lia.
Qed.

(** A written file passes the integrity check, unless its checksum is zero,
    which the check takes for a missing one. *)
Lemma verify_image limits now cfg stats sst c file :
  snapshot_image limits now cfg stats sst c = Ok file →
  ∃ h sections, read_preamble file = (Ok h, sections) ∧ write_sections limits cfg stats sst c = Ok sections ∧
    flags h = (match stats with Some _ => Z.lor kWithCRC kWithStatistics | None => kWithCRC end) ∧
    VerifyFileLevelIntegrity file h =
      if crc32 (zero_crc_field 0 file) =? 0 then throw kStorageDumpReadError "Snapshot file CRC32 is missing" else Ok tt.
Proof.
  intros (sections & hsize & Hsec & Hsize & Hw & Hmax)%snapshot_image_Ok.
  assert (Hok : header_ok (image_header hsize (Z.of_nat (length file)) now (crc32 (zero_crc_field 0 file)) stats))
    by (apply image_header_ok; [done|unfold in_u, kMaxSnapshotFileSize in *; lia|apply crc32_range]).
  eexists _, _. split; [by apply parses_preamble|]. split_and!; [done|done|].
  unfold VerifyFileLevelIntegrity. cbn [image_header total_file_size flags file_crc32].
  rewrite !(proj2 (Z.ltb_ge _ _)) by lia. rewrite Z.eqb_refl. cbn [orb negb].
  assert (Z.land (match stats with Some _ => Z.lor kWithCRC kWithStatistics | None => kWithCRC end) kWithCRC =? 0 = false)
    as -> by (by destruct stats; vm_compute).
  destruct (crc32 _ =? 0); [done|]. rewrite CalculateFileCRC32Streaming_Ok by done. cbn [expected_bind]. by rewrite Z.eqb_refl.
Qed.

(** The bytes of a snapshot give the stores back. *)
Lemma image_roundtrip limits now cfg stats sst c c0 file ws wss :
  persistable c → store_ok (c_events c0) → events_fit (c_events c) (c_events c0) →
  saved_ok cfg → (∀ st, stats = Some st → statistics_ok st) → store_stats_ok sst →
  snapshot_image limits now cfg stats sst c = Ok file →
  verify_snapshot file =
    (if crc32 (zero_crc_field 0 file) =? 0 then throw kStorageDumpReadError "Snapshot file CRC32 is missing" else Ok tt) ∧
  (crc32 (zero_crc_field 0 file) ≠ 0 →
   ∃ c', read_snapshot ws wss file c0 = Ok (MkSnapshot cfg (if ws then stats else None) (kept_three wss sst ∅) c') ∧
     reloaded c c0 c').
Proof.
  intros Hc Hs0 Hfit Hcfg Hst Hsst (h & sections & Hpre & Hsec & Hfl & Hver)%verify_image.
  unfold verify_snapshot, read_snapshot. rewrite Hpre. split; [done|]. intros Hcrc. rewrite Hver, (proj2 (Z.eqb_neq _ _)) by done.
  cbn [expected_bind]. destruct (parses_sections limits cfg stats sst c c0 ws wss h sections) as (c' & Hp & Hre); [done..|].
  exists c'. split; [|done]. by apply read_all_parses.
Qed.

(** ** Damaged files *)

Lemma extends_ret {A} (a : A) : extends (se_ret (S := list byte) a).
Proof. intros s b r t [= <- <-]. done. Qed.

Lemma se_bind_inv {S A B} (p : SE S A) (k : A → SE S B) s b s' :
  se_bind p k s = (Ok b, s') → ∃ a s1, p s = (Ok a, s1) ∧ k a s1 = (Ok b, s').
Proof. unfold se_bind. destruct (p s) as [[a|e] s1]; [|done]. eauto. Qed.

Lemma extends_bind {A B} (p : SE (list byte) A) (k : A → SE (list byte) B) :
  extends p → (∀ a, extends (k a)) → extends (se_bind p k).
Proof.
  intros Hp Hk s b r t (a & s1 & Ha & Hb)%se_bind_inv. unfold se_bind. rewrite (Hp _ _ _ t Ha). by apply Hk.
Qed.

Lemma extends_read_bytes n m : extends (read_bytes n m).
Proof.
  intros s a r t. unfold read_bytes. destruct (Nat.ltb_spec (length s) n); [done|]. intros [= <- <-].
  rewrite length_app, (proj2 (Nat.ltb_ge _ _)) by lia. by rewrite take_app_le, drop_app_le by lia.
Qed.

Lemma extends_ReadBinary w m : extends (ReadBinary w m).
Proof.
  intros s a r t. unfold ReadBinary. destruct (Nat.ltb_spec (length s) w); [done|]. intros [= <- <-].
  rewrite length_app, (proj2 (Nat.ltb_ge _ _)) by lia. by rewrite take_app_le, drop_app_le by lia.
Qed.

Lemma extends_require n m : extends (require_bytes n m).
Proof.
  intros s a r t. unfold require_bytes, HasRemainingBytes. destruct (Z.leb_spec n (Z.of_nat (length s))); [|done]. intros [= <- <-].
  rewrite length_app, (proj2 (Z.leb_le _ _)) by lia. done.
Qed.

Lemma extends_error {A} m : extends (read_error (A := A) m).
Proof. done. Qed.

Create HintDb extends.
#[local] Hint Resolve extends_ret extends_bind extends_read_bytes extends_ReadBinary extends_require extends_error : extends.

Lemma extends_ReadString m : extends (ReadString m).
Proof. unfold ReadString. apply extends_bind; [auto with extends|]. intros len. destruct (_ <? _); auto 10 with extends. Qed.
#[local] Hint Resolve extends_ReadString : extends.

Lemma extends_preamble : extends read_preamble.
Proof.
  unfold read_preamble, ReadHeaderV1. apply extends_bind; [auto with extends|]. intros magic. destruct (negb _); [auto with extends|].
  apply extends_bind; [auto with extends|]. intros version. destruct (negb _); auto 20 with extends.
Qed.

(** What the integrity check accepts. *)
Definition intact (file : list byte) (h : HeaderV1) : Prop :=
  total_file_size h = Z.of_nat (length file) ∧ total_file_size h ≤ kMaxSnapshotFileSize ∧
  Z.land (flags h) kWithCRC ≠ 0 ∧ file_crc32 h ≠ 0 ∧ file_crc32 h = crc32 (zero_crc_field 0 file).

Lemma VerifyFileLevelIntegrity_Ok file h : VerifyFileLevelIntegrity file h = Ok tt ↔ intact file h.
Proof.
  unfold VerifyFileLevelIntegrity, intact.
  destruct (Z.ltb_spec kMaxSnapshotFileSize (Z.of_nat (length file))); [cbn; split; [done|lia]|].
  destruct (Z.ltb_spec kMaxSnapshotFileSize (total_file_size h)); [cbn; split; [done|lia]|]. cbn [orb].
  destruct (Z.eqb_spec (Z.of_nat (length file)) (total_file_size h)); cbn [negb]; [|split; [done|lia]].
  destruct (Z.eqb_spec (Z.land (flags h) kWithCRC) 0); [split; [done|tauto]|].
  destruct (Z.eqb_spec (file_crc32 h) 0); [split; [done|tauto]|].
  rewrite CalculateFileCRC32Streaming_Ok by done. cbn [expected_bind].
  destruct (Z.eqb_spec (crc32 (zero_crc_field 0 file)) (file_crc32 h)); cbn [negb]; split; try done; intuition lia.
Qed.

Lemma verify_snapshot_Ok file :
  verify_snapshot file = Ok tt ↔ ∃ h rest, read_preamble file = (Ok h, rest) ∧ intact file h.
Proof.
  unfold verify_snapshot. destruct (read_preamble file) as [[h|e] rest]; [|naive_solver].
  rewrite VerifyFileLevelIntegrity_Ok. naive_solver.
Qed.

Lemma verify_extension p t : verify_snapshot p = Ok tt → verify_snapshot (p ++ t) = Ok tt → t = [].
Proof.
  intros (h & r & Hp & Hi)%verify_snapshot_Ok (h' & r' & Hp' & Hi')%verify_snapshot_Ok.
  rewrite (extends_preamble _ _ _ t Hp) in Hp'. injection Hp' as <- _. destruct Hi as (E & _), Hi' as (E' & _).
  rewrite length_app in E'. apply length_zero_iff_nil. lia.
Qed.

Lemma read_verified ws wss file c0 sn : read_snapshot ws wss file c0 = Ok sn → verify_snapshot file = Ok tt.
Proof.
  unfold read_snapshot, verify_snapshot. destruct (read_preamble file) as [[h|e] rest]; [|done].
  by destruct (VerifyFileLevelIntegrity file h) as [[]|].
Qed.

(** C20: damage is refused.  A file is accepted only when its header gives the
    length it has and the checksum its bytes have with the checksum field
    zeroed; so of an accepted file, neither a proper prefix (a truncated file)
    nor a proper extension is accepted, by the integrity check or by the reader,
    and two accepted files with the same header have the same checksum. *)
Theorem snapshot_damage_refused ws wss file c0 :
  (verify_snapshot file = Ok tt ↔ ∃ h rest, read_preamble file = (Ok h, rest) ∧ intact file h) ∧
  (∀ sn, read_snapshot ws wss file c0 = Ok sn → verify_snapshot file = Ok tt) ∧
  (verify_snapshot file = Ok tt → ∀ p t, t ≠ [] →
    (file = p ++ t → verify_snapshot p ≠ Ok tt ∧ ∀ sn, read_snapshot ws wss p c0 ≠ Ok sn) ∧
    verify_snapshot (file ++ t) ≠ Ok tt ∧ ∀ sn, read_snapshot ws wss (file ++ t) c0 ≠ Ok sn).
Proof.
  split_and!; [apply verify_snapshot_Ok|intros sn; apply read_verified|].
  intros Hf p t Ht. split.
  - intros ->. split; [by intros Hv; apply (verify_extension p t) in Hf|].
    intros sn Hr%read_verified. by apply (verify_extension p t) in Hf.
  - split; [by intros Hv; apply (verify_extension file t) in Hv|].
    intros sn Hr%read_verified. by apply (verify_extension file t) in Hr.
Qed.
End roundtrip.

(** ** Whatever is accepted is well-formed *)

(** A reader takes at least [n] bytes. *)
Definition takes {A} (n : nat) (p : SE (list byte) A) : Prop :=
  ∀ s a s', p s = (Ok a, s') → (length s' + n ≤ length s)%nat.

Lemma takes_bind {A B} n1 n2 (p : SE (list byte) A) (k : A → SE (list byte) B) :
  takes n1 p → (∀ a, takes n2 (k a)) → takes (n1 + n2) (se_bind p k).
Proof. intros Hp Hk s b s' (a & s1 & Ha & Hb)%se_bind_inv. specialize (Hp _ _ _ Ha). specialize (Hk _ _ _ _ Hb). lia. Qed.

Lemma takes_ReadBinary w m : takes w (ReadBinary w m).
Proof.
  intros s a s'. unfold ReadBinary. destruct (Nat.ltb_spec (length s) w); [done|]. intros [= _ <-]. rewrite length_drop. lia.
Qed.

Lemma takes_ReadString m : takes 4 (ReadString m).
Proof.
  unfold ReadString. apply (takes_bind 4 0); [apply takes_ReadBinary|]. intros len. destruct (_ <? _); [done|].
  apply (takes_bind 0 0). { intros s [] s'. unfold require_bytes. case_match; [|done]. intros [= <-]. lia. }
  intros _. apply (takes_bind 0 0). { intros s a s'. unfold read_bytes. case_match; [done|]. intros [= _ <-]. rewrite length_drop. lia. }
  intros bs s a s' [= _ <-]. lia.
Qed.

Lemma repeat_body_inv {A} (R : A → list byte → Prop) (body : A → SE (list byte) A) :
  (∀ a s a' s', R a s → body a s = (Ok a', s') → R a' s') →
  ∀ n a s a' s', R a s → repeat_body n body a s = (Ok a', s') → R a' s'.
Proof.
  intros Hb n. induction n as [|n IH]; intros a s a' s' HR; cbn; [by intros [= <- <-]|].
  intros (a1 & s1 & H1 & H2)%se_bind_inv. eauto.
Qed.

Lemma read_entries_inv {A} (R : A → list byte → Prop) cm km n (body : A → SE (list byte) A) a s a' s' :
  (∀ a s s', R a s → (length s' ≤ length s)%nat → R a s') →
  (∀ a s a' s', R a s → body a s = (Ok a', s') → R a' s') →
  R a s → read_entries cm km n body a s = (Ok a', s') → R a' s'.
Proof.
  intros Hmono Hb HR. unfold read_entries. intros (k & s1 & H1 & ([] & s2 & H2 & H3)%se_bind_inv)%se_bind_inv.
  apply takes_ReadBinary in H1. unfold require_bytes in H2. destruct (HasRemainingBytes _ _); [|done]. injection H2 as <-.
  eapply (repeat_body_inv R body Hb); [|exact H3]. eapply Hmono; [exact HR|]. lia.
Qed.

Section safe.
Context {order : IterOrder} {impl : DistanceFunctions} {zlib : Zlib} {stream : ZlibStream}.

(** The store has been reached by at most as many operations as there is room
    for: one per byte read. *)
Definition history_within (cfg : EventsConfig) (B : nat) (es : EventStore) (rest : list byte) : Prop :=
  ∃ m, store_history cfg m es ∧ (m + length rest ≤ B)%nat.

Lemma history_mono cfg B es s s' : history_within cfg B es s → (length s' ≤ length s)%nat → history_within cfg B es s'.
Proof. intros (m & Hm & Hb) Hle. exists m. split; [done|lia]. Qed.

Lemma read_event_safe cfg B ctx es s es' s' :
  history_within cfg B es s → read_event ctx es s = (Ok es', s') → history_within cfg B es' s'.
Proof.
  intros (m & Hm & Hb). unfold read_event.
  intros (id & s1 & H1%takes_ReadString & (sc & s2 & H2%takes_ReadBinary & (ty & s3 & H3%takes_ReadBinary &
    (ts & s4 & H4%takes_ReadBinary & H)%se_bind_inv)%se_bind_inv)%se_bind_inv)%se_bind_inv.
  destruct (_ <? _); [done|]. destruct (RestoreEvent _ _ _) as [[r|e] es1] eqn:E; [|done]. injection H as <- <-.
  exists (S m). split; [|lia]. apply (f_equal snd) in E. cbn in E. subst es1. by constructor.
Qed.

Lemma DeserializeEventStore_safe cfg n es data es' rest :
  store_history cfg n es → DeserializeEventStore es data = (Ok es', rest) →
  ∃ m, store_history cfg m es' ∧ (m ≤ S n + length data)%nat.
Proof.
  intros Hn H. assert (HR : history_within cfg (S n + length data) (ClearStore es) data) by (exists (S n); split; [by constructor|lia]).
  eapply (read_entries_inv (history_within cfg (S n + length data))) in H; [|apply history_mono| |exact HR].
  - destruct H as (m & Hm & Hb). exists m. split; [done|lia].
  - intros a s a' s' Ha (ctx & s1 & H1%takes_ReadString & H2)%se_bind_inv.
    eapply read_entries_inv; [apply history_mono|intros; by eapply read_event_safe| |exact H2]. eapply history_mono; [exact Ha|lia].
Qed.

Definition symmetric (co : CoOccurrenceIndex) : Prop := ∀ a b, cell (co_scores_ co) a b = cell (co_scores_ co) b a.

Lemma SetScore_symmetric a b v co : symmetric co → symmetric (SetScore a b v co).
Proof.
  intros Hs x y. cbn. destruct (decide (a = b)) as [<-|Hne].
  - unfold pair_update. rewrite !cell_cell_update. repeat case_decide; try tauto. apply Hs.
  - rewrite !cell_pair_update by done. repeat case_decide; try tauto. apply Hs.
Qed.

Lemma DeserializeCoOccurrenceIndex_safe co data co' rest :
  DeserializeCoOccurrenceIndex co data = (Ok co', rest) → symmetric co'.
Proof.
  intros H. eapply (read_entries_inv (λ co _, symmetric co)) in H; [done|done| |by intros a b].
  intros i s i' s' Hi (item & s1 & _ & H2)%se_bind_inv.
  eapply (read_entries_inv (λ co _, symmetric co)) in H2; [done|done| |done].
  intros j t j' t' Hj (item2 & t1 & _ & (sc & t2 & _ & [= <- _])%se_bind_inv)%se_bind_inv. by apply SetScore_symmetric.
Qed.

Lemma DeserializeVectorStore_safe vs data vs' rest :
  VectorStore.vs_reachable vs → DeserializeVectorStore vs data = (Ok vs', rest) → VectorStore.vs_reachable vs'.
Proof.
  intros Hvs. unfold DeserializeVectorStore. intros (dim & s1 & _ & H)%se_bind_inv. destruct (_ <? _); [done|].
  apply se_bind_inv in H as (n & s2 & _ & H). destruct (_ && _); [done|].
  apply se_bind_inv in H as ([] & s3 & _ & ((seen & vs1) & s4 & Hb & [= <- _])%se_bind_inv). cbn [snd].
  eapply (repeat_body_inv (λ a _, VectorStore.vs_reachable a.2)) in Hb; [exact Hb| |by constructor].
  intros [sn v] s [sn' v'] s' Hr. cbn [snd] in *. unfold read_vector.
  intros (id & t1 & _ & H1)%se_bind_inv. destruct (bool_decide _); [done|].
  apply se_bind_inv in H1 as ([] & t2 & _ & (d & t3 & _ & H1)%se_bind_inv). cbn [fst snd] in H1.
  destruct (VectorStore.SetVector id d false v) as [[r|e] v1] eqn:E; [|done]. injection H1 as _ <- _.
  unfold VectorStore.SetVector in E. destruct (VectorStore.PrepareVector v id d false) as [d'|] eqn:Ep; [|done].
  by eapply VectorStore.vs_set.
Qed.

Lemma read_all_inv {A} (p : SE (list byte) A) data m a : read_all p data m = Ok a → p data = (Ok a, []).
Proof. unfold read_all, IsFullyConsumed. destruct (p data) as [[a'|e] rest]; [|done]. case_bool_decide; [|done]. by intros [= ->]; subst. Qed.

(** What holds of the staged stores while the sections are read. *)
Record staged (cfg : EventsConfig) (B : nat) (c0 : Contents) (l : Loaded) (rest : list byte) : Prop := {
  st_events : history_within cfg B (c_events (l_contents l)) rest;
  st_vectors : VectorStore.vs_reachable (c_vectors (l_contents l));
  st_co : symmetric (c_co (l_contents l));
  st_metadata : "metadata" ∉ l_seen l → c_metadata (l_contents l) = c_metadata c0
}.

Lemma read_sized_inv size limit lm rm dm cm crc s data s' :
  read_sized size limit lm rm dm cm crc s = (Ok data, s') → (length data + length s' = length s)%nat.
Proof.
  unfold read_sized. destruct (_ <? _); [done|]. intros ([] & s1 & H1 & (d & s2 & H2 & H3)%se_bind_inv)%se_bind_inv.
  unfold require_bytes in H1. destruct (HasRemainingBytes _ _); [|done]. injection H1 as <-.
  unfold read_bytes in H2. destruct (Nat.ltb_spec (length s) (Z.to_nat size)); [done|]. injection H2 as <- <-.
  destruct (negb _); [done|]. injection H3 as <- <-. rewrite length_take, length_drop. lia.
Qed.

Lemma takes_read_store_stats wanted name stats : takes 4 (read_store_stats wanted name stats).
Proof.
  unfold read_store_stats. intros s a s' (size & s1 & H1%takes_ReadBinary & H)%se_bind_inv. destruct (0 <? size); [|injection H as _ <-; lia].
  apply se_bind_inv in H as (crc & s2 & H2%takes_ReadBinary & (d & s3 & H3%read_sized_inv & H)%se_bind_inv).
  destruct wanted; [|injection H as _ <-; lia]. apply se_bind_inv in H as (st & s4 & H4 & [= _ <-]).
  unfold se_lift in H4. destruct (read_all _ _ _); injection H4 as _ <-; lia.
Qed.

Lemma read_store_staged cfg B c0 wanted l s l' s' :
  staged cfg B c0 l s → read_store wanted l s = (Ok l', s') → staged cfg B c0 l' s'.
Proof.
  intros [(m & Hm & Hb) Hvs Hco Hmeta] H. unfold read_store in H.
  apply se_bind_inv in H as (name & s1 & H1%takes_ReadString & H). case_bool_decide as Hin; [cbn [negb] in H|done]. case_bool_decide as Hseen; [done|].
  apply se_bind_inv in H as (stats & s2 & H2%takes_read_store_stats & H).
  apply se_bind_inv in H as (size & s3 & H3%takes_ReadBinary & H).
  apply se_bind_inv in H as (crc & s4 & H4%takes_ReadBinary & H).
  apply se_bind_inv in H as (data & s5 & H5%read_sized_inv & H).
  apply se_bind_inv in H as (c & s6 & H6 & [= <- <-]).
  unfold se_lift in H6. destruct (deserialize_store name data (l_contents l)) as [c'|] eqn:Hd; [|done]. injection H6 as <- <-.
  assert (Hkeep : history_within cfg B (c_events (l_contents l)) s5) by (exists m; split; [done|lia]).
  unfold deserialize_store in Hd. repeat case_bool_decide; cbn [l_contents l_seen].
  - destruct (read_all _ _ _) as [es|] eqn:Hr; [|done]. injection Hd as <-. apply read_all_inv in Hr.
    destruct (DeserializeEventStore_safe cfg m _ _ _ _ Hm Hr) as (m' & Hm' & Hle).
    split; cbn; [exists m'; split; [done|lia]|done|done|]. intros Hn. apply Hmeta. set_solver.
  - destruct (read_all _ _ _) as [co|] eqn:Hr; [|done]. injection Hd as <-. apply read_all_inv in Hr.
    split; cbn; [done|done|by eapply DeserializeCoOccurrenceIndex_safe|]. intros Hn. apply Hmeta. set_solver.
  - destruct (read_all _ _ _) as [vs|] eqn:Hr; [|done]. injection Hd as <-. apply read_all_inv in Hr.
    split; cbn; [done|by eapply DeserializeVectorStore_safe|done|]. intros Hn. apply Hmeta. set_solver.
  - destruct (read_all _ _ _) as [ms|] eqn:Hr; [|done]. injection Hd as <-. split; cbn; [done..|]. intros Hn.
    unfold store_names in Hin. set_solver.
Qed.

Lemma missing_store_None required seen name : missing_store required seen = None → name ∈ required → name ∈ seen.
Proof.
  induction required as [|x required IH]; cbn; [set_solver|]. case_bool_decide; [|done]. intros H1 [->|Hin]%elem_of_cons; auto.
Qed.

Lemma takes_weaken {A} n (p : SE (list byte) A) : takes n p → takes 0 p.
Proof. intros Hp s a s' H. specialize (Hp _ _ _ H). lia. Qed.

Lemma takes_preamble : takes 0 read_preamble.
Proof.
  unfold read_preamble, ReadHeaderV1. apply (takes_bind 0 0).
  { intros s a s'. unfold read_bytes. case_match; [done|]. intros [= _ <-]. rewrite length_drop. lia. }
  intros magic. destruct (negb _); [done|]. apply (takes_bind 0 0); [eapply takes_weaken, takes_ReadBinary|].
  intros version. destruct (negb _); [done|]. repeat (apply (takes_bind 0 0); [eapply takes_weaken, takes_ReadBinary|intros ?]).
  apply (takes_bind 0 0); [eapply takes_weaken, takes_ReadString|]. intros res s h s' [= _ <-]. lia.
Qed.

Lemma se_lift_inv {A} (r : Expected A) (s : list byte) a s' : se_lift r s = (Ok a, s') → r = Ok a ∧ s' = s.
Proof. unfold se_lift. destruct r; [|done]. by intros [= -> <-]. Qed.

Lemma takes_statistics (b ws : bool) m1 m2 lm rm dm cm tm :
  takes 0 (if b then
      let! size := ReadBinary 4 m1 in
      let! crc := ReadBinary 4 m2 in
      let! data := read_sized size kMaxStatsSize lm rm dm cm crc in
      if ws then let! st := se_lift (read_all DeserializeStatistics data tm) in se_ret (Some st) else se_ret None
    else se_ret None).
Proof.
  destruct b; [|intros s a s' [= _ <-]; lia].
  do 2 (apply (takes_bind 0 0); [eapply takes_weaken, takes_ReadBinary|intros ?]).
  apply (takes_bind 0 0); [intros s d s' H%read_sized_inv; lia|]. intros data.
  destruct ws; [|intros s d s' [= _ <-]; lia]. intros s d s' (st & s1 & [_ ->]%se_lift_inv & [= _ <-])%se_bind_inv. lia.
Qed.

End safe.

(** ** Witnesses *)

Module Examples.
#[local] Existing Instance tree_order.
#[local] Existing Instance Scalar.
#[local] Existing Instance zlib_ieee.
#[local] Existing Instance zlib_stream.

Definition cfg : EventsConfig := MkEventsConfig 2 4 0 8.
Definition empty : Contents := MkContents (new_store cfg) (new_index (MkCoConfig 0 f32_zero 1)) VectorStore.new (Some ∅).
Definition e1 : Event := MkEvent "a" 10 100 ADD.
Definition e2 : Event := MkEvent "b" 0 101 DEL.
Definition events : EventStore := (RestoreEvent "u" e2 (RestoreEvent "u" e1 (new_store cfg)).2).2.
Definition vectors : VectorStore.VectorStore := (VectorStore.SetVector "a" [f32_of_Z 3; f32_of_Z 4] false VectorStore.new).2.
Definition full : Contents :=
  MkContents events (SetScore "a" "b" (f32_of_Z 2) (c_co empty)) vectors (Some {["a" := {["k" := MInt64 (-5)]}]}).
Definition saved : SavedConfig := MkSaved 2 0 0 2 "cosine" 10 100 0 0.
Definition stats : SnapshotStatistics := MkStats 1 2 1 1 0 7.
Definition image : list byte :=
  match snapshot_image default_limits 1700000000 saved (Some stats) None full with Ok f => f | Unexpected _ => [] end.

Lemma events_history : store_history cfg 2 events.
Proof. do 2 constructor. constructor. Qed.

Lemma vectors_reachable : VectorStore.vs_reachable vectors.
Proof.
  eapply (VectorStore.vs_set VectorStore.new "a" [f32_of_Z 3; f32_of_Z 4] false [f32_of_Z 3; f32_of_Z 4] VectorStore.new (Ok tt)); [constructor|vm_compute; reflexivity..].
Qed.
Lemma first_vector id data s :
  data ≠ [] → VectorStore.StoreVector id data false VectorStore.new = (Ok tt, s) →
  VectorStore.vs_ok s ∧ VectorStore.vs_abs s = <[id := VectorStore.MkVector data false]> ∅.
Proof.
  intros Hd Hs. destruct (VectorStore.StoreVector_ok VectorStore.new s id data false VectorStore.new_ok Hd Hs) as (H1 & H2 & _).
  split; [done|]. rewrite H2. assert (E : VectorStore.vs_abs VectorStore.new = ∅) by apply fmap_empty. by rewrite E.
Qed.

Lemma vectors_ok_example : VectorStore.vs_ok vectors ∧
  VectorStore.vs_abs vectors = <["a" := VectorStore.MkVector [f32_of_Z 3; f32_of_Z 4] false]> ∅.
Proof. apply first_vector; [discriminate|vm_compute; reflexivity]. Qed.

Lemma events_ok_example : events_ok events.
Proof.
  intros ctx Hctx. assert (Hall : GetAllContexts events = ["u"]) by (vm_compute; reflexivity). rewrite Hall in Hctx.
  apply list_elem_of_singleton in Hctx as ->. split; [done|].
  assert (Hev : GetEvents "u" events = [e1; e2]) by (vm_compute; reflexivity). rewrite Hev. intros e He.
  assert (H12 : e = e1 ∨ e = e2) by set_solver.
  destruct H12 as [-> | ->]; (split; [discriminate|by vm_compute|by vm_compute|discriminate]).
Qed.

Lemma full_persistable : persistable full.
Proof.
  split; cbn [full c_events c_co c_vectors c_metadata].
  - apply (store_history_ok cfg 2 events); [done..|apply events_history].
  - apply events_ok_example.
  - apply co_ok_SetScore; [done|apply co_ok_empty].
  - intros a b v. change (co_scores_ (SetScore "a" "b" (f32_of_Z 2) (c_co empty))) with (pair_update (λ _, f32_of_Z 2) "a" "b" (∅ : matrix)).
    rewrite cell_pair_update by done. case_decide; [|done]. intros [= <-]. by vm_compute.
  - apply vectors_ok_example.
  - split; apply Nat.leb_le; vm_compute; reflexivity.
  - intros id v. rewrite (proj2 vectors_ok_example), lookup_insert_Some, lookup_empty. intros [[<- <-]|[_ ?]]; [|done]. split.
    + apply (bool_decide_unpack _). by vm_compute.
    + assert (Hv : VectorStore.ValidateVector vectors "a" [f32_of_Z 3; f32_of_Z 4] = Ok tt) by (vm_compute; reflexivity).
      exact (proj1 (VectorStore.ValidateVector_Ok _ _ _) Hv).
  - intros ms [= <-] id meta key v [<- <-]%lookup_singleton_Some [<- <-]%lookup_singleton_Some. by vm_compute.
  - intros ms id meta [= <-] [<- <-]%lookup_singleton_Some _.
    rewrite (proj2 vectors_ok_example), lookup_insert_eq. eauto.
Qed.

Lemma saved_ok_example : saved_ok saved.
Proof. split; by vm_compute. Qed.

Lemma snapshot_damage_refused_witness :
  verify_snapshot (take 100 image) ≠ Ok tt ∧ ∀ sn, read_snapshot true true (take 100 image) empty ≠ Ok sn.
Proof.
  assert (Hv : verify_snapshot image = Ok tt) by (vm_compute; reflexivity).
  assert (Hd : drop 100 image ≠ []) by (vm_compute; discriminate).
  apply (proj2 (proj2 (snapshot_damage_refused true true image empty)) Hv (take 100 image) (drop 100 image) Hd).
  symmetry. apply take_drop.
Defined.

End Examples.
