(* ===== verification/SnapshotFile.v ===== *)
(** * The snapshot file (src/storage/snapshot_format_v1.cpp, src/utils/path_utils.h)

    [WriteSnapshotV1] and [ReadSnapshotV1] around the bytes of [SnapshotFormat]:
    the private directory, the temporary file, its removal unless it is
    published, the rename and the flushes.  Every system call consumes one
    outcome of the oracle, like those of the log.  Which message a failed
    stream reports, when several calls on it fail, is not modelled. *)

From S2P Require Import Prelude StringLib EventStore Floats CoOccurrence Wal WalRecovery WalCheckpoint Metadata Distance.
From S2P Require VectorStore.
From S2P Require Import SnapshotFormat SnapshotReaders SnapshotTheorems.
#[local] Open Scope Z_scope.

(** A path up to its last slash, and its file name. *)
Fixpoint split_leaf (p : string) : string * string :=
  match p with
  | "" => ("", "")
  | String c p =>
      let '(dir, leaf) := split_leaf p in
      if negb (bool_decide (dir = "")) || bool_decide (c = Ascii.ascii_of_nat 47) then (String c dir, leaf) else ("", String c leaf)
  end.

Section file.
Context {order : IterOrder} {impl : DistanceFunctions} {zlib : Zlib} {stream : ZlibStream} {paths : StoragePaths}.

(** [if (call failed) return error;] *)
Definition must (c : ErrorCode) (m : string) : SE Wal.State unit :=
  let! ok := sys in if ok then se_ret tt else se_throw c m.

(** The destructor of a temporary file that was not published. *)
Definition discard (tmp : string) (s : Wal.State) : Wal.State := (unlink tmp s).2.

(** [PrivateStorageTarget::Open]: the canonical path. *)
Definition OpenTarget (filepath : string) : SE Wal.State string :=
  let! p := se_lift (ResolvePrivateStoragePath filepath) in
  must kPermissionDenied "Cannot securely open storage directory: " ;!
  must kPermissionDenied "Storage directory changed during secure open: " ;!
  se_ret p.

Definition OpenRegularFileReadOnly (p : string) : SE Wal.State (list byte) :=
  let! ok := sys in
  let! s := se_get in
  match (if ok then w_files (world s) !! p else None) with
  | None => se_throw kStorageDumpReadError "Failed to securely open storage file: "
  | Some bytes => must kPermissionDenied "Storage file is not a private service-owned regular file" ;! se_ret bytes
  end.

Definition temporary_name (p : string) (pid counter : nat) : string :=
  let '(dir, leaf) := split_leaf p in
  dir +:+ ("." +:+ leaf +:+ ".tmp." +:+ pretty pid +:+ "." +:+ pretty counter).

Definition kAttempts : nat := 128.

(** [CreateTemporaryFile]: the counter moves with every attempt. *)
Fixpoint create_loop (attempts : nat) (p : string) (pid counter : nat) : SE Wal.State string :=
  match attempts with
  | O => se_throw kStorageDumpWriteError "Could not allocate a unique snapshot temporary filename"
  | S attempts =>
      let tmp := temporary_name p pid counter in
      let! ok := sys in
      let! s := se_get in
      if negb ok then se_throw kStorageDumpWriteError "Failed to securely create snapshot temporary file: "
      else if bool_decide (is_Some (w_files (world s) !! tmp)) then create_loop attempts p pid (S counter)
      else
        se_put (set_contents tmp []) ;!
        se_cleanup
          (must kPermissionDenied "Snapshot temporary file failed opened-inode validation" ;!
           must kStorageDumpWriteError "Failed to retain snapshot directory descriptor: ")
          (discard tmp) ;!
        se_ret tmp
  end.
Definition CreateTemporaryFile (p : string) (pid counter : nat) : SE Wal.State string := create_loop kAttempts p pid counter.

(** The file as it is first written, with the size and the checksum still 0. *)
Definition placeholder (image : list byte) : list byte :=
  take 24 image ++ replicate 12 Byte.x00 ++ drop 36 image.

(** From the opened temporary file to the flushed image. *)
Definition fill (tmp : string) (image : Expected (list byte)) : SE Wal.State unit :=
  must kStorageDumpWriteError "Failed to open secure temporary snapshot stream (" ;!
  let! image := se_lift image in
  let! written := WriteAll tmp (placeholder image) in
  if negb written then se_throw kStorageDumpWriteError "Stream error during snapshot write"
  else
    must kStorageDumpWriteError "Failed to close snapshot temp file" ;!
    se_put (set_contents tmp (patch_crc 0 image)) ;!
    must kStorageDumpWriteError "Failed to reopen secure temp inode for CRC32 computation" ;!
    must kStorageDumpWriteError "Failed to stream snapshot CRC32" ;!
    must kStorageDumpWriteError "Failed to close snapshot CRC input" ;!
    must kStorageDumpWriteError "Failed to reopen secure temp inode for CRC32 write" ;!
    must kStorageDumpWriteError "Failed to write snapshot file CRC32" ;!
    se_put (set_contents tmp image) ;!
    must kStorageDumpWriteError "Failed to close snapshot CRC output" ;!
    must kStorageDumpWriteError "Failed to fsync snapshot temp file: ".

(** [Publish] up to the rename, after which the temporary name is gone. *)
Definition publish_rename (tmp p : string) : SE Wal.State unit :=
  must kStorageDumpWriteError "Snapshot temporary file changed before publish" ;!
  let! renamed := rename tmp p in
  if renamed then se_ret tt else se_throw kStorageDumpWriteError "Failed to publish snapshot: ".

Definition WriteSnapshotV1 (pid counter : nat) (now : Z) (filepath : string) (cfg : SavedConfig)
    (stats : option SnapshotStatistics) (store_stats : option (gmap string StoreStatistics)) (limits : SnapshotWriteLimits)
    (c : Contents) : SE Wal.State unit :=
  let! p := OpenTarget filepath in
  let! tmp := CreateTemporaryFile p pid counter in
  se_cleanup (fill tmp (snapshot_image limits now cfg stats store_stats c) ;! publish_rename tmp p)
    (discard tmp) ;!
  must kStorageDumpWriteError "Published snapshot failed opened-inode validation" ;!
  must kStorageDumpWriteError "Failed to fsync snapshot directory: ".

(** The bytes behind the opened stream; a read of them that fails is reported
    as [read_failed]. *)
Definition read_file (filepath read_failed : string) : SE Wal.State (list byte) :=
  let! p := OpenTarget filepath in
  let! bytes := OpenRegularFileReadOnly p in
  must kStorageDumpReadError "Failed to open validated snapshot inode for reading: " ;!
  must kStorageDumpReadError read_failed ;!
  se_ret bytes.

Definition ReadSnapshotV1 (filepath : string) (want_stats want_store_stats : bool) (c : Contents) : SE Wal.State Snapshot :=
  let! bytes := read_file filepath "Failed to stream snapshot CRC32" in
  se_lift (read_snapshot want_stats want_store_stats bytes c).
Definition VerifySnapshotIntegrity (filepath : string) : SE Wal.State unit :=
  let! bytes := read_file filepath "Failed to stream snapshot CRC32" in
  se_lift (verify_snapshot bytes).
Definition GetSnapshotInfo (filepath : string) : SE Wal.State SnapshotInfo :=
  let! bytes := read_file filepath "Failed to read magic number" in
  se_lift (snapshot_info bytes).1.
End file.

(** ** Writing is all or nothing *)

Section facts.
Context {order : IterOrder} {impl : DistanceFunctions} {zlib : Zlib} {stream : ZlibStream} {paths : StoragePaths}.
Implicit Types (s : Wal.State).

Lemma split_leaf_app p : (split_leaf p).1 +:+ (split_leaf p).2 = p.
Proof.
  induction p as [|c p IH]; [done|]. cbn. destruct (split_leaf p) as [dir leaf]. cbn [fst snd] in IH. subst p.
  destruct (negb _ || _) eqn:E; cbn [fst snd]; [done|].
  apply orb_false_iff in E as [E _]. apply negb_false_iff, bool_decide_eq_true in E as ->. done.
Qed.

Lemma temporary_name_ne p pid counter : temporary_name p pid counter ≠ p.
Proof.
  intros E. apply (f_equal String.length) in E. revert E. unfold temporary_name. rewrite <- (split_leaf_app p) at 2.
  destruct (split_leaf p) as [dir leaf]. cbn [fst snd]. rewrite !length_str_app. cbn. lia.
Qed.

(** A call that changes no file but [tmp], and not the log. *)
Definition confined {A} (tmp : string) (e : SE Wal.State A) : Prop :=
  ∀ s r s', e s = (r, s') → wal s' = wal s ∧ ∀ k, k ≠ tmp → disk s' !! k = disk s !! k.

Lemma confined_bind {A B} tmp (e : SE Wal.State A) (k : A → SE Wal.State B) :
  confined tmp e → (∀ a, confined tmp (k a)) → confined tmp (se_bind e k).
Proof.
  intros He Hk s r s' [(a & s1 & H1 & H2)|(err & H1 & _)]%bind_inv; [|by eapply He].
  destruct (He _ _ _ H1) as [Hw Hd], (Hk _ _ _ _ H2) as [Hw' Hd']. split; [congruence|]. intros x Hx. by rewrite Hd', Hd.
Qed.

Lemma confined_ret {A} tmp (a : A) : confined tmp (se_ret a).
Proof. by intros s r s' [= <- <-]. Qed.
Lemma confined_throw {A} tmp c m : confined tmp (se_throw (A := A) c m).
Proof. by intros s r s' [= <- <-]. Qed.
Lemma confined_lift {A} tmp (r : Expected A) : confined tmp (se_lift r).
Proof. by intros s r' s' [= <- <-]. Qed.
Lemma confined_get tmp : confined tmp se_get.
Proof. by intros s r s' [= <- <-]. Qed.
Lemma confined_sys tmp : confined tmp sys.
Proof. intros s r s' (b & _ & Hw & Hd & _)%sys_inv. split; [done|]. by rewrite Hd. Qed.
Lemma confined_must tmp c m : confined tmp (must c m).
Proof. apply confined_bind; [apply confined_sys|]. intros []; [apply confined_ret|apply confined_throw]. Qed.
Lemma confined_set tmp bs : confined tmp (se_put (set_contents tmp bs)).
Proof. intros s r s' [= <- <-]. split; [done|]. intros k Hk. unfold disk, set_contents. cbn. by rewrite lookup_insert_ne. Qed.
Lemma confined_write tmp bs : confined tmp (WriteAll tmp bs).
Proof.
  intros s r s' (ok & w & _ & _ & _ & Hw & Hd & _)%WriteAll_inv. split; [done|]. intros k Hk. by rewrite Hd, lookup_insert_ne.
Qed.

Lemma confined_discard tmp s : wal (discard tmp s) = wal s ∧ ∀ k, k ≠ tmp → disk (discard tmp s) !! k = disk s !! k.
Proof.
  unfold discard. destruct (unlink tmp s) as [r s'] eqn:E. cbn.
  destruct r as [b|e]; [|by apply unlink_error in E]. apply unlink_ok in E as (Hw & Hd & _). split; [done|].
  intros k Hk. rewrite Hd. destruct b; [|done]. by rewrite lookup_delete_ne.
Qed.

Lemma confined_cleanup {A} tmp (e : SE Wal.State A) : confined tmp e → confined tmp (se_cleanup e (discard tmp)).
Proof.
  intros He s r s'. unfold se_cleanup. destruct (e s) as [[a|err] s1] eqn:E; intros [= <- <-]; destruct (He _ _ _ E) as [Hw Hd]; [done|].
  destruct (confined_discard tmp s1) as [Hw' Hd']. split; [congruence|]. intros k Hk. by rewrite Hd', Hd.
Qed.

Create HintDb confined.
#[local] Hint Resolve confined_bind confined_ret confined_throw confined_lift confined_get confined_sys confined_must
  confined_set confined_write confined_cleanup : confined.

Lemma confined_fill tmp image : confined tmp (fill tmp image).
Proof.
  unfold fill. apply confined_bind; [auto with confined|]. intros _. apply confined_bind; [auto with confined|]. intros bytes.
  apply confined_bind; [auto with confined|]. intros []; cbn [negb]; auto 30 with confined.
Qed.

Lemma must_inv c m s r s' :
  must c m s = (r, s') → wal s' = wal s ∧ disk s' = disk s ∧ (r = Ok tt ∨ ∃ e, r = Unexpected e).
Proof.
  unfold must. intros [(b & s1 & (b' & [= <-] & Hw & Hd & _)%sys_inv & H2)|(e & (b & [=] & _)%sys_inv & _)]%bind_inv.
  destruct b; injection H2 as <- <-; eauto.
Qed.

Lemma must_quiet c m s : quiet s → must c m s = (Ok tt, s).
Proof. intros Hq. unfold must. by erewrite bind_ok by (by apply sys_quiet). Qed.

(** Peel the first call of a sequence that ended. *)
Ltac peel H :=
  let s1 := fresh "s" in let Hw := fresh "Hw" in let Hd := fresh "Hd" in
  apply bind_inv in H as [([] & s1 & (Hw & Hd & _)%must_inv & H)|(? & _ & H)]; [|discriminate H].

Lemma fill_ok tmp image s s' : fill tmp image s = (Ok tt, s') → ∃ bytes, image = Ok bytes ∧ disk s' !! tmp = Some bytes.
Proof.
  unfold fill. intros H. peel H. destruct image as [bytes|e]; [|done]. exists bytes. split; [done|]. cbn [se_lift se_bind] in H.
  apply bind_inv in H as [(written & s1 & _ & H)|(? & _ & H)]; [|discriminate H]. destruct written; cbn [negb] in H; [|done].
  peel H. apply bind_inv in H as [([] & s3 & _ & H)|(? & _ & H)]; [|discriminate H]. do 5 peel H.
  apply bind_inv in H as [([] & t7 & [= <-] & H)|(? & _ & H)]; [|discriminate H]. peel H.
  apply must_inv in H as (_ & Hd' & _). rewrite Hd'. match goal with Hl : disk ?x = disk (set_contents _ _ _) |- _ => rewrite Hl end. unfold disk, set_contents. cbn. apply lookup_insert_eq.
Qed.

Lemma create_loop_ok attempts : ∀ p pid counter s tmp s',
  create_loop attempts p pid counter s = (Ok tmp, s') →
  (∃ n, tmp = temporary_name p pid n) ∧ disk s !! tmp = None ∧ wal s' = wal s ∧ ∀ k, k ≠ tmp → disk s' !! k = disk s !! k.
Proof.
  induction attempts as [|attempts IH]; intros p pid counter s tmp s'; cbn [create_loop]; [done|].
  intros [(ok & s1 & (b & [= <-] & Hw & Hd & _)%sys_inv & H)|(? & _ & H)]%bind_inv; [|discriminate H].
  destruct ok; cbn [negb] in H; cbn [se_get se_bind] in H; [|done]. unfold se_bind at 1 in H. cbn [se_get] in H.
  change (w_files (world s1)) with (disk s1) in H. case_bool_decide as Hex.
  - apply IH in H as (Hn & Hf & Hw' & Hd'). split_and!; [done|by rewrite <- Hd|congruence|]. intros k Hk. by rewrite Hd', Hd.
  - set (t := temporary_name p pid counter) in *.
    cbn [se_put] in H. apply bind_inv in H as [([] & s3 & Hc & H)|(? & _ & H)]; [|discriminate H]. injection H as <- <-.
    assert (Hconf : confined t (se_cleanup (must kPermissionDenied "Snapshot temporary file failed opened-inode validation" ;!
      must kStorageDumpWriteError "Failed to retain snapshot directory descriptor: ") (discard t))) by auto with confined.
    destruct (Hconf _ _ _ Hc) as [Hw' Hd']. split_and!; [by eexists|by rewrite <- Hd; apply eq_None_not_Some|cbn in Hw'; congruence|].
    intros k Hk. rewrite Hd' by done. unfold disk at 1, set_contents. cbn. rewrite lookup_insert_ne by done. change (w_files (world s1)) with (disk s1). by rewrite Hd.
Qed.

Lemma create_loop_error attempts : ∀ p pid counter s e s',
  create_loop attempts p pid counter s = (Unexpected e, s') →
  wal s' = wal s ∧ ∀ k, is_Some (disk s !! k) ∨ k = p → disk s' !! k = disk s !! k.
Proof.
  induction attempts as [|attempts IH]; intros p pid counter s e s'; cbn [create_loop]; [by intros [= _ <-]|].
  intros [(ok & s1 & (b & [= <-] & Hw & Hd & _)%sys_inv & H)|(? & (b & [=] & _)%sys_inv & _)]%bind_inv.
  unfold se_bind at 1 in H. cbn [se_get] in H. destruct ok; cbn [negb] in H; [|injection H as _ <-; split; [done|by rewrite Hd]].
  change (w_files (world s1)) with (disk s1) in H. case_bool_decide as Hex.
  - apply IH in H as (Hw' & Hd'). split; [congruence|]. intros k Hk. rewrite Hd'; by rewrite Hd.
  - set (t := temporary_name p pid counter) in *.
    assert (Hconf : confined t (se_put (set_contents t []) ;! se_cleanup (must kPermissionDenied "Snapshot temporary file failed opened-inode validation" ;!
      must kStorageDumpWriteError "Failed to retain snapshot directory descriptor: ") (discard t) ;! se_ret t)) by auto with confined.
    destruct (Hconf _ _ _ H) as [Hw' Hd']. split; [congruence|]. intros k Hk. rewrite Hd', Hd; [done|]. rewrite Hd in Hex.
    intros ->. destruct Hk as [Hk|Hk]; [done|]. by apply temporary_name_ne in Hk.
Qed.

Lemma OpenTarget_inv f s r s' :
  OpenTarget f s = (r, s') → wal s' = wal s ∧ disk s' = disk s ∧ (r = Ok (canonical f) ∨ ∃ e, r = Unexpected e).
Proof.
  unfold OpenTarget. destruct (ResolvePrivateStoragePath f) as [p|e] eqn:Hp; [|intros [= <- <-]; eauto].
  apply resolve_canonical in Hp as ->. unfold se_bind at 1. cbn [se_lift]. unfold se_bind at 1. intros H.
  destruct (must _ _ s) as [r1 s1] eqn:E1. apply must_inv in E1 as (Hw1 & Hd1 & [->|[e ->]]); [|injection H as <- <-; eauto].
  unfold se_bind at 1 in H. destruct (must _ _ s1) as [r2 s2] eqn:E2.
  apply must_inv in E2 as (Hw2 & Hd2 & [->|[e ->]]); injection H as <- <-; (split_and!; [congruence..|eauto]).
Qed.

Lemma publish_rename_inv tmp p s r s' :
  publish_rename tmp p s = (r, s') →
  wal s' = wal s ∧
  (disk s' = disk s ∧ (∃ e, r = Unexpected e) ∨ r = Ok tt ∧ disk s' = <[p := contents tmp s]> (delete tmp (disk s))).
Proof.
  unfold publish_rename. intros [([] & s1 & (Hw & Hd & _)%must_inv & H)|(e & (Hw & Hd & _)%must_inv & ->)]%bind_inv; [|eauto].
  apply bind_inv in H as [(b & s2 & (? & [= <-] & Hw2 & Hd2)%rename_inv & H)|(e & (? & [=] & _)%rename_inv & _)].
  destruct b; injection H as <- <-; (split; [congruence|]); [right|left; split; [congruence|eauto]].
  split; [done|]. rewrite Hd2. unfold contents, disk in *. by rewrite Hd.
Qed.

(** What writing may have done to the file [p]. *)
Definition replaced (p : string) (image : Expected (list byte)) (s s' : Wal.State) : Prop :=
  disk s' !! p = disk s !! p ∨ ∃ bytes, image = Ok bytes ∧ disk s' !! p = Some bytes.

(** The temporary file from its creation to the rename. *)
Lemma guarded_inv tmp p image s r s' :
  tmp ≠ p → se_cleanup (fill tmp image ;! publish_rename tmp p) (discard tmp) s = (r, s') →
  wal s' = wal s ∧ (∀ k, k ≠ p → k ≠ tmp → disk s' !! k = disk s !! k) ∧
  (disk s' !! p = disk s !! p ∧ (∃ e, r = Unexpected e) ∨
   ∃ bytes, r = Ok tt ∧ image = Ok bytes ∧ disk s' !! p = Some bytes).
Proof.
  intros Hne H. unfold se_cleanup in H. unfold se_bind in H.
  destruct (fill tmp image s) as [r1 s1] eqn:E1. destruct (confined_fill _ _ _ _ _ E1) as [Hw1 Hd1].
  assert (Hgive : ∀ s2 e, wal s2 = wal s1 → disk s2 = disk s1 → (Unexpected e, discard tmp s2) = (r, s') →
    wal s' = wal s ∧ (∀ k, k ≠ p → k ≠ tmp → disk s' !! k = disk s !! k) ∧
    (disk s' !! p = disk s !! p ∧ ∃ e, r = Unexpected e)).
  { intros s2 e Hw Hd [= <- <-]. destruct (confined_discard tmp s2) as [Hw2 Hd2].
    split_and!; [congruence| |by rewrite Hd2, Hd, Hd1|eauto]. intros k _ Hk. by rewrite Hd2, Hd, Hd1. }
  destruct r1 as [[]|e]; [|by destruct (Hgive s1 e) as (? & ? & ?); auto].
  apply fill_ok in E1 as (bytes & -> & Hb). destruct (publish_rename tmp p s1) as [r2 s2] eqn:E2.
  apply publish_rename_inv in E2 as (Hw2 & [(Hd2 & e & ->)|(-> & Hd2)]); [destruct (Hgive s2 e) as (? & ? & ?); auto|].
  injection H as <- <-. split_and!; [congruence| |right; exists bytes; split_and!; [done..|]].
  - intros k Hk Hkt. by rewrite Hd2, lookup_insert_ne, lookup_delete_ne, Hd1.
  - rewrite Hd2, lookup_insert_eq. unfold contents. change (w_files (world s1)) with (disk s1). by rewrite Hb.
Qed.

(** ** Without failures *)

Lemma quiet_put s f : quiet s → quiet (f s) → se_put f s = (Ok tt, f s).
Proof. done. Qed.

Lemma WriteAll_empty tmp data s :
  quiet s → disk s !! tmp = Some [] → WriteAll tmp data s = (Ok true, set_contents tmp data s).
Proof.
  intros Hq Ht. unfold WriteAll. rewrite Hq. unfold contents. change (w_files (world s)) with (disk s). rewrite Ht.
  destruct data; cbn [write_loop app default from_option id]; unfold set_contents; by rewrite Hq.
Qed.

Lemma OpenTarget_quiet f s :
  quiet s → ResolvePrivateStoragePath f = Ok (canonical f) → OpenTarget f s = (Ok (canonical f), s).
Proof.
  intros Hq Hf. unfold OpenTarget. rewrite Hf. erewrite bind_ok by done. by do 2 (erewrite bind_ok by (by apply must_quiet)).
Qed.

Lemma create_quiet p pid counter s :
  quiet s → disk s !! temporary_name p pid counter = None →
  CreateTemporaryFile p pid counter s = (Ok (temporary_name p pid counter), set_contents (temporary_name p pid counter) [] s).
Proof.
  intros Hq Hfree. unfold CreateTemporaryFile, kAttempts. cbn [create_loop]. erewrite bind_ok by (by apply sys_quiet).
  erewrite bind_ok by done. cbn [negb]. change (w_files (world s)) with (disk s). rewrite bool_decide_eq_false_2 by (by rewrite Hfree; intros [? ?]).
  erewrite bind_ok by done. unfold se_cleanup at 1. unfold se_bind at 1.
  erewrite bind_ok by (by apply must_quiet). by rewrite must_quiet.
Qed.

Lemma fill_quiet tmp image s :
  quiet s → disk s !! tmp = Some [] →
  ∃ s', fill tmp (Ok image) s = (Ok tt, s') ∧ quiet s' ∧ disk s' = <[tmp := image]> (disk s).
Proof.
  intros Hq Ht. unfold fill. erewrite bind_ok by (by apply must_quiet). erewrite bind_ok by done.
  erewrite bind_ok by (by apply WriteAll_empty). cbn [negb]. erewrite bind_ok by (by apply must_quiet).
  erewrite bind_ok by done. do 5 (erewrite bind_ok by (by apply must_quiet)). erewrite bind_ok by done. erewrite bind_ok by (by apply must_quiet).
  rewrite must_quiet by done. eexists. split_and!; [done|done|]. unfold disk, set_contents. cbn. by rewrite !insert_insert_eq.
Qed.

Lemma publish_quiet tmp p s :
  quiet s → ∃ s', publish_rename tmp p s = (Ok tt, s') ∧ quiet s' ∧ disk s' !! p = Some (contents tmp s).
Proof.
  intros Hq. unfold publish_rename, rename. erewrite bind_ok by (by apply must_quiet).
  erewrite bind_ok; [|erewrite bind_ok by (by apply sys_quiet); by repeat (erewrite bind_ok by done)].
  eexists. split_and!; [done|done|]. unfold disk, set_contents. cbn. apply lookup_insert_eq.
Qed.

(** Without failures the image is published. *)
Lemma write_quiet pid counter now filepath cfg stats sst limits c image s :
  quiet s → ResolvePrivateStoragePath filepath = Ok (canonical filepath) →
  disk s !! temporary_name (canonical filepath) pid counter = None →
  snapshot_image limits now cfg stats sst c = Ok image →
  ∃ s', WriteSnapshotV1 pid counter now filepath cfg stats sst limits c s = (Ok tt, s') ∧ quiet s' ∧
    disk s' !! canonical filepath = Some image.
Proof.
  intros Hq Hf Hfree Himg. unfold WriteSnapshotV1. set (p := canonical filepath) in *. set (tmp := temporary_name p pid counter) in *.
  erewrite bind_ok by (by apply OpenTarget_quiet). erewrite bind_ok by (by apply create_quiet). fold p tmp.
  set (s1 := set_contents tmp [] s). assert (Ht : disk s1 !! tmp = Some []) by apply lookup_insert_eq.
  rewrite Himg. destruct (fill_quiet tmp image s1) as (s2 & E2 & Hq2 & Hd2); [done..|].
  destruct (publish_quiet tmp p s2) as (s3 & E3 & Hq3 & Hd3); [done|].
  erewrite bind_ok; [|unfold se_cleanup; by rewrite (bind_ok _ _ _ _ _ E2), E3].
  erewrite bind_ok by (by apply must_quiet). rewrite must_quiet by done. exists s3. split_and!; [done..|].
  rewrite Hd3. unfold contents. change (w_files (world s2)) with (disk s2). by rewrite Hd2, lookup_insert_eq.
Qed.

Lemma read_file_quiet filepath m bytes s :
  quiet s → ResolvePrivateStoragePath filepath = Ok (canonical filepath) → disk s !! canonical filepath = Some bytes →
  read_file filepath m s = (Ok bytes, s).
Proof.
  intros Hq Hf Hb. unfold read_file, OpenRegularFileReadOnly. erewrite bind_ok by (by apply OpenTarget_quiet).
  erewrite bind_ok; [by do 2 (erewrite bind_ok by (by apply must_quiet))|].
  erewrite bind_ok by (by apply sys_quiet). erewrite bind_ok by done. change (w_files (world s)) with (disk s). rewrite Hb.
  by erewrite bind_ok by (by apply must_quiet).
Qed.

(** C29: writing a snapshot is all or nothing, whatever call fails: the log and
    every other file that existed keep their contents, and the file itself has
    either its old contents or the complete image of the stores, which is what a
    success leaves; so no prefix of a snapshot is ever found under its name. *)
Theorem snapshot_write_atomic pid counter now filepath cfg stats sst limits c s r s' :
  WriteSnapshotV1 pid counter now filepath cfg stats sst limits c s = (r, s') →
  let image := snapshot_image limits now cfg stats sst c in
  wal s' = wal s ∧
  (∀ k, k ≠ canonical filepath → is_Some (disk s !! k) → disk s' !! k = disk s !! k) ∧
  replaced (canonical filepath) image s s' ∧
  (r = Ok tt → ∃ bytes, image = Ok bytes ∧ disk s' !! canonical filepath = Some bytes).
Proof.
  intros H. cbv zeta. unfold WriteSnapshotV1 in H. set (image := snapshot_image _ _ _ _ _ _) in *. unfold replaced.
  apply bind_inv in H as [(p & s1 & (Hw1 & Hd1 & Hp)%OpenTarget_inv & H)|(e & (Hw1 & Hd1 & _)%OpenTarget_inv & ->)];
    [|rewrite Hd1; naive_solver].
  destruct Hp as [[= ->]|[e [=]]]. set (p := canonical filepath) in *.
  apply bind_inv in H as [(tmp & s2 & Hc & H)|(e & Hc & ->)].
  2: { apply create_loop_error in Hc as [Hw2 Hd2]. rewrite Hd1 in Hd2. split_and!; [congruence|auto|left; auto|done]. }
  apply create_loop_ok in Hc as ([n ->] & Hfresh & Hw2 & Hd2). rewrite Hd1 in Hfresh, Hd2.
  pose proof (temporary_name_ne p pid n) as Hne. set (tmp := temporary_name p pid n) in *.
  assert (Hrest : ∀ s3 : Wal.State, wal s3 = wal s2 → (∀ k, k ≠ p → k ≠ tmp → disk s3 !! k = disk s2 !! k) →
    wal s3 = wal s ∧ (∀ k, k ≠ p → is_Some (disk s !! k) → disk s3 !! k = disk s !! k)).
  { intros s3 Hw3 Hd3. split; [congruence|]. intros k Hk Hex. assert (k ≠ tmp) by (intros ->; destruct Hex; congruence).
    by rewrite Hd3, Hd2. }
  assert (Hp2 : disk s2 !! p = disk s !! p) by (by apply Hd2).
  apply bind_inv in H as [([] & s3 & Hg & H)|(e & Hg & ->)]; (apply guarded_inv in Hg as (Hw3 & Hd3 & Hg); [|done]).
  - destruct Hg as [(_ & e & [=])|(bytes & _ & Himg & Hbytes)].
    assert (Hend : wal s' = wal s3 ∧ disk s' = disk s3).
    { apply bind_inv in H as [([] & s4 & (Hw4 & Hd4 & _)%must_inv & (Hw5 & Hd5 & _)%must_inv)|(e & (Hw4 & Hd4 & _)%must_inv & _)];
        split; congruence. }
    destruct Hend as [Hw4 Hd4]. destruct (Hrest s') as [? ?]; [congruence|by rewrite Hd4|]. rewrite Hd4. naive_solver.
  - destruct (Hrest s') as [? ?]; [done..|]. destruct Hg as [(Hsame & _)|(? & [=] & _)].
    split_and!; [done..|left; congruence|done].
Qed.

(** C19: a snapshot that is written can be read back.  When no call fails and
    the temporary name is free, the write succeeds, the file passes the integrity
    check, and reading it gives back the configuration, the statistics that the
    reader asks for, every context's events in order, the whole co-occurrence
    matrix, every vector's components and every metadata entry with fields, in
    any staging stores whose ring buffers and context limit can hold the events.
    The one exception is an image whose checksum is 0: it is written, and then
    refused. *)
Theorem snapshot_roundtrip pid counter now filepath cfg stats sst limits c c0 image ws wss s :
  quiet s → ResolvePrivateStoragePath filepath = Ok (canonical filepath) →
  disk s !! temporary_name (canonical filepath) pid counter = None →
  persistable c → store_ok (c_events c0) → events_fit (c_events c) (c_events c0) →
  saved_ok cfg → (∀ st, stats = Some st → statistics_ok st) → store_stats_ok sst →
  snapshot_image limits now cfg stats sst c = Ok image →
  ∃ s', WriteSnapshotV1 pid counter now filepath cfg stats sst limits c s = (Ok tt, s') ∧
    if crc32 (zero_crc_field 0 image) =? 0
    then VerifySnapshotIntegrity filepath s' = (throw kStorageDumpReadError "Snapshot file CRC32 is missing", s')
    else VerifySnapshotIntegrity filepath s' = (Ok tt, s') ∧
      ∃ c', ReadSnapshotV1 filepath ws wss c0 s' =
        (Ok (MkSnapshot cfg (if ws then stats else None) (kept_three wss sst ∅) c'), s') ∧ reloaded c c0 c'.
Proof.
  intros Hq Hf Hfree Hc H0 Hfit Hcfg Hst Hsst Himg.
  destruct (write_quiet pid counter now filepath cfg stats sst limits c image s) as (s' & Hw & Hq' & Hd); [done..|].
  destruct (image_roundtrip limits now cfg stats sst c c0 image ws wss) as [Hv Hr]; [done..|].
  exists s'. split; [done|]. unfold VerifySnapshotIntegrity, ReadSnapshotV1.
  rewrite (bind_ok _ _ _ _ _ (read_file_quiet filepath _ image s' Hq' Hf Hd)), Hv.
  destruct (Z.eqb_spec (crc32 (zero_crc_field 0 image)) 0) as [|Hcrc]; [done|]. split; [done|].
  destruct (Hr Hcrc) as (c' & E & Hre). exists c'. split; [|done].
  by rewrite (bind_ok _ _ _ _ _ (read_file_quiet filepath _ image s' Hq' Hf Hd)), E.
Qed.
End facts.

(** ** A snapshot written and read back *)

Module Examples.
Import SnapshotTheorems.Examples.
#[local] Existing Instance tree_order.
#[local] Existing Instance Scalar.
#[local] Existing Instance zlib_ieee.
#[local] Existing Instance zlib_stream.
#[local] Existing Instance plain_paths.

Definition old : Wal.State := MkState new_wal (MkWorld {[ "data/dump.nvec" := [Byte.x41] ]} []).
(** The rename fails. *)
Definition failing : Wal.State := MkState new_wal (MkWorld (disk old) (replicate 16 SysOk ++ [SysFail])).

Definition write (s : Wal.State) : Expected unit * Wal.State :=
  WriteSnapshotV1 42 0 1700000000 "data/dump.nvec" saved (Some stats) None default_limits full s.

Example temporary : temporary_name "data/dump.nvec" 42 7 = "data/.dump.nvec.tmp.42.7".
Proof. vm_compute. reflexivity. Qed.

Example rename_failed :
  (write failing).1 = throw kStorageDumpWriteError "Failed to publish snapshot: " ∧ disk (write failing).2 = disk old.
Proof. vm_compute. done. Qed.

Lemma snapshot_write_atomic_witness :
  disk (write failing).2 !! "data/dump.nvec" = Some [Byte.x41] ∨ disk (write failing).2 !! "data/dump.nvec" = Some image.
Proof.
  assert (Hold : disk failing !! "data/dump.nvec" = Some [Byte.x41]) by (vm_compute; reflexivity).
  assert (Himg : snapshot_image default_limits 1700000000 saved (Some stats) None full = Ok image) by (vm_compute; reflexivity).
  destruct (snapshot_write_atomic 42 0 1700000000 "data/dump.nvec" saved (Some stats) None default_limits full failing
    (write failing).1 (write failing).2 (surjective_pairing _)) as (_ & _ & [H|(bytes & H1 & H2)] & _).
  - left. exact (eq_trans H Hold).
  - right. rewrite Himg in H1. apply Ok_inj in H1. rewrite H1. exact H2.
Defined.

Lemma snapshot_roundtrip_witness :
  ∃ s' c', write old = (Ok tt, s') ∧
    ReadSnapshotV1 "data/dump.nvec" true false empty s' = (Ok (MkSnapshot saved (Some stats) ∅ c'), s') ∧
    reloaded full empty c'.
Proof.
  assert (Hst : ∀ st, Some stats = Some st → statistics_ok st) by (intros st [= <-]; split; by vm_compute).
  assert (Hsst : store_stats_ok None) by (intros name st; by vm_compute).
  assert (H0 : store_ok (c_events empty)) by (by apply store_ok_new).
  assert (Hfit : events_fit (c_events full) (c_events empty)) by (split; [|right]; vm_compute; discriminate).
  assert (Hres : ResolvePrivateStoragePath "data/dump.nvec" = Ok (canonical "data/dump.nvec")) by reflexivity.
  assert (Hq : quiet old) by reflexivity.
  assert (Hfree : disk old !! temporary_name (canonical "data/dump.nvec") 42 0 = None) by (vm_compute; reflexivity).
  assert (Himg : snapshot_image default_limits 1700000000 saved (Some stats) None full = Ok image) by (vm_compute; reflexivity).
  assert (Hcrc : crc32 (zero_crc_field 0 image) =? 0 = false) by (vm_compute; reflexivity).
  destruct (snapshot_roundtrip 42 0 1700000000 "data/dump.nvec" saved (Some stats) None default_limits full empty image true false
    old Hq Hres Hfree full_persistable H0 Hfit saved_ok_example Hst Hsst Himg) as (s' & Hw & H).
  rewrite Hcrc in H. destruct H as (_ & c' & Hr & Hre). exists s', c'. split; [exact Hw|]. split; [exact Hr|exact Hre].
Defined.
End Examples.
