(* ===== verification/SnapshotLifecycle.v ===== *)
(** * The snapshots of a running server (src/storage/snapshot_fork.cpp,
    src/storage/snapshot_lock.cpp, src/server/snapshot_scheduler.cpp,
    src/server/handlers/dump_handler.cpp, and the startup of
    src/server/nvecd_server.cpp)

    Saving, loading and expiring snapshots while writers run, as a transition
    system.  The threads of the server, the forked child and the log interleave
    in any order; one step is one critical section or one effect on the disk, so
    a crash falls between two steps.  The question the model answers is what
    [recovery], the startup after that crash, finds.

    The contents of the stores are the sequence numbers of the log records that
    made them: by [Durability.replay_reproduces] the records determine the
    stores, and by [SnapshotFile.snapshot_roundtrip] a file gives back the stores
    it was written from.  A published file appears at once
    ([SnapshotFile.snapshot_write_atomic]), and so does a sidecar, which names
    the file by size and CRC ([WalCheckpoint.checkpoint_atomic]); here by its
    contents.  A truncation deletes whole segments: some prefix of the records it
    may delete.  Error texts and times of the status are left out.  The log is
    enabled. *)

From Stdlib Require Import Strings.Ascii.
From S2P Require Import Prelude StringLib.
#[local] Open Scope Z_scope.

Definition Contents : Type := list Z.

(** The records with sequence numbers in (a, b]. *)
Definition records (a b : Z) : Contents := seqZ (a + 1) (b - a).

(** ** The snapshot directory and the log *)

Record File : Type := MkFile { image : Contents; mtime : Z }.

Record Disk : Type := MkDisk {
  files : gmap string File;                  (* by name relative to snapshot.dir *)
  sidecars : gmap string (Z * Contents);     (* <name>.walseq: sequence and binding *)
  deleted : Z;                               (* the log holds the records above *)
  clock : Z                                  (* the next modification time *)
}.

(** [std::filesystem::path::extension] of a file name. *)
Definition extension (name : string) : string :=
  match reverse (split_on "."%char name) with
  | [] | [_] | [_; ""] => ""
  | last :: _ => "." +:+ last
  end.

(** Directly in the directory, and named as a snapshot. *)
Definition candidate_name (f : string) : bool :=
  str_all (λ c, negb (Ascii.eqb c "/"%char)) f &&
  (bool_decide (extension f = ".nvec") || bool_decide (extension f = ".dmp")).
Definition auto_name (f : string) : bool :=
  String.prefix "auto_" f && bool_decide (extension f = ".nvec").

(** The rename that ends [WriteSnapshotV1]. *)
Definition publish (f : string) (img : Contents) (d : Disk) : Disk :=
  MkDisk (<[f := MkFile img (clock d)]> (files d)) (sidecars d) (deleted d) (clock d + 1).

(** [last_write_time(f, now)]. *)
Definition touch (f : string) (d : Disk) : option Disk :=
  F ← files d !! f;
  Some (MkDisk (<[f := MkFile (image F) (clock d)]> (files d)) (sidecars d) (deleted d) (clock d + 1)).

(** [WriteWalCheckpoint]: the sidecar binds the file that is there now. *)
Definition WriteWalCheckpoint (f : string) (q : Z) (d : Disk) : option Disk :=
  F ← files d !! f;
  Some (MkDisk (files d) (<[f := (q, image F)]> (sidecars d)) (deleted d) (clock d)).

(** [ReadWalCheckpoint]. *)
Definition ReadWalCheckpoint (f : string) (d : Disk) : option Z :=
  F ← files d !! f;
  match sidecars d !! f with
  | Some (q, bound) => if bool_decide (bound = image F) then Some q else None
  | None => None
  end.

(** [WriteAheadLog::Truncate(q)], which deleted the records up to [upto]. *)
Definition Truncate (q upto : Z) (d : Disk) : option Disk :=
  if (deleted d <=? upto) && (upto <=? Z.max (deleted d) q)
  then Some (MkDisk (files d) (sidecars d) upto (clock d)) else None.

(** [CleanupOldSnapshots] deletes [f]: a scheduled snapshot, at least [retain]
    of which are newer.  Its sidecar stays. *)
Definition scheduled (d : Disk) : list (string * File) :=
  base.filter (λ fF, auto_name fF.1 = true) (map_to_list (files d)).
Definition remove_old (retain : nat) (f : string) (d : Disk) : option Disk :=
  F ← files d !! f;
  if auto_name f && (0 <? retain)%nat &&
     (retain <=? length (base.filter (λ gG, (mtime F <? mtime gG.2)%Z = true) (scheduled d)))%nat
  then Some (MkDisk (delete f (files d)) (sidecars d) (deleted d) (clock d)) else None.

(** ** The startup *)

Definition newer (a b : string * File) : bool :=
  if mtime a.2 =? mtime b.2 then string_ltb b.1 a.1 else mtime b.2 <? mtime a.2.

(** [FindSnapshotCandidates(dir, true)]. *)
Definition is_candidate (d : Disk) (fF : string * File) : bool :=
  candidate_name fF.1 && bool_decide (is_Some (sidecars d !! fF.1)).
Definition FindSnapshotCandidates (d : Disk) : list (string * File) :=
  std_sort newer (base.filter (λ fF, is_candidate d fF = true) (map_to_list (files d))).

(** [load_newest_valid_snapshot(true)]: [None] when there are candidates and
    none is valid, [Some None] when there is none. *)
Fixpoint load_newest_valid_snapshot (d : Disk) (failed : bool) (cs : list (string * File)) : option (option (Contents * Z)) :=
  match cs with
  | [] => if failed then None else Some None
  | (f, F) :: cs' =>
      match ReadWalCheckpoint f d with
      | Some q => Some (Some (image F, q))
      | None => load_newest_valid_snapshot d true cs'
      end
  end.

(** [WriteAheadLog::Replay(from)] of a log that ends at [log_seq]
    ([WalTheorems.replay_delivers]): without a floor there is no test that the
    records reach down to it. *)
Definition Replay (from log_seq : Z) (d : Disk) : option Contents :=
  if from =? 0 then Some (records (deleted d) log_seq)
  else if (from <=? log_seq) && (from <=? deleted d) then None
  else Some (records (Z.max (deleted d) (from - 1)) log_seq).

(** The contents after the startup; [None] when the server refuses to start. *)
Definition recovery (log_seq : Z) (d : Disk) : option Contents :=
  base ← load_newest_valid_snapshot d false (FindSnapshotCandidates d);
  match base with
  | None => Replay 0 log_seq d
  | Some (img, checkpoint) =>
      tail ← Replay (if checkpoint =? 0 then 0 else checkpoint + 1) log_seq d;
      Some (img ++ tail)
  end.

(** ** The server *)

Inductive SnapshotStatus : Type := kIdle | kInProgress | kCompleted | kFailed.
#[export] Instance SnapshotStatus_eq_dec : EqDecision SnapshotStatus.
Proof. solve_decision. Defined.

Record SnapshotResult : Type := MkResult {
  status : SnapshotStatus;
  filepath : string;
  child_pid : Z;
  wal_sequence : Z
}.

Inductive Exit : Type := Exited (code : Z) | Signaled (sig : Z).
#[export] Instance Exit_eq_dec : EqDecision Exit.
Proof. solve_decision. Defined.

(** The forked child: its copy of the stores, whether the file is published,
    and the exit status that waits for [waitpid]. *)
Record Child : Type := MkChild {
  c_file : string;
  c_image : Contents;
  c_published : bool;
  c_exit : option Exit
}.

(** Where a thread stands: between two steps of [StartBackgroundSave]
    ([scheduled] when [TakeSnapshot] called it, which holds [read_only]), of
    [CheckChild], of [HandleDumpSave] in lock mode, of [HandleDumpLoad].  A load
    keeps the old contents in the staging stores it swapped with. *)
Inductive Phase : Type :=
| Idle
| Starting (f : string) (scheduled : bool)
| Reserved (f : string) (scheduled : bool)
| Forked (pid q : Z) (scheduled : bool)
| Sampled (pid : Z)
| Waited (e : option Exit)
| Completing (f : string) (q : Z)
| Truncating (q : Z)
| LockWaiting (f : string)
| LockSaved (f : string) (q : Z)
| LockTruncating (q : Z)
| Loading (f : string)
| Staged (f : string) (img : Contents)
| Swapped (f : string) (q : Z) (old : Contents)
| Touched (f : string) (q : Z) (old : Contents)
| LoadTruncating (q : Z) (old : Contents)
| Halted (old : Contents)
| LockChecked (f : string).
#[export] Instance Phase_eq_dec : EqDecision Phase.
Proof. solve_decision. Defined.

(** [gate] is the thread that holds the snapshot and write gates for a
    snapshot operation; a writer holds them while its record is [inflight],
    logged and not yet applied. *)
Record World : Type := MkWorld {
  result : SnapshotResult;
  stores : Contents;
  inflight : option Z;
  log_seq : Z;
  gate : option nat;
  read_only : bool;
  loading : bool;
  disk : Disk;
  children : gmap Z Child;
  threads : gmap nat Phase
}.

Definition phase (t : nat) (w : World) : Phase := default Idle (threads w !! t).

Definition at_phase (t : nat) (p : Phase) (w : World) : World :=
  MkWorld (result w) (stores w) (inflight w) (log_seq w) (gate w) (read_only w) (loading w) (disk w) (children w) (<[t := p]> (threads w)).
Definition set_result (r : SnapshotResult) (w : World) : World :=
  MkWorld r (stores w) (inflight w) (log_seq w) (gate w) (read_only w) (loading w) (disk w) (children w) (threads w).
Definition set_write (st : Contents) (i : option Z) (q : Z) (w : World) : World :=
  MkWorld (result w) st i q (gate w) (read_only w) (loading w) (disk w) (children w) (threads w).
Definition set_flags (g : option nat) (ro ld : bool) (w : World) : World :=
  MkWorld (result w) (stores w) (inflight w) (log_seq w) g ro ld (disk w) (children w) (threads w).
Definition set_disk (d : Disk) (w : World) : World :=
  MkWorld (result w) (stores w) (inflight w) (log_seq w) (gate w) (read_only w) (loading w) d (children w) (threads w).
Definition set_children (cs : gmap Z Child) (w : World) : World :=
  MkWorld (result w) (stores w) (inflight w) (log_seq w) (gate w) (read_only w) (loading w) (disk w) cs (threads w).
Definition set_status (s : SnapshotStatus) (w : World) : World :=
  set_result (MkResult s (filepath (result w)) (child_pid (result w)) (wal_sequence (result w))) w.
Definition set_gate (g : option nat) (w : World) : World := set_flags g (read_only w) (loading w) w.
Definition set_read_only (b : bool) (w : World) : World := set_flags (gate w) b (loading w) w.
Definition set_loading (b : bool) (w : World) : World := set_flags (gate w) (read_only w) b w.
Definition need (b : bool) (w : World) : option World := if b then Some w else None.

Definition gate_free (w : World) : bool := bool_decide (gate w = None) && bool_decide (inflight w = None).

(** *** A write: appended to the log, then applied *)

Definition AppendRecord (w : World) : option World :=
  need (gate_free w && negb (read_only w) && negb (loading w))
    (set_write (stores w) (Some (log_seq w + 1)) (log_seq w + 1) w).
Definition ApplyRecord (w : World) : option World :=
  q ← inflight w; Some (set_write (stores w ++ [q]) None (log_seq w) w).

(** *** [HandleDumpSave] in fork mode takes the gates for the whole command;
    [TakeSnapshot] takes [read_only] and no gate *)

Definition TakeGates (t : nat) (w : World) : option World :=
  match phase t w with Idle => need (gate_free w && negb (loading w)) (set_gate (Some t) w) | _ => None end.
Definition LeaveGates (t : nat) (w : World) : option World :=
  match phase t w with Idle => need (bool_decide (gate w = Some t)) (set_gate None w) | _ => None end.
Definition DumpStart (t : nat) (f : string) (w : World) : option World :=
  match phase t w with Idle => need (bool_decide (gate w = Some t)) (at_phase t (Starting f false) w) | _ => None end.
Definition TakeSnapshot (t : nat) (f : string) (w : World) : option World :=
  match phase t w with
  | Idle => if read_only w then Some w else Some (set_read_only true (at_phase t (Starting f true) w))
  | _ => None
  end.

(** The return to [TakeSnapshot], whose guard resets [read_only], or to
    [HandleDumpSave]. *)
Definition return_from (t : nat) (scheduled : bool) (w : World) : World :=
  let w' := at_phase t Idle w in if scheduled then set_read_only false w' else w'.

(** *** [StartBackgroundSave]: the reservation, the fork under the store locks,
    the publication of the child *)

Definition Reserve (t : nat) (w : World) : option World :=
  match phase t w with
  | Starting f s =>
      if bool_decide (status (result w) = kInProgress) then Some (return_from t s w)
      else Some (at_phase t (Reserved f s) (set_result (MkResult kInProgress f (-1) 0) w))
  | _ => None
  end.
Definition Fork (t : nat) (pid : Z) (w : World) : option World :=
  match phase t w with
  | Reserved f s =>
      need ((0 <? pid) && bool_decide (children w !! pid = None))
        (at_phase t (Forked pid (log_seq w) s) (set_children (<[pid := MkChild f (stores w) false None]> (children w)) w))
  | _ => None
  end.
Definition ForkFails (t : nat) (w : World) : option World :=
  match phase t w with Reserved f s => Some (return_from t s (set_status kFailed w)) | _ => None end.
Definition PublishChild (t : nat) (w : World) : option World :=
  match phase t w with
  | Forked pid q s => Some (return_from t s (set_result (MkResult (status (result w)) (filepath (result w)) pid q) w))
  | _ => None
  end.

(** *** [ChildProcess] *)

Definition ChildWrites (pid : Z) (w : World) : option World :=
  c ← children w !! pid;
  match c_exit c with
  | None =>
      need (negb (c_published c))
        (set_disk (publish (c_file c) (c_image c) (disk w))
          (set_children (<[pid := MkChild (c_file c) (c_image c) true None]> (children w)) w))
  | Some _ => None
  end.

(** It exits with 0 only after the whole of [WriteSnapshotV1]; otherwise, or by
    a signal, at any point. *)
Definition ChildExits (pid : Z) (e : Exit) (w : World) : option World :=
  c ← children w !! pid;
  match c_exit c with
  | None =>
      need (c_published c || negb (match e with Exited code => code =? 0 | Signaled _ => false end))
        (set_children (<[pid := MkChild (c_file c) (c_image c) (c_published c) (Some e)]> (children w)) w)
  | Some _ => None
  end.

(** *** [CheckChild]: the sample under the lock, [waitpid] outside it, the update
    under the lock, the checkpoint and the truncation outside it *)

Definition Sample (t : nat) (w : World) : option World :=
  match phase t w with
  | Idle =>
      if bool_decide (status (result w) = kInProgress) && (0 <? child_pid (result w))
      then Some (at_phase t (Sampled (child_pid (result w))) w) else Some w
  | _ => None
  end.
Definition WaitPid (t : nat) (w : World) : option World :=
  match phase t w with
  | Sampled pid =>
      match children w !! pid with
      | None => Some (at_phase t (Waited None) w)                          (* ECHILD *)
      | Some c =>
          match c_exit c with
          | None => Some (at_phase t Idle w)                               (* still running *)
          | Some e => Some (at_phase t (Waited (Some e)) (set_children (delete pid (children w)) w))
          end
      end
  | _ => None
  end.
Definition UpdateStatus (t : nat) (w : World) : option World :=
  match phase t w with
  | Waited (Some (Exited 0)) =>
      Some (at_phase t (Completing (filepath (result w)) (wal_sequence (result w))) (set_status kCompleted w))
  | Waited _ => Some (at_phase t Idle (set_status kFailed w))
  | _ => None
  end.

(** [WriteWalCheckpoint] succeeds, fails before the rename, or fails after it. *)
Inductive Outcome : Type := Succeeds | FailsBefore | FailsAfter.

Definition WriteCheckpoint (t : nat) (o : Outcome) (w : World) : option World :=
  match phase t w with
  | Completing f q =>
      match o with
      | Succeeds => d ← WriteWalCheckpoint f q (disk w); Some (at_phase t (Truncating q) (set_disk d w))
      | FailsBefore => Some (at_phase t Idle (set_status kFailed w))
      | FailsAfter => d ← WriteWalCheckpoint f q (disk w); Some (at_phase t Idle (set_status kFailed (set_disk d w)))
      end
  | _ => None
  end.
Definition TruncateLog (t : nat) (upto : Z) (ok : bool) (w : World) : option World :=
  match phase t w with
  | Truncating q =>
      d ← Truncate q upto (disk w);
      Some (at_phase t Idle (if ok then set_disk d w else set_status kFailed (set_disk d w)))
  | _ => None
  end.

(** [SnapshotScheduler::CleanupOldSnapshots], one file at a time. *)
Definition Cleanup (t : nat) (retain : nat) (f : string) (w : World) : option World :=
  match phase t w with Idle => d ← remove_old retain f (disk w); Some (set_disk d w) | _ => None end.

(** *** [HandleDumpSave] in lock mode: the test of [loading], the flag, the save
    under the exclusive gate, the checkpoint, the truncation *)

Definition unlock (t : nat) (w : World) : World := set_flags None false (loading w) (at_phase t Idle w).

Definition LockCheck (t : nat) (f : string) (w : World) : option World :=
  match phase t w with Idle => if loading w then Some w else Some (at_phase t (LockChecked f) w) | _ => None end.
Definition LockFlag (t : nat) (w : World) : option World :=
  match phase t w with
  | LockChecked f =>
      if read_only w then Some (at_phase t Idle w) else Some (set_read_only true (at_phase t (LockWaiting f) w))
  | _ => None
  end.
Definition LockSave (t : nat) (o : Outcome) (w : World) : option World :=
  match phase t w with
  | LockWaiting f =>
      if gate_free w then
        let saved := set_disk (publish f (stores w) (disk w)) w in
        match o with
        | Succeeds => Some (set_gate (Some t) (at_phase t (LockSaved f (log_seq w)) saved))
        | FailsBefore => Some (unlock t w)
        | FailsAfter => Some (unlock t saved)
        end
      else None
  | _ => None
  end.
Definition LockCheckpoint (t : nat) (o : Outcome) (w : World) : option World :=
  match phase t w with
  | LockSaved f q =>
      match o with
      | Succeeds => d ← WriteWalCheckpoint f q (disk w); Some (at_phase t (LockTruncating q) (set_disk d w))
      | FailsBefore => Some (unlock t w)
      | FailsAfter => d ← WriteWalCheckpoint f q (disk w); Some (unlock t (set_disk d w))
      end
  | _ => None
  end.
Definition LockTruncate (t : nat) (upto : Z) (w : World) : option World :=
  match phase t w with
  | LockTruncating q => d ← Truncate q upto (disk w); Some (unlock t (set_disk d w))
  | _ => None
  end.

(** *** [HandleDumpLoad]: the flag, the read into staging stores, the swap under
    the gates, and the loaded file made the recovery base.  A failure after the
    swap leaves both flags set. *)

Definition fail_stop (t : nat) (old : Contents) (w : World) : World :=
  set_flags None true true (at_phase t (Halted old) w).

Definition LoadFlag (t : nat) (f : string) (w : World) : option World :=
  match phase t w with
  | Idle => need (negb (loading w)) (set_loading true (at_phase t (Loading f) w))
  | _ => None
  end.
Definition LoadRead (t : nat) (ok : bool) (w : World) : option World :=
  match phase t w with
  | Loading f =>
      let refused := set_loading false (at_phase t Idle w) in
      if read_only w then Some refused
      else match files (disk w) !! f with
           | Some F => if ok then Some (at_phase t (Staged f (image F)) w) else Some refused
           | None => Some refused
           end
  | _ => None
  end.
Definition LoadSwap (t : nat) (w : World) : option World :=
  match phase t w with
  | Staged f img =>
      need (gate_free w)
        (set_gate (Some t) (at_phase t (Swapped f (log_seq w) (stores w)) (set_write img None (log_seq w) w)))
  | _ => None
  end.
Definition LoadTouch (t : nat) (ok : bool) (w : World) : option World :=
  match phase t w with
  | Swapped f q old =>
      match touch f (disk w), ok with
      | Some d, true => Some (at_phase t (Touched f q old) (set_disk d w))
      | _, _ => Some (fail_stop t old w)
      end
  | _ => None
  end.
Definition LoadCheckpoint (t : nat) (o : Outcome) (w : World) : option World :=
  match phase t w with
  | Touched f q old =>
      match o with
      | Succeeds => d ← WriteWalCheckpoint f q (disk w); Some (at_phase t (LoadTruncating q old) (set_disk d w))
      | FailsBefore => Some (fail_stop t old w)
      | FailsAfter => d ← WriteWalCheckpoint f q (disk w); Some (fail_stop t old (set_disk d w))
      end
  | _ => None
  end.
Definition LoadTruncate (t : nat) (upto : Z) (ok : bool) (w : World) : option World :=
  match phase t w with
  | LoadTruncating q old =>
      d ← Truncate q upto (disk w);
      if ok then Some (set_flags None (read_only w) false (at_phase t Idle (set_disk d w)))
      else Some (fail_stop t old (set_disk d w))
  | _ => None
  end.

(** ** Runs *)

Inductive Label : Type :=
| LAppend | LApply
| LTakeGates (t : nat) | LLeaveGates (t : nat) | LDumpStart (t : nat) (f : string) | LTakeSnapshot (t : nat) (f : string)
| LReserve (t : nat) | LFork (t : nat) (pid : Z) | LForkFails (t : nat) | LPublishChild (t : nat)
| LChildWrites (pid : Z) | LChildExits (pid : Z) (e : Exit)
| LSample (t : nat) | LWaitPid (t : nat) | LUpdateStatus (t : nat)
| LWriteCheckpoint (t : nat) (o : Outcome) | LTruncateLog (t : nat) (upto : Z) (ok : bool)
| LCleanup (t : nat) (retain : nat) (f : string)
| LLockCheck (t : nat) (f : string) | LLockFlag (t : nat) | LLockSave (t : nat) (o : Outcome) | LLockCheckpoint (t : nat) (o : Outcome)
| LLockTruncate (t : nat) (upto : Z)
| LLoadFlag (t : nat) (f : string) | LLoadRead (t : nat) (ok : bool) | LLoadSwap (t : nat) | LLoadTouch (t : nat) (ok : bool)
| LLoadCheckpoint (t : nat) (o : Outcome) | LLoadTruncate (t : nat) (upto : Z) (ok : bool).

Definition exec (l : Label) (w : World) : option World :=
  match l with
  | LAppend => AppendRecord w
  | LApply => ApplyRecord w
  | LTakeGates t => TakeGates t w
  | LLeaveGates t => LeaveGates t w
  | LDumpStart t f => DumpStart t f w
  | LTakeSnapshot t f => TakeSnapshot t f w
  | LReserve t => Reserve t w
  | LFork t pid => Fork t pid w
  | LForkFails t => ForkFails t w
  | LPublishChild t => PublishChild t w
  | LChildWrites pid => ChildWrites pid w
  | LChildExits pid e => ChildExits pid e w
  | LSample t => Sample t w
  | LWaitPid t => WaitPid t w
  | LUpdateStatus t => UpdateStatus t w
  | LWriteCheckpoint t o => WriteCheckpoint t o w
  | LTruncateLog t upto ok => TruncateLog t upto ok w
  | LCleanup t retain f => Cleanup t retain f w
  | LLockCheck t f => LockCheck t f w
  | LLockFlag t => LockFlag t w
  | LLockSave t o => LockSave t o w
  | LLockCheckpoint t o => LockCheckpoint t o w
  | LLockTruncate t upto => LockTruncate t upto w
  | LLoadFlag t f => LoadFlag t f w
  | LLoadRead t ok => LoadRead t ok w
  | LLoadSwap t => LoadSwap t w
  | LLoadTouch t ok => LoadTouch t ok w
  | LLoadCheckpoint t o => LoadCheckpoint t o w
  | LLoadTruncate t upto ok => LoadTruncate t upto ok w
  end.

Definition fresh_world : World :=
  MkWorld (MkResult kIdle "" (-1) 0) [] None 0 None false false (MkDisk ∅ ∅ 0 0) ∅ ∅.

Fixpoint exec_all (ls : list Label) (w : World) : option World :=
  match ls with [] => Some w | l :: ls' => w' ← exec l w; exec_all ls' w' end.
