(* ===== verification/SnapshotSafety.v ===== *)
(** * No snapshot operation loses a write, when the operations do not overlap

    [recovery_exact]: in every run that keeps the order [ordered], whatever
    fails and wherever the crash falls, the startup finds the contents of the
    stores, the record in flight included, or, during a load, those from before
    it.  Writers and the forked child are not restricted.  [Hazards] shows for
    each clause of [ordered], none of which the code enforces, the run that
    breaks it and what the startup then finds. *)

From S2P Require Import Prelude StringLib SnapshotLifecycle.
#[local] Open Scope Z_scope.

(** ** The order *)

Definition is_idle (p : Phase) : bool := match p with Idle => true | _ => false end.
Definition all_idle (w : World) : bool := forallb (λ tp, is_idle tp.2) (map_to_list (threads w)).
Definition in_progress (w : World) : bool := bool_decide (status (result w) = kInProgress).

(** A name no file and no sidecar has. *)
Definition fresh (f : string) (d : Disk) : bool :=
  bool_decide (files d !! f = None) && bool_decide (sidecars d !! f = None).

(** The file the startup would load. *)
Definition valid (d : Disk) (fF : string * File) : bool := bool_decide (is_Some (ReadWalCheckpoint fF.1 d)).
Definition base_name (d : Disk) : option string :=
  fst <$> head (base.filter (λ fF, valid d fF = true) (FindSnapshotCandidates d)).

(** One operation at a time, where a background save lasts until its child is
    reaped and the log truncated; a scheduled fork with no record in flight; a
    save under a new name the startup looks for; a load of a file that is not a
    recovery base; a cleanup that spares the recovery base. *)
Definition ordered (l : Label) (w : World) : bool :=
  match l with
  | LDumpStart _ _ | LTakeSnapshot _ _ | LSample _ => all_idle w
  | LReserve t =>
      match phase t w with Starting f _ => in_progress w || (candidate_name f && fresh f (disk w)) | _ => true end
  | LFork t _ => match phase t w with Reserved _ true => bool_decide (inflight w = None) | _ => true end
  | LCleanup _ _ f => all_idle w && negb (in_progress w) && negb (bool_decide (base_name (disk w) = Some f))
  | LLockCheck _ f => all_idle w && negb (in_progress w) && candidate_name f && fresh f (disk w)
  | LLoadFlag _ f =>
      all_idle w && negb (in_progress w) && candidate_name f && bool_decide (sidecars (disk w) !! f = None)
  | _ => true
  end.

Inductive reachable : World → Prop :=
| reach_start : reachable fresh_world
| reach_step w l w' : reachable w → ordered l w = true → exec l w = Some w' → reachable w'.

(** The acknowledged writes and the one in flight. *)
Definition pending (w : World) : Contents := stores w ++ from_option (λ q, [q]) [] (inflight w).

(** What a load in progress replaces. *)
Definition replaced_by_load (p : Phase) : option Contents :=
  match p with Swapped _ _ old | Touched _ _ old | LoadTruncating _ old | Halted old => Some old | _ => None end.

(** ** What the startup finds *)

Definition valid_base (f : string) (F : File) (q : Z) (d : Disk) : Prop :=
  files d !! f = Some F ∧ candidate_name f = true ∧ sidecars d !! f = Some (q, image F).

(** The recovery base has checkpoint [q], and with the log gives [c]. *)
Definition base_at (q : Z) (c : Contents) (log : Z) (d : Disk) : Prop :=
  ∃ f F, valid_base f F q d ∧ image F ++ records q log = c ∧ deleted d ≤ q ≤ log ∧
    ∀ g G q', valid_base g G q' d → g ≠ f → mtime G < mtime F.

Definition no_base (c : Contents) (log : Z) (d : Disk) : Prop :=
  (∀ f, candidate_name f = true → is_Some (files d !! f) → sidecars d !! f = None) ∧ deleted d = 0 ∧ c = records 0 log.

Definition based (c : Contents) (log : Z) (d : Disk) : Prop := no_base c log d ∨ ∃ q, base_at q c log d.

Lemma ReadWalCheckpoint_Some f d q :
  ReadWalCheckpoint f d = Some q ↔ ∃ F, files d !! f = Some F ∧ sidecars d !! f = Some (q, image F).
Proof.
  unfold ReadWalCheckpoint. split.
  - intros (F & HF & Hq)%bind_Some. exists F. split; [done|].
    destruct (sidecars d !! f) as [[q' b]|]; [|done]. case_bool_decide; simplify_eq. done.
  - intros (F & -> & ->). simpl. by rewrite bool_decide_true.
Qed.

Lemma newer_asym a b : newer a b = true → newer b a = false.
Proof.
  unfold newer. rewrite (Z.eqb_sym (mtime b.2)). destruct (Z.eqb_spec (mtime a.2) (mtime b.2)); [apply string_ltb_asym|].
  rewrite Z.ltb_lt, Z.ltb_ge. lia.
Qed.

Lemma newer_trans a b c : newer b a = false → newer c b = false → newer c a = false.
Proof.
  unfold newer. destruct (Z.eqb_spec (mtime b.2) (mtime a.2)), (Z.eqb_spec (mtime c.2) (mtime b.2)),
    (Z.eqb_spec (mtime c.2) (mtime a.2)); try lia; rewrite ?Z.ltb_ge; try lia.
  intros H1 H2. by apply (string_ltb_trans_neg c.1 b.1 a.1).
Qed.

Lemma candidates_sorted d : StronglySorted (comp_le newer) (FindSnapshotCandidates d).
Proof.
  apply (std_sort_sorted newer (λ _, True)); [|intros a b c _ _ _; apply newer_trans|by apply Forall_true].
  intros a b _ _. apply newer_asym.
Qed.

Lemma elem_of_snapshot_candidates d f F :
  (f, F) ∈ FindSnapshotCandidates d ↔ files d !! f = Some F ∧ candidate_name f = true ∧ is_Some (sidecars d !! f).
Proof.
  unfold FindSnapshotCandidates. rewrite std_sort_perm, list_elem_of_filter, elem_of_map_to_list.
  unfold is_candidate. cbn [fst]. rewrite andb_true_iff, bool_decide_eq_true. tauto.
Qed.

(** The head of a sorted list of candidates from which the invalid ones are
    dropped is the base. *)
Lemma first_valid d f F q cs :
  valid_base f F q d → (∀ g G q', valid_base g G q' d → g ≠ f → mtime G < mtime F) →
  StronglySorted (comp_le newer) cs → (f, F) ∈ cs →
  (∀ g G, (g, G) ∈ cs → files d !! g = Some G ∧ candidate_name g = true) →
  head (base.filter (λ fF, valid d fF = true) cs) = Some (f, F) ∧
  ∀ failed, load_newest_valid_snapshot d failed cs = Some (Some (image F, q)).
Proof.
  intros (Hf & Hn & Hs) Hmax Hsort. induction Hsort as [|[g G] cs Hsort IH Hall]; [by intros ?%elem_of_nil|].
  intros Hin Hcs. destruct (Hcs g G) as [HG Hng]; [by left|]. rewrite filter_cons.
  assert (Hval : valid d (g, G) = true ↔ is_Some (ReadWalCheckpoint g d)) by apply bool_decide_eq_true.
  cbn [load_newest_valid_snapshot]. destruct (ReadWalCheckpoint g d) as [q'|] eqn:Hq.
  - rewrite decide_True by (by apply Hval; eauto). cbn [head].
    apply ReadWalCheckpoint_Some in Hq as (G' & HG' & Hsg). simplify_eq.
    destruct (decide (g = f)) as [->|Hne]; [simplify_eq; done|].
    assert (Hlt : mtime G < mtime F) by (by apply (Hmax g G q')). apply elem_of_cons in Hin as [[= <- <-]|Hin]; [lia|].
    rewrite Forall_forall in Hall. pose proof (Hall _ Hin) as Hle. unfold comp_le, newer in Hle. cbn in Hle.
    rewrite (proj2 (Z.eqb_neq _ _)), Z.ltb_ge in Hle by lia. lia.
  - rewrite decide_False by (by rewrite Hval; intros [? [=]]).
    assert (Hne : g ≠ f).
    { intros ->. assert (ReadWalCheckpoint f d = Some q) as E by (apply ReadWalCheckpoint_Some; eauto). congruence. }
    apply elem_of_cons in Hin as [[= <- <-]|Hin]; [done|].
    destruct IH as [IH1 IH2]; [done|intros ???; apply Hcs; by right|]. split; [done|]. intros _. apply IH2.
Qed.

Lemma base_loaded d f F q :
  valid_base f F q d → (∀ g G q', valid_base g G q' d → g ≠ f → mtime G < mtime F) →
  base_name d = Some f ∧ load_newest_valid_snapshot d false (FindSnapshotCandidates d) = Some (Some (image F, q)).
Proof.
  intros Hv Hmax. destruct (first_valid d f F q (FindSnapshotCandidates d)) as [H1 H2]; [done|done|apply candidates_sorted| | |].
  - apply elem_of_snapshot_candidates. destruct Hv as (? & ? & ->). eauto.
  - intros g G (? & ? & ?)%elem_of_snapshot_candidates. done.
  - unfold base_name. by rewrite H1.
Qed.

Lemma no_candidates d :
  (∀ f, candidate_name f = true → is_Some (files d !! f) → sidecars d !! f = None) → FindSnapshotCandidates d = [].
Proof.
  intros Hno. destruct (FindSnapshotCandidates d) as [|[f F] cs] eqn:E; [done|].
  assert (Hin : (f, F) ∈ FindSnapshotCandidates d) by (rewrite E; left).
  apply elem_of_snapshot_candidates in Hin as (HF & Hn & [x Hx]). rewrite Hno in Hx; eauto. done.
Qed.

Lemma recovery_based c log d : based c log d → 0 ≤ deleted d → recovery log d = Some c.
Proof.
  unfold recovery. intros [(Hno & Hdel & ->)|(q & f & F & Hv & <- & Hq & Hmax)] H0.
  - rewrite no_candidates by done. cbn. unfold Replay. rewrite Hdel. done.
  - rewrite (proj2 (base_loaded d f F q Hv Hmax)). cbn. unfold Replay.
    destruct (Z.eqb_spec q 0) as [->|Hq0]; cbn; [by replace (deleted d) with 0 by lia|].
    rewrite (proj2 (Z.eqb_neq _ _)) by lia. rewrite (proj2 (Z.leb_gt (q + 1) (deleted d))) by lia. rewrite andb_false_r. cbn.
    by replace (Z.max (deleted d) (q + 1 - 1)) with q by lia.
Qed.

(** ** The invariant *)

Definition newest (f : string) (F : File) (d : Disk) : Prop :=
  ∀ g G, files d !! g = Some G → g ≠ f → mtime G < mtime F.

(** A published file that waits for its sidecar. *)
Definition saved (f : string) (q : Z) (c : Contents) (log : Z) (d : Disk) : Prop :=
  ∃ F, files d !! f = Some F ∧ newest f F d ∧ candidate_name f = true ∧ sidecars d !! f = None ∧
    image F ++ records q log = c ∧ deleted d ≤ q ≤ log.

(** The one child, before or after the publication of its file. *)
Definition running (pid : Z) (f : string) (q : Z) (c : Contents) (log : Z) (d : Disk) (cs : gmap Z Child) : Prop :=
  ∃ ch, cs = {[pid := ch]} ∧ c_file ch = f ∧ candidate_name f = true ∧ sidecars d !! f = None ∧
    c_image ch ++ records q log = c ∧ deleted d ≤ q ≤ log ∧
    (if c_published ch then ∃ F, files d !! f = Some F ∧ image F = c_image ch ∧ newest f F d else files d !! f = None) ∧
    (c_exit ch = Some (Exited 0) → c_published ch = true).

Definition unbound (f : string) (d : Disk) : Prop := candidate_name f = true ∧ sidecars d !! f = None.

(** The part of the invariant that a thread at [p] keeps for itself. *)
Definition phase_ok (t : nat) (p : Phase) (w : World) : Prop :=
  let r := result w in let log := log_seq w in let d := disk w in
  match p with
  | Idle => True
  | Starting f s => s = false → gate w = Some t
  | Reserved f s =>
      (s = false → gate w = Some t) ∧ status r = kInProgress ∧ filepath r = f ∧ child_pid r = -1 ∧
      children w = ∅ ∧ unbound f d ∧ files d !! f = None
  | Forked pid q s =>
      (s = false → gate w = Some t) ∧ status r = kInProgress ∧ child_pid r = -1 ∧ 0 < pid ∧
      running pid (filepath r) q (pending w) log d (children w)
  | Sampled pid => status r = kInProgress ∧ child_pid r = pid ∧ 0 < pid
  | Waited e =>
      status r = kInProgress ∧ children w = ∅ ∧
      (e = Some (Exited 0) → saved (filepath r) (wal_sequence r) (pending w) log d)
  | Completing f q => status r ≠ kInProgress ∧ saved f q (pending w) log d
  | Truncating q => status r ≠ kInProgress ∧ base_at q (pending w) log d
  | LockChecked f | LockWaiting f => status r ≠ kInProgress ∧ unbound f d ∧ files d !! f = None
  | LockSaved f q => status r ≠ kInProgress ∧ gate w = Some t ∧ saved f q (pending w) log d
  | LockTruncating q => status r ≠ kInProgress ∧ gate w = Some t ∧ base_at q (pending w) log d
  | Loading f => status r ≠ kInProgress ∧ loading w = true ∧ unbound f d
  | Staged f img =>
      status r ≠ kInProgress ∧ loading w = true ∧ unbound f d ∧ ∃ F, files d !! f = Some F ∧ image F = img
  | Swapped f q old =>
      status r ≠ kInProgress ∧ loading w = true ∧ gate w = Some t ∧ q = log ∧ unbound f d ∧ based old log d ∧
      ∃ F, files d !! f = Some F ∧ image F = pending w
  | Touched f q old =>
      status r ≠ kInProgress ∧ loading w = true ∧ gate w = Some t ∧ based old log d ∧ saved f q (pending w) log d
  | LoadTruncating q old =>
      status r ≠ kInProgress ∧ loading w = true ∧ gate w = Some t ∧ base_at q (pending w) log d
  | Halted old =>
      status r ≠ kInProgress ∧ loading w = true ∧ (based old log d ∨ based (pending w) log d)
  end.

Definition owns_save (p : Phase) : bool := match p with Reserved _ _ | Forked _ _ _ | Waited _ => true | _ => false end.

Record Inv (w : World) : Prop := {
  inv_alone : ∀ t1 t2, phase t1 w ≠ Idle → phase t2 w ≠ Idle → t1 = t2;
  inv_clock : ∀ f F, files (disk w) !! f = Some F → mtime F < clock (disk w);
  inv_deleted : 0 ≤ deleted (disk w) ≤ log_seq w;
  inv_gate : gate w ≠ None → inflight w = None;
  inv_phase : ∀ t, phase_ok t (phase t w) w;
  inv_save : status (result w) = kInProgress → (∃ t, owns_save (phase t w) = true) ∨
    0 < child_pid (result w) ∧
    running (child_pid (result w)) (filepath (result w)) (wal_sequence (result w)) (pending w) (log_seq w) (disk w) (children w);
  inv_children : status (result w) ≠ kInProgress → children w = ∅;
  inv_base : (∀ t, replaced_by_load (phase t w) = None) → based (pending w) (log_seq w) (disk w)
}.

(** ** Effects on the disk *)

Lemma records_snoc q log : q ≤ log → records q (log + 1) = records q log ++ [log + 1].
Proof.
  intros H. unfold records. replace (log + 1 - q) with ((log - q) + 1) by lia.
  rewrite seqZ_app by lia. cbn. replace (q + 1 + (log - q)) with (log + 1) by lia. done.
Qed.

Lemma records_nil q : records q q = [].
Proof. unfold records. by rewrite Z.sub_diag. Qed.

Section log_grows.
Context (c : Contents) (log : Z) (d : Disk).

Lemma base_at_append q : base_at q c log d → base_at q (c ++ [log + 1]) (log + 1) d.
Proof.
  intros (f & F & Hv & <- & Hq & Hmax). exists f, F. rewrite records_snoc, app_assoc by lia. split_and!; try done; lia.
Qed.
Lemma based_append : 0 ≤ log → based c log d → based (c ++ [log + 1]) (log + 1) d.
Proof.
  intros Hlog [(Hno & Hd & ->)|[q Hb]]; [left|right; exists q; by apply base_at_append].
  split_and!; [done..|]. by rewrite records_snoc.
Qed.
Lemma saved_append f q : saved f q c log d → saved f q (c ++ [log + 1]) (log + 1) d.
Proof.
  intros (F & ? & ? & ? & ? & <- & ?). exists F. rewrite records_snoc, app_assoc by lia. split_and!; try done; lia.
Qed.
Lemma running_append pid f q cs : running pid f q c log d cs → running pid f q (c ++ [log + 1]) (log + 1) d cs.
Proof.
  intros (ch & ? & ? & ? & ? & <- & ? & ? & ?). exists ch. rewrite records_snoc, app_assoc by lia. split_and!; try done; lia.
Qed.
End log_grows.

Section disk.
Context (c : Contents) (log : Z) (d : Disk).

(** A change of a file without a sidecar is not seen by the startup. *)
Lemma based_unbound f F cl :
  unbound f d → based c log d → based c log (MkDisk (<[f := F]> (files d)) (sidecars d) (deleted d) cl).
Proof.
  intros [Hn Hs] [(Hno & Hd & ->)|(q & g & G & (Hg & Hng & Hsg) & Hc & Hq & Hmax)].
  - left. split_and!; [|done..]. cbn. intros h Hh. destruct (decide (h = f)) as [->|Hne]; [done|].
    rewrite lookup_insert_ne by done. by apply Hno.
  - right. assert (Hne : g ≠ f) by congruence. exists q, g, G.
    split; [by split; [cbn; rewrite lookup_insert_ne|]|]. split; [done|split; [done|]].
    + intros h H q' (HH & Hnh & Hsh) Hhg. cbn in *. destruct (decide (h = f)) as [->|Hhf]; [congruence|].
      rewrite lookup_insert_ne in HH by done. by eapply Hmax.
Qed.

Lemma based_removed f cl : base_name d ≠ Some f → based c log d →
  based c log (MkDisk (delete f (files d)) (sidecars d) (deleted d) cl).
Proof.
  intros Hbase [(Hno & Hd & ->)|(q & g & G & Hv & Hc & Hq & Hmax)].
  - left. split_and!; [|done..]. cbn. intros h Hh [H HH]. apply lookup_delete_Some in HH as [_ HH]. apply Hno; eauto.
  - destruct (base_loaded d g G q Hv Hmax) as [Hg _]. assert (Hne : f ≠ g) by congruence. destruct Hv as (HG & Hng & Hsg).
    right. exists q, g, G. split; [by split; [cbn; rewrite lookup_delete_ne|]|]. split; [done|split; [done|]].
    intros h H q' (HH & Hnh & Hsh). cbn in *. apply lookup_delete_Some in HH as [_ HH]. by apply (Hmax h H q').
Qed.

Lemma newest_insert f F : (∀ g G, files d !! g = Some G → mtime G < clock d) → mtime F = clock d →
  newest f F (MkDisk (<[f := F]> (files d)) (sidecars d) (deleted d) (clock d + 1)).
Proof. intros Hcl Hm g G. cbn. intros HG Hne. rewrite lookup_insert_ne in HG by done. rewrite Hm. by eapply Hcl. Qed.

Lemma clock_insert f F : (∀ g G, files d !! g = Some G → mtime G < clock d) → mtime F = clock d →
  ∀ g G, <[f := F]> (files d) !! g = Some G → mtime G < clock d + 1.
Proof.
  intros Hcl Hm g G HG. destruct (decide (g = f)) as [->|Hne].
  - rewrite lookup_insert_eq in HG. simplify_eq. lia.
  - rewrite lookup_insert_ne in HG by done. apply Hcl in HG. lia.
Qed.

Lemma checkpoint_bases f q d' : saved f q c log d → WriteWalCheckpoint f q d = Some d' →
  base_at q c log d' ∧ files d' = files d ∧ clock d' = clock d ∧ deleted d' = deleted d.
Proof.
  intros (F & HF & Hnew & Hn & Hs & Hc & Hq). unfold WriteWalCheckpoint. rewrite HF. intros [= <-].
  split_and!; try done. exists f, F.
  split; [by split_and!; cbn; [..|rewrite lookup_insert_eq]|]. split; [done|split; [done|]].
  - intros g G q' (HG & _) Hne. by eapply Hnew.
Qed.

Lemma truncated q upto d' : base_at q c log d → 0 ≤ deleted d → Truncate q upto d = Some d' →
  base_at q c log d' ∧ files d' = files d ∧ clock d' = clock d ∧ 0 ≤ deleted d' ≤ log.
Proof.
  intros (f & F & Hv & Hc & Hq & Hmax) H0. unfold Truncate. case_match eqn:Hb; [|done]. intros [= <-].
  apply andb_true_iff in Hb as [H1%Z.leb_le H2%Z.leb_le]. split_and!; try done; [|cbn; lia..].
  exists f, F. split_and!; try done; cbn; lia.
Qed.
End disk.

(** ** The invariant is kept *)

Definition alone (t : nat) (w : World) : Prop := ∀ t', t' ≠ t → phase t' w = Idle.

Lemma phase_at t p w w' t' : threads w' = <[t := p]> (threads w) → phase t' w' = if decide (t' = t) then p else phase t' w.
Proof.
  intros E. unfold phase. rewrite E. case_decide as H; [subst; by rewrite lookup_insert_eq|by rewrite lookup_insert_ne].
Qed.

Lemma alone_at t w : Inv w → phase t w ≠ Idle → alone t w.
Proof.
  intros HI Ht t' Hne. destruct (decide (phase t' w = Idle)) as [|Hn]; [done|]. by destruct Hne; apply (inv_alone w HI).
Qed.

Lemma all_idle_phase w : all_idle w = true → ∀ t, phase t w = Idle.
Proof.
  unfold all_idle. rewrite forallb_forall. intros H t. unfold phase. destruct (threads w !! t) as [p|] eqn:E; [|done].
  assert (Hp : is_idle p = true); [|by destruct p]. apply (H (t, p)), list_elem_of_In, elem_of_map_to_list. done.
Qed.

(** One thread moves on, the others being idle. *)
Lemma Inv_move t p w w' :
  alone t w → threads w' = <[t := p]> (threads w) →
  (∀ f F, files (disk w') !! f = Some F → mtime F < clock (disk w')) →
  0 ≤ deleted (disk w') ≤ log_seq w' →
  (gate w' ≠ None → inflight w' = None) →
  phase_ok t p w' →
  (status (result w') = kInProgress → owns_save p = true ∨ 0 < child_pid (result w') ∧
     running (child_pid (result w')) (filepath (result w')) (wal_sequence (result w')) (pending w') (log_seq w') (disk w') (children w')) →
  (status (result w') ≠ kInProgress → children w' = ∅) →
  (replaced_by_load p = None → based (pending w') (log_seq w') (disk w')) →
  Inv w'.
Proof.
  intros Ha Ht Hcl Hdel Hg Hp Hs Hc Hb. pose proof (λ t', phase_at t p w w' t' Ht) as Hph.
  split; try done.
  - intros t1 t2. rewrite !Hph. repeat case_decide; subst; [done|..]; rewrite ?Ha by done; done.
  - intros t'. rewrite Hph. case_decide; subst; [done|]. by rewrite Ha.
  - intros Hst. destruct (Hs Hst) as [Ho|Hr]; [left; exists t|by right]. by rewrite Hph, decide_True.
  - intros Hn. apply Hb. specialize (Hn t). by rewrite Hph, decide_True in Hn.
Qed.

Lemma based_alone t w : Inv w → alone t w → replaced_by_load (phase t w) = None → based (pending w) (log_seq w) (disk w).
Proof.
  intros HI Ha Hn. apply (inv_base w HI). intros t'. destruct (decide (t' = t)) as [->|Hne]; [done|]. by rewrite Ha.
Qed.

(** With no save reserved, forked or reaped, a save in progress has its child. *)
Lemma save_runs t w : Inv w → alone t w → owns_save (phase t w) = false → status (result w) = kInProgress →
  0 < child_pid (result w) ∧
  running (child_pid (result w)) (filepath (result w)) (wal_sequence (result w)) (pending w) (log_seq w) (disk w) (children w).
Proof.
  intros HI Ha Hn Hs. destruct (inv_save w HI Hs) as [[t' Ht']|]; [|done].
  destruct (decide (t' = t)) as [->|Hne]; [congruence|]. by rewrite Ha in Ht'.
Qed.

(** The obligations of [Inv_move] that the old invariant [HI] discharges. *)
Ltac unchanged HI := try done; try (by apply HI); try (by cbn; intuition congruence).

Section steps.
Context (w : World) (HI : Inv w).

(** What a step of thread [t] may use. *)
Lemma at_work t p : phase t w = p → p ≠ Idle → alone t w ∧ phase_ok t p w.
Proof. intros <- Hp. split; [by apply alone_at|apply (inv_phase w HI)]. Qed.

Lemma AppendRecord_inv w' : AppendRecord w = Some w' → Inv w'.
Proof.
  unfold AppendRecord, need. case_match eqn:Hg; [|done]. intros [= <-].
  unfold gate_free in Hg. rewrite !andb_true_iff, !negb_true_iff, !bool_decide_eq_true in Hg. destruct Hg as [[[Hg Hi] Hro] Hld].
  pose proof (inv_deleted w HI) as Hd. assert (Hp : pending w = stores w) by (unfold pending; rewrite Hi; apply app_nil_r).
  split; cbn.
  - apply (inv_alone w HI).
  - apply (inv_clock w HI).
  - lia.
  - by intros ?.
  - intros t. pose proof (inv_phase w HI t) as Hph. change (phase t (set_write _ _ _ w)) with (phase t w).
    destruct (phase t w); cbn in Hph |- *; unfold pending; cbn; rewrite <- ?Hp; rewrite ?Hg, ?Hld in *;
      intuition (eauto using saved_append, running_append, base_at_append; congruence).
  - intros Hs. destruct (inv_save w HI Hs) as [[t Ht]|[Hpid Hr]]; [left; by exists t|right].
    split; [done|]. unfold pending. cbn. rewrite <- Hp. by apply running_append.
  - apply (inv_children w HI).
  - intros Hn. unfold pending. cbn. rewrite <- Hp. apply based_append; [lia|]. by apply (inv_base w HI).
Qed.

(** A step that moves no thread and does not touch the disk. *)
Lemma Inv_same w' :
  threads w' = threads w → result w' = result w → log_seq w' = log_seq w → disk w' = disk w → children w' = children w →
  loading w' = loading w → pending w' = pending w → (gate w' ≠ None → inflight w' = None) →
  (∀ t, phase t w ≠ Idle → gate w = Some t → gate w' = Some t) → Inv w'.
Proof.
  intros Ht Hr Hl Hd Hc Hld Hp Hg Hkeep. assert (Hph : ∀ t, phase t w' = phase t w) by (intros t; unfold phase; by rewrite Ht).
  destruct HI as [H1 H2 H3 H4 H5 H6 H7 H8]. split; rewrite ?Hr, ?Hl, ?Hd, ?Hc, ?Hp; try done.
  - intros t1 t2. rewrite !Hph. apply H1.
  - intros t. rewrite Hph. specialize (H5 t). specialize (Hkeep t).
    destruct (phase t w); cbn in *; rewrite ?Hr, ?Hl, ?Hd, ?Hc, ?Hp, ?Hld; intuition (try congruence).
  - intros Hs. destruct (H6 Hs) as [[t Ht']|]; [left; exists t; by rewrite Hph|by right].
  - intros Hn. apply H8. intros t. by rewrite <- Hph.
Qed.

Lemma ApplyRecord_inv w' : ApplyRecord w = Some w' → Inv w'.
Proof.
  unfold ApplyRecord. intros (q & Hq & [= <-])%bind_Some. apply Inv_same; try done.
  unfold pending. cbn. rewrite Hq. cbn. by rewrite app_nil_r.
Qed.

Lemma TakeGates_inv t w' : TakeGates t w = Some w' → Inv w'.
Proof.
  unfold TakeGates, need. repeat case_match; try done. intros [= <-].
  match goal with H : _ = true |- _ => apply andb_true_iff in H as [[Hg Hi]%andb_true_iff _] end.
  apply bool_decide_eq_true in Hg, Hi. apply Inv_same; try done. intros t'. rewrite Hg. done.
Qed.

Lemma LeaveGates_inv t w' : LeaveGates t w = Some w' → Inv w'.
Proof.
  unfold LeaveGates, need. destruct (phase t w) eqn:Hp; try done. case_match eqn:Hg; [|done]. intros [= <-].
  apply bool_decide_eq_true in Hg. apply Inv_same; try done. intros t' Hn. rewrite Hg. intros [= <-]. by rewrite Hp in Hn.
Qed.

(** *** Saves *)

Lemma DumpStart_inv t f w' : all_idle w = true → DumpStart t f w = Some w' → Inv w'.
Proof.
  intros Hall. pose proof (all_idle_phase w Hall) as Hid. unfold DumpStart, need. rewrite Hid. case_match eqn:Hg; [|done]. intros [= <-].
  apply bool_decide_eq_true in Hg. assert (Ha : alone t w) by (intros ? _; apply Hid).
  apply (Inv_move t (Starting f false) w _ Ha); unchanged HI.
  - intros Hs. right. by apply (save_runs t w HI Ha); [rewrite Hid|].
  - intros _. apply (based_alone t w HI Ha). by rewrite Hid.
Qed.

Lemma TakeSnapshot_inv t f w' : all_idle w = true → TakeSnapshot t f w = Some w' → Inv w'.
Proof.
  intros Hall. pose proof (all_idle_phase w Hall) as Hid. unfold TakeSnapshot. rewrite Hid. case_match; intros [= <-]; [done|].
  assert (Ha : alone t w) by (intros ? _; apply Hid).
  apply (Inv_move t (Starting f true) w _ Ha); unchanged HI.
  - intros Hs. right. by apply (save_runs t w HI Ha); [rewrite Hid|].
  - intros _. apply (based_alone t w HI Ha). by rewrite Hid.
Qed.

Lemma Reserve_inv t w' : ordered (LReserve t) w = true → Reserve t w = Some w' → Inv w'.
Proof.
  cbn. unfold Reserve. destruct (phase t w) as [|f s| | | | | | | | | | | | | | | |] eqn:Hp; try done. intros Hf.
  destruct (at_work t _ Hp) as [Ha Hok]; [done|]. cbn in Hok.
  pose proof (based_alone t w HI Ha ltac:(by rewrite Hp)) as Hb. case_bool_decide as Hs; intros [= <-].
  - pose proof (save_runs t w HI Ha ltac:(by rewrite Hp) Hs) as Hr.
    destruct s; (apply (Inv_move t Idle w _ Ha); unchanged HI; intros _; by right).
  - apply orb_true_iff in Hf as [Hf|[Hn Hf]%andb_true_iff]; [by apply bool_decide_eq_true in Hf|].
    apply andb_true_iff in Hf as [Hf1%bool_decide_eq_true Hf2%bool_decide_eq_true].
    apply (Inv_move t (Reserved f s) w _ Ha); unchanged HI.
    cbn. split_and!; try done. by apply (inv_children w HI).
Qed.

Lemma Fork_inv t pid w' : ordered (LFork t pid) w = true → Fork t pid w = Some w' → Inv w'.
Proof.
  cbn. unfold Fork, need. destruct (phase t w) as [| |f s| | | | | | | | | | | | | | |] eqn:Hp; try done. intros Hi.
  destruct (at_work t _ Hp) as [Ha Hok]; [done|]. cbn in Hok. destruct Hok as (Hg & Hs & Hf & Hpid & Hch & [Hn Hsc] & Hnone).
  pose proof (based_alone t w HI Ha ltac:(by rewrite Hp)) as Hb. destruct (_ && _) eqn:Hpos; [|done]. intros [= <-].
  apply andb_true_iff in Hpos as [Hpos%Z.ltb_lt _].
  assert (Hin : inflight w = None).
  { destruct s; [by apply bool_decide_eq_true in Hi|]. apply (inv_gate w HI). by rewrite Hg. }
  apply (Inv_move t (Forked pid (log_seq w) s) w _ Ha); unchanged HI.
  - cbn. rewrite Hs, Hf, Hpid, Hch, insert_empty. split_and!; try done. eexists. split; [done|]. cbn. unfold pending. cbn. rewrite Hin.
    pose proof (inv_deleted w HI). split_and!; try done; [by rewrite records_nil|lia].
Qed.

Lemma return_from_disk t s w0 : disk (return_from t s w0) = disk w0.
Proof. by destruct s. Qed.

Lemma ForkFails_inv t w' : ForkFails t w = Some w' → Inv w'.
Proof.
  unfold ForkFails. destruct (phase t w) as [| |f s| | | | | | | | | | | | | | |] eqn:Hp; try done. intros [= <-].
  destruct (at_work t _ Hp) as [Ha Hok]; [done|]. cbn in Hok. destruct Hok as (Hg & Hs & Hf & Hpid & Hch & _).
  pose proof (based_alone t w HI Ha ltac:(by rewrite Hp)) as Hb.
  destruct s; (apply (Inv_move t Idle w _ Ha); unchanged HI).
Qed.

Lemma PublishChild_inv t w' : PublishChild t w = Some w' → Inv w'.
Proof.
  unfold PublishChild. destruct (phase t w) as [| | |pid q s| | | | | | | | | | | | | |] eqn:Hp; try done. intros [= <-].
  destruct (at_work t _ Hp) as [Ha Hok]; [done|]. cbn in Hok. destruct Hok as (Hg & Hs & _ & Hpos & Hr).
  pose proof (based_alone t w HI Ha ltac:(by rewrite Hp)) as Hb.
  destruct s; (apply (Inv_move t Idle w _ Ha); unchanged HI; intros _; by right).
Qed.

(** *** The child *)

Lemma child_saves pid ch : children w !! pid = Some ch → status (result w) = kInProgress.
Proof.
  intros Hch. destruct (decide (status (result w) = kInProgress)) as [|Hn]; [done|].
  by rewrite (inv_children w HI Hn), lookup_empty in Hch.
Qed.

(** A step of the child, as [running] sees it. *)
Lemma Inv_child pid ch ch' d' :
  children w !! pid = Some ch →
  (∀ f q, running pid f q (pending w) (log_seq w) (disk w) (children w) →
     running pid f q (pending w) (log_seq w) d' (<[pid := ch']> (children w))) →
  (based (pending w) (log_seq w) (disk w) → based (pending w) (log_seq w) d') →
  (∀ f F, files d' !! f = Some F → mtime F < clock d') → 0 ≤ deleted d' ≤ log_seq w →
  Inv (set_disk d' (set_children (<[pid := ch']> (children w)) w)).
Proof.
  intros Hch Hr Hb Hcl Hd. pose proof (child_saves pid ch Hch) as Hs.
  assert (Hr' : ∀ p f q, running p f q (pending w) (log_seq w) (disk w) (children w) →
    running p f q (pending w) (log_seq w) d' (<[pid := ch']> (children w))).
  { intros p f q Hrun. destruct (Hrun) as (c0 & Hc0 & _). rewrite Hc0 in Hch. apply lookup_singleton_Some in Hch as [<- _].
    by apply Hr. }
  assert (Hok : ∀ t, phase_ok t (phase t w) (set_disk d' (set_children (<[pid := ch']> (children w)) w))).
  { intros t. pose proof (inv_phase w HI t) as Hp. destruct (phase t w); cbn in Hp |- *; try done; try (by intuition congruence).
    - destruct Hp as (_ & _ & _ & _ & Hp & _). by rewrite Hp, lookup_empty in Hch.
    - split_and!; try tauto. apply Hr'. tauto.
    - destruct Hp as (_ & Hp & _). by rewrite Hp, lookup_empty in Hch. }
  split; cbn; try done.
  - apply (inv_alone w HI).
  - apply (inv_gate w HI).
  - intros _. destruct (inv_save w HI Hs) as [|[Hpid Hrun]]; [by left|right]. split; [done|]. by apply Hr'.
  - intros Hn. apply Hb, (inv_base w HI), Hn.
Qed.

Lemma ChildWrites_inv pid w' : ChildWrites pid w = Some w' → Inv w'.
Proof.
  unfold ChildWrites, need. intros (ch & Hch & H)%bind_Some. destruct (c_exit ch) eqn:He; [done|].
  destruct (c_published ch) eqn:Hpub; cbn in H; [done|]. injection H as <-.
  assert (Hrun : ∃ f q, running pid f q (pending w) (log_seq w) (disk w) (children w)).
  { destruct (inv_save w HI (child_saves pid ch Hch)) as [[t Ht]|[_ Hr]].
    - pose proof (inv_phase w HI t) as Hp. destruct (phase t w) as [| | |pid' q s| |e| | | | | | | | | | | |]; try done; cbn in Hp.
      + destruct Hp as (_ & _ & _ & _ & Hp & _). by rewrite Hp, lookup_empty in Hch.
      + destruct Hp as (_ & _ & _ & _ & Hp). destruct (Hp) as (c0 & Hc0 & _). rewrite Hc0 in Hch.
        apply lookup_singleton_Some in Hch as [<- _]. eauto.
      + destruct Hp as (_ & Hp & _). by rewrite Hp, lookup_empty in Hch.
    - destruct (Hr) as (c0 & Hc0 & _). rewrite Hc0 in Hch. apply lookup_singleton_Some in Hch as [E _]. rewrite E in Hr. eauto. }
  destruct Hrun as (f & q & c0 & Hc0 & Hf & Hn & Hsc & _). assert (c0 = ch) as ->.
  { rewrite Hc0 in Hch. by apply lookup_singleton_Some in Hch as [_ ->]. }
  apply (Inv_child pid ch); [done|..].
  - intros f' q' (c1 & Hc1 & Hf' & Hn' & Hsc' & Himg & Hq & Hif & Hex). rewrite Hc1 in Hch.
    apply lookup_singleton_Some in Hch as [_ ->]. rewrite Hpub in Hif. eexists. rewrite Hc1, insert_singleton_eq. split; [done|]. cbn.
    rewrite Hf'. split_and!; try done; try lia. eexists. rewrite lookup_insert_eq. split_and!; [done..|].
    apply newest_insert; [apply HI|done].
  - rewrite Hf. apply based_unbound. done.
  - apply clock_insert; [apply HI|done].
  - apply HI.
Qed.

Lemma ChildExits_inv pid e w' : ChildExits pid e w = Some w' → Inv w'.
Proof.
  unfold ChildExits, need. intros (ch & Hch & H)%bind_Some. destruct (c_exit ch) eqn:He; [done|].
  destruct (_ || _) eqn:Hex in H; [|done]. injection H as <-.
  apply (Inv_child pid ch _ (disk w)); [done| |done|apply HI|apply HI].
  intros f' q' (c1 & Hc1 & Hf' & Hn' & Hsc' & Himg & Hq & Hif & _). rewrite Hc1 in Hch.
  apply lookup_singleton_Some in Hch as [_ ->]. eexists. rewrite Hc1, insert_singleton_eq. split; [done|]. cbn.
  split_and!; try done; try lia. intros [= ->]. by rewrite orb_false_r in Hex.
Qed.

(** *** Reaping *)

Lemma Sample_inv t w' : all_idle w = true → Sample t w = Some w' → Inv w'.
Proof.
  intros Hall. pose proof (all_idle_phase w Hall) as Hid. unfold Sample. rewrite Hid.
  destruct (_ && _) eqn:Hc; intros [= <-]; [|done]. apply andb_true_iff in Hc as [Hs%bool_decide_eq_true Hpos%Z.ltb_lt].
  assert (Ha : alone t w) by (intros ? _; apply Hid).
  apply (Inv_move t (Sampled (child_pid (result w))) w _ Ha); unchanged HI.
  - intros _. right. by apply (save_runs t w HI Ha); [rewrite Hid|].
  - intros _. apply (based_alone t w HI Ha). by rewrite Hid.
Qed.

Lemma WaitPid_inv t w' : WaitPid t w = Some w' → Inv w'.
Proof.
  unfold WaitPid. destruct (phase t w) as [| | | |pid| | | | | | | | | | | | |] eqn:Hp; try done.
  destruct (at_work t _ Hp) as [Ha (Hs & Hpid & Hpos)]; [done|].
  pose proof (based_alone t w HI Ha ltac:(by rewrite Hp)) as Hb.
  destruct (save_runs t w HI Ha ltac:(by rewrite Hp) Hs) as [_ Hr]. rewrite Hpid in Hr.
  destruct (Hr) as (ch & Hch & Hf & Hn & Hsc & Himg & Hq & Hif & Hex). rewrite Hch, lookup_singleton_eq.
  destruct (c_exit ch) as [e|] eqn:He; intros [= <-].
  - apply (Inv_move t (Waited (Some e)) w _ Ha); unchanged HI.
    cbn. split_and!; [done|by rewrite delete_singleton_eq|]. intros [= ->]. rewrite Hex in Hif by done.
    destruct Hif as (F & HF & Hi & Hnew). exists F. rewrite Hi. split_and!; try done; lia.
  - apply (Inv_move t Idle w _ Ha); unchanged HI. intros _. right. cbn. by rewrite Hpid.
Qed.

Lemma UpdateStatus_inv t w' : UpdateStatus t w = Some w' → Inv w'.
Proof.
  unfold UpdateStatus. destruct (phase t w) as [| | | | |e| | | | | | | | | | | |] eqn:Hp; try done.
  destruct (at_work t _ Hp) as [Ha (Hs & Hch & Hsaved)]; [done|].
  pose proof (based_alone t w HI Ha ltac:(by rewrite Hp)) as Hb.
  assert (Hfail : Inv (at_phase t Idle (set_status kFailed w))) by (apply (Inv_move t Idle w _ Ha); unchanged HI).
  destruct e as [[code|sig]|]; [destruct code|..]; intros [= <-]; try done.
  apply (Inv_move t (Completing (filepath (result w)) (wal_sequence (result w))) w _ Ha); unchanged HI.
Qed.

(** The sidecar, its failure before it is in place, and after. *)
Lemma checkpointed t f q d' : alone t w → saved f q (pending w) (log_seq w) (disk w) → WriteWalCheckpoint f q (disk w) = Some d' →
  base_at q (pending w) (log_seq w) d' ∧ (∀ g G, files d' !! g = Some G → mtime G < clock d') ∧ 0 ≤ deleted d' ≤ log_seq w.
Proof.
  intros Ha Hsv Hw. destruct (checkpoint_bases _ _ _ f q d' Hsv Hw) as (Hb & -> & -> & ->). split_and!; try done; apply HI.
Qed.

Lemma WriteCheckpoint_inv t o w' : WriteCheckpoint t o w = Some w' → Inv w'.
Proof.
  unfold WriteCheckpoint. destruct (phase t w) as [| | | | | |f q| | | | | | | | | | |] eqn:Hp; try done.
  destruct (at_work t _ Hp) as [Ha (Hs & Hsv)]; [done|].
  pose proof (based_alone t w HI Ha ltac:(by rewrite Hp)) as Hb. pose proof (inv_children w HI Hs) as Hch.
  destruct o; [intros (d' & Hd' & [= <-])%bind_Some|intros [= <-]|intros (d' & Hd' & [= <-])%bind_Some].
  - destruct (checkpointed t f q d' Ha Hsv Hd') as (Hb' & Hcl & Hdel).
    apply (Inv_move t (Truncating q) w _ Ha); unchanged HI. intros _. right. by exists q.
  - apply (Inv_move t Idle w _ Ha); unchanged HI.
  - destruct (checkpointed t f q d' Ha Hsv Hd') as (Hb' & Hcl & Hdel).
    apply (Inv_move t Idle w _ Ha); unchanged HI. intros _. right. by exists q.
Qed.

Lemma TruncateLog_inv t upto ok w' : TruncateLog t upto ok w = Some w' → Inv w'.
Proof.
  unfold TruncateLog. destruct (phase t w) as [| | | | | | |q| | | | | | | | | |] eqn:Hp; try done.
  destruct (at_work t _ Hp) as [Ha (Hs & Hbase)]; [done|]. intros (d' & Hd' & [= <-])%bind_Some.
  destruct (truncated _ _ _ _ _ _ Hbase (proj1 (inv_deleted w HI)) Hd') as (Hb & Hf & Hcl & Hdel).
  pose proof (inv_children w HI Hs) as Hch.
  destruct ok; (apply (Inv_move t Idle w _ Ha); unchanged HI;
    [cbn; rewrite Hf, Hcl; apply HI|intros _; right; by exists q]).
Qed.

Lemma Cleanup_inv t retain f w' : ordered (LCleanup t retain f) w = true → Cleanup t retain f w = Some w' → Inv w'.
Proof.
  cbn. rewrite !andb_true_iff, !negb_true_iff, !bool_decide_eq_false. intros [[Hall Hs] Hne].
  pose proof (all_idle_phase w Hall) as Hid. unfold Cleanup, remove_old. rewrite Hid.
  intros (d' & (F & HF & Hd')%bind_Some & [= <-])%bind_Some. destruct (_ && _); [|done]. injection Hd' as <-.
  assert (Hcl : ∀ g G, delete f (files (disk w)) !! g = Some G → mtime G < clock (disk w)).
  { intros g G [_ HG]%lookup_delete_Some. by eapply (inv_clock w HI). }
  destruct HI as [H1 H2 H3 H4 H5 H6 H7 H8]. split; cbn; try done.
  - intros t'. change (phase t' (set_disk _ w)) with (phase t' w). by rewrite Hid.
  - intros Hp. by apply bool_decide_eq_false in Hs.
  - intros Hn. by apply based_removed, H8.
Qed.

(** *** Lock mode *)

Lemma fresh_spec f d : fresh f d = true → files d !! f = None ∧ sidecars d !! f = None.
Proof. unfold fresh. by rewrite andb_true_iff, !bool_decide_eq_true. Qed.

Lemma published f : unbound f (disk w) → inflight w = None →
  let d := publish f (stores w) (disk w) in
  saved f (log_seq w) (pending w) (log_seq w) d ∧ (∀ g G, files d !! g = Some G → mtime G < clock d) ∧
  (based (pending w) (log_seq w) (disk w) → based (pending w) (log_seq w) d).
Proof.
  intros Hub Hin d. split_and!.
  - exists (MkFile (stores w) (clock (disk w))). cbn. rewrite lookup_insert_eq, records_nil, app_nil_r. destruct Hub.
    pose proof (inv_deleted w HI). split_and!; try done; [|unfold pending; rewrite Hin; by rewrite app_nil_r|lia].
    apply newest_insert; [apply HI|done].
  - apply clock_insert; [apply HI|done].
  - by apply based_unbound.
Qed.

Lemma gate_free_spec : gate_free w = true → gate w = None ∧ inflight w = None.
Proof. unfold gate_free. by rewrite andb_true_iff, !bool_decide_eq_true. Qed.

Lemma LockCheck_inv t f w' : ordered (LLockCheck t f) w = true → LockCheck t f w = Some w' → Inv w'.
Proof.
  cbn. unfold in_progress. rewrite !andb_true_iff, negb_true_iff, bool_decide_eq_false. intros [[[Hall Hs] Hn] [Hf1 Hf2]%fresh_spec].
  pose proof (all_idle_phase w Hall) as Hid. unfold LockCheck. rewrite Hid. destruct (loading w); intros [= <-]; [done|].
  assert (Ha : alone t w) by (intros ? _; apply Hid). pose proof (inv_children w HI Hs).
  apply (Inv_move t (LockChecked f) w _ Ha); unchanged HI.
  intros _. apply (based_alone t w HI Ha). by rewrite Hid.
Qed.

Lemma LockFlag_inv t w' : LockFlag t w = Some w' → Inv w'.
Proof.
  unfold LockFlag. destruct (phase t w) eqn:Hp; try done. destruct (at_work t _ Hp) as [Ha (Hs & Hub & Hf)]; [done|].
  pose proof (based_alone t w HI Ha ltac:(by rewrite Hp)) as Hb. pose proof (inv_children w HI Hs).
  destruct (read_only w); intros [= <-].
  - apply (Inv_move t Idle w _ Ha); unchanged HI.
  - apply (Inv_move t (LockWaiting f) w _ Ha); unchanged HI.
Qed.

Lemma LockSave_inv t o w' : LockSave t o w = Some w' → Inv w'.
Proof.
  unfold LockSave. destruct (phase t w) as [| | | | | | | |f| | | | | | | | |] eqn:Hp; try done.
  destruct (at_work t _ Hp) as [Ha (Hs & Hub & Hf)]; [done|]. destruct (gate_free w) eqn:Hg; [|done].
  apply gate_free_spec in Hg as [Hg Hin]. pose proof (inv_children w HI Hs) as Hch.
  pose proof (based_alone t w HI Ha ltac:(by rewrite Hp)) as Hb.
  destruct (published f Hub Hin) as (Hsv & Hcl & Hbd).
  destruct o; intros [= <-].
  - apply (Inv_move t (LockSaved f (log_seq w)) w _ Ha); unchanged HI; intros _; by apply Hbd.
  - apply (Inv_move t Idle w _ Ha); unchanged HI.
  - apply (Inv_move t Idle w _ Ha); unchanged HI; intros _; by apply Hbd.
Qed.

Lemma LockCheckpoint_inv t o w' : LockCheckpoint t o w = Some w' → Inv w'.
Proof.
  unfold LockCheckpoint. destruct (phase t w) as [| | | | | | | | |f q| | | | | | | |] eqn:Hp; try done.
  destruct (at_work t _ Hp) as [Ha (Hs & Hg & Hsv)]; [done|].
  pose proof (based_alone t w HI Ha ltac:(by rewrite Hp)) as Hb. pose proof (inv_children w HI Hs) as Hch.
  destruct o; [intros (d' & Hd' & [= <-])%bind_Some|intros [= <-]|intros (d' & Hd' & [= <-])%bind_Some].
  - destruct (checkpointed t f q d' Ha Hsv Hd') as (Hb' & Hcl & Hdel).
    apply (Inv_move t (LockTruncating q) w _ Ha); unchanged HI; intros _; right; by exists q.
  - apply (Inv_move t Idle w _ Ha); unchanged HI.
  - destruct (checkpointed t f q d' Ha Hsv Hd') as (Hb' & Hcl & Hdel).
    apply (Inv_move t Idle w _ Ha); unchanged HI; intros _; right; by exists q.
Qed.

Lemma LockTruncate_inv t upto w' : LockTruncate t upto w = Some w' → Inv w'.
Proof.
  unfold LockTruncate. destruct (phase t w) as [| | | | | | | | | |q| | | | | | |] eqn:Hp; try done.
  destruct (at_work t _ Hp) as [Ha (Hs & Hg & Hbase)]; [done|]. intros (d' & Hd' & [= <-])%bind_Some.
  destruct (truncated _ _ _ _ _ _ Hbase (proj1 (inv_deleted w HI)) Hd') as (Hb & Hf & Hcl & Hdel).
  pose proof (inv_children w HI Hs) as Hch.
  apply (Inv_move t Idle w _ Ha); unchanged HI; [cbn; rewrite Hf, Hcl; apply HI|intros _; right; by exists q].
Qed.

(** *** Loads *)

Lemma LoadFlag_inv t f w' : ordered (LLoadFlag t f) w = true → LoadFlag t f w = Some w' → Inv w'.
Proof.
  cbn. unfold in_progress. rewrite !andb_true_iff, negb_true_iff, bool_decide_eq_false, bool_decide_eq_true. intros [[[Hall Hs] Hn] Hsc].
  pose proof (all_idle_phase w Hall) as Hid. unfold LoadFlag, need. rewrite Hid. destruct (negb _); [|done]. intros [= <-].
  assert (Ha : alone t w) by (intros ? _; apply Hid). pose proof (inv_children w HI Hs).
  apply (Inv_move t (Loading f) w _ Ha); unchanged HI.
  intros _. apply (based_alone t w HI Ha). by rewrite Hid.
Qed.

Lemma LoadRead_inv t ok w' : LoadRead t ok w = Some w' → Inv w'.
Proof.
  unfold LoadRead. destruct (phase t w) as [| | | | | | | | | | |f| | | | | |] eqn:Hp; try done.
  destruct (at_work t _ Hp) as [Ha (Hs & Hld & Hub)]; [done|]. pose proof (inv_children w HI Hs) as Hch.
  pose proof (based_alone t w HI Ha ltac:(by rewrite Hp)) as Hb.
  assert (Hno : Inv (set_loading false (at_phase t Idle w))) by (apply (Inv_move t Idle w _ Ha); unchanged HI).
  destruct (read_only w); [by intros [= <-]|]. destruct (files (disk w) !! f) as [F|] eqn:HF; [|by intros [= <-]].
  destruct ok; intros [= <-]; [|done]. apply (Inv_move t (Staged f (image F)) w _ Ha); unchanged HI.
  cbn. split_and!; try done. by exists F.
Qed.

Lemma LoadSwap_inv t w' : LoadSwap t w = Some w' → Inv w'.
Proof.
  unfold LoadSwap, need. destruct (phase t w) as [| | | | | | | | | | | |f img| | | | |] eqn:Hp; try done.
  destruct (at_work t _ Hp) as [Ha (Hs & Hld & Hub & F & HF & Himg)]; [done|]. pose proof (inv_children w HI Hs) as Hch.
  pose proof (based_alone t w HI Ha ltac:(by rewrite Hp)) as Hb.
  destruct (gate_free w) eqn:Hg; [|done]. apply gate_free_spec in Hg as [Hg Hin]. intros [= <-].
  assert (Hpd : pending w = stores w) by (unfold pending; rewrite Hin; apply app_nil_r). rewrite Hpd in Hb.
  apply (Inv_move t (Swapped f (log_seq w) (stores w)) w _ Ha); unchanged HI.
  cbn. split_and!; try done. exists F. split; [done|]. unfold pending. cbn. by rewrite app_nil_r.
Qed.

Lemma LoadTouch_inv t ok w' : LoadTouch t ok w = Some w' → Inv w'.
Proof.
  unfold LoadTouch. destruct (phase t w) as [| | | | | | | | | | | | |f q old| | | |] eqn:Hp; try done.
  destruct (at_work t _ Hp) as [Ha (Hs & Hld & Hg & Hq & Hub & Hold & F & HF & Himg)]; [done|].
  pose proof (inv_children w HI Hs) as Hch.
  assert (Hstop : Inv (fail_stop t old w)) by (apply (Inv_move t (Halted old) w _ Ha); unchanged HI).
  unfold touch. rewrite HF. cbn [mbind option_bind]. destruct ok; intros [= <-]; [|done]. subst q.
  apply (Inv_move t (Touched f (log_seq w) old) w _ Ha); unchanged HI.
  - cbn. apply clock_insert; [apply HI|done].
  - cbn. split_and!; try done; [by apply based_unbound|]. destruct Hub as [Hn Hsc]. pose proof (inv_deleted w HI).
    eexists. cbn. rewrite lookup_insert_eq, records_nil, app_nil_r. split_and!; try done; [|lia]. apply newest_insert; [apply HI|done].
Qed.

Lemma LoadCheckpoint_inv t o w' : LoadCheckpoint t o w = Some w' → Inv w'.
Proof.
  unfold LoadCheckpoint. destruct (phase t w) as [| | | | | | | | | | | | | |f q old| | |] eqn:Hp; try done.
  destruct (at_work t _ Hp) as [Ha (Hs & Hld & Hg & Hold & Hsv)]; [done|]. pose proof (inv_children w HI Hs) as Hch.
  destruct o; [intros (d' & Hd' & [= <-])%bind_Some|intros [= <-]|intros (d' & Hd' & [= <-])%bind_Some].
  - destruct (checkpointed t f q d' Ha Hsv Hd') as (Hb' & Hcl & Hdel).
    apply (Inv_move t (LoadTruncating q old) w _ Ha); unchanged HI.
  - apply (Inv_move t (Halted old) w _ Ha); unchanged HI.
  - destruct (checkpointed t f q d' Ha Hsv Hd') as (Hb' & Hcl & Hdel).
    apply (Inv_move t (Halted old) w _ Ha); unchanged HI. cbn. split_and!; try done. right. right. by exists q.
Qed.

Lemma LoadTruncate_inv t upto ok w' : LoadTruncate t upto ok w = Some w' → Inv w'.
Proof.
  unfold LoadTruncate. destruct (phase t w) as [| | | | | | | | | | | | | | |q old| |] eqn:Hp; try done.
  destruct (at_work t _ Hp) as [Ha (Hs & Hld & Hg & Hbase)]; [done|]. pose proof (inv_children w HI Hs) as Hch.
  intros (d' & Hd' & Hw')%bind_Some.
  destruct (truncated _ _ _ _ _ _ Hbase (proj1 (inv_deleted w HI)) Hd') as (Hb & Hf & Hcl & Hdel).
  assert (Hcl' : ∀ g G, files d' !! g = Some G → mtime G < clock d') by (rewrite Hf, Hcl; apply HI).
  destruct ok; injection Hw' as <-.
  - apply (Inv_move t Idle w _ Ha); unchanged HI; intros _; right; by exists q.
  - apply (Inv_move t (Halted old) w _ Ha); unchanged HI. cbn. split_and!; try done. right. right. by exists q.
Qed.

Lemma exec_inv l w' : ordered l w = true → exec l w = Some w' → Inv w'.
Proof.
  destruct l; intros Ho; cbn [exec].
  - apply AppendRecord_inv.
  - apply ApplyRecord_inv.
  - apply TakeGates_inv.
  - apply LeaveGates_inv.
  - by apply DumpStart_inv.
  - by apply TakeSnapshot_inv.
  - by apply Reserve_inv.
  - by apply Fork_inv.
  - apply ForkFails_inv.
  - apply PublishChild_inv.
  - apply ChildWrites_inv.
  - apply ChildExits_inv.
  - by apply Sample_inv.
  - apply WaitPid_inv.
  - apply UpdateStatus_inv.
  - apply WriteCheckpoint_inv.
  - apply TruncateLog_inv.
  - by apply Cleanup_inv.
  - by apply LockCheck_inv.
  - apply LockFlag_inv.
  - apply LockSave_inv.
  - apply LockCheckpoint_inv.
  - apply LockTruncate_inv.
  - by apply LoadFlag_inv.
  - apply LoadRead_inv.
  - apply LoadSwap_inv.
  - apply LoadTouch_inv.
  - apply LoadCheckpoint_inv.
  - apply LoadTruncate_inv.
Qed.
End steps.

Lemma fresh_inv : Inv fresh_world.
Proof.
  split; cbn; try done; try lia.
  intros _. left. split_and!; [|done..]. intros f _ [F [=]].
Qed.

Lemma reachable_inv w : reachable w → Inv w.
Proof. induction 1 as [|w l w' _ IH Ho He]; [apply fresh_inv|by apply (exec_inv w IH l)]. Qed.

Lemma load_or_not w : (∀ t, replaced_by_load (phase t w) = None) ∨ ∃ t old, replaced_by_load (phase t w) = Some old.
Proof.
  destruct (decide (map_Exists (λ _ p, is_Some (replaced_by_load p)) (threads w))) as [(t & p & Ht & [old Hold])|Hn].
  - right. exists t, old. unfold phase. by rewrite Ht.
  - left. intros t. unfold phase. destruct (threads w !! t) as [p|] eqn:Ht; [|done]. cbn.
    destruct (replaced_by_load p) as [old|] eqn:Hold; [|done]. destruct Hn. exists t, p. split; [done|]. by exists old.
Qed.

(** ** The theorem *)


(** ** Concrete runs *)

Fixpoint run (ls : list Label) (w : World) : option World :=
  match ls with
  | [] => Some w
  | l :: ls' => if ordered l w then w' ← exec l w; run ls' w' else None
  end.

Lemma run_reachable ls : ∀ w w', reachable w → run ls w = Some w' → reachable w'.
Proof.
  induction ls as [|l ls IH]; intros w w' Hw; cbn; [by intros [= <-]|].
  destruct (ordered l w) eqn:Ho; [|done]. intros (w1 & H1 & H2)%bind_Some. apply (IH w1); [|done]. by eapply reach_step.
Qed.

Module Runs.

Definition write : list Label := [LAppend; LApply].
Definition save (t : nat) (f : string) (pid : Z) : list Label :=
  [LTakeGates t; LDumpStart t f; LReserve t; LFork t pid; LPublishChild t; LLeaveGates t].
Definition scheduled_save (t : nat) (f : string) (pid : Z) : list Label :=
  [LTakeSnapshot t f; LReserve t; LFork t pid; LPublishChild t].
Definition child (pid : Z) : list Label := [LChildWrites pid; LChildExits pid (Exited 0)].
Definition check (t : nat) (upto : Z) : list Label :=
  [LSample t; LWaitPid t; LUpdateStatus t; LWriteCheckpoint t Succeeds; LTruncateLog t upto true].
Definition lock_save (t : nat) (f : string) (upto : Z) : list Label :=
  [LLockCheck t f; LLockFlag t; LLockSave t Succeeds; LLockCheckpoint t Succeeds; LLockTruncate t upto].
Definition load (t : nat) (f : string) : list Label := [LLoadFlag t f; LLoadRead t true; LLoadSwap t].

(** Two writes, a background save with a write while the child runs, a failed
    save, a scheduled one, a cleanup, and a load of the file without a sidecar
    that stops before its checkpoint. *)
Definition session : list Label :=
  write ++ write ++ save 1 "first.nvec" 7 ++ write ++ child 7 ++ [LAppend] ++ check 2 2 ++ [LApply] ++
  save 1 "second.nvec" 8 ++ [LChildWrites 8; LChildExits 8 (Signaled 9); LSample 2; LWaitPid 2; LUpdateStatus 2] ++
  scheduled_save 3 "auto_1.nvec" 9 ++ write ++ child 9 ++ check 3 4 ++ write ++
  scheduled_save 3 "auto_2.nvec" 10 ++ child 10 ++ check 3 6 ++ [LCleanup 3 1 "auto_1.nvec"] ++
  load 4 "second.nvec" ++ [LLoadTouch 4 true].
Definition last_world : World := default fresh_world (run session fresh_world).

Lemma session_reachable : reachable last_world.
Proof.
  assert (H : (if run session fresh_world then true else false) = true) by (vm_compute; reflexivity).
  unfold last_world. destruct (run session fresh_world) as [w|] eqn:E; [|done].
  by apply (run_reachable session fresh_world); [apply reach_start|].
Qed.


Example recovered_contents :
  (stores last_world, recovery (log_seq last_world) (disk last_world)) = ([1; 2; 3; 4], Some [1; 2; 3; 4; 5; 6]).
Proof. vm_compute. reflexivity. Qed.

End Runs.

(** ** What happens otherwise

    Each run keeps all clauses of [ordered] but the one named.  The contents of
    the stores, and what the startup finds. *)
Module Hazards.
Import Runs.

Definition outcome (ls : list Label) : option (Contents * option Contents) :=
  (λ w, (stores w, recovery (log_seq w) (disk w))) <$> exec_all ls fresh_world.

(** The scheduler forks between a writer's append and its application: record 2
    is below the checkpoint, not in the file, and deleted from the log. *)
Example scheduled_fork_in_a_write :
  outcome (write ++ [LAppend; LTakeSnapshot 0 "auto_1.nvec"; LReserve 0; LFork 0 7; LPublishChild 0; LApply] ++ child 7 ++ check 0 2)
  = Some ([1; 2], Some [1]).
Proof. vm_compute. reflexivity. Qed.

(** Two threads check one child.  The second finds no child, reports a failure
    and lets a new save start; the first then completes that save with the old
    file and the new sequence. *)
Example two_checks :
  outcome (write ++ save 0 "backup.nvec" 7 ++ child 7 ++ [LSample 1; LSample 2; LWaitPid 1; LWaitPid 2; LUpdateStatus 2] ++
    write ++ save 0 "backup.nvec" 8 ++ [LUpdateStatus 1; LWriteCheckpoint 1 Succeeds; LTruncateLog 1 2 true])
  = Some ([1; 2], Some [1]).
Proof. vm_compute. reflexivity. Qed.

(** A save over its predecessor: until the new sidecar is in place there is no
    valid one, and the server does not start. *)
Example save_over_the_base :
  outcome (write ++ lock_save 0 "backup.nvec" 1 ++ write ++ [LLockCheck 0 "backup.nvec"; LLockFlag 0; LLockSave 0 Succeeds])
  = Some ([1; 2], None).
Proof. vm_compute. reflexivity. Qed.

(** A name without a snapshot extension is accepted, and its save truncates the
    log, but the startup does not look for it. *)
Example save_without_extension : outcome (write ++ lock_save 0 "backup" 1) = Some ([1], Some []).
Proof. vm_compute. reflexivity. Qed.

(** A load marks the file as newest before its checkpoint moves: a crash in
    between leaves a base whose records are deleted. *)
Example load_of_an_old_base :
  outcome (write ++ lock_save 0 "a.nvec" 1 ++ write ++ lock_save 0 "b.nvec" 2 ++ load 0 "a.nvec" ++ [LLoadTouch 0 true])
  = Some ([1], None).
Proof. vm_compute. reflexivity. Qed.

(** A load while a child is writing: the child's file is the newer one, and the
    next startup undoes the load. *)
Example load_during_a_save :
  outcome (write ++ lock_save 0 "a.nvec" 0 ++ write ++ save 1 "b.nvec" 7 ++ load 0 "a.nvec" ++
    [LLoadTouch 0 true; LLoadCheckpoint 0 Succeeds; LLoadTruncate 0 0 true] ++ child 7 ++ check 1 0)
  = Some ([1], Some [1; 2]).
Proof. vm_compute. reflexivity. Qed.

(** A lock-mode save while a scheduled child is writing truncates the records
    that follow the child's checkpoint. *)
Example lock_save_during_a_save :
  outcome (write ++ scheduled_save 1 "auto_1.nvec" 7 ++ write ++ lock_save 0 "a.nvec" 2 ++ child 7 ++
    [LSample 1; LWaitPid 1; LUpdateStatus 1; LWriteCheckpoint 1 Succeeds])
  = Some ([1; 2], None).
Proof. vm_compute. reflexivity. Qed.

(** The cleanup counts files, not recovery bases: after a failed checkpoint it
    deletes the last one, and the server starts without the deleted records. *)
Example cleanup_of_the_base :
  outcome (write ++ scheduled_save 0 "auto_1.nvec" 7 ++ child 7 ++ check 0 1 ++ write ++
    scheduled_save 0 "auto_2.nvec" 8 ++ child 8 ++
    [LSample 0; LWaitPid 0; LUpdateStatus 0; LWriteCheckpoint 0 FailsBefore; LCleanup 0 1 "auto_1.nvec"])
  = Some ([1; 2], Some [2]).
Proof. vm_compute. reflexivity. Qed.

End Hazards.
