(* ===== verification/Durability.v ===== *)
(** * The durability of writes (src/server/request_dispatcher.cpp)

    What a write handler leaves behind on each of its paths, and that the
    records it logs rebuild the stores: the stores are a fold of the effects of
    the logged commands, live and in replay alike. *)

From S2P Require Import CommandParser.
From S2P Require Import Prelude RingBuffer Lru DedupCache StateCache EventStore Floats CoOccurrence Wal Metadata FilterParser.
From S2P Require Import Command WalCodec Distance VectorStore SimilarityResult ResultCompressor Md5 CacheKeys SimilarityCache QueryResults.
From S2P Require Import Dispatcher.
Import EventStore(EventType, ADD, SET, DEL, Event, Clock, mono, wall, PreparedEvent, p_deduped, p_event, IngestResult).
Import Command Wal(WalOpType, WalRecord, MkRecord, kCoOccurrenceMaintenance).
#[local] Open Scope Z_scope.

(** ** The effect of a command *)

Section effects.
Context {order : IterOrder} {libm : Floats.Libm} {impl : Distance.DistanceFunctions} {libc : FilterParser.Strtod}.

Definition effect_ingest (cfg : option ServerConfig) (r : IngestResult) (s : Stores) : Stores :=
  match cfg with
  | Some cfg =>
    on_co_index
      (CoOccurrence.ApplyIngestedEvent (EventStore.prior_events r) (EventStore.stored_event r) (ingest_options cfg)) s
  | None => s
  end.

(** The stores after a command whose checks have passed. *)
Definition effect (cfg : option ServerConfig) (clk : Clock) (cmd : Command) (s : Stores) : Stores :=
  match c_type cmd with
  | kEvent =>
    match event_store s with
    | None => s
    | Some es =>
      let '(r, es) := AddEvent clk cmd (c_score cmd) (c_event_type cmd) (default 0 (c_timestamp cmd)) es in
      let s := set_event_store es s in
      match r with
      | Ok r => if EventStore.deduped r then s else effect_ingest cfg r s
      | Unexpected _ => s
      end
    end
  | kVecset =>
    match vector_store s with
    | None => s
    | Some vs =>
      let s := set_vector_store (VectorStore.SetVector (c_id cmd) (c_vector cmd) false vs).2 s in
      match c_metadata cmd with
      | Some meta => on_metadata_store (Metadata.MetaSet (c_id cmd) meta) s
      | None => s
      end
    end
  | kVecdel =>
    match vector_store s with
    | None => s
    | Some vs =>
      on_metadata_store (Metadata.MetaDelete (c_id cmd))
        (set_vector_store (VectorStore.Defragment (VectorStore.DeleteVector (c_id cmd) vs).2) s)
    end
  | kMetaset =>
    match metaset_value cmd with
    | Ok meta => on_metadata_store (Metadata.MetaSet (c_id cmd) meta) s
    | Unexpected _ => s
    end
  | _ => s
  end.

(** The checks a handler makes before it logs. *)
Definition accepts (cmd : Command) (s : Stores) : Prop :=
  match c_type cmd with
  | kEvent =>
    is_Some (event_store s) ∧ EventStore.ValidateEvent (c_ctx cmd) (c_id cmd) (c_score cmd) (c_event_type cmd) = Ok tt
  | kVecset =>
    ∃ vs, vector_store s = Some vs ∧ VectorStore.ValidateVector vs (c_id cmd) (c_vector cmd) = Ok tt
  | kVecdel => ∃ vs, vector_store s = Some vs ∧ is_Some (VectorStore.GetCompactIndex (c_id cmd) vs)
  | kMetaset =>
    (∃ vs, vector_store s = Some vs ∧ is_Some (VectorStore.GetCompactIndex (c_id cmd) vs)) ∧
    is_Some (metadata_store s) ∧ is_ok (metaset_value cmd) = true
  | _ => False
  end.

(** An event as it is logged: its timestamp is set, and a deletion has score 0. *)
Definition resolved_event (cmd : Command) : Prop :=
  c_type cmd = kEvent → default 0 (c_timestamp cmd) ≠ 0 ∧ (c_event_type cmd = DEL → c_score cmd = 0).
End effects.

(** ** The outcomes of a write *)

Section outcomes.
Context {E W : Type} {order : IterOrder} {log : AppendLog W} {engine : Engine E} {libm : Floats.Libm}
  {impl : Distance.DistanceFunctions} {libc : FilterParser.Strtod} {layout : SimilarityCache.Layout}.
Implicit Types (c : HandlerContext E W) (cmd : Command).

(** The command as it is logged. *)
Definition resolve (at_ : Readings) (cmd : Command) (c : HandlerContext E W) : Command :=
  match c_type cmd, event_store (stores c) with
  | kEvent, Some es =>
    match EventStore.PrepareEvent (at_prepare at_) (c_ctx cmd) (c_id cmd) (c_score cmd) (c_event_type cmd)
            (default 0 (c_timestamp cmd)) es with
    | Ok p => wal_command cmd (p_event p)
    | Unexpected _ => cmd
    end
  | _, _ => cmd
  end.

(** A successful append: one record, or none where none is kept. *)
Inductive appended (now : Z) (cmd : Command) (c : HandlerContext E W) : HandlerContext E W → Prop :=
| app_none : wal c = None ∨ skips_log cmd c = true → appended now cmd c c
| app_record w seq w' :
    wal c = Some w → skips_log cmd c = false →
    log_append (WalCodec.WalOpForCommand cmd) (WalCodec.EncodeCommand cmd) now w = (Ok seq, w') →
    appended now cmd c (with_wal (Some w') c).

(** Whether the preview finds a duplicate. *)
Definition duplicate (at_ : Readings) (cmd : Command) (es : EventStore.EventStore) : Prop :=
  ∃ p, EventStore.PrepareEvent (at_prepare at_) (c_ctx cmd) (c_id cmd) (c_score cmd) (c_event_type cmd)
         (default 0 (c_timestamp cmd)) es = Ok p ∧ p_deduped p = true.

Inductive write_outcome (at_ : Readings) (cmd : Command) (c : HandlerContext E W)
    : Expected string * HandlerContext E W → Prop :=
| Refused e : write_outcome at_ cmd c (Unexpected e, c)
| NotLogged e w w' :
    wal c = Some w →
    log_append (WalCodec.WalOpForCommand (resolve at_ cmd c)) (WalCodec.EncodeCommand (resolve at_ cmd c))
      (at_append at_) w = (Unexpected e, w') →
    write_outcome at_ cmd c (Unexpected e, with_flags set_read_only (with_wal (Some w') c))
| Accepted reply c1 c' :
    accepts (resolve at_ cmd c) (stores c) → resolved_event (resolve at_ cmd c) →
    appended (at_append at_) (resolve at_ cmd c) c c1 →
    stores c' = effect (config c) (at_apply at_) (resolve at_ cmd c) (stores c) →
    wal c' = wal c1 → flags c' = flags c → config c' = config c →
    write_outcome at_ cmd c (Ok reply, c')
| Duplicate es es' reply :
    c_type cmd = kEvent → event_store (stores c) = Some es → duplicate at_ cmd es →
    es' = (AddEvent (at_apply at_) cmd (c_score cmd) (c_event_type cmd)
             (EventStore.ResolveTimestamp (at_prepare at_) (default 0 (c_timestamp cmd))) es).2 →
    write_outcome at_ cmd c (Ok reply, with_stores (set_event_store es') c)
| Flipped es es' e :
    c_type cmd = kEvent → event_store (stores c) = Some es → duplicate at_ cmd es →
    es' = (AddEvent (at_apply at_) cmd (c_score cmd) (c_event_type cmd)
             (EventStore.ResolveTimestamp (at_prepare at_) (default 0 (c_timestamp cmd))) es).2 →
    write_outcome at_ cmd c (Unexpected e, with_flags set_read_only (with_stores (set_event_store es') c)).

(** The event's timestamp is not 0, which the commit would resolve again. *)
Definition dated (at_ : Readings) (cmd : Command) : Prop :=
  c_type cmd = kEvent → EventStore.ResolveTimestamp (at_prepare at_) (default 0 (c_timestamp cmd)) ≠ 0.
(** The store's clock does not run back between preview and commit. *)
Definition in_order (at_ : Readings) (cmd : Command) : Prop :=
  c_type cmd = kEvent → mono (at_prepare at_) ≤ mono (at_apply at_).

Lemma AppendToWal_spec now cmd c :
  match AppendToWal now cmd c with
  | (Ok _, c') => appended now cmd c c'
  | (Unexpected e, c') => ∃ w w', wal c = Some w ∧
      log_append (WalCodec.WalOpForCommand cmd) (WalCodec.EncodeCommand cmd) now w = (Unexpected e, w') ∧
      c' = with_flags set_read_only (with_wal (Some w') c)
  end.
Proof.
  unfold AppendToWal. destruct (wal c) as [w|] eqn:Hw; [|apply app_none; auto].
  destruct (skips_log cmd c) eqn:Hs; [apply app_none; auto|].
  destruct (log_append _ _ now w) as [[seq|e] w'] eqn:Ha; [|eauto 6].
  by apply (app_record _ _ _ w seq w').
Qed.

Lemma appended_frame now cmd c c' :
  appended now cmd c c' → stores c' = stores c ∧ flags c' = flags c ∧ config c' = config c.
Proof. by destruct 1. Qed.

(** An append and what follows it, when what follows succeeds. *)
Lemma logged_outcome at_ cmd c (apply : SE (HandlerContext E W) string) :
  accepts (resolve at_ cmd c) (stores c) → resolved_event (resolve at_ cmd c) →
  (∀ c1, stores c1 = stores c → config c1 = config c → ∃ reply c', apply c1 = (Ok reply, c') ∧
     stores c' = effect (config c1) (at_apply at_) (resolve at_ cmd c) (stores c1) ∧
     wal c' = wal c1 ∧ flags c' = flags c1 ∧ config c' = config c1) →
  write_outcome at_ cmd c ((AppendToWal (at_append at_) (resolve at_ cmd c) ;! apply) c).
Proof.
  intros Hacc Hres Happ. pose proof (AppendToWal_spec (at_append at_) (resolve at_ cmd c) c) as H.
  unfold se_bind. destruct (AppendToWal _ _ c) as [[[]|e] c1].
  - pose proof (appended_frame _ _ _ _ H) as (Hst & Hfl & Hcf).
    destruct (Happ c1 Hst Hcf) as (reply & c' & -> & Hst' & Hw' & Hf' & Hc').
    apply (Accepted at_ cmd c reply c1 c'); [done|done|done|congruence..].
  - destruct H as (w & w' & Hw & Ha & ->). by eapply NotLogged.
Qed.

(** Applying a previewed event, by the verdict of the commit's duplicate test. *)
Lemma ApplyEvent_effect clk cmd e es c :
  c_type cmd = kEvent → event_store (stores c) = Some es →
  EventStore.ValidateEvent (c_ctx cmd) (c_id cmd) (EventStore.score e) (EventStore.type e) = Ok tt →
  EventStore.ev_timestamp e ≠ 0 →
  if (EventStore.CheckDuplicate clk (c_ctx cmd) (c_id cmd) (EventStore.score e) (EventStore.type e)
        (EventStore.ev_timestamp e) es).1
  then read_only (flags (ApplyEvent clk cmd e es c).2) = true
  else ∃ reply c', ApplyEvent clk cmd e es c = (Ok reply, c') ∧
    stores c' = effect (config c) clk (wal_command cmd e) (stores c) ∧
    wal c' = wal c ∧ flags c' = flags c ∧ config c' = config c.
Proof.
  intros Hty Hes Hv Hts. unfold ApplyEvent, effect, AddEvent.
  cbn [c_type c_ctx c_id c_score c_event_type c_timestamp wal_command default from_option]. unfold Datatypes.id.
  rewrite Hty, Hes.
  destruct (EventStore.AddEvent_verdict clk (c_ctx cmd) (c_id cmd) (EventStore.score e) (EventStore.type e)
    (EventStore.ev_timestamp e) es Hv) as (r & Hr & Hd).
  rewrite EventStore.ResolveTimestamp_fixed in Hd by done.
  destruct (EventStore.AddEventAndGetPrior _ _ _ _ _ _ es) as [r0 es']. cbn [fst] in Hr. subst r0. rewrite Hd.
  destruct (EventStore.CheckDuplicate _ _ _ _ _ _ es).1; [done|].
  eexists _, _. split; [reflexivity|]. unfold ingest, effect_ingest. destruct (config c) eqn:Hcfg; cbn; by rewrite ?Hcfg.
Qed.

Lemma HandleEvent_outcome at_ cmd c :
  c_type cmd = kEvent → dated at_ cmd →
  write_outcome at_ cmd c (HandleEvent at_ cmd c) ∨
  (read_only (flags (HandleEvent at_ cmd c).2) = true ∧ ¬ in_order at_ cmd).
Proof.
  intros Hty Hts. specialize (Hts Hty). unfold HandleEvent.
  destruct (event_store (stores c)) as [es|] eqn:Hes; [|left; apply Refused].
  destruct (EventStore.PrepareEvent _ _ _ _ _ _ es) as [p|e] eqn:Hp; [|left; apply Refused].
  pose proof (EventStore.PrepareEvent_inv _ _ _ _ _ _ _ _ Hp) as (He & Hv & Hv' & Hd & Hc).
  destruct (p_deduped p) eqn:Hdup.
  - left. assert (Hpdup : duplicate at_ cmd es) by (exists p; auto).
    rewrite He. cbn [EventStore.ev_timestamp].
    destruct (AddEvent (at_apply at_) cmd _ _ _ es) as [[r|e] es'] eqn:Ha;
      [destruct (EventStore.deduped r)|]; [eapply Duplicate|eapply Flipped..]; rewrite ?Ha; done.
  - assert (Hr : wal_command cmd (p_event p) = resolve at_ cmd c) by (unfold resolve; by rewrite Hty, Hes, Hp).
    assert (Hpts : EventStore.ev_timestamp (p_event p) ≠ 0) by (by rewrite He).
    assert (Hpty : EventStore.type (p_event p) = c_event_type cmd) by (by rewrite He).
    rewrite <- Hpty in Hv'.
    assert (Happ := λ c1 Hst, ApplyEvent_effect (at_apply at_) cmd (p_event p) es c1 Hty Hst Hv' Hpts).
    rewrite Hpty in Happ.
    destruct (EventStore.CheckDuplicate (at_apply at_) _ _ _ _ _ es).1 eqn:Hdup'.
    + right. split.
      * unfold se_bind. pose proof (AppendToWal_spec (at_append at_) (wal_command cmd (p_event p)) c) as H.
        destruct (AppendToWal _ _ c) as [[[]|e] c1]; [|by destruct H as (? & ? & _ & _ & ->)].
        apply appended_frame in H as (Hst & _). apply Happ. by rewrite Hst.
      * intros Hle. specialize (Hle Hty).
        by rewrite (EventStore.prepared_fresh _ _ _ _ _ _ _ _ _ Hle Hp Hdup) in Hdup'.
    + left. rewrite Hr in *. apply logged_outcome.
      * rewrite <- Hr. unfold accepts. cbn [c_type c_ctx c_id c_score c_event_type wal_command].
        rewrite Hty, Hes. by split; [eexists|].
      * rewrite <- Hr. intros _. cbn. split; [done|]. intros E0. rewrite Hpty in E0. by rewrite He, E0.
      * intros c1 Hst Hcf. apply Happ. by rewrite Hst.
Qed.

(** The commands that are logged as they come. *)
Lemma logged_plain at_ cmd c (apply : SE (HandlerContext E W) string) :
  c_type cmd ≠ kEvent → accepts cmd (stores c) →
  (∀ c1, stores c1 = stores c → config c1 = config c → ∃ reply c', apply c1 = (Ok reply, c') ∧
     stores c' = effect (config c1) (at_apply at_) cmd (stores c1) ∧
     wal c' = wal c1 ∧ flags c' = flags c1 ∧ config c' = config c1) →
  write_outcome at_ cmd c ((AppendToWal (at_append at_) cmd ;! apply) c).
Proof.
  intros Hty Hacc Happ. assert (Hr : resolve at_ cmd c = cmd) by (unfold resolve; by destruct (c_type cmd)).
  pose proof (logged_outcome at_ cmd c apply) as H. rewrite Hr in H. by apply H.
Qed.

(** What a handler does once its checks have passed and the log has taken the
    command. *)
Definition applies (clk : Clock) (cmd : Command) (apply : SE (HandlerContext E W) string) (c : HandlerContext E W) : Prop :=
  ∃ reply c', apply c = (Ok reply, c') ∧ stores c' = effect (config c) clk cmd (stores c) ∧
    wal c' = wal c ∧ flags c' = flags c ∧ config c' = config c.

Lemma ApplyVecset_effect clk cmd vs c :
  c_type cmd = kVecset → vector_store (stores c) = Some vs →
  VectorStore.ValidateVector vs (c_id cmd) (c_vector cmd) = Ok tt → applies clk cmd (ApplyVecset cmd vs) c.
Proof.
  intros Hty Hvs Hv. unfold applies, ApplyVecset, effect. rewrite Hty, Hvs, (VectorStore.SetVector_validated _ _ _ Hv).
  eexists _, _. split; [reflexivity|]. unfold notify_added. cbn [snd].
  destruct (c_metadata cmd); repeat case_match; done.
Qed.

Lemma ApplyVecdel_effect clk cmd vs idx c :
  c_type cmd = kVecdel → vector_store (stores c) = Some vs → VectorStore.GetCompactIndex (c_id cmd) vs = Some idx →
  applies clk cmd (ApplyVecdel cmd idx vs) c.
Proof.
  intros Hty Hvs Hi. unfold applies, ApplyVecdel, effect. rewrite Hty, Hvs.
  unfold VectorStore.DeleteVector. unfold VectorStore.GetCompactIndex in Hi. rewrite Hi.
  eexists _, _. by split; [reflexivity|].
Qed.

Lemma ApplyMetaset_effect clk cmd meta c :
  c_type cmd = kMetaset → metaset_value cmd = Ok meta → applies clk cmd (ApplyMetaset cmd meta) c.
Proof.
  intros Hty Hm. unfold applies, ApplyMetaset, effect. rewrite Hty, Hm.
  eexists _, _. by split; [reflexivity|].
Qed.

Lemma HandleVecset_outcome at_ cmd c : c_type cmd = kVecset → write_outcome at_ cmd c (HandleVecset at_ cmd c).
Proof.
  intros Hty. unfold HandleVecset. destruct (vector_store (stores c)) as [vs|] eqn:Hvs; [|apply Refused].
  destruct (VectorStore.ValidateVector vs _ _) as [[]|e] eqn:Hv; [|apply Refused].
  apply logged_plain; [by rewrite Hty|unfold accepts; rewrite Hty; eauto|].
  intros c1 Hst _. apply ApplyVecset_effect; congruence.
Qed.

Lemma HandleVecdel_outcome at_ cmd c : c_type cmd = kVecdel → write_outcome at_ cmd c (HandleVecdel at_ cmd c).
Proof.
  intros Hty. unfold HandleVecdel. destruct (vector_store (stores c)) as [vs|] eqn:Hvs; [|apply Refused].
  destruct (VectorStore.GetCompactIndex _ vs) as [idx|] eqn:Hi; [|apply Refused].
  apply logged_plain; [by rewrite Hty|unfold accepts; rewrite Hty; eauto|].
  intros c1 Hst _. apply ApplyVecdel_effect; congruence.
Qed.

Lemma HandleMetaset_outcome at_ cmd c : c_type cmd = kMetaset → write_outcome at_ cmd c (HandleMetaset at_ cmd c).
Proof.
  intros Hty. unfold HandleMetaset. destruct (vector_store (stores c)) as [vs|] eqn:Hvs; [|apply Refused].
  destruct (metadata_store (stores c)) as [ms|] eqn:Hms; [|apply Refused].
  destruct (VectorStore.GetCompactIndex _ vs) as [idx|] eqn:Hi; [|apply Refused].
  destruct (metaset_value cmd) as [meta|e] eqn:Hm; [|apply Refused].
  apply logged_plain; [by rewrite Hty|unfold accepts; rewrite Hty, Hm; eauto 6|].
  intros c1 Hst _. by apply ApplyMetaset_effect.
Qed.

Lemma HandleWrite_outcome at_ cmd c :
  IsSnapshotProtectedWrite (c_type cmd) = true → dated at_ cmd →
  write_outcome at_ cmd c (HandleWrite at_ cmd c) ∨
  (read_only (flags (HandleWrite at_ cmd c).2) = true ∧ ¬ in_order at_ cmd).
Proof.
  intros Hw Hts. unfold HandleWrite. destruct (c_type cmd) eqn:Hty; try done.
  - by apply HandleEvent_outcome.
  - left. by apply HandleVecset_outcome.
  - left. by apply HandleVecdel_outcome.
  - left. by apply HandleMetaset_outcome.
Qed.
End outcomes.

(** ** Effects on agreeing stores *)

Section agreement.
Context {order : IterOrder} {libm : Floats.Libm} {impl : Distance.DistanceFunctions} {libc : FilterParser.Strtod}.
Implicit Types (s : Stores) (cmd : Command).

(** No deduplication cache: what an event does then depends on no clock. *)
Definition dedup_free (s : Stores) : Prop :=
  ∀ es, event_store s = Some es → EventStore.dedup_cache_ es = None ∧ EventStore.state_cache_ es = None.

Record stores_agree (s s' : Stores) : Prop := {
  sa_vectors : vector_store s' = vector_store s;
  sa_metadata : metadata_store s' = metadata_store s;
  sa_present : is_Some (event_store s') ↔ is_Some (event_store s);
  sa_events : dedup_free s → event_store s' = event_store s ∧ co_index s' = co_index s
}.

#[export] Instance stores_agree_refl : Reflexive stores_agree.
Proof. by split. Qed.

Lemma CheckDuplicate_free clk ctx id sc ty ts es :
  EventStore.dedup_cache_ es = None → EventStore.state_cache_ es = None →
  EventStore.CheckDuplicate clk ctx id sc ty ts es = (false, es).
Proof. intros Hd Hs. unfold EventStore.CheckDuplicate. rewrite Hd, Hs. by destruct ty. Qed.

Lemma AddEvent_caches clk ctx id sc ty ts es :
  let es' := (EventStore.AddEventAndGetPrior clk ctx id sc ty ts es).2 in
  (EventStore.dedup_cache_ es' = None ↔ EventStore.dedup_cache_ es = None) ∧
  (EventStore.state_cache_ es' = None ↔ EventStore.state_cache_ es = None).
Proof.
  unfold EventStore.AddEventAndGetPrior. destruct (EventStore.ValidateEvent _ _ _ _); [|done].
  assert (H : ∀ ts, let es' := (EventStore.CheckDuplicate clk ctx id sc ty ts (EventStore.bump_total es)).2 in
    (EventStore.dedup_cache_ es' = None ↔ EventStore.dedup_cache_ es = None) ∧
    (EventStore.state_cache_ es' = None ↔ EventStore.state_cache_ es = None)).
  { intros t. unfold EventStore.CheckDuplicate. destruct ty; cbn; try done.
    - destruct (EventStore.dedup_cache_ es) eqn:Hk; [destruct (DedupCache.CheckAndInsert _ _ _ _)|]; cbn; by rewrite ?Hk.
    - destruct (EventStore.state_cache_ es) eqn:Hk; [destruct (StateCache.CheckAndUpdateSet _ _ _)|]; cbn; by rewrite ?Hk.
    - destruct (EventStore.state_cache_ es) eqn:Hk; [destruct (StateCache.CheckAndMarkDeleted _ _)|]; cbn; by rewrite ?Hk. }
  specialize (H (EventStore.ResolveTimestamp clk ts)).
  destruct (EventStore.CheckDuplicate _ _ _ _ _ _ _) as [d es1]. cbn [snd] in *. destruct d; cbn [snd]; [exact H|].
  rewrite <- (proj1 H), <- (proj2 H). unfold EventStore.PushEvent, EventStore.EnsureContext,
    EventStore.TouchContextLocked, EventStore.EvictLeastRecentlyUsedContextLocked. cbn.
  repeat case_match; done.
Qed.

(** A dated event without caches: the clock is not read. *)
Lemma AddEvent_free clk clk' ctx id sc ty ts es :
  EventStore.dedup_cache_ es = None → EventStore.state_cache_ es = None → ts ≠ 0 →
  EventStore.AddEventAndGetPrior clk' ctx id sc ty ts es = EventStore.AddEventAndGetPrior clk ctx id sc ty ts es.
Proof.
  intros Hd Hs Hts. unfold EventStore.AddEventAndGetPrior. destruct (EventStore.ValidateEvent _ _ _ _); [|done].
  by rewrite !EventStore.ResolveTimestamp_fixed, !CheckDuplicate_free.
Qed.

Lemma effect_event_store cfg clk cmd s :
  c_type cmd ≠ kEvent → event_store (effect cfg clk cmd s) = event_store s ∧ co_index (effect cfg clk cmd s) = co_index s.
Proof. intros Hty. unfold effect. destruct (c_type cmd); try done; by repeat case_match. Qed.

Lemma effect_event cfg clk cmd s es :
  c_type cmd = kEvent → event_store s = Some es →
  event_store (effect cfg clk cmd s) =
    Some (AddEvent clk cmd (c_score cmd) (c_event_type cmd) (default 0 (c_timestamp cmd)) es).2 ∧
  vector_store (effect cfg clk cmd s) = vector_store s ∧ metadata_store (effect cfg clk cmd s) = metadata_store s.
Proof.
  intros Hty Hes. unfold effect, effect_ingest. rewrite Hty, Hes. destruct (AddEvent _ _ _ _ _ es) as [r es'].
  by repeat case_match.
Qed.

Lemma effect_dedup_free cfg clk cmd s : dedup_free (effect cfg clk cmd s) ↔ dedup_free s.
Proof.
  unfold dedup_free. destruct (decide (c_type cmd = kEvent)) as [Hty|Hty].
  - destruct (event_store s) as [es|] eqn:Hes.
    + destruct (effect_event cfg clk cmd s es Hty Hes) as [-> _].
      pose proof (AddEvent_caches clk (c_ctx cmd) (c_id cmd) (c_score cmd) (c_event_type cmd)
        (default 0 (c_timestamp cmd)) es) as [H1 H2]. unfold AddEvent.
      split; intros H ? [= <-]; destruct (H _ eq_refl); split; by apply H1 || by apply H2.
    + unfold effect. by rewrite Hty, Hes, Hes.
  - by destruct (effect_event_store cfg clk cmd s Hty) as [-> _].
Qed.

(** The same command acts alike on agreeing stores, at any time. *)
Lemma effect_agree cfg clk clk' cmd s s' :
  resolved_event cmd → stores_agree s s' → stores_agree (effect cfg clk cmd s) (effect cfg clk' cmd s').
Proof.
  intros Hres [Hv Hm Hp He]. destruct (decide (c_type cmd = kEvent)) as [Hty|Hty].
  - destruct (Hres Hty) as [Hts _]. destruct (event_store s) as [es|] eqn:Hes.
    + destruct (event_store s') as [es'|] eqn:Hes'; [|by destruct Hp as [_ [? ?]]].
      destruct (effect_event cfg clk cmd s es Hty Hes) as (E1 & E2 & E3).
      destruct (effect_event cfg clk' cmd s' es' Hty Hes') as (E1' & E2' & E3').
      split; [congruence|congruence|rewrite E1, E1'; split; by eexists|].
      rewrite effect_dedup_free. intros Hf. destruct (Hf es Hes) as [Hd Hst].
      destruct (He Hf) as [[= ->] Hco]. unfold effect. rewrite Hty, Hes, Hes'. unfold AddEvent.
      rewrite (AddEvent_free clk clk') by done. destruct (EventStore.AddEventAndGetPrior _ _ _ _ _ _ es) as [r es'].
      unfold effect_ingest. repeat case_match; cbn; by rewrite ?Hco.
    + destruct (event_store s') as [es'|] eqn:Hes'; [destruct Hp as [[? ?] _]; [by eexists|done]|].
      unfold effect. rewrite Hty, Hes, Hes'. split; rewrite ?Hes, ?Hes'; done.
  - destruct (effect_event_store cfg clk cmd s Hty) as [E1 E2].
    destruct (effect_event_store cfg clk' cmd s' Hty) as [E1' E2'].
    assert (Hvm : vector_store (effect cfg clk' cmd s') = vector_store (effect cfg clk cmd s) ∧
      metadata_store (effect cfg clk' cmd s') = metadata_store (effect cfg clk cmd s)).
    { unfold effect. rewrite Hv. destruct (c_type cmd); try done; repeat case_match; cbn; by rewrite ?Hv, ?Hm. }
    destruct Hvm. split; [done|done|by rewrite E1, E1'|]. rewrite effect_dedup_free, E1, E1', E2, E2'. done.
Qed.
End agreement.

(** ** Replaying one command *)

Section replay_one.
Context {E W : Type} {order : IterOrder} {log : AppendLog W} {engine : Engine E} {libm : Floats.Libm}
  {impl : Distance.DistanceFunctions} {libc : FilterParser.Strtod} {layout : SimilarityCache.Layout}.
Implicit Types (r : HandlerContext E W) (cmd : Command).

(** The store's clock stands still during one replayed command. *)
Definition steady (at_ : Readings) : Prop := mono (at_prepare at_) = mono (at_apply at_).

Lemma CheckDuplicate_steady clk clk' ctx id sc ty ts es :
  mono clk = mono clk' →
  (EventStore.CheckDuplicate clk ctx id sc ty ts es).1 = (EventStore.CheckDuplicate clk' ctx id sc ty ts es).1.
Proof.
  intros Hm. destruct (EventStore.CheckDuplicate clk _ _ _ _ _ _).1 eqn:H1,
    (EventStore.CheckDuplicate clk' _ _ _ _ _ _).1 eqn:H2; try done.
  - apply (EventStore.CheckDuplicate_mono clk' clk) in H2; [congruence|lia].
  - apply (EventStore.CheckDuplicate_mono clk clk') in H1; [congruence|lia].
Qed.

Lemma accepts_agree cmd s s' : stores_agree s s' → accepts cmd s → accepts cmd s'.
Proof.
  intros [Hv Hm Hp _]. unfold accepts. destruct (c_type cmd); rewrite ?Hv, ?Hm; try done. intros [H1 H2].
  split; [by apply Hp|done].
Qed.

Lemma unlogged now cmd r : wal r = None → AppendToWal now cmd r = (Ok tt, r).
Proof. intros Hw. unfold AppendToWal. by rewrite Hw. Qed.

Lemma replay_event at_ cmd r :
  c_type cmd = kEvent → accepts cmd (stores r) → resolved_event cmd → wal r = None → steady at_ →
  applies (at_apply at_) cmd (HandleEvent at_ cmd) r.
Proof.
  intros Hty Hacc Hres Hw Hst. unfold accepts in Hacc. rewrite Hty in Hacc. destruct Hacc as [[es Hes] Hv].
  destruct (Hres Hty) as [Hts Hdel]. unfold applies, HandleEvent. rewrite Hes, EventStore.PrepareEvent_CheckDuplicate, Hv.
  cbn [expected_bind p_deduped p_event].
  rewrite EventStore.ResolveTimestamp_fixed by done.
  assert (Hsc : (if bool_decide (c_event_type cmd = DEL) then 0 else c_score cmd) = c_score cmd).
  { case_bool_decide; [|done]. by rewrite Hdel. }
  rewrite Hsc. set (e := EventStore.MkEvent _ _ _ _).
  rewrite (CheckDuplicate_steady _ (at_apply at_)) by done.
  pose proof (ApplyEvent_effect (at_apply at_) cmd e es r Hty Hes Hv Hts) as Happ. cbn [e EventStore.score
    EventStore.type EventStore.ev_timestamp] in Happ.
  destruct (EventStore.CheckDuplicate (at_apply at_) _ _ _ _ _ es).1 eqn:Hd.
  - unfold effect. rewrite Hty, Hes. cbn [e EventStore.ev_timestamp].
    destruct (EventStore.AddEvent_verdict (at_apply at_) (c_ctx cmd) (c_id cmd) (c_score cmd) (c_event_type cmd)
      (default 0 (c_timestamp cmd)) es Hv) as (x & Hx & Hxd).
    rewrite EventStore.ResolveTimestamp_fixed, Hd in Hxd by done. unfold AddEvent.
    destruct (EventStore.AddEventAndGetPrior _ _ _ _ _ _ es) as [x0 es']. cbn [fst] in Hx. subst x0.
    rewrite Hxd. eexists _, _. by split; [reflexivity|].
  - unfold se_bind. rewrite unlogged by done. destruct Happ as (reply & c' & -> & Hs & Hrest).
    eexists _, _. split; [reflexivity|]. split; [|done]. rewrite Hs. unfold effect, wal_command, AddEvent.
    cbn [c_type c_ctx c_id c_score c_event_type c_timestamp e EventStore.score EventStore.type EventStore.ev_timestamp
      default from_option]. unfold Datatypes.id. by rewrite Hty.
Qed.

Lemma replay_effect at_ cmd r :
  accepts cmd (stores r) → resolved_event cmd → wal r = None → steady at_ →
  applies (at_apply at_) cmd (HandleWrite at_ cmd) r.
Proof.
  intros Hacc Hres Hw Hst. pose proof Hacc as H. unfold HandleWrite, applies. unfold accepts in H.
  destruct (c_type cmd) eqn:Hty; try done.
  - by apply replay_event.
  - destruct H as (vs & Hvs & Hv). unfold HandleVecset. rewrite Hvs, Hv. unfold se_bind. rewrite unlogged by done.
    by apply ApplyVecset_effect.
  - destruct H as (vs & Hvs & idx & Hi). unfold HandleVecdel. rewrite Hvs, Hi. unfold se_bind. rewrite unlogged by done.
    by apply ApplyVecdel_effect.
  - destruct H as ((vs & Hvs & idx & Hi) & [ms Hms] & Hok). destruct (metaset_value cmd) as [meta|] eqn:Hm; [|done].
    unfold HandleMetaset. rewrite Hvs, Hms, Hi, Hm. unfold se_bind. rewrite unlogged by done.
    by apply ApplyMetaset_effect.
Qed.

(** What a record carries of a command is all that its effect reads. *)
Lemma carried_same cfg clk cmd s :
  WalCodec.encodable cmd →
  (accepts cmd s → accepts (WalCodec.carried cmd) s) ∧ (resolved_event cmd → resolved_event (WalCodec.carried cmd)) ∧
  effect cfg clk (WalCodec.carried cmd) s = effect cfg clk cmd s.
Proof.
  unfold WalCodec.encodable, WalCodec.carried, accepts, resolved_event, effect, metaset_value.
  destruct (c_type cmd); try done; intros _; cbn; try done.
  destruct (c_metadata cmd); done.
Qed.
End replay_one.

(** ** Live runs and their replay *)

Section live.
Context {E W : Type} {order : IterOrder} {log : AppendLog W} {engine : Engine E} {libm : Floats.Libm}
  {impl : Distance.DistanceFunctions} {libc : FilterParser.Strtod} {layout : SimilarityCache.Layout}
  {lz4 : ResultCompressor.Lz4} {syntax : CommandSyntax} {admin : AdminHandlers E W}.
Implicit Types (c r : HandlerContext E W) (cmd : Command).

(** A step of a running server: a request of a connection, or maintenance. *)
Inductive LiveOp : Type :=
| Request (rd : RequestReadings) (cmd : Command) (conn : ConnectionContext)
| Maintain (now : Z) (persist : Stores → Expected unit) (alpha : Z) (prune : bool).

Definition run_op (o : LiveOp) (c : HandlerContext E W) : HandlerContext E W :=
  match o with
  | Request rd cmd conn => (DispatchCommand rd cmd conn c).2
  | Maintain now persist alpha prune => (Maintenance now persist alpha prune c).2
  end.

(** A decay factor as the configuration documents it, 0 excluded. *)
Definition alpha_ok (alpha : Z) : Prop :=
  in_u 64 alpha ∧ Floats.is_finite64 alpha = true ∧ Floats.f64_leb alpha 0 = false ∧
  Floats.f64_ltb Floats.f64_one alpha = false.

(** The commands are the dispatcher's own; what a write carries fits its record,
    and the wall clock is past the epoch. *)
Definition op_ok (o : LiveOp) : Prop :=
  match o with
  | Request rd cmd _ =>
      is_admin (c_type cmd) = false ∧
      (IsSnapshotProtectedWrite (c_type cmd) = true →
       WalCodec.encodable cmd ∧ 0 < wall (at_prepare (r_write rd)) < 2 ^ 64)
  | Maintain _ _ alpha _ => alpha_ok alpha
  end.

Inductive live (c : HandlerContext E W) : HandlerContext E W → Prop :=
| live_here : live c c
| live_step c' o : live c c' → op_ok o → (∀ w, wal c' = Some w → log_room w) → live c (run_op o c').

(** The server after a crash, its log not yet published, restored as far as
    [c]. *)
Record restored (c r : HandlerContext E W) : Prop := {
  rs_stores : stores_agree (stores c) (stores r);
  rs_config : config r = config c;
  rs_wal : wal r = None
}.

Fixpoint ReplayAll (at_ : WalRecord → Readings) (rs : list WalRecord) : SE (HandlerContext E W) unit :=
  match rs with
  | [] => se_ret tt
  | rec :: rs => ReplayRecord (at_ rec) rec ;! ReplayAll at_ rs
  end.

Lemma ReplayAll_app at_ rs1 rs2 r :
  ReplayAll at_ (rs1 ++ rs2) r = (ReplayAll at_ rs1 ;! ReplayAll at_ rs2) r.
Proof.
  revert r. induction rs1 as [|rec rs1 IH]; intros r; cbn [app ReplayAll]; [done|].
  unfold se_bind in *. destruct (ReplayRecord (at_ rec) rec r) as [[[]|e] r']; [|done]. by rewrite IH.
Qed.

(** A step of the server is replayed by the records it logged. *)
Definition replays (c c' : HandlerContext E W) (rs : list WalRecord) : Prop :=
  ∀ at_ r, (∀ rec, steady (at_ rec)) → restored c r →
  ∃ r', ReplayAll at_ rs r = (Ok tt, r') ∧ restored c' r'.

Lemma replays_same c c' : stores c' = stores c → config c' = config c → replays c c' [].
Proof.
  intros Hs Hc at_ r _ [H1 H2 H3]. exists r. split; [done|]. split; by rewrite ?Hs, ?Hc.
Qed.

Lemma replays_trans c c1 c2 rs1 rs2 : replays c c1 rs1 → replays c1 c2 rs2 → replays c c2 (rs1 ++ rs2).
Proof.
  intros H1 H2 at_ r Hst Hr. destruct (H1 at_ r Hst Hr) as (r1 & E1 & Hr1).
  destruct (H2 at_ r1 Hst Hr1) as (r2 & E2 & Hr2). exists r2. split; [|done].
  rewrite ReplayAll_app. unfold se_bind. by rewrite E1.
Qed.

(** One logged command. *)
Lemma replays_write c c' cmd clk seq time :
  WalCodec.encodable cmd → accepts cmd (stores c) → resolved_event cmd →
  stores c' = effect (config c) clk cmd (stores c) → config c' = config c →
  replays c c' [MkRecord seq time (WalCodec.WalOpForCommand cmd) (WalCodec.EncodeCommand cmd)].
Proof.
  intros Henc Hacc Hres Hs Hc at_ r Hst [H1 H2 H3]. cbn [ReplayAll].
  set (rec := MkRecord _ _ _ _) in *. specialize (Hst rec).
  assert (Hop : Wal.op rec ≠ kCoOccurrenceMaintenance).
  { unfold rec, WalCodec.WalOpForCommand. cbn. by repeat case_match. }
  assert (Hdec : WalCodec.DecodeWalRecord rec = Ok (WalCodec.carried cmd)) by (by apply WalCodec.DecodeWalRecord_encoded).
  destruct (carried_same (config r) (at_apply (at_ rec)) cmd (stores r) Henc) as (Ha & Hr & Heff).
  destruct (replay_effect (at_ rec) (WalCodec.carried cmd) r) as (reply & r' & E' & Hs' & Hw' & _ & Hc'); auto.
  { apply Ha. by eapply accepts_agree. }
  assert (Hrun : ReplayRecord (at_ rec) rec r = (Ok tt, r')).
  { unfold ReplayRecord. rewrite Hdec. destruct (Wal.op rec); try done; unfold se_bind; by rewrite E'. }
  exists r'. split; [unfold se_bind; by rewrite Hrun|].
  split; [|congruence|congruence]. rewrite Hs, Hs', Heff, H2. by apply effect_agree.
Qed.

Lemma le_value_maintenance alpha prune :
  in_u 64 alpha →
  le_value (take 8 (maintenance_payload alpha prune)) = alpha ∧
  le_value (drop 8 (maintenance_payload alpha prune)) = Z.b2z prune ∧
  length (maintenance_payload alpha prune) = 9%nat.
Proof.
  intros Ha. unfold maintenance_payload.
  rewrite take_app_length', drop_app_length', le_value_bytes_small by (done || by rewrite length_le_bytes).
  split_and!; [done| |by rewrite length_app, length_le_bytes]. by destruct prune.
Qed.

Lemma decay_agree f (s s' : Stores) : stores_agree s s' → stores_agree (on_co_index f s) (on_co_index f s').
Proof.
  intros [H1 H2 H3 H4]. split; [done..|]. cbn. intros Hf. destruct (H4 Hf) as [H5 H6]. by rewrite H6.
Qed.

(** One logged maintenance. *)
Lemma replays_maintenance c c' alpha prune seq time :
  alpha_ok alpha → stores c' = on_co_index (decay_and_prune alpha prune) (stores c) → config c' = config c →
  replays c c' [MkRecord seq time kCoOccurrenceMaintenance (maintenance_payload alpha prune)].
Proof.
  intros (Hu & Hfin & Hpos & Hle) Hs Hc at_ r _ [H1 H2 H3]. cbn [ReplayAll]. unfold ReplayRecord, ReplayMaintenance.
  cbn [Wal.op Wal.payload]. destruct (le_value_maintenance alpha prune Hu) as (Ha & Hp & Hl).
  rewrite Hl, Ha, Hp, Hfin, Hpos, Hle. assert (1 <? Z.b2z prune = false) as -> by (by destruct prune).
  assert (negb (Z.b2z prune =? 0) = prune) as -> by (by destruct prune).
  eexists. split; [reflexivity|]. split; [rewrite Hs; by apply decay_agree|cbn; congruence|done].
Qed.

(** ** A step and the records it adds *)

Definition logs_vectors (c : HandlerContext E W) : Prop := ∀ cfg, config c = Some cfg → include_vectors cfg = true.

(** The log of [c'] is that of [c] and [rs], which replay the step. *)
Definition logged_step (c c' : HandlerContext E W) : Prop :=
  ∀ w o, wal c = Some w → log_records w o → log_room w →
  config c' = config c ∧ ∃ w' rs, wal c' = Some w' ∧ log_records w' (o ++ rs) ∧ replays c c' rs.

Lemma logged_same c c' :
  stores c' = stores c → config c' = config c → wal c' = wal c → logged_step c c'.
Proof.
  intros Hs Hc Hw w o Ew Hl _. split; [done|]. exists w, []. rewrite app_nil_r, Hw.
  split_and!; [done|done|by apply replays_same].
Qed.

Lemma logged_refl_l c0 c c' :
  stores c0 = stores c → config c0 = config c → wal c0 = wal c → logged_step c0 c' → logged_step c c'.
Proof.
  intros Hs Hc Hw H w o. rewrite <- Hw. intros Ew Hl Hr. destruct (H w o Ew Hl Hr) as (Hc' & w' & rs & Ew' & Hl' & Hrep).
  split; [congruence|]. exists w', rs. split_and!; [done|done|]. intros at_ r Hst [H1 H2 H3].
  apply Hrep; [done|]. split; congruence || by rewrite Hs.
Qed.

Lemma encodable_resolve at_ cmd c :
  WalCodec.encodable cmd → 0 < wall (at_prepare at_) < 2 ^ 64 →
  WalCodec.encodable (resolve at_ cmd c) ∧ dated at_ cmd.
Proof.
  intros Henc Hwall.
  assert (Hts : c_type cmd = kEvent → 0 < EventStore.ResolveTimestamp (at_prepare at_) (default 0 (c_timestamp cmd)) < 2 ^ 64).
  { intros Hty. unfold WalCodec.encodable in Henc. rewrite Hty in Henc. destruct Henc as (_ & _ & _ & _ & Hu).
    unfold in_u in Hu. unfold EventStore.ResolveTimestamp. destruct (Z.eqb_spec (default 0 (c_timestamp cmd)) 0); [|lia].
    unfold u64, wrap. rewrite Z.mod_small; lia. }
  split; [|intros Hty; specialize (Hts Hty); lia].
  unfold resolve. destruct (c_type cmd) eqn:Hty; try done. destruct (event_store (stores c)) as [es|]; [|done].
  destruct (EventStore.PrepareEvent _ _ _ _ _ _ es) as [p|] eqn:Hp; [|done].
  apply EventStore.PrepareEvent_inv in Hp as (He & _). specialize (Hts eq_refl).
  revert Henc. unfold WalCodec.encodable. cbn [c_type wal_command]. rewrite Hty, He.
  cbn [c_event_type c_ctx c_id c_score c_timestamp wal_command EventStore.type EventStore.score EventStore.ev_timestamp
    default from_option]. unfold Datatypes.id. intros (H1 & H2 & H3 & H4 & _).
  split_and!; try done; [case_bool_decide; [by vm_compute|done]|destruct Hts; split; [by apply Z.lt_le_incl|done]].
Qed.

(** A duplicate is not logged, and its replay is no step. *)
Lemma replays_duplicate at_ cmd c es clk ts :
  event_store (stores c) = Some es → duplicate at_ cmd es →
  replays c (with_stores (set_event_store (AddEvent clk cmd (c_score cmd) (c_event_type cmd) ts es).2) c) [].
Proof.
  intros Hes (p & Hp & Hdup) at' r _ [[H1 H2 H3 H4] H5 H6]. exists r. split; [done|]. split; [|done|done].
  split; [done|done| |].
  - cbn. rewrite H3, Hes. split; by eexists.
  - intros Hf. exfalso. destruct (Hf _ eq_refl) as [Hf1 Hf2]. apply AddEvent_caches in Hf1, Hf2.
    apply EventStore.PrepareEvent_inv in Hp as (_ & _ & _ & Hpd & _).
    rewrite CheckDuplicate_free in Hpd by done. cbn in Hpd. congruence.
Qed.

(** A write whose server stays writable. *)
Lemma write_logged at_ cmd c :
  IsSnapshotProtectedWrite (c_type cmd) = true → WalCodec.encodable cmd → 0 < wall (at_prepare at_) < 2 ^ 64 →
  logs_vectors c → read_only (flags (HandleWrite at_ cmd c).2) = false → logged_step c (HandleWrite at_ cmd c).2.
Proof.
  intros Hwr Henc Hwall Hvec Hro. destruct (encodable_resolve at_ cmd c Henc Hwall) as [Henc' Hd].
  destruct (HandleWrite_outcome at_ cmd c Hwr Hd) as [Hout|[Hro' _]]; [|congruence].
  destruct (HandleWrite at_ cmd c) as [reply c']. cbn [snd] in *.
  inversion Hout as [e|e w w' Hw Ha|reply' c1 c2 Hacc Hres Happ Hst Hw Hf Hc|es es' reply' Hty Hes Hdup Hes'|];
    subst; try done.
  - by apply logged_same.
  - intros w o Ew Hl Hroom. split; [done|]. destruct Happ as [[Hn|Hn]|w0 seq w' Ew0 _ Happ]; [congruence| |].
    { exfalso. unfold skips_log in Hn. apply andb_true_iff in Hn as [_ Hn].
      destruct (config c) as [cfg|] eqn:Hcfg; [|done]. by rewrite (Hvec cfg Hcfg) in Hn. }
    rewrite Ew in Ew0. injection Ew0 as <-. exists w'. eexists.
    split_and!; [done|eapply log_append_ok; [done|done| |done]|by eapply replays_write].
    unfold WalCodec.WalOpForCommand. by repeat case_match.
  - intros w o Ew Hl Hroom. split; [done|]. exists w, []. rewrite app_nil_r.
    split_and!; [done|done|by eapply replays_duplicate].
Qed.

Lemma maintenance_logged now persist alpha prune c :
  alpha_ok alpha → read_only (flags (Maintenance now persist alpha prune c).2) = false → wal c ≠ None →
  logged_step c (Maintenance now persist alpha prune c).2.
Proof.
  intros Ha Hro Hw. unfold Maintenance in *. destruct (read_only (flags c)) eqn:Ero; [by apply logged_same|].
  destruct (wal c) as [w|] eqn:Ew; [|done].
  destruct (log_append _ _ now w) as [[seq|e] w'] eqn:Happ; [|done].
  intros w0 o E0 Hl Hroom. rewrite Ew in E0. injection E0 as <-. split; [done|].
  eexists _, _. split_and!; [done| |by eapply replays_maintenance]. by eapply log_append_ok.
Qed.

(** Nothing here clears [read_only]. *)
Lemma write_read_only at_ cmd c :
  read_only (flags c) = true → read_only (flags (HandleWrite at_ cmd c).2) = true.
Proof.
  assert (Happ : ∀ now cmd c, read_only (flags c) = true → read_only (flags (AppendToWal now cmd c).2) = true).
  { intros now k c0 H. pose proof (AppendToWal_spec now k c0) as Hs. destruct (AppendToWal now k c0) as [[[]|e] c1].
    - apply appended_frame in Hs as (_ & Hf & _). cbn [snd]. by rewrite Hf.
    - by destruct Hs as (? & ? & _ & _ & ->). }
  intros H. unfold HandleWrite, HandleEvent, HandleVecset, HandleVecdel, HandleMetaset.
  assert (Hseq : ∀ now k (f : SE (HandlerContext E W) string),
    (∀ c, read_only (flags c) = true → read_only (flags (f c).2) = true) →
    read_only (flags ((AppendToWal now k ;! f) c).2) = true).
  { intros now k f Hf. unfold se_bind. pose proof (Happ now k c H) as H1.
    destruct (AppendToWal now k c) as [[[]|e] c1]; [by apply Hf|done]. }
  destruct (c_type cmd); try done; repeat case_match; subst; try done; apply Hseq; intros c1 Hc1.
  - unfold ApplyEvent, ingest. repeat case_match; done.
  - unfold ApplyVecset, notify_added. repeat case_match; done.
  - unfold ApplyVecdel. repeat case_match; done.
  - done.
Qed.

Lemma Request_frame rd cmd conn c :
  is_admin (c_type cmd) = false →
  let c' := (DispatchCommand rd cmd conn c).2 in
  (kept c' = kept c ∧ read_only (flags c') = read_only (flags c)) ∨
  (IsSnapshotProtectedWrite (c_type cmd) = true ∧ read_only (flags c) = false ∧
   ∃ f c1, c1 = (HandleWrite (r_write rd) cmd (with_flags f c)).2 ∧ read_only (f (flags c)) = read_only (flags c) ∧
     kept c' = kept c1 ∧ read_only (flags c') = read_only (flags c1)).
Proof.
  intros Ha. unfold DispatchCommand. case_bool_decide as Hauth.
  { left. unfold HandleAuth. by repeat case_bool_decide || case_match. }
  destruct (Gate cmd conn c); [by left|]. unfold DispatchGated.
  destruct (IsSnapshotProtectedCommand (c_type cmd) && loading (flags c)); [by left|].
  destruct (IsSnapshotProtectedWrite (c_type cmd)) eqn:Hw.
  - cbn [andb]. destruct (read_only (flags c)) eqn:Hro; [by left|]. right. split_and!; [done|done|].
    unfold Route.
    exists (match command_counter (c_type cmd) with Some k => count k | None => λ f, f end).
    eexists. split; [reflexivity|]. split; [by destruct (command_counter _)|].
    assert (Hc : (match command_counter (c_type cmd) with Some k => with_flags (count k) c | None => c end) =
      with_flags (match command_counter (c_type cmd) with Some k => count k | None => λ f, f end) c)
      by (destruct (command_counter _); [done|by destruct c]).
    rewrite Hc. clear Hc.
    assert (Hroute : ∀ c0, match c_type cmd with
      | kEvent | kVecset | kVecdel | kMetaset => let '(r, c) := HandleWrite (r_write rd) cmd c0 in (r, conn, c)
      | _ => (Ok "", conn, c0) end =
      ((HandleWrite (r_write rd) cmd c0).1, conn, (HandleWrite (r_write rd) cmd c0).2)).
    { intros c0. by destruct (c_type cmd); try done; destruct (HandleWrite (r_write rd) cmd c0). }
    destruct (c_type cmd); try done; cbn [command_counter] in *; rewrite Hroute; by case_match.
  - left. cbn [andb]. pose proof (Route_frame rd cmd conn c Hw Ha) as (Hk & _ & Hro).
    destruct (Route rd cmd conn c) as [[r conn'] c']. by destruct r.
Qed.

Lemma op_read_only o c : op_ok o → read_only (flags c) = true → read_only (flags (run_op o c)) = true.
Proof.
  intros Hok Hro. destruct o as [rd cmd conn|now persist alpha prune]; cbn [run_op].
  - destruct Hok as [Ha _]. destruct (Request_frame rd cmd conn c Ha) as [[_ ->]|(_ & H & _)]; congruence.
  - unfold Maintenance. by rewrite Hro.
Qed.

Lemma op_logged o c :
  op_ok o → logs_vectors c → wal c ≠ None → read_only (flags (run_op o c)) = false → logged_step c (run_op o c).
Proof.
  intros Hok Hvec Hw Hro. destruct o as [rd cmd conn|now persist alpha prune]; cbn [run_op] in *.
  - destruct Hok as [Ha Hwr].
    destruct (Request_frame rd cmd conn c Ha) as [[Hk _]|(Hp & _ & f & c1 & Hc1 & Hf & Hk & Hro1)].
    + unfold kept in Hk. simplify_eq. by apply logged_same.
    + destruct (Hwr Hp) as [Henc Hwall]. unfold kept in Hk. injection Hk as Hs _ _ Hlog Hcfg _.
      rewrite Hro1, Hc1 in Hro.
      pose proof (write_logged (r_write rd) cmd (with_flags f c) Hp Henc Hwall Hvec Hro) as Hstep.
      rewrite <- Hc1 in Hstep. apply (logged_refl_l (with_flags f c) c) in Hstep; [|done..].
      intros w o Ew Hl Hroom. destruct (Hstep w o Ew Hl Hroom) as (Hc' & w' & rs & Ew' & Hl' & Hrep).
      split; [congruence|]. exists w', rs. split_and!; [congruence|done|].
      rewrite <- (app_nil_r rs). eapply replays_trans; [exact Hrep|]. by apply replays_same.
  - by apply maintenance_logged.
Qed.

(** The records a live run adds replay it. *)
Lemma live_replays c c' w o :
  live c c' → read_only (flags c') = false → logs_vectors c → wal c = Some w → log_records w o →
  config c' = config c ∧ ∃ w' rs, wal c' = Some w' ∧ log_records w' (o ++ rs) ∧ replays c c' rs.
Proof.
  intros Hlive Hro Hvec Hw Hl.
  induction Hlive as [|c1 op Hlive IH Hok Hroom].
  - split; [done|]. exists w, []. rewrite app_nil_r. split_and!; [done|done|by apply replays_same].
  - assert (Hro1 : read_only (flags c1) = false).
    { destruct (read_only (flags c1)) eqn:E1; [|done]. by rewrite (op_read_only _ _ Hok E1) in Hro. }
    destruct (IH Hro1) as (Hcfg & w1 & rs1 & Hw1 & Hl1 & Hrep1).
    destruct (op_logged op c1 Hok) with (w := w1) (o := o ++ rs1) as (Hcfg2 & w2 & rs2 & Hw2 & Hl2 & Hrep2);
      [intros cfg; rewrite Hcfg; apply Hvec|by rewrite Hw1|done|done|done|by apply Hroom|].
    split; [congruence|]. exists w2, (rs1 ++ rs2). rewrite (assoc_L (++)).
    split_and!; [done|done|by eapply replays_trans].
Qed.

(** C2: recovery reproduces the stores.  Take a server with a working log and
    any run of requests - writes, queries, AUTH, DEBUG, malformed ones, on any
    connections and past any gate - and decay maintenance that leaves it
    writable.  The log has then gained records, and replaying exactly those on
    any server restored to the starting point - at other clock readings, with
    other caches and search indexes, its own log not yet published - succeeds
    and restores the vector and metadata stores exactly; the event store and the
    co-occurrence index too, counters and access order included, when no
    deduplication cache is configured.  Vectors must be logged
    ([include_vectors]), numbers fit their fields and each segment has room for
    the next. *)
Theorem replay_reproduces c c' w o :
  live c c' → read_only (flags c') = false → logs_vectors c → wal c = Some w → log_records w o →
  ∃ w' rs, wal c' = Some w' ∧ log_records w' (o ++ rs) ∧
    ∀ at_ r, (∀ rec, steady (at_ rec)) → restored c r →
      ∃ r', ReplayAll at_ rs r = (Ok tt, r') ∧ restored c' r'.
Proof. intros Hlive Hro Hvec Hw Hl. by apply (live_replays c c' w o). Qed.

(** C3: write-ahead logging.  A write command either is refused before it
    touches anything; or the log refuses its record, and then the only changes
    are in the log and the server turning read-only; or it is acknowledged, and
    then its checks passed, the log took exactly one record of the resolved
    command (none without a log, or for a VECSET with vectors left out), and the
    stores changed by exactly the command's effect; or, an EVENT only, the
    preview found a duplicate, nothing is logged, and the event store alone
    counts it - with an error and a read-only server in the one case that the
    commit, under its own clock, no longer finds the duplicate.  In particular
    what the log has taken is always applied. *)
Theorem write_ahead at_ cmd c :
  IsSnapshotProtectedWrite (c_type cmd) = true → dated at_ cmd → in_order at_ cmd →
  write_outcome at_ cmd c (HandleWrite at_ cmd c).
Proof.
  intros Hw Hd Ho. destruct (HandleWrite_outcome at_ cmd c Hw Hd) as [?|[_ Hn]]; [done|].
  by destruct Hn.
Qed.
End live.

(** ** Concrete runs *)

Module Examples.
#[local] Existing Instance tree_order.
#[local] Existing Instance CoOccurrence.exp2_table.
#[local] Existing Instance Distance.Scalar.
#[local] Existing Instance FilterParser.strtod_table.
#[local] Existing Instance SimilarityCache.Examples.lp64.
#[local] Existing Instance ResultCompressor.stored.

(** A server without a search index, and a log that is a list. *)
#[local] Instance no_engine : Engine unit :=
  {| NotifyVectorAdded := λ _ _ e, e; NotifyVectorRemoved := λ _ e, e; RebuildAnnFromStore := λ _ e, e;
     SearchByIdEvents := λ _ _ _ _ _, Ok []; SearchByIdVectors := λ _ _ _ _ _, Ok [];
     SearchByIdFusion := λ _ _ _ _ _ _, Ok []; SearchByVector := λ _ _ _ _ _, Ok [] |}.

Definition list_append (op : WalOpType) (payload : list byte) (now : Z) (w : list WalRecord)
    : Expected Z * list WalRecord :=
  let seq := Z.of_nat (length w) + 1 in (Ok seq, w ++ [MkRecord seq (u64 now) op payload]).

#[local] Instance list_log : AppendLog (list WalRecord).
Proof.
  refine {| log_append := list_append; log_records := λ w o, w = o; log_room := λ _, True |}.
  intros w o op payload now seq w' -> _ _. unfold list_append. by intros [= <- <-].
Defined.

#[local] Instance no_syntax : CommandSyntax := {| ParseCommand := λ _ _, throw kCommandParseError "no parser" |}.
#[local] Instance no_admin : AdminHandlers unit (list WalRecord) :=
  {| handle_admin := λ _ c, (throw kCommandUnknown "no handler", c) |}.

Abbreviation Server := (HandlerContext unit (list WalRecord)).

Definition options : CoOccurrence.IngestOptions := CoOccurrence.MkIngestOptions false 0 false 0.
(** [dedup]: the size of the deduplication caches. *)
Definition fresh (vectors : bool) (dedup : Z) (log : option (list WalRecord)) : Server :=
  MkCtx (MkStores (Some (EventStore.new_store (EventStore.MkEventsConfig 8 4 60 dedup)))
           (Some (CoOccurrence.new_index CoOccurrence.unlimited)) (Some VectorStore.new) (Some ∅))
    None None (MkGens 0 0 0) (MkFlags false false (λ _, 0)) log (Some (MkServerConfig 1000 vectors options)) "".

Definition conn : ConnectionContext := MkConn false false.
Definition readings (n : Z) : Readings := MkReadings (EventStore.MkClock 1700000000 n) (EventStore.MkClock 1700000000 n) 5.
Definition env0 : SimilarityCache.InsertEnv := SimilarityCache.MkEnv 0 0 0.
Definition request_readings (n : Z) : RequestReadings := MkRequestReadings (readings n) (MkQueryReadings 0 0 0 env0) [].
Definition request (cmd : Command) : LiveOp := Request (request_readings 7) cmd conn.
Definition run (ops : list LiveOp) (c : Server) : Server := fold_left (λ c o, run_op o c) ops c.

Definition half : Z := 0x3FE0000000000000.
Definition session : list LiveOp :=
  [request (vecset_command "a" 2 [f32_of_Z 3; f32_of_Z 4] None);
   request (metaset_command "a" "color:red" None);
   request (event_command "user" "x" 10 ADD None);
   request (command kSim);
   request (event_command "user" "y" 20 SET None);
   Maintain 9 (λ _, Ok tt) half true;
   request (event_command "user" "x" 0 DEL (Some 1700000001));
   request (vecdel_command "a")].

Definition session_log : list WalRecord := default [] (wal (run session (fresh true 0 (Some [])))).

Lemma live_run ops c c' : Forall op_ok ops → live c c' → live c (run ops c').
Proof.
  intros HF. revert c'. induction HF as [|o ops Ho _ IH]; intros c' Hc; [done|].
  apply IH, live_step; [done|done|done].
Qed.

Lemma wall_readings n : 0 < wall (at_prepare (r_write (request_readings n))) < 2 ^ 64.
Proof. split; vm_compute; reflexivity. Qed.

Lemma request_ok cmd :
  is_admin (c_type cmd) = false → (IsSnapshotProtectedWrite (c_type cmd) = true → WalCodec.encodable cmd) →
  op_ok (request cmd).
Proof. intros Ha Hw. split; [done|]. intros Hp. split; [by apply Hw|apply wall_readings]. Qed.

(** The bounds of a concrete command. *)
Ltac fits := intros _; repeat split; vm_compute; (reflexivity || discriminate).

Lemma session_ok : Forall op_ok session.
Proof.
  repeat apply Forall_cons_2; try apply Forall_nil_2; try (apply request_ok; [reflexivity|]).
  2-3, 5, 7-8: fits.
  - intros _. split_and!; [by vm_compute..| |done]. repeat apply Forall_cons_2; [by vm_compute..|apply Forall_nil_2].
  - discriminate.
  - split_and!; vm_compute; try reflexivity. split; [discriminate|reflexivity].
Qed.

Lemma session_live : live (fresh true 0 (Some [])) (run session (fresh true 0 (Some []))).
Proof. apply live_run; [exact session_ok|apply live_here]. Qed.

Lemma steady_readings rec : steady ((λ _ : WalRecord, readings 3) rec).
Proof. reflexivity. Qed.

Lemma fresh_restored : restored (fresh true 0 (Some [])) (fresh true 0 None).
Proof. split; [reflexivity|done|done]. Qed.

Lemma replay_reproduces_witness :
  ∃ r', ReplayAll (λ _, readings 3) session_log (fresh true 0 None) = (Ok tt, r') ∧
    restored (run session (fresh true 0 (Some []))) r'.
Proof.
  destruct (replay_reproduces (fresh true 0 (Some [])) (run session (fresh true 0 (Some []))) [] []
    session_live ltac:(vm_compute; reflexivity) ltac:(intros cfg; cbn; intros [= <-]; reflexivity) eq_refl eq_refl)
    as (w' & rs & Hw & Hl & Hrep).
  assert (Hrs : rs = session_log).
  { unfold session_log. rewrite Hw. symmetry. exact Hl. }
  rewrite <- Hrs. exact (Hrep (λ _, readings 3) (fresh true 0 None) steady_readings fresh_restored).
Defined.

Example session_logs_seven : length session_log = 7%nat.
Proof. vm_compute. reflexivity. Qed.

Lemma write_ahead_witness :
  write_outcome (readings 7) (event_command "user" "x" 10 ADD None) (fresh true 4 (Some []))
    (HandleWrite (readings 7) (event_command "user" "x" 10 ADD None) (fresh true 4 (Some []))).
Proof.
  apply (write_ahead (readings 7) (event_command "user" "x" 10 ADD None) (fresh true 4 (Some [])));
    [reflexivity|intros _; vm_compute; discriminate|intros _; vm_compute; discriminate].
Defined.

Lemma dispatch_gates_witness :
  let locked := MkCtx (stores (fresh true 0 None)) None None (MkGens 0 0 0) (MkFlags false false (λ _, 0)) None None "secret" in
  let wrong := MkCommand kAuth "" "" 0 ADD 100 "fusion" None None "" None f32_zero 0 [] "" "" "secre" "" in
  authenticated (DispatchCommand (E := unit) (W := list WalRecord) (request_readings 7) wrong conn locked).1.2 = false ∧
  refused_reply (DispatchCommand (E := unit) (W := list WalRecord) (request_readings 7) (vecdel_command "a") conn locked).1.1.
Proof.
  intros locked wrong. assert (Hadm : ∀ cmd (c : Server), GetCommandPrivilege (c_type cmd) = kRead →
    kept (handle_admin cmd c).2 = kept c) by reflexivity.
  pose proof (dispatch_gates (request_readings 7) wrong conn locked Hadm) as H1.
  pose proof (dispatch_gates (request_readings 7) (vecdel_command "a") conn locked Hadm) as H2.
  destruct (DispatchCommand (request_readings 7) wrong conn locked) as [[r1 conn1] c1].
  destruct (DispatchCommand (request_readings 7) (vecdel_command "a") conn locked) as [[r2 conn2] c2].
  split.
  - destruct H1 as (H1 & _). cbn [fst snd]. destruct (authenticated conn1); [|reflexivity].
    destruct (H1 eq_refl) as [?|(_ & ? & _)]; discriminate.
  - destruct H2 as (_ & _ & H2). cbn [fst]. apply H2; [discriminate|]. left. split; [discriminate|reflexivity].
Defined.

Lemma auth_line_witness :
  let locked := MkCtx (stores (fresh true 0 None)) None None (MkGens 0 0 0) (MkFlags false false (λ _, 0)) None None " se cret" in
  let request pw := Dispatch (E := unit) (W := list WalRecord) (syntax := CommandParser.parser (libc := CommandParser.Examples.table_stof))
    (request_readings 7) ("AUTH " +:+ pw +:+ CRLF) conn locked in
  authenticated (request " se cret").1.2 = true ∧ authenticated (request "se cret").1.2 = false.
Proof.
  intros locked request. unfold request.
  assert (Hok : CommandParser.password_ok " se cret" ∧ CommandParser.password_ok "se cret")
    by (repeat split; (discriminate || reflexivity)).
  rewrite !(CommandParser.auth_line (libc := CommandParser.Examples.table_stof)) by (apply Hok || discriminate).
  split; reflexivity.
Defined.

Definition log_of (c : Server) : list WalRecord := default [] (wal c).
Definition events_of (ctx : string) (c : Server) : list Event :=
  match event_store (stores c) with Some es => EventStore.GetEvents ctx es | None => [] end.

(** With vectors left out of the log, an acknowledged METASET of a logged-out
    vector makes the log unreplayable. *)
Example unlogged_vector_blocks_replay :
  let c := run [request (vecset_command "a" 2 [f32_of_Z 3; f32_of_Z 4] None);
                request (metaset_command "a" "color:red" None)] (fresh false 0 (Some [])) in
  read_only (flags c) = false ∧ length (log_of c) = 1%nat ∧
  (ReplayAll (λ _, readings 3) (log_of c) (fresh false 0 None)).1 =
    throw kVectorNotFound "Vector not found for metadata: a".
Proof. vm_compute. auto. Qed.

(** A decay factor of 0 is logged and applied live, and refused in replay. *)
Example zero_alpha_blocks_replay :
  let c := run [Maintain 9 (λ _, Ok tt) 0 false] (fresh true 0 (Some [])) in
  read_only (flags c) = false ∧ length (log_of c) = 1%nat ∧
  (ReplayAll (λ _, readings 3) (log_of c) (fresh true 0 None)).1 =
    throw kWalCorrupted "Invalid co-occurrence maintenance WAL payload".
Proof. vm_compute. auto. Qed.

(** An ADD older than its predecessor and arriving after the window is accepted
    and logged; replay, where both arrive together, drops it as a duplicate. *)
Example replay_drops_event :
  let add n ts := Request (request_readings n) (event_command "user" "x" 10 ADD (Some ts)) conn in
  let c := run [add 0 1000; add 61000000000 500] (fresh true 4 (Some [])) in
  read_only (flags c) = false ∧ length (log_of c) = 2%nat ∧ length (events_of "user" c) = 2%nat ∧
  let '(r, c') := ReplayAll (λ _, readings 3) (log_of c) (fresh true 4 None) in
  r = Ok tt ∧ length (events_of "user" c') = 1%nat.
Proof. vm_compute. auto 6. Qed.

(** A duplicate whose window closes between preview and commit is stored
    without being logged, fails, and stops all writes. *)
Example expiring_duplicate_stops_writes :
  let add ts rd := HandleEvent rd (event_command "user" "x" 10 ADD (Some ts)) in
  let at_ n m := MkReadings (EventStore.MkClock 1700000000 n) (EventStore.MkClock 1700000000 m) 5 in
  let c := (add 1000 (at_ 0 0) (fresh true 4 (Some []))).2 in
  let '(r, c') := add 500 (at_ 60000000000 60000000001) c in
  r = throw kInternalError "Event dedup state changed during acceptance" ∧ read_only (flags c') = true ∧
  length (log_of c') = 1%nat ∧ length (events_of "user" c') = 2%nat.
Proof. vm_compute. auto. Qed.

(** METASET reads a filter text: the operator and a value list are dropped. *)
Example metaset_ignores_operators :
  metaset_value (metaset_command "a" "price>5" None) = metaset_value (metaset_command "a" "price=5" None) ∧
  metaset_value (metaset_command "a" "color:in(red|blue)" None) = Ok {[ "color" := Metadata.MString "" ]}.
Proof. vm_compute. auto. Qed.
End Examples.
