(* ===== verification/CrashRecovery.v ===== *)
(** * Recovery after a crash: the dispatcher on the write-ahead log

    [Wal] as the log of [Dispatcher], and the startup of src/server/nvecd_server.cpp
    from a checkpointed snapshot on: [Open], then [Replay] through
    [ReplayRecord] before the log is published. *)

From S2P Require Import Prelude EventStore Floats CoOccurrence Wal WalRecovery WalTheorems Metadata FilterParser Command WalCodec.
From S2P Require Import Distance VectorStore SimilarityResult ResultCompressor SimilarityCache Dispatcher Durability.
#[local] Open Scope Z_scope.

(** ** The write-ahead log as the dispatcher's log *)

Section log.
Context {order : IterOrder} {zlib : Zlib}.

(** The records above the checkpoint [k], one per sequence number from [k + 1]
    to the current one. *)
Definition holds (k : Z) (s : Wal.State) (rs : list WalRecord) : Prop :=
  ∃ segs, wal_rep s segs ∧ above k (log segs) = rs ∧ sequence <$> rs = seqZ (k + 1) (Z.of_nat (length rs)) ∧
    current_sequence_ (Wal.wal s) = k + Z.of_nat (length rs).

Lemma holds_append k op payload now s seq s' rs :
  holds k s rs → segment_range (current_file_number_ (Wal.wal s) + 1) → op_of_byte (op_byte op) = op →
  Append op payload now s = (Ok seq, s') → holds k s' (rs ++ [MkRecord seq (u64 now) op payload]).
Proof.
  intros (segs & Hrep & Hab & Hseq & Hcur) Hroom Hop Happ.
  pose proof (Append_inv _ _ _ _ _ _ _ Happ Hrep Hop Hroom) as [-> (segs' & Hrep' & Hlog)].
  exists segs'. split; [done|]. cbn [sequence] in *. rewrite Hlog, above_app, Hab, Hcur.
  rewrite fmap_app, Hseq, length_app, Nat.add_1_r. cbn [length fmap list_fmap sequence].
  split_and!.
  - f_equal. unfold above. by rewrite filter_cons_True by (cbn; lia).
  - rewrite seqZ_S. do 2 f_equal. lia.
  - destruct (rep_sequence _ _ Hrep') as [_ [Hnil|<-]]; rewrite Hlog in *; [by destruct (log segs)|].
    unfold last_seq. rewrite last_snoc. cbn. lia.
Qed.

(** A log at its checkpoint. *)
Lemma holds_checkpoint s segs : wal_rep s segs → holds (current_sequence_ (Wal.wal s)) s [].
Proof.
  intros Hrep. exists segs. split; [done|]. split_and!; [|done|cbn; lia]. unfold above. apply filter_none.
  intros x Hx Hlt. pose proof (rep_records _ _ Hrep) as Hok.
  destruct (rep_sequence _ _ Hrep) as [_ [Hnil|Hlast]]; [rewrite Hnil in Hx; by apply not_elem_of_nil in Hx|].
  pose proof (last_seq_upper _ _ x (rep_contiguous _ _ Hrep) (records_positive _ Hok) Hx). lia.
Qed.

Definition wal_log (k : Z) : AppendLog Wal.State :=
  {| log_append := λ op payload now s, Append op payload now s;
     log_records := holds k;
     log_room := λ s, segment_range (current_file_number_ (Wal.wal s) + 1);
     log_append_ok := λ s rs op payload now seq s' H Hr Hop Ha, holds_append k op payload now s seq s' rs H Hr Hop Ha |}.

(** ** The crash *)

(** A new process on the directory the log of [s] was in, a torn write possibly
    at the end of its last segment. *)
Record crash_image (s s2 : Wal.State) : Prop := {
  ci_quiet : quiet s2;
  ci_disk : ∃ t, torn t ∧
    disk s2 = alter (λ bs, bs ++ t) (MakeFilePath (current_file_number_ (Wal.wal s))) (disk s)
}.

Lemma crash_image_crashed s s2 segs :
  wal_rep s segs → Forall (λ n, n + 1 < 1000000) segs.*1 → crash_image s s2 → ∃ t, crashed (disk s2) segs t.
Proof.
  intros [Hn Hd Hs Hok Hc _ (init & n & recs & Hsegs & _ & Hnum & _) _ _] Hroom [_ (t & Ht & Hdisk)].
  exists t. rewrite Hdisk, Hnum. subst segs. pose proof Hd as Hlast.
  apply on_disk_snoc in Hlast as [Hinit Hlast]. rewrite app_nil_r in Hlast.
  split; try done.
  - apply on_disk_snoc. rewrite lookup_alter_eq, Hlast. split; [|done].
    eapply (on_disk_except (MakeFilePath n)); [|..|exact Hinit].
    + intros name Hne. by rewrite lookup_alter_ne.
    + intros m Hm Heq. destruct Hn as [HS HF]. rewrite fmap_app in HS, HF. apply Forall_app in HF as [HF1 HF2].
      apply Forall_cons in HF2 as [Hr _]. rewrite Forall_forall in HF1.
      apply MakeFilePath_inj in Heq as ->; [|by apply HF1|done].
      eapply StronglySorted_app_1_elem_of in HS; [|exact Hm|left]. cbn in HS. lia.
  - intros name m Hname [bs Hbs]. eapply Hs; [done|].
    destruct (decide (name = MakeFilePath n)) as [->|Hne]; [rewrite Hlast; by eexists|].
    rewrite lookup_alter_ne in Hbs by done. by eexists.
Qed.

(** ** The replay of the log *)

Lemma room_segments s segs :
  wal_rep s segs → segment_range (current_file_number_ (Wal.wal s) + 1) → Forall (λ n, n + 1 < 1000000) segs.*1.
Proof.
  intros [[HS _] _ _ _ _ _ (init & n & recs & -> & _ & Hnum & _) _ _] [_ Hroom]. rewrite Hnum in Hroom.
  rewrite fmap_app in *. apply Forall_app. split; [|by repeat constructor].
  apply Forall_forall. intros m Hm. eapply StronglySorted_app_1_elem_of in HS; [|exact Hm|left]. cbn in HS. lia.
Qed.

Section run.
Context {Acc : Type} (callback : WalRecord → Acc → Expected unit * Acc).

Lemma run_from_above k l acc :
  run_from callback (k + 1) l acc = run_from callback (k + 1) (above k l) acc.
Proof.
  revert acc. induction l as [|r l IH]; intros acc; [done|]. cbn [run_from].
  destruct (Z.ltb_spec (sequence r) (k + 1)) as [Hlt|Hge].
  - rewrite IH. unfold above. rewrite filter_cons_False by lia. done.
  - unfold above. rewrite filter_cons_True by lia. cbn [run_from].
    rewrite (proj2 (Z.ltb_ge _ _)) by lia. destruct (callback r acc) as [[u|e] acc']; [|done].
    by rewrite IH.
Qed.

Lemma run_from_zero l acc :
  Forall (λ r, 1 ≤ sequence r) l → run_from callback 0 l acc = run_from callback 1 l acc.
Proof.
  intros HF. revert acc. induction HF as [|r l Hr _ IH]; intros acc; [done|]. cbn [run_from].
  rewrite !(proj2 (Z.ltb_ge _ _)) by lia. destruct (callback r acc) as [[u|e] acc']; [|done]. by rewrite IH.
Qed.

Lemma seen_above k l r rs : above k l = r :: rs → sequence r = k + 1 → seen (k + 1) l = true.
Proof.
  intros Hab Hseq. unfold seen. apply existsb_exists. exists r. split; [|by apply Z.eqb_eq].
  assert (Hin : r ∈ above k l) by (rewrite Hab; left). by apply list_elem_of_filter, proj2, list_elem_of_In in Hin.
Qed.
End run.
End log.

(** ** Startup *)

Section startup.
Context {E : Type} {order : IterOrder} {zlib : Zlib} {engine : Engine E} {libm : Floats.Libm}
  {impl : Distance.DistanceFunctions} {libc : FilterParser.Strtod} {layout : SimilarityCache.Layout}
  {lz4 : ResultCompressor.Lz4} {syntax : CommandSyntax} {admin : AdminHandlers E Wal.State}.
Context (k : Z).
#[local] Existing Instance wal_log.
Abbreviation Server := (HandlerContext E Wal.State).
Implicit Types (c r : Server).

Definition RebuildAnn (c : Server) : Server :=
  match vector_store (stores c) with
  | Some vs => with_engine (RebuildAnnFromStore vs) c
  | None => c
  end.

(** From the loaded snapshot with its checkpoint: open the log, replay what is
    beyond the checkpoint, publish the log, rebuild the search index. *)
Definition RecoverWal (cfg : WalConfig) (checkpoint : Z) (at_ : WalRecord → Readings) (s : Wal.State) (c : Server)
    : Expected Z * Wal.State * Server :=
  match Open cfg (Ok tt) s with
  | (Unexpected e, s) => (Unexpected e, s, c)
  | (Ok _, s) =>
    let from := if checkpoint =? 0 then 0 else u64 (checkpoint + 1) in
    match ReplayValidated (λ rec, ReplayRecord (log := wal_log k) (at_ rec) rec) from s c with
    | (Unexpected e, c, s) => (Unexpected e, s, c)
    | (Ok n, c, s) => (Ok n, s, RebuildAnn (with_wal (Some s) c))
    end
  end.

Lemma run_from_all at_ from rs r r' :
  Forall (λ rec, from ≤ sequence rec) rs → ReplayAll (log := wal_log k) at_ rs r = (Ok tt, r') →
  run_from (λ rec, ReplayRecord (log := wal_log k) (at_ rec) rec) from rs r = (Ok (Z.of_nat (length rs)), r').
Proof.
  intros HF. revert r. induction HF as [|rec rs Hrec _ IH]; intros r; cbn [ReplayAll run_from].
  - unfold se_ret. by intros [= <-].
  - rewrite (proj2 (Z.ltb_ge _ _)) by done. unfold se_bind.
    destruct (ReplayRecord (at_ rec) rec r) as [[[]|e] r1]; [|done]. intros H. rewrite (IH _ H).
    do 2 f_equal. cbn [length]. lia.
Qed.

Lemma sequences_above rs :
  sequence <$> rs = seqZ (k + 1) (Z.of_nat (length rs)) → Forall (λ rec, k + 1 ≤ sequence rec) rs.
Proof.
  intros Hseq. apply Forall_forall. intros rec Hin.
  assert (H : sequence rec ∈ sequence <$> rs) by (by apply list_elem_of_fmap_2). rewrite Hseq in H.
  apply elem_of_seqZ in H. lia.
Qed.

(** The replay from the checkpoint on of a log that holds [rs] above it. *)
Lemma replay_above at_ s rs segs r r' :
  0 ≤ k < u64_max → quiet s → wal_rep s segs → above k (log segs) = rs →
  sequence <$> rs = seqZ (k + 1) (Z.of_nat (length rs)) → current_sequence_ (Wal.wal s) = last_seq (log segs) →
  ReplayAll (log := wal_log k) at_ rs r = (Ok tt, r') →
  ReplayValidated (λ rec, ReplayRecord (log := wal_log k) (at_ rec) rec) (if k =? 0 then 0 else u64 (k + 1)) s r =
    (Ok (Z.of_nat (length rs)), r', s).
Proof.
  intros Hk Hq Hrep Hab Hseq Hcur Hall.
  pose proof (sequences_above rs Hseq) as Hbound.
  assert (Hrun : run_from (λ rec, ReplayRecord (log := wal_log k) (at_ rec) rec) (if k =? 0 then 0 else u64 (k + 1))
    (log segs) r = (Ok (Z.of_nat (length rs)), r')).
  { assert (Hone : run_from (λ rec, ReplayRecord (log := wal_log k) (at_ rec) rec) (k + 1) (log segs) r =
      (Ok (Z.of_nat (length rs)), r')) by (rewrite run_from_above, Hab; by apply run_from_all).
    destruct (Z.eqb_spec k 0) as [->|Hne].
    - rewrite run_from_zero; [exact Hone|]. apply records_positive, Hrep.
    - unfold u64. rewrite wrap_small by (unfold in_u, u64_max in *; lia). exact Hone. }
  rewrite (ReplayValidated_open _ _ _ _ _ Hq Hrep). cbv zeta. rewrite Hrun. cbn [fst snd].
  assert (Hfloor : negb ((if k =? 0 then 0 else u64 (k + 1)) =? 0) && negb (seen (if k =? 0 then 0 else u64 (k + 1)) (log segs)) &&
    ((if k =? 0 then 0 else u64 (k + 1)) <=? current_sequence_ (Wal.wal s)) = false).
  { destruct (Z.eqb_spec k 0) as [->|Hne]; [done|]. unfold u64.
    rewrite wrap_small by (unfold in_u, u64_max in *; lia).
    destruct rs as [|rec rs].
    - apply andb_false_intro2, Z.leb_gt. rewrite Hcur.
      destruct (last (log segs)) as [x|] eqn:Hlast; unfold last_seq; rewrite Hlast; [|lia].
      destruct (decide (k < sequence x)) as [Hlt|]; [|lia]. exfalso.
      apply last_Some_elem_of in Hlast.
      assert (Hin : x ∈ above k (log segs)) by (by apply list_elem_of_filter). rewrite Hab in Hin.
      by apply not_elem_of_nil in Hin.
    - apply (f_equal head) in Hseq. cbn [length] in Hseq. rewrite seqZ_cons in Hseq by lia. cbn in Hseq.
      injection Hseq as Hseq. rewrite (seen_above k (log segs) rec rs Hab Hseq). by rewrite andb_false_r. }
  rewrite negb_orb, Hfloor. done.
Qed.

(** C1: recovery after a crash.  A server takes a snapshot when its log is at
    sequence [k], runs any requests and maintenance that leave it writable, and
    crashes: a new process finds the log's directory with a torn write possibly
    at the end.  Started from that snapshot, it opens the log, replays the
    records beyond the checkpoint - one per acknowledged write and maintenance,
    at any later clock readings - and succeeds; its vector and metadata stores
    then are those of the crashed server, its events and co-occurrences too
    without deduplication caches, and the log it publishes holds every record
    of the old one. *)
Theorem crash_recovery cfg s segs s' s2 c c' r0 at_ :
  Dispatcher.wal c = Some s → wal_rep s segs → k = current_sequence_ (Wal.wal s) → k < u64_max →
  live (log := wal_log k) c c' → read_only (flags c') = false → logs_vectors c →
  Dispatcher.wal c' = Some s' → segment_range (current_file_number_ (Wal.wal s') + 1) → crash_image s' s2 →
  restored c r0 → (∀ rec, steady (at_ rec)) →
  ∃ n s3 r', RecoverWal cfg k at_ s2 r0 = (Ok n, s3, r') ∧
    stores_agree (stores c') (stores r') ∧ config r' = config c' ∧ Dispatcher.wal r' = Some s3 ∧
    ∃ segs' segs3, wal_rep s' segs' ∧ wal_rep s3 segs3 ∧ log segs3 = log segs' ∧
      n = Z.of_nat (length (above k (log segs'))).
Proof.
  intros Hw Hrep Hk Hmax Hlive Hro Hvec Hw' Hroom Himg Hr0 Hst.
  assert (Hk0 : 0 ≤ k < u64_max).
  { destruct (rep_sequence _ _ Hrep) as [[H0 _] _]. lia. }
  assert (Hhold : log_records (AppendLog := wal_log k) s []) by (rewrite Hk; by eapply holds_checkpoint).
  destruct (live_replays c c' s [] Hlive Hro Hvec Hw Hhold) as (_ & s'' & rs & Hs'' & Hlog & Hrep').
  rewrite Hw' in Hs''. injection Hs'' as <-. cbn [app] in Hlog.
  destruct Hlog as (segs' & Hrep'' & Hab & Hseq & _).
  destruct (crash_image_crashed s' s2 segs' Hrep'' (room_segments _ _ Hrep'' Hroom) Himg) as (t & Hcr).
  destruct (Open_crashed cfg s2 segs' t (ci_quiet _ _ Himg) Hcr) as (s3 & num & Hopen & Hq3 & Hrep3 & Hlog3 & Hcur3).
  destruct (Hrep' at_ r0 Hst Hr0) as (r' & Hall & [Hag Hcfg Hnone]).
  exists (Z.of_nat (length rs)), s3, (RebuildAnn (with_wal (Some s3) r')).
  assert (Hrebuild : ∀ c, stores (RebuildAnn c) = stores c ∧ config (RebuildAnn c) = config c ∧
    Dispatcher.wal (RebuildAnn c) = Dispatcher.wal c) by (intros c1; unfold RebuildAnn; by case_match).
  destruct (Hrebuild (with_wal (Some s3) r')) as (Hr1 & Hr2 & Hr3). rewrite Hr1, Hr2, Hr3.
  split_and!; [|done|done|done|].
  - unfold RecoverWal. rewrite Hopen.
    rewrite (replay_above at_ s3 rs _ r0 r' Hk0 Hq3 Hrep3); [done|by rewrite Hlog3|done|by rewrite Hlog3|done].
  - exists segs', (nonempty segs' ++ [(num, [])]). by rewrite Hab.
Qed.
End startup.

(** ** A crash with a torn write *)

Module Crash.
Import Durability.Examples.
#[local] Existing Instance tree_order.
#[local] Existing Instance zlib_ieee.
#[local] Existing Instance CoOccurrence.exp2_table.
#[local] Existing Instance Distance.Scalar.
#[local] Existing Instance FilterParser.strtod_table.
#[local] Existing Instance SimilarityCache.Examples.lp64.
#[local] Existing Instance ResultCompressor.stored.
#[local] Existing Instance no_engine.
#[local] Existing Instance no_syntax.
#[local] Instance no_wal_admin : AdminHandlers unit Wal.State :=
  {| handle_admin := λ _ c, (throw kCommandUnknown "no handler", c) |}.
#[local] Instance log0 : AppendLog Wal.State := wal_log 0.

(** Segments of at most 100 bytes, so the log rotates. *)
Definition small : WalConfig := MkWalConfig 100 true 0.
Definition first_log : Wal.State := (Open small (Ok tt) (MkState new_wal (MkWorld ∅ []))).2.

Definition server (log : option Wal.State) : HandlerContext unit Wal.State :=
  MkCtx (stores (fresh true 0 None)) None None (MkGens 0 0 0) (MkFlags false false (λ _, 0)) log (config (fresh true 0 None)) "".
Definition run_wal (ops : list LiveOp) (c : HandlerContext unit Wal.State) : HandlerContext unit Wal.State :=
  fold_left (λ c o, run_op o c) ops c.
Definition before : HandlerContext unit Wal.State := run_wal session (server (Some first_log)).
Definition last_log : Wal.State := default first_log (Dispatcher.wal before).

(** The directory as the new process finds it: 11 bytes of a record in flight. *)
Definition torn_log : Wal.State :=
  MkState new_wal (MkWorld (alter (λ bs, bs ++ take 11 (encode_record record2))
    (MakeFilePath (current_file_number_ (Wal.wal last_log))) (disk last_log)) []).

Fixpoint rooms (ops : list LiveOp) (c : HandlerContext unit Wal.State) : bool :=
  match ops with
  | [] => true
  | o :: ops =>
    match Dispatcher.wal c with
    | Some w => bool_decide (0 ≤ current_file_number_ (Wal.wal w) + 1 < 1000000)
    | None => true
    end && rooms ops (run_op o c)
  end.

Lemma rooms_live ops c c' : Forall op_ok ops → rooms ops c' = true → live c c' → live c (run_wal ops c').
Proof.
  intros HF. revert c'. induction HF as [|o ops Ho _ IH]; intros c' Hr Hc; [done|].
  cbn [rooms] in Hr. apply andb_true_iff in Hr as [Hr1 Hr2]. apply IH; [done|]. apply live_step; [done|done|].
  intros w Hw. rewrite Hw in Hr1. by apply bool_decide_eq_true in Hr1.
Qed.

Lemma first_log_rep : ∃ segs, wal_rep first_log segs.
Proof.
  destruct (Open_crashed small (MkState new_wal (MkWorld ∅ [])) [] [] eq_refl) as (s' & n & H & _ & Hrep & _).
  - split; try done; [split; constructor|apply torn_nil|].
    by intros name n' _ [bs Hbs].
  - exists (nonempty [] ++ [(n, [])]). unfold first_log. by rewrite H.
Qed.

Lemma before_live : live (server (Some first_log)) before.
Proof. apply rooms_live; [exact session_ok|vm_compute; reflexivity|apply live_here]. Qed.

Lemma torn_log_image : crash_image last_log torn_log.
Proof.
  split; [reflexivity|]. exists (take 11 (encode_record record2)). split; [|reflexivity].
  exists record2. split_and!; [apply record2_ok|apply prefix_take|vm_compute; congruence].
Qed.

Lemma server_restored : restored (server (Some first_log)) (server None).
Proof. split; [reflexivity|done|done]. Qed.

Lemma crash_recovery_witness :
  ∃ n s3 r', RecoverWal 0 small 0 (λ _, readings 3) torn_log (server None) = (Ok n, s3, r') ∧
    stores_agree (stores before) (stores r').
Proof.
  destruct first_log_rep as [segs Hrep].
  destruct (crash_recovery 0 small first_log segs last_log torn_log (server (Some first_log)) before (server None)
    (λ _, readings 3) eq_refl Hrep ltac:(vm_compute; reflexivity) ltac:(vm_compute; reflexivity) before_live
    ltac:(vm_compute; reflexivity) ltac:(intros cfg; cbn; intros [= <-]; reflexivity)
    ltac:(vm_compute; reflexivity) ltac:(vm_compute; split; [discriminate|reflexivity]) torn_log_image
    server_restored (λ _, eq_refl))
    as (n & s3 & r' & H1 & H2 & _).
  exists n, s3, r'. split; [exact H1|exact H2].
Defined.

Example log_rotated : (1 < current_file_number_ (Wal.wal last_log)) ∧
  (RecoverWal 0 small 0 (λ _, readings 3) torn_log (server None)).1.1 = Ok 7.
Proof. vm_compute. auto. Qed.
End Crash.
